(** * Distributed workflow orchestrator: a shallow embedding and its properties

    The development follows the Go sources of the repository:

    - [Balancer]: orchestrator/loadbalancer.go
    - [DagEngine]: dagengine/engine.go, dagengine/node.go,
      dagengine/executor.go
    - [Engine]: the engine service (package engine)
    - [Versions]: the version manager
    - [Workflows]: orchestrator/workflow_manager.go
    - [Coordinator]: the sub-workflow coordinator
    - [Dispatcher]: the dispatcher [OrchestratorV2], orchestrator/config.go
      and the transport types it uses

    Go's [int] and [int64] are modelled as [Z] with the two's complement
    wrap-around written out ([wrap_int]); Go maps are [gmap]s; Go strings are
    [string]s; [error] values are the message strings built by [fmt.Errorf]. *)

From Stdlib Require Import ZArith NArith Ascii String Lia.
From stdpp Require Import gmap strings list fin_maps pretty.

Open Scope string_scope.
Open Scope Z_scope.

(** ** Machine integers and errors *)

(** Go's [int] on the 64-bit targets the project builds for, and [int64]. *)
Definition int_min : Z := - 2 ^ 63.
Definition int_max : Z := 2 ^ 63 - 1.

(** The value an arithmetic result is reduced to when stored in an [int]. *)
Definition wrap_int (z : Z) : Z := (z + 2 ^ 63) mod 2 ^ 64 - 2 ^ 63.

(** [error] is the interface value; [nil] is [None]. *)
Definition error : Type := option string.

(** [fmt.Sprintf("%d", z)] for an integer. *)
Definition fmt_d (z : Z) : string := pretty z.

(** Whether a string contains the separator of execution ids. *)
Fixpoint has_dash (s : string) : bool :=
  match s with
  | EmptyString => false
  | String a rest => bool_decide (a = "-"%char) || has_dash rest
  end.

(** A call either returns or panics (a failed type assertion, an index out
    of range, a nil dereference). *)
Inductive outcome (A : Type) : Type :=
| Return (a : A)
| Panic (msg : string).
Arguments Return {A} a.
Arguments Panic {A} msg.

Definition panicked {A} (o : outcome A) : bool :=
  match o with
  | Panic _ => true
  | Return _ => false
  end.

(** [interface{}] values as far as the code inspects them. *)
Inductive any : Type :=
| AnyNil
| AnyString (s : string)
| AnyInt (z : Z)
| AnyBool (b : bool).

(** ** orchestrator/loadbalancer.go *)

Module Balancer.

(** [ConsistentHashLoadBalancer]. The hash ring belongs to an external
    library; only its set of members is kept here. *)
Record ConsistentHashLoadBalancer := mkCH {
  hashRing : gset string;
  capacities : gmap string Z;
  activeWorkflows : gmap string Z
}.

Definition NewConsistentHashLoadBalancer (virtualNodes : Z)
  : ConsistentHashLoadBalancer :=
  mkCH ∅ ∅ ∅.

Definition AddEngine (lb : ConsistentHashLoadBalancer) (engineID : string)
    (capacity : Z) : error * ConsistentHashLoadBalancer :=
  (None,
   mkCH ({[engineID]} ∪ hashRing lb)
        (<[engineID := capacity]> (capacities lb))
        (<[engineID := 0]> (activeWorkflows lb))).

Definition RemoveEngine (lb : ConsistentHashLoadBalancer) (engineID : string)
  : error * ConsistentHashLoadBalancer :=
  (None,
   mkCH (hashRing lb ∖ {[engineID]})
        (delete engineID (capacities lb))
        (delete engineID (activeWorkflows lb))).

Definition GetEngineCapacity (lb : ConsistentHashLoadBalancer)
    (engineID : string) : Z * error :=
  match capacities lb !! engineID with
  | Some capacity => (capacity, None)
  | None => (0, Some ("engine " +:+ engineID +:+ " not found"))
  end.

Definition UpdateEngineCapacity (lb : ConsistentHashLoadBalancer)
    (engineID : string) (capacity : Z) : error * ConsistentHashLoadBalancer :=
  match capacities lb !! engineID with
  | None => (Some ("engine " +:+ engineID +:+ " not found"), lb)
  | Some _ =>
      (None,
       mkCH (hashRing lb) (<[engineID := capacity]> (capacities lb))
            (activeWorkflows lb))
  end.

(** [lb.activeWorkflows[engineID]]: a missing key reads as zero. *)
Definition GetActiveWorkflows (lb : ConsistentHashLoadBalancer)
    (engineID : string) : Z :=
  default 0 (activeWorkflows lb !! engineID).

(** [lb.activeWorkflows[engineID]++] *)
Definition IncrementActiveWorkflows (lb : ConsistentHashLoadBalancer)
    (engineID : string) : ConsistentHashLoadBalancer :=
  mkCH (hashRing lb) (capacities lb)
       (<[engineID := wrap_int (GetActiveWorkflows lb engineID + 1)]>
          (activeWorkflows lb)).

(** [if count := lb.activeWorkflows[engineID]; count > 0 { ...-- }] *)
Definition DecrementActiveWorkflows (lb : ConsistentHashLoadBalancer)
    (engineID : string) : ConsistentHashLoadBalancer :=
  if 0 <? GetActiveWorkflows lb engineID then
    mkCH (hashRing lb) (capacities lb)
         (<[engineID := wrap_int (GetActiveWorkflows lb engineID - 1)]>
            (activeWorkflows lb))
  else lb.

(** Every method holds [lb.mu] for its whole body, so a concurrent history
    is a sequence of calls. *)
Inductive call :=
| CallAddEngine (engineID : string) (capacity : Z)
| CallRemoveEngine (engineID : string)
| CallUpdateEngineCapacity (engineID : string) (capacity : Z)
| CallIncrement (engineID : string)
| CallDecrement (engineID : string).

Definition perform (lb : ConsistentHashLoadBalancer) (c : call)
  : ConsistentHashLoadBalancer :=
  match c with
  | CallAddEngine e k => (AddEngine lb e k).2
  | CallRemoveEngine e => (RemoveEngine lb e).2
  | CallUpdateEngineCapacity e k => (UpdateEngineCapacity lb e k).2
  | CallIncrement e => IncrementActiveWorkflows lb e
  | CallDecrement e => DecrementActiveWorkflows lb e
  end.

Definition history (cs : list call) (lb : ConsistentHashLoadBalancer)
  : ConsistentHashLoadBalancer :=
  foldl perform lb cs.

(** Every count lies between zero and [k]. *)
Definition counts_within (k : Z) (lb : ConsistentHashLoadBalancer) : Prop :=
  ∀ e, 0 ≤ GetActiveWorkflows lb e ≤ k.

(** [RoundRobinLoadBalancer] *)
Record RoundRobinLoadBalancer := mkRR {
  rr_engines : list string;
  rr_current : Z;
  rr_capacities : gmap string Z;
  rr_activeWorkflows : gmap string Z
}.

Definition NewRoundRobinLoadBalancer : RoundRobinLoadBalancer :=
  mkRR [] 0 ∅ ∅.

Definition rr_AddEngine (lb : RoundRobinLoadBalancer) (engineID : string)
    (capacity : Z) : error * RoundRobinLoadBalancer :=
  if bool_decide (engineID ∈ rr_engines lb) then
    (Some ("engine " +:+ engineID +:+ " already exists"), lb)
  else
    (None,
     mkRR (rr_engines lb ++ [engineID]) (rr_current lb)
          (<[engineID := capacity]> (rr_capacities lb))
          (<[engineID := 0]> (rr_activeWorkflows lb))).

(** [append(lb.engines[:i], lb.engines[i+1:]...)] at the first [i] whose
    entry is [engineID]. *)
Fixpoint remove_first (engineID : string) (engines : list string)
  : list string :=
  match engines with
  | [] => []
  | id :: rest =>
      if bool_decide (id = engineID) then rest
      else id :: remove_first engineID rest
  end.

Definition rr_RemoveEngine (lb : RoundRobinLoadBalancer) (engineID : string)
  : error * RoundRobinLoadBalancer :=
  if bool_decide (engineID ∈ rr_engines lb) then
    (None,
     mkRR (remove_first engineID (rr_engines lb)) (rr_current lb)
          (delete engineID (rr_capacities lb))
          (delete engineID (rr_activeWorkflows lb)))
  else (Some ("engine " +:+ engineID +:+ " not found"), lb).

Definition rr_UpdateEngineCapacity (lb : RoundRobinLoadBalancer)
    (engineID : string) (capacity : Z) : error * RoundRobinLoadBalancer :=
  match rr_capacities lb !! engineID with
  | None => (Some ("engine " +:+ engineID +:+ " not found"), lb)
  | Some _ =>
      (None,
       mkRR (rr_engines lb) (rr_current lb)
            (<[engineID := capacity]> (rr_capacities lb))
            (rr_activeWorkflows lb))
  end.

(** The loop of [SelectEngine]: [i] iterations remain and [cur] is
    [lb.current]. It yields the engine it returns, if it returns one, and
    the final [lb.current]; [lb.engines[lb.current]] panics out of range. *)
Fixpoint rr_select_loop (lb : RoundRobinLoadBalancer) (start cur : Z)
    (i : nat) : outcome (option string * Z) :=
  match i with
  | O => Return (None, cur)
  | S i' =>
      if (cur <? 0) || (Z.of_nat (length (rr_engines lb)) <=? cur) then
        Panic "index out of range"
      else
        match rr_engines lb !! Z.to_nat cur with
        | None => Panic "index out of range"
        | Some engineID =>
            let cur' := (cur + 1) `mod` Z.of_nat (length (rr_engines lb)) in
            let capacity := default 0 (rr_capacities lb !! engineID) in
            let active := default 0 (rr_activeWorkflows lb !! engineID) in
            if active <? capacity then Return (Some engineID, cur')
            else if cur' =? start then Return (Some engineID, cur')
            else rr_select_loop lb start cur' i'
        end
  end.

Definition rr_SelectEngine (lb : RoundRobinLoadBalancer) (key : string)
  : outcome (string * error) * RoundRobinLoadBalancer :=
  match rr_engines lb with
  | [] => (Return ("", Some "no engines available"), lb)
  | first :: _ =>
      match rr_select_loop lb (rr_current lb) (rr_current lb)
                           (length (rr_engines lb)) with
      | Panic msg => (Panic msg, lb)
      | Return (r, cur) =>
          (Return (default first r, None),
           mkRR (rr_engines lb) cur (rr_capacities lb)
                (rr_activeWorkflows lb))
      end
  end.

(** [ListEngines] of the consistent-hash balancer: the keys of
    [lb.capacities], in the order in which the range visits them. *)
Definition ListEngines (lb : ConsistentHashLoadBalancer) : list string :=
  (map_to_list (capacities lb)).*1.

(** [GetEngineCapacity] and [ListEngines] of the round-robin balancer. *)
Definition rr_GetEngineCapacity (lb : RoundRobinLoadBalancer)
    (engineID : string) : Z * error :=
  match rr_capacities lb !! engineID with
  | Some capacity => (capacity, None)
  | None => (0, Some ("engine " +:+ engineID +:+ " not found"))
  end.

Definition rr_ListEngines (lb : RoundRobinLoadBalancer) : list string :=
  rr_engines lb.

(** The methods of the round-robin balancer hold [lb.mu] for their whole
    body, so a concurrent history is a sequence of calls. A call of
    [SelectEngine] that panics releases the lock in its deferred unlock
    and has written nothing. *)
Inductive rr_call :=
| RRAddEngine (engineID : string) (capacity : Z)
| RRRemoveEngine (engineID : string)
| RRUpdateEngineCapacity (engineID : string) (capacity : Z)
| RRSelectEngine (key : string).

Definition rr_perform (lb : RoundRobinLoadBalancer) (c : rr_call)
  : RoundRobinLoadBalancer :=
  match c with
  | RRAddEngine e k => (rr_AddEngine lb e k).2
  | RRRemoveEngine e => (rr_RemoveEngine lb e).2
  | RRUpdateEngineCapacity e k => (rr_UpdateEngineCapacity lb e k).2
  | RRSelectEngine key => (rr_SelectEngine lb key).2
  end.

Definition rr_history (cs : list rr_call) (lb : RoundRobinLoadBalancer)
  : RoundRobinLoadBalancer :=
  foldl rr_perform lb cs.

Definition is_removal (c : rr_call) : bool :=
  match c with
  | RRRemoveEngine _ => true
  | _ => false
  end.

(** What successive calls of [SelectEngine] return, one call per key. *)
Fixpoint rr_selections (lb : RoundRobinLoadBalancer) (keys : list string)
  : list (outcome (string * error)) :=
  match keys with
  | [] => []
  | key :: rest =>
      let '(r, lb') := rr_SelectEngine lb key in r :: rr_selections lb' rest
  end.

(** [active < capacity], as [SelectEngine] reads the two maps. *)
Definition rr_has_room (lb : RoundRobinLoadBalancer) (engineID : string)
  : bool :=
  default 0 (rr_activeWorkflows lb !! engineID)
  <? default 0 (rr_capacities lb !! engineID).

(** The engine [k] places after position [start], around the slice. *)
Definition rr_at (lb : RoundRobinLoadBalancer) (start k : Z)
  : option string :=
  rr_engines lb
  !! Z.to_nat ((start + k) `mod` Z.of_nat (length (rr_engines lb))).

(** The slice and the two maps of a round-robin balancer name the same
    engines, each of them once. *)
Definition rr_tables_agree (lb : RoundRobinLoadBalancer) : Prop :=
  NoDup (rr_engines lb)
  ∧ (∀ e, e ∈ rr_engines lb ↔ is_Some (rr_capacities lb !! e))
  ∧ (∀ e, e ∈ rr_engines lb ↔ is_Some (rr_activeWorkflows lb !! e)).

(** The [LoadBalancer] interface value held by the orchestrator: a pointer
    to one of the two implementations. *)
Inductive LoadBalancer :=
| ConsistentHash (lb : ConsistentHashLoadBalancer)
| RoundRobin (lb : RoundRobinLoadBalancer).

(** The dynamic type of the interface value. *)
Definition is_round_robin (lb : LoadBalancer) : bool :=
  match lb with
  | RoundRobin _ => true
  | ConsistentHash _ => false
  end.

(** The single-value type assertion of the interface value to a pointer to
    [ConsistentHashLoadBalancer]. *)
Definition assertConsistentHash (lb : LoadBalancer)
  : outcome ConsistentHashLoadBalancer :=
  match lb with
  | ConsistentHash ch => Return ch
  | RoundRobin _ =>
      Panic "interface conversion: orchestrator.LoadBalancer is *orchestrator.RoundRobinLoadBalancer, not *orchestrator.ConsistentHashLoadBalancer"
  end.

End Balancer.

(** ** dagengine/engine.go, dagengine/node.go, dagengine/executor.go *)

Module DagEngine.

(** [context.Context], as far as an executor can observe it. *)
Record Context := mkContext { ctx_done : bool }.

(** The [Executor] interface. A task is executed at most once per run, so
    a function of its arguments covers every implementation. *)
Record Executor := mkExecutor {
  Execute : Context → option (gmap string any) → gmap string any * error
}.

(** [Node]. [mu_held] records whether the node's mutex is currently held
    across steps of the scheduler. *)
Record Node := mkNode {
  ID : string;
  Dependencies : list string;
  Task : Executor;
  Children : list string;
  Result : gmap string any;
  Status : string;
  ReadyCounter : Z;
  mu_held : bool
}.

Definition NewNode (id : string) (deps : list string) (task : Executor)
  : Node :=
  mkNode id deps task [] ∅ "PENDING" (Z.of_nat (length deps)) false.

Definition setChildren (cs : list string) (n : Node) : Node :=
  mkNode (ID n) (Dependencies n) (Task n) cs (Result n) (Status n)
         (ReadyCounter n) (mu_held n).

Definition setStatus (s : string) (n : Node) : Node :=
  mkNode (ID n) (Dependencies n) (Task n) (Children n) (Result n) s
         (ReadyCounter n) (mu_held n).

Definition setResult (r : gmap string any) (n : Node) : Node :=
  mkNode (ID n) (Dependencies n) (Task n) (Children n) r (Status n)
         (ReadyCounter n) (mu_held n).

Definition setReadyCounter (k : Z) (n : Node) : Node :=
  mkNode (ID n) (Dependencies n) (Task n) (Children n) (Result n) (Status n)
         k (mu_held n).

Definition setHeld (b : bool) (n : Node) : Node :=
  mkNode (ID n) (Dependencies n) (Task n) (Children n) (Result n) (Status n)
         (ReadyCounter n) b.

(** [DAGEngine]: the map from node id to node. The engine mutex and the
    wait group belong to the state of a run, below. *)
Record DAGEngine := mkDAGEngine { Nodes : gmap string Node }.

Definition NewDAGEngine : DAGEngine := mkDAGEngine ∅.

Definition AddNode (e : DAGEngine) (node : Node) : error * DAGEngine :=
  match Nodes e !! ID node with
  | Some _ =>
      (Some ("node with ID '" +:+ ID node +:+ "' already exists"), e)
  | None => (None, mkDAGEngine (<[ID node := node]> (Nodes e)))
  end.

(** The loop of [buildDAGEngineFromDefinition]: for every node of the
    definition, [NewNode] and [engine.AddNode(node)], whose error the
    caller drops. *)
Definition add_new (e : DAGEngine) (spec : string * list string * Executor)
  : DAGEngine :=
  (AddNode e (NewNode spec.1.1 spec.1.2 spec.2)).2.

Definition build (specs : list (string * list string * Executor))
  : DAGEngine :=
  foldl add_new NewDAGEngine specs.

(** *** PreprocessDAG *)

(** The inner loop, [for _, parentID := range childNode.Dependencies]. *)
Fixpoint linkParents (childID : string) (parents : list string)
    (nodes : gmap string Node) : error * gmap string Node :=
  match parents with
  | [] => (None, nodes)
  | parentID :: rest =>
      match nodes !! parentID with
      | None =>
          (Some ("dependency error: node '" +:+ childID +:+
                 "' depends on non-existent node '" +:+ parentID +:+ "'"),
           nodes)
      | Some parentNode =>
          linkParents childID rest
            (<[parentID :=
                 setChildren (Children parentNode ++ [childID]) parentNode]>
               nodes)
      end
  end.

(** The outer loop, [for childID, childNode := range e.Nodes]. Go leaves
    the order of a map range unspecified: [order] is the order in which
    this run of the loop visits the keys. *)
Fixpoint linkAll (order : list string) (nodes : gmap string Node)
  : error * gmap string Node :=
  match order with
  | [] => (None, nodes)
  | childID :: rest =>
      match nodes !! childID with
      | None => linkAll rest nodes
      | Some childNode =>
          match linkParents childID (Dependencies childNode) nodes with
          | (Some err, nodes') => (Some err, nodes')
          | (None, nodes') => linkAll rest nodes'
          end
      end
  end.

Definition PreprocessDAG_in (order : list string) (e : DAGEngine)
  : error * DAGEngine :=
  let '(err, nodes) := linkAll order (setChildren [] <$> Nodes e) in
  (err, mkDAGEngine nodes).

(** The keys of the node map in the order [map_to_list] lists them. *)
Definition keys (e : DAGEngine) : list string := (map_to_list (Nodes e)).*1.

(** [order] is a possible order of [range e.Nodes]. *)
Definition range_order (e : DAGEngine) (order : list string) : Prop :=
  order ≡ₚ keys e.

Definition PreprocessDAG (e : DAGEngine) : error * DAGEngine :=
  PreprocessDAG_in (keys e) e.

(** The dependency relation of a graph and its cycles. *)
Definition depends_on (e : DAGEngine) (child parent : string) : Prop :=
  ∃ n, Nodes e !! child = Some n ∧ parent ∈ Dependencies n.

Definition has_cycle (e : DAGEngine) : Prop :=
  ∃ id, tc (depends_on e) id id.

(** [dangling e]: some [dependencies[]] entry names a non-existent node. *)
Definition dangling (e : DAGEngine) : Prop :=
  ∃ child parent, depends_on e child parent ∧ Nodes e !! parent = None.

(** How often [k] occurs in [l]. *)
Fixpoint count (k : string) (l : list string) : nat :=
  match l with
  | [] => O
  | x :: rest => ((if bool_decide (x = k) then 1 else 0) + count k rest)%nat
  end.

(** The children list that the loops of [PreprocessDAG] build for the node
    [k] when they visit the nodes in [order] and [D c] is the dependency
    slice of [c]: [c] once for every occurrence of [k] in [D c]. *)
Definition kids (D : string → list string) (order : list string)
    (k : string) : list string :=
  c ← order; replicate (count k (D c)) c.

(** The dependency slice of a node of [e]. *)
Definition deps_of (e : DAGEngine) (c : string) : list string :=
  default [] (Dependencies <$> Nodes e !! c).

(** A graph on which [PreprocessDAG] has succeeded: no dependency
    dangles, and the children lists mirror the dependency slices. *)
Definition well_linked (e : DAGEngine) : Prop :=
  (∀ c n p, Nodes e !! c = Some n → p ∈ Dependencies n →
            is_Some (Nodes e !! p))
  ∧ (∀ p c np nc, Nodes e !! p = Some np → Nodes e !! c = Some nc →
                  count c (Children np) = count p (Dependencies nc))
  ∧ (∀ p np c, Nodes e !! p = Some np → c ∈ Children np →
               is_Some (Nodes e !! c)).

(** A graph none of whose nodes has been touched by a run. *)
Definition untouched (e : DAGEngine) : Prop :=
  ∀ id n, Nodes e !! id = Some n →
    Status n = "PENDING"
    ∧ ReadyCounter n = Z.of_nat (length (Dependencies n))
    ∧ mu_held n = false
    ∧ Z.of_nat (length (Dependencies n)) ≤ int_max.

(** *** Run, executeNode, triggerChildren *)

(** Where the goroutine [executeNode(ctx, n)] stands. *)
Inductive goroutine :=
| Spawned                       (* [go e.executeNode(ctx, n)] was issued *)
| Executing                     (* Status is RUNNING, in [n.Task.Execute] *)
| WaitingEngineLock             (* Status is COMPLETED, at [e.mu.Lock()] *)
| Triggering (rest : list string) (* in the loop of [triggerChildren] *)
| Exited.                       (* returned; [e.wg.Done()] has run *)

(** The state of one run of a graph. [engine_mu] is the holder of [e.mu],
    [wg] the counter of the wait group. *)
Record RunState := mkRunState {
  nodes : gmap string Node;
  routines : gmap string goroutine;
  engine_mu : option string;
  wg : Z;
  ctx : Context
}.

(** What taking one step of a goroutine leads to. *)
Inductive step_result :=
| Stepped (st : RunState)
| Disabled                  (* no such goroutine, or it is blocked on a lock *)
| SecondLaunch.             (* a node that has a goroutine is launched again *)

(** The roots: [len(node.Dependencies) == 0]. *)
Definition is_root (n : Node) : bool :=
  match Dependencies n with [] => true | _ => false end.

(** [Run] up to [e.wg.Wait()]: every root gets [e.wg.Add(1)] and a
    goroutine. The loop reads nothing a goroutine writes, so the roots are
    spawned in one step. *)
Definition Run_start (c : Context) (e : DAGEngine) : RunState :=
  let roots := filter (λ kv, is_root kv.2 = true) (Nodes e) in
  mkRunState (Nodes e) ((λ _, Spawned) <$> roots) None
             (Z.of_nat (size roots)) c.

(** [Run] after [e.wg.Wait()]: once the counter is zero, [return nil]. *)
Definition Run_result (st : RunState) : option error :=
  if wg st =? 0 then Some None else None.

Definition set_node (id : string) (n : Node) (st : RunState) : RunState :=
  mkRunState (<[id := n]> (nodes st)) (routines st) (engine_mu st) (wg st)
             (ctx st).

Definition set_routine (id : string) (g : goroutine) (st : RunState)
  : RunState :=
  mkRunState (nodes st) (<[id := g]> (routines st)) (engine_mu st) (wg st)
             (ctx st).

Definition set_engine_mu (h : option string) (st : RunState) : RunState :=
  mkRunState (nodes st) (routines st) h (wg st) (ctx st).

Definition wg_add (k : Z) (st : RunState) : RunState :=
  mkRunState (nodes st) (routines st) (engine_mu st) (wg st + k) (ctx st).

(** One iteration of the loop of [triggerChildren] run by the goroutine of
    [id], at the child [childID], with [rest] still to visit. *)
Definition trigger_child (id childID : string) (rest : list string)
    (st : RunState) : step_result :=
  match nodes st !! childID with
  | None => Stepped (set_routine id (Triggering rest) st)
  | Some childNode =>
      if mu_held childNode then Disabled
      else
        let counter := wrap_int (ReadyCounter childNode - 1) in
        let st1 := set_node childID (setReadyCounter counter childNode) st in
        if (counter =? 0) && bool_decide (Status childNode = "PENDING") then
          match routines st !! childID with
          | Some _ => SecondLaunch
          | None =>
              Stepped (set_routine id (Triggering rest)
                         (set_routine childID Spawned (wg_add 1 st1)))
          end
        else Stepped (set_routine id (Triggering rest) st1)
  end.

(** One step of the goroutine running [executeNode] on the node [id]. *)
Definition step (st : RunState) (id : string) : step_result :=
  match routines st !! id, nodes st !! id with
  | Some Spawned, Some n =>
      if mu_held n then Disabled
      else Stepped (set_routine id Executing
                      (set_node id (setStatus "RUNNING" n) st))
  | Some Executing, Some n =>
      if mu_held n then Disabled
      else
        match Execute (Task n) (ctx st) None with
        | (_, Some err) =>
            (* Status is FAILED; the function returns with [n.mu] locked *)
            Stepped (wg_add (-1)
                       (set_routine id Exited
                          (set_node id (setHeld true (setStatus "FAILED" n))
                             st)))
        | (result, None) =>
            Stepped (set_routine id WaitingEngineLock
                       (set_node id
                          (setResult result (setStatus "COMPLETED" n)) st))
        end
  | Some WaitingEngineLock, Some n =>
      match engine_mu st with
      | Some _ => Disabled
      | None =>
          Stepped (set_engine_mu (Some id)
                     (set_routine id (Triggering (Children n)) st))
      end
  | Some (Triggering (childID :: rest)), _ => trigger_child id childID rest st
  | Some (Triggering []), _ =>
      Stepped (wg_add (-1)
                 (set_routine id Exited (set_engine_mu None st)))
  | _, _ => Disabled
  end.

(** A schedule names, step by step, the goroutine that runs next. *)
Fixpoint exec (schedule : list string) (st : RunState) : step_result :=
  match schedule with
  | [] => Stepped st
  | id :: rest =>
      match step st id with
      | Stepped st' => exec rest st'
      | r => r
      end
  end.

Definition status_of (st : RunState) (id : string) : option string :=
  Status <$> nodes st !! id.

(** *** The invariant of a run *)

(** The decrements that a node [np] whose goroutine stands at [g] has
    still to deliver to the counter of [c]: all the occurrences of [c] in
    its children list until it has completed, those in the rest of the
    loop while it triggers, none once it has completed and left the loop. *)
Definition owed_by (np : Node) (g : option goroutine) (c : string) : nat :=
  match g with
  | Some (Triggering rest) => count c rest
  | Some Exited =>
      if bool_decide (Status np = "COMPLETED") then 0%nat
      else count c (Children np)
  | _ => count c (Children np)
  end.

Definition owed (st : RunState) (p c : string) : nat :=
  match nodes st !! p with
  | None => 0
  | Some np => owed_by np (routines st !! p) c
  end.

(** The status a node has at each point of its goroutine. *)
Definition routine_status (g : option goroutine) (n : Node) : Prop :=
  match g with
  | None | Some Spawned => Status n = "PENDING" ∧ mu_held n = false
  | Some Executing => Status n = "RUNNING" ∧ mu_held n = false
  | Some WaitingEngineLock | Some (Triggering _) =>
      Status n = "COMPLETED" ∧ mu_held n = false
  | Some Exited =>
      (Status n = "COMPLETED" ∧ mu_held n = false) ∨ Status n = "FAILED"
  end.

(** What every state of a run of the preprocessed graph [e] satisfies. *)
Record invariant (e : DAGEngine) (st : RunState) : Prop := mkInvariant {
  inv_shape : ∀ id,
    (λ n, (Dependencies n, Children n)) <$> nodes st !! id
    = (λ n, (Dependencies n, Children n)) <$> Nodes e !! id;
  inv_routine : ∀ id, is_Some (routines st !! id) → is_Some (nodes st !! id);
  inv_status : ∀ id n,
    nodes st !! id = Some n → routine_status (routines st !! id) n;
  inv_counter : ∀ c n,
    nodes st !! c = Some n →
    ReadyCounter n
    = Z.of_nat (sum_list_with (λ p, owed st p c)
                              (remove_dups (Dependencies n)));
  inv_bound : ∀ c n, nodes st !! c = Some n → ReadyCounter n ≤ int_max;
  inv_launched : ∀ c n,
    nodes st !! c = Some n → is_Some (routines st !! c) → ReadyCounter n = 0;
  inv_rest : ∀ p np rest c,
    routines st !! p = Some (Triggering rest) → nodes st !! p = Some np →
    c ∈ rest → c ∈ Children np
}.

(** The nodes of a graph as [buildDAGEngineFromDefinition] makes them:
    [NewNode] on an id and a dependency slice, added with [AddNode]. *)
Definition fresh_node (id : string) (n : Node) : Prop :=
  ∃ task, n = NewNode id (Dependencies n) task
          ∧ Z.of_nat (length (Dependencies n)) ≤ int_max.

Definition fresh_graph (e : DAGEngine) : Prop :=
  ∀ id n, Nodes e !! id = Some n → fresh_node id n.

(** *** The lock, the wait group and the length of a run *)

Definition exited (g : goroutine) : bool :=
  match g with
  | Exited => true
  | _ => false
  end.

(** The goroutines of a run that have not returned. *)
Definition live (st : RunState) : gmap string goroutine :=
  filter (λ kv, exited kv.2 = false) (routines st).

(** The engine lock is held by the goroutine that is in the loop of
    [triggerChildren], the wait group counts the goroutines that have not
    returned, and a node without a goroutine still waits for a
    dependency. *)
Record bookkeeping (st : RunState) : Prop := mkBookkeeping {
  bk_lock : ∀ id,
    engine_mu st = Some id
    ↔ ∃ rest, routines st !! id = Some (Triggering rest);
  bk_wg : wg st = Z.of_nat (size (live st));
  bk_waiting : ∀ c n,
    nodes st !! c = Some n → routines st !! c = None → 1 ≤ ReadyCounter n
}.

(** The steps the goroutine of a node has still to take, at most: one to
    set RUNNING, one for the task, one for the engine lock, one for every
    child and one to leave. *)
Definition remaining (en : Node) (g : option goroutine) : nat :=
  match g with
  | None | Some Spawned => 4 + length (Children en)
  | Some Executing => 3 + length (Children en)
  | Some WaitingEngineLock => 2 + length (Children en)
  | Some (Triggering rest) => 1 + length rest
  | Some Exited => 0
  end.

Definition remaining_of (e : DAGEngine) (st : RunState) (id : string)
  : nat :=
  match Nodes e !! id with
  | Some en => remaining en (routines st !! id)
  | None => 0
  end.

Definition steps_left (e : DAGEngine) (st : RunState) : nat :=
  sum_list_with (remaining_of e st) (keys e).

(** No run of the graph takes more steps than this. *)
Definition steps_bound (e : DAGEngine) : nat :=
  sum_list_with
    (λ id, match Nodes e !! id with
           | Some en => 4 + length (Children en)
           | None => 0
           end)%nat (keys e).

(** *** Tasks that do not return

    [Execute] gives what a task returns when it returns. A task need not
    return: [LuaExecutor.Execute] runs [DoString] and never reads [ctx].
    [hangs id] says that the task of the node [id] does not return; the
    goroutine of the node then stays in [n.Task.Execute] and takes no
    further step. *)
Definition step_in (hangs : string → bool) (st : RunState) (id : string)
  : step_result :=
  match routines st !! id with
  | Some Executing => if hangs id then Disabled else step st id
  | _ => step st id
  end.

Fixpoint exec_in (hangs : string → bool) (schedule : list string)
    (st : RunState) : step_result :=
  match schedule with
  | [] => Stepped st
  | id :: rest =>
      match step_in hangs st id with
      | Stepped st' => exec_in hangs rest st'
      | r => r
      end
  end.

(** Some goroutine is in a task that does not return. *)
Definition hung (hangs : string → bool) (st : RunState) : Prop :=
  ∃ id, routines st !! id = Some Executing ∧ hangs id = true.

End DagEngine.

(** ** The engine service (package engine) *)

Module Engine.

(** [WorkflowExecution]. The cancel function of the execution context is
    represented by the flag it sets. *)
Record WorkflowExecution := mkWorkflowExecution {
  ExecutionID : string;
  WorkflowID : string;
  Version : string;
  Engine : DagEngine.DAGEngine;
  StartTime : Z;
  Status : string;
  Cancelled : bool
}.

Record EngineService := mkEngineService {
  ID : string;
  capacity : Z;
  activeWorkflows : gmap string WorkflowExecution
}.

Definition NewEngineService (id : string) (capacity : Z) : EngineService :=
  mkEngineService id capacity ∅.

(** [len(es.activeWorkflows)] *)
Definition GetActiveWorkflows (es : EngineService) : Z :=
  Z.of_nat (size (activeWorkflows es)).

Definition GetCapacity (es : EngineService) : Z := capacity es.

Definition at_capacity_error (es : EngineService) : string :=
  "engine at capacity (" +:+ fmt_d (capacity es) +:+ ")".

(** [ExecuteWorkflow] up to its [return]: the capacity check and the
    creation of the record. [now] is the reading of [time.Now()]. The
    goroutine it starts is [finish], below. *)
Definition ExecuteWorkflow (es : EngineService) (now : Z)
    (workflowID version executionID : string) (engine : DagEngine.DAGEngine)
  : error * EngineService :=
  if capacity es <=? GetActiveWorkflows es then
    (Some (at_capacity_error es), es)
  else
    let exec :=
      mkWorkflowExecution executionID workflowID version engine now
                          "RUNNING" false in
    (None,
     mkEngineService (ID es) (capacity es)
                     (<[executionID := exec]> (activeWorkflows es))).

(** The goroutine of [ExecuteWorkflow] once [engine.Run] has returned
    [err]: the status is set and the deferred function deletes the record. *)
Definition finish (es : EngineService) (executionID : string) (err : error)
  : EngineService :=
  mkEngineService (ID es) (capacity es)
                  (delete executionID (activeWorkflows es)).

Definition StopWorkflow (es : EngineService) (executionID : string)
  : error * EngineService :=
  match activeWorkflows es !! executionID with
  | None => (Some ("workflow " +:+ executionID +:+ " not found"), es)
  | Some exec =>
      (None,
       mkEngineService (ID es) (capacity es)
         (<[executionID :=
              mkWorkflowExecution (ExecutionID exec) (WorkflowID exec)
                (Version exec) (Engine exec) (StartTime exec) "CANCELLED"
                true]> (activeWorkflows es)))
  end.

Definition GetWorkflowStatus (es : EngineService) (executionID : string)
  : string * error :=
  match activeWorkflows es !! executionID with
  | None => ("", Some ("workflow " +:+ executionID +:+ " not found"))
  | Some exec => (Status exec, None)
  end.

(** [ListActiveWorkflows]: the keys of [es.activeWorkflows], in the order
    in which the range visits them. *)
Definition ListActiveWorkflows (es : EngineService) : list string :=
  (map_to_list (activeWorkflows es)).*1.

(** What happens to an engine service: calls of [ExecuteWorkflow] and
    [StopWorkflow], and goroutines of [ExecuteWorkflow] that come to their
    end. Every one of them holds [es.mu] while it reads or writes the
    table. *)
Inductive es_event :=
| EsExecuteWorkflow (now : Z) (workflowID version executionID : string)
    (engine : DagEngine.DAGEngine)
| EsFinish (executionID : string) (err : error)
| EsStopWorkflow (executionID : string).

Definition es_occur (es : EngineService) (ev : es_event) : EngineService :=
  match ev with
  | EsExecuteWorkflow now workflowID version executionID engine =>
      (ExecuteWorkflow es now workflowID version executionID engine).2
  | EsFinish executionID err => finish es executionID err
  | EsStopWorkflow executionID => (StopWorkflow es executionID).2
  end.

Definition es_after (evs : list es_event) (es : EngineService)
  : EngineService :=
  foldl es_occur es evs.

End Engine.

(** ** The version manager (type [VersionManager]) *)

Module Versions.

Record NodeDefinition := mkNodeDefinition {
  NodeID : string;
  Dependencies : list string;
  ExecutorType : string;
  ExecutorCode : string;
  ExecutorConfig : gmap string any;
  Metadata : gmap string any
}.

Record WorkflowDefinition := mkWorkflowDefinition {
  def_WorkflowID : string;
  def_Version : string;
  def_Name : string;
  def_Nodes : list NodeDefinition;
  def_Metadata : gmap string any
}.

Record WorkflowVersion := mkWorkflowVersion {
  WorkflowID : string;
  Version : string;
  Definition_ : option WorkflowDefinition;
  CreatedAt : Z;
  wv_Dependencies : list string;
  Dependents : list string
}.

(** The manager's maps hold pointers to [WorkflowVersion] objects, and
    [updateDependencies] writes through such a pointer after it has been
    stored. [heap] is the store of these objects; a pointer is an index
    into it. *)
Abbreviation ptr := nat (only parsing).

Record VersionManager := mkVersionManager {
  heap : list WorkflowVersion;
  versions : gmap string (gmap string ptr);
  latest : gmap string ptr
}.

Definition NewVersionManager : VersionManager := mkVersionManager [] ∅ ∅.

(** [&WorkflowVersion{...}]: a new object. *)
Definition alloc (vm : VersionManager) (v : WorkflowVersion)
  : ptr * VersionManager :=
  (length (heap vm),
   mkVersionManager (heap vm ++ [v]) (versions vm) (latest vm)).

(** [v1 > v2] on Go strings: the lexicographic order of their bytes. *)
Definition isNewerVersion (v1 v2 : string) : bool := String.ltb v2 v1.

Definition setDependents (ds : list string) (v : WorkflowVersion)
  : WorkflowVersion :=
  mkWorkflowVersion (WorkflowID v) (Version v) (Definition_ v) (CreatedAt v)
                    (wv_Dependencies v) ds.

(** The inner loops of the first loop of [updateDependencies], over the
    versions of one other workflow [wfID]: [wfID] is appended once for
    every version of it that lists [id] among its dependencies. [None]
    stands for the dereference of a pointer that is not in the store. *)
Fixpoint dependents_among (h : list WorkflowVersion) (id wfID : string)
    (vs : list ptr) : option (list string) :=
  match vs with
  | [] => Some []
  | p :: rest =>
      match h !! p, dependents_among h id wfID rest with
      | Some v, Some ds =>
          Some (if bool_decide (id ∈ wv_Dependencies v) then wfID :: ds
                else ds)
      | _, _ => None
      end
  end.

(** The first loop of [updateDependencies], over [vm.versions]. Go leaves
    the order of both map ranges unspecified; the model visits the keys in
    the order of [map_to_list]. *)
Fixpoint dependents_of (h : list WorkflowVersion) (id : string)
    (wfs : list (string * gmap string ptr)) : option (list string) :=
  match wfs with
  | [] => Some []
  | (wfID, byVersion) :: rest =>
      if bool_decide (wfID = id) then dependents_of h id rest
      else
        match dependents_among h id wfID (map_to_list byVersion).*2,
              dependents_of h id rest with
        | Some ds, Some ds' => Some (ds ++ ds')%list
        | _, _ => None
        end
  end.

(** [updateDependencies]: [version.Dependents] is recomputed for the
    object being registered. The second loop of the function only locks
    and unlocks the records it visits and changes nothing. *)
Definition updateDependencies (vm : VersionManager) (version : ptr)
  : outcome VersionManager :=
  match heap vm !! version with
  | None => Panic "nil pointer dereference"
  | Some v =>
      match dependents_of (heap vm) (WorkflowID v)
                          (map_to_list (versions vm)) with
      | None => Panic "nil pointer dereference"
      | Some ds =>
          Return (mkVersionManager
                    (<[version := setDependents ds v]> (heap vm))
                    (versions vm) (latest vm))
      end
  end.

Definition RegisterVersion (vm : VersionManager) (version : ptr)
  : outcome (error * VersionManager) :=
  match heap vm !! version with
  | None => Panic "nil pointer dereference"
  | Some v =>
      if bool_decide (WorkflowID v = "") then
        Return (Some "workflow ID cannot be empty", vm)
      else if bool_decide (Version v = "") then
        Return (Some "workflow version cannot be empty", vm)
      else
        let byVersion := default ∅ (versions vm !! WorkflowID v) in
        let versions' :=
          <[WorkflowID v := <[Version v := version]> byVersion]>
            (versions vm) in
        let latest' : outcome (gmap string ptr) :=
          match latest vm !! WorkflowID v with
          | None => Return (<[WorkflowID v := version]> (latest vm))
          | Some l =>
              match heap vm !! l with
              | None => Panic "nil pointer dereference"
              | Some cur =>
                  if isNewerVersion (Version v) (Version cur) then
                    Return (<[WorkflowID v := version]> (latest vm))
                  else Return (latest vm)
              end
          end in
        match latest' with
        | Panic msg => Panic msg
        | Return l' =>
            match updateDependencies
                    (mkVersionManager (heap vm) versions' l') version with
            | Panic msg => Panic msg
            | Return vm' => Return (None, vm')
            end
        end
  end.

Definition GetLatestVersion (vm : VersionManager) (workflowID : string)
  : option ptr * error :=
  match latest vm !! workflowID with
  | Some l => (Some l, None)
  | None => (None, Some ("workflow " +:+ workflowID +:+ " not found"))
  end.

Definition GetVersion (vm : VersionManager) (workflowID version : string)
  : option ptr * error :=
  if bool_decide (version = "") || bool_decide (version = "latest") then
    GetLatestVersion vm workflowID
  else
    match versions vm !! workflowID with
    | None => (None, Some ("workflow " +:+ workflowID +:+ " not found"))
    | Some byVersion =>
        match byVersion !! version with
        | None =>
            (None, Some ("workflow " +:+ workflowID +:+ " version "
                         +:+ version +:+ " not found"))
        | Some p => (Some p, None)
        end
    end.

Definition CanUpdate (vm : VersionManager) (workflowID newVersion : string)
  : outcome (bool * list string * error) :=
  match versions vm !! workflowID with
  | None => Return (true, [], None)
  | Some byVersion =>
      match latest vm !! workflowID with
      | None => Return (true, [], None)
      | Some l =>
          match heap vm !! l with
          | None => Panic "nil pointer dereference"
          | Some currentLatest =>
              let dependents := Dependents currentLatest in
              if 0 <? Z.of_nat (length dependents) then
                Return (false, dependents,
                        Some ("workflow " +:+ workflowID +:+ " has "
                              +:+ fmt_d (Z.of_nat (length dependents))
                              +:+ " dependents, cannot update safely"))
              else if negb (isNewerVersion newVersion
                                           (Version currentLatest)) then
                Return (false, [],
                        Some ("version " +:+ newVersion
                              +:+ " is not newer than current "
                              +:+ Version currentLatest))
              else if bool_decide (is_Some (byVersion !! newVersion)) then
                Return (false, [],
                        Some ("version " +:+ newVersion
                              +:+ " already exists"))
              else Return (true, [], None)
          end
      end
  end.

Definition GetDependents (vm : VersionManager) (workflowID : string)
  : outcome (list string) :=
  match latest vm !! workflowID with
  | None => Return []
  | Some l =>
      match heap vm !! l with
      | None => Panic "nil pointer dereference"
      | Some v => Return (Dependents v)
      end
  end.

(** The version string of the latest record of a workflow. *)
Definition latest_version (vm : VersionManager) (workflowID : string)
  : option string :=
  l ← latest vm !! workflowID; Version <$> heap vm !! l.

(** Calls of [RegisterVersion]: on a newly allocated record, or on a
    pointer the caller already holds. *)
Inductive call :=
| RegisterNew (v : WorkflowVersion)
| RegisterAgain (p : ptr).

Definition perform (vm : VersionManager) (c : call) : VersionManager :=
  match c with
  | RegisterNew v =>
      let '(p, vm1) := alloc vm v in
      match RegisterVersion vm1 p with
      | Return (_, vm2) => vm2
      | Panic _ => vm1
      end
  | RegisterAgain p =>
      match RegisterVersion vm p with
      | Return (_, vm2) => vm2
      | Panic _ => vm
      end
  end.

Definition history (cs : list call) : VersionManager :=
  foldl perform NewVersionManager cs.

(** Every record of [vm] is still in [vm'], with its version string. *)
Definition keeps_records (vm vm' : VersionManager) : Prop :=
  ∀ p v, heap vm !! p = Some v →
         ∃ v', heap vm' !! p = Some v' ∧ Version v' = Version v.

(** The bytewise order of Go's string comparison, [s1 <= s2]. *)
Definition lex_le (s1 s2 : string) : Prop :=
  s1 = s2 ∨ String.ltb s1 s2 = true.

(** [s1] comes after [s2] in the dictionary: [s2] is a proper prefix of
    [s1], or at the first position where they differ [s1] has the larger
    byte. *)
Definition comes_after (s1 s2 : string) : Prop :=
  (∃ a r, s1 = s2 +:+ String a r)
  ∨ (∃ p a b r1 r2, s1 = p +:+ String a r1 ∧ s2 = p +:+ String b r2
                    ∧ (N_of_ascii b < N_of_ascii a)%N).

(** The order the specification words ask for: a version is
    [major.minor.patch], three decimal numbers, and versions are compared
    number by number. *)
Definition digit_value (a : ascii) : option N :=
  let n := N_of_ascii a in
  if ((48 <=? n) && (n <=? 57))%N then Some (n - 48)%N else None.

Fixpoint number_of (acc : N) (s : list ascii) : option N :=
  match s with
  | [] => Some acc
  | a :: rest =>
      match digit_value a with
      | Some d => number_of (10 * acc + d)%N rest
      | None => None
      end
  end.

(** The pieces of a string between its dots. *)
Fixpoint fields (cur : list ascii) (s : list ascii) : list (list ascii) :=
  match s with
  | [] => [reverse cur]
  | a :: rest =>
      if bool_decide (a = "."%char) then reverse cur :: fields [] rest
      else fields (a :: cur) rest
  end.

Definition semver_of (v : string) : option (N * N * N) :=
  match fields [] (list_ascii_of_string v) with
  | [a; b; c] =>
      match a, b, c with
      | _ :: _, _ :: _, _ :: _ =>
          major ← number_of 0 a; minor ← number_of 0 b;
          patch ← number_of 0 c; Some (major, minor, patch)
      | _, _, _ => None
      end
  | _ => None
  end.

Definition semver_newer (v1 v2 : string) : bool :=
  match semver_of v1, semver_of v2 with
  | Some (a1, b1, c1), Some (a2, b2, c2) =>
      ((a2 <? a1) || ((a2 =? a1) && ((b2 <? b1)
                      || ((b2 =? b1) && (c2 <? c1)))))%N
  | _, _ => false
  end.

(** The maps and the store of a manager fit together: every entry of
    [versions] points to a record of that workflow and version, the latest
    record of a workflow is one of its versions, every workflow with
    versions has a latest record, and no version string of a workflow
    comes after the latest one in the order of [isNewerVersion]. *)
Record consistent (vm : VersionManager) : Prop := mkConsistent {
  cons_versions : ∀ id byVersion s p,
    versions vm !! id = Some byVersion → byVersion !! s = Some p →
    ∃ v, heap vm !! p = Some v ∧ WorkflowID v = id ∧ Version v = s;
  cons_latest : ∀ id l,
    latest vm !! id = Some l →
    ∃ v byVersion, heap vm !! l = Some v ∧ WorkflowID v = id
                   ∧ versions vm !! id = Some byVersion
                   ∧ is_Some (byVersion !! Version v);
  cons_known : ∀ id,
    is_Some (versions vm !! id) → is_Some (latest vm !! id);
  cons_greatest : ∀ id byVersion s l v,
    versions vm !! id = Some byVersion → is_Some (byVersion !! s) →
    latest vm !! id = Some l → heap vm !! l = Some v →
    lex_le s (Version v)
}.

(** Some registered version of the workflow [x] lists [w] among its
    dependencies. *)
Definition refers_to (vm : VersionManager) (x w : string) : Prop :=
  ∃ byVersion s q r,
    versions vm !! x = Some byVersion ∧ byVersion !! s = Some q
    ∧ heap vm !! q = Some r ∧ w ∈ wv_Dependencies r.

End Versions.

(** ** orchestrator/workflow_manager.go *)

Module Workflows.
Import Versions.

(** [WorkflowBuilder], a function without arguments that the manager
    treats as free of side effects: the pair it returns. *)
Definition WorkflowBuilder : Type := (option WorkflowDefinition * error)%type.

Record WorkflowManager := mkWorkflowManager {
  wm_versions : VersionManager;
  builders : gmap string WorkflowBuilder;
  metadata : gmap string (gmap string any)
}.

Definition NewWorkflowManager : WorkflowManager :=
  mkWorkflowManager NewVersionManager ∅ ∅.

(** The body of the loop of [extractDependencies]: the two checked type
    assertions to [string]. *)
Definition note_reference (depMap : gset string) (node : NodeDefinition)
  : gset string :=
  match Metadata node !! "workflow_type" with
  | Some (AnyString nodeType) =>
      if bool_decide (nodeType = "sub-workflow") then
        match Metadata node !! "workflow_id" with
        | Some (AnyString wfID) => {[wfID]} ∪ depMap
        | _ => depMap
        end
      else depMap
  | _ => depMap
  end.

(** [extractDependencies]: the keys of [depMap], in an order Go leaves
    unspecified. *)
Definition extractDependencies (def : WorkflowDefinition) : list string :=
  elements (foldl note_reference ∅ (def_Nodes def)).

(** [fmt.Sprintf("%v", xs)] for a slice of strings. *)
Definition fmt_strings (xs : list string) : string :=
  "[" +:+ String.concat " " xs +:+ "]".

(** [RegisterWorkflow]. [now] is the reading of [time.Now().Unix()]; a
    [nil] metadata map is [None]. *)
Definition RegisterWorkflow (wm : WorkflowManager) (now : Z)
    (workflowID version : string) (builder : WorkflowBuilder)
    (meta : option (gmap string any))
  : outcome (error * WorkflowManager) :=
  match CanUpdate (wm_versions wm) workflowID version with
  | Panic msg => Panic msg
  | Return (canUpdate, dependents, err) =>
      if negb canUpdate then
        if 0 <? Z.of_nat (length dependents) then
          Return (Some ("cannot update workflow " +:+ workflowID
                        +:+ ": has dependents " +:+ fmt_strings dependents),
                  wm)
        else Return (err, wm)
      else
        match builder with
        | (_, Some e) =>
            Return (Some ("failed to build workflow definition: " +:+ e), wm)
        | (None, None) => Panic "nil pointer dereference"
        | (Some def, None) =>
            let wfVersion :=
              mkWorkflowVersion workflowID version (Some def) now
                                (extractDependencies def) [] in
            let '(p, vm1) := alloc (wm_versions wm) wfVersion in
            match RegisterVersion vm1 p with
            | Panic msg => Panic msg
            | Return (Some e, vm2) =>
                Return (Some ("failed to register version: " +:+ e),
                        mkWorkflowManager vm2 (builders wm) (metadata wm))
            | Return (None, vm2) =>
                Return (None,
                        mkWorkflowManager vm2
                          (<[workflowID := builder]> (builders wm))
                          (<[workflowID := default ∅ meta]> (metadata wm)))
            end
        end
  end.

Definition HasWorkflow (wm : WorkflowManager) (workflowID : string) : bool :=
  bool_decide (is_Some (builders wm !! workflowID)).

Definition BuildWorkflow (wm : WorkflowManager) (workflowID : string)
  : option WorkflowDefinition * error :=
  match builders wm !! workflowID with
  | None => (None, Some ("workflow " +:+ workflowID +:+ " not found"))
  | Some builder => builder
  end.

Definition GetLatestVersion (wm : WorkflowManager) (workflowID : string)
  : outcome (string * error) :=
  match Versions.GetLatestVersion (wm_versions wm) workflowID with
  | (_, Some e) => Return ("", Some e)
  | (None, None) => Panic "nil pointer dereference"
  | (Some l, None) =>
      match heap (wm_versions wm) !! l with
      | None => Panic "nil pointer dereference"
      | Some v => Return (Version v, None)
      end
  end.

(** A call of [RegisterWorkflow] and a sequence of such calls on a new
    manager; a call that panics leaves the manager as it was. *)
Record registration := mkRegistration {
  reg_now : Z;
  reg_workflowID : string;
  reg_version : string;
  reg_builder : WorkflowBuilder;
  reg_meta : option (gmap string any)
}.

Definition register_one (wm : WorkflowManager) (r : registration)
  : WorkflowManager :=
  match RegisterWorkflow wm (reg_now r) (reg_workflowID r) (reg_version r)
                         (reg_builder r) (reg_meta r) with
  | Return (_, wm') => wm'
  | Panic _ => wm
  end.

Definition registered (rs : list registration) : WorkflowManager :=
  foldl register_one NewWorkflowManager rs.

(** The dependents recorded on the latest version of a workflow. *)
Definition dependents (wm : WorkflowManager) (workflowID : string)
  : outcome (list string) :=
  GetDependents (wm_versions wm) workflowID.

(** [GetWorkflowDefinition] *)
Definition GetWorkflowDefinition (wm : WorkflowManager)
    (workflowID version : string)
  : outcome (option WorkflowDefinition * error) :=
  match Versions.GetVersion (wm_versions wm) workflowID version with
  | (_, Some e) => Return (None, Some e)
  | (None, None) => Panic "nil pointer dereference"
  | (Some p, None) =>
      match heap (wm_versions wm) !! p with
      | None => Panic "nil pointer dereference"
      | Some v => Return (Definition_ v, None)
      end
  end.

(** [GetMetadata]: a copy of the stored map, or a new empty map. *)
Definition GetMetadata (wm : WorkflowManager) (workflowID : string)
  : gmap string any :=
  match metadata wm !! workflowID with
  | None => ∅
  | Some meta => meta
  end.

(** The tables of a manager name the same workflows, and its version
    manager is consistent. *)
Definition tables_agree (wm : WorkflowManager) : Prop :=
  consistent (wm_versions wm)
  ∧ ∀ id, (is_Some (builders wm !! id)
           ↔ is_Some (latest (wm_versions wm) !! id))
          ∧ (is_Some (builders wm !! id) ↔ is_Some (metadata wm !! id)).

End Workflows.

(** ** The sub-workflow coordinator *)

Module Coordinator.

Record SubWorkflowExecution := mkSubWorkflowExecution {
  ExecutionID : string;
  SubWorkflowID : string;
  SubWorkflowVersion : string;
  ParentWorkflowID : string;
  ParentExecutionID : string;
  Status : string;
  Outputs : gmap string any;
  Error : error;
  StartTime : Z;
  EndTime : option Z
}.

Definition setStatus (s : string) (x : SubWorkflowExecution)
  : SubWorkflowExecution :=
  mkSubWorkflowExecution (ExecutionID x) (SubWorkflowID x)
    (SubWorkflowVersion x) (ParentWorkflowID x) (ParentExecutionID x) s
    (Outputs x) (Error x) (StartTime x) (EndTime x).

(** The records are reached through [activeSubWorkflows], keyed by their
    execution id. *)
Record SubWorkflowCoordinator := mkSubWorkflowCoordinator {
  activeSubWorkflows : gmap string SubWorkflowExecution;
  parentToChildren : gmap string (list string)
}.

(** What the coordinator can ask of the dispatch side. Its [orchestrator]
    field is an interface with the single method [ExecuteWorkflow];
    [StopWorkflow] is the request the transport connection offers for
    stopping an execution on an engine. *)
Inductive dispatch :=
| DispatchExecuteWorkflow (workflowID : string) (inputs : gmap string any)
| DispatchStopWorkflow (executionID : string).

Definition NewSubWorkflowCoordinator : SubWorkflowCoordinator :=
  mkSubWorkflowCoordinator ∅ ∅.

(** *** The records behind their pointers

    [activeSubWorkflows] holds pointers, and the goroutine started by
    [ExecuteSubWorkflow] keeps the pointer [exec] to the record of its own
    call, whatever the map holds later. The records live in [heap]; a
    pointer is an index into it. *)
Record Store := mkStore {
  heap : list SubWorkflowExecution;
  active : gmap string nat;
  children : gmap string (list string)
}.

Definition NewStore : Store := mkStore [] ∅ ∅.

Definition setError (err : error) (x : SubWorkflowExecution)
  : SubWorkflowExecution :=
  mkSubWorkflowExecution (ExecutionID x) (SubWorkflowID x)
    (SubWorkflowVersion x) (ParentWorkflowID x) (ParentExecutionID x)
    (Status x) (Outputs x) err (StartTime x) (EndTime x).

Definition setOutputs (outputs : gmap string any) (x : SubWorkflowExecution)
  : SubWorkflowExecution :=
  mkSubWorkflowExecution (ExecutionID x) (SubWorkflowID x)
    (SubWorkflowVersion x) (ParentWorkflowID x) (ParentExecutionID x)
    (Status x) outputs (Error x) (StartTime x) (EndTime x).

Definition setEndTime (now : Z) (x : SubWorkflowExecution)
  : SubWorkflowExecution :=
  mkSubWorkflowExecution (ExecutionID x) (SubWorkflowID x)
    (SubWorkflowVersion x) (ParentWorkflowID x) (ParentExecutionID x)
    (Status x) (Outputs x) (Error x) (StartTime x) (Some now).

(** The sections that run under [swc.mu.Lock()]: the one of
    [ExecuteSubWorkflow] itself, with the two readings of the clock; the
    three of its goroutine, which write through [exec]; and the write of
    [CancelChildren], whose test of the status is made before the lock is
    taken. *)
Inductive section :=
| SecExecuteSubWorkflow (nanos start : Z)
    (subWorkflowID subWorkflowVersion parentWorkflowID
       parentExecutionID : string)
| SecRunning (exec : nat)
| SecResult (exec : nat) (err : error) (outputs : gmap string any)
| SecEnd (exec : nat) (now : Z)
| SecCancelled (exec : nat).

Definition write (f : SubWorkflowExecution → SubWorkflowExecution)
    (exec : nat) (s : Store) : Store :=
  mkStore (alter f exec (heap s)) (active s) (children s).

(** The record a section creates. *)
Definition created (sec : section) : option SubWorkflowExecution :=
  match sec with
  | SecExecuteSubWorkflow nanos start subWorkflowID subWorkflowVersion
      parentWorkflowID parentExecutionID =>
      Some (mkSubWorkflowExecution
              (parentExecutionID +:+ "-sub-" +:+ fmt_d nanos)
              subWorkflowID subWorkflowVersion parentWorkflowID
              parentExecutionID "PENDING" ∅ None start None)
  | _ => None
  end.

Definition occur (s : Store) (sec : section) : Store :=
  match sec with
  | SecExecuteSubWorkflow nanos start subWorkflowID subWorkflowVersion
      parentWorkflowID parentExecutionID =>
      let executionID := parentExecutionID +:+ "-sub-" +:+ fmt_d nanos in
      let exec :=
        mkSubWorkflowExecution executionID subWorkflowID subWorkflowVersion
          parentWorkflowID parentExecutionID "PENDING" ∅ None start None in
      mkStore (heap s ++ [exec])
        (<[executionID := length (heap s)]> (active s))
        (<[parentExecutionID :=
             (default [] (children s !! parentExecutionID)
                ++ [executionID])%list]> (children s))
  | SecRunning exec => write (setStatus "RUNNING") exec s
  | SecResult exec (Some err) _ =>
      write (λ x, setError (Some err) (setStatus "FAILED" x)) exec s
  | SecResult exec None outputs =>
      write (λ x, setOutputs outputs (setStatus "COMPLETED" x)) exec s
  | SecEnd exec now => write (setEndTime now) exec s
  | SecCancelled exec => write (setStatus "CANCELLED") exec s
  end.

Definition after (hist : list section) : Store := foldl occur NewStore hist.

(** [GetSubWorkflowStatus] returns a copy of the record. *)
Definition GetSubWorkflowStatus (s : Store) (executionID : string)
  : option SubWorkflowExecution * error :=
  match active s !! executionID with
  | Some exec => (heap s !! exec, None)
  | None => (None, Some ("sub-workflow " +:+ executionID +:+ " not found"))
  end.

(** [GetChildrenExecutions]; the [nil] slice is the empty list. *)
Definition GetChildrenExecutions (s : Store) (parentExecutionID : string)
  : list string :=
  match children s !! parentExecutionID with
  | Some children => children
  | None => []
  end.

(** The ids [ExecuteSubWorkflow] returned for a parent, in the order of
    the calls, and the record of the last call that returned an id. *)
Fixpoint started (parentExecutionID : string) (hist : list section)
  : list string :=
  match hist with
  | [] => []
  | sec :: rest =>
      match created sec with
      | Some exec =>
          if bool_decide (ParentExecutionID exec = parentExecutionID)
          then ExecutionID exec :: started parentExecutionID rest
          else started parentExecutionID rest
      | None => started parentExecutionID rest
      end
  end.

Definition last_created (executionID : string) (hist : list section)
  : option SubWorkflowExecution :=
  foldl (λ found sec,
           match created sec with
           | Some exec =>
               if bool_decide (ExecutionID exec = executionID)
               then Some exec else found
           | None => found
           end) None hist.

(** The fields no section writes after the record is made. *)
Definition same_call (x y : SubWorkflowExecution) : Prop :=
  ExecutionID x = ExecutionID y
  ∧ SubWorkflowID x = SubWorkflowID y
  ∧ SubWorkflowVersion x = SubWorkflowVersion y
  ∧ ParentWorkflowID x = ParentWorkflowID y
  ∧ ParentExecutionID x = ParentExecutionID y
  ∧ StartTime x = StartTime y.

Definition known_status (x : SubWorkflowExecution) : Prop :=
  Status x ∈ ["PENDING"; "RUNNING"; "COMPLETED"; "FAILED"; "CANCELLED"].

(** What holds of the store after a history. *)
Record tracked (hist : list section) (s : Store) : Prop := mkTracked {
  tr_children : ∀ p, GetChildrenExecutions s p = started p hist;
  tr_active : ∀ id,
    match last_created id hist with
    | Some y =>
        ∃ exec x, active s !! id = Some exec ∧ heap s !! exec = Some x
                  ∧ same_call x y ∧ known_status x
    | None => active s !! id = None
    end
}.

(** *** CancelChildren, section by section

    [CancelChildren] takes the lock anew for each of its reads and for
    its write, and it tests [exec.Status] while it holds no lock: the
    sections of the other goroutines can fall anywhere in between.
    [cancel_at] is the place at which a call stands. *)
Inductive cancel_at :=
| AtChildren (parentExecutionID : string)
    (* before [children := swc.parentToChildren[parentExecutionID]] *)
| AtLookup (rest : list string)
    (* at the head of the loop, [rest] still to visit *)
| AtTest (exec : option nat) (rest : list string)
    (* [exec, exists] are read; before [exists && exec.Status == ...] *)
| AtWrite (exec : nat) (rest : list string)
    (* the test has passed; before [swc.mu.Lock()] *)
| Returned (err : error).
    (* [return nil] *)

(** One step of the call: the coordinator afterwards, the place reached,
    and the requests the step makes of the dispatch side. Where the write
    is made the source has a TODO and no call. *)
Definition cancel_step (s : Store) (pc : cancel_at)
  : Store * cancel_at * list dispatch :=
  match pc with
  | AtChildren parentExecutionID =>
      (s, AtLookup (default [] (children s !! parentExecutionID)), [])
  | AtLookup [] => (s, Returned None, [])
  | AtLookup (childID :: rest) => (s, AtTest (active s !! childID) rest, [])
  | AtTest None rest => (s, AtLookup rest, [])
  | AtTest (Some exec) rest =>
      match heap s !! exec with
      | Some x =>
          if bool_decide (Status x = "RUNNING")
          then (s, AtWrite exec rest, [])
          else (s, AtLookup rest, [])
      | None => (s, AtLookup rest, [])
      end
  | AtWrite exec rest =>
      (write (setStatus "CANCELLED") exec s, AtLookup rest, [])
  | Returned err => (s, Returned err, [])
  end.

(** A call of [CancelChildren] among the other goroutines: the
    coordinator, the place of the call, and the requests it has made of
    the dispatch side so far. *)
Record cancel_run := mkCancelRun {
  cr_store : Store;
  cr_at : cancel_at;
  cr_requests : list dispatch
}.

(** What happens next: a step of the call, or a section of another
    goroutine. *)
Inductive move :=
| Own
| Other (sec : section).

Definition move_on (r : cancel_run) (m : move) : cancel_run :=
  match m with
  | Own =>
      let '(s, pc, requests) := cancel_step (cr_store r) (cr_at r) in
      mkCancelRun s pc (cr_requests r ++ requests)
  | Other sec => mkCancelRun (occur (cr_store r) sec) (cr_at r) (cr_requests r)
  end.

(** [CancelChildren(parentExecutionID)] called on the coordinator [s] and
    interleaved with the other goroutines as [schedule] says. *)
Definition CancelChildren (schedule : list move) (s : Store)
    (parentExecutionID : string) : cancel_run :=
  foldl move_on (mkCancelRun s (AtChildren parentExecutionID) []) schedule.

(** The sections of the other goroutines in a schedule, and what they
    make of the coordinator without the call. *)
Fixpoint others (schedule : list move) : list section :=
  match schedule with
  | [] => []
  | Own :: rest => others rest
  | Other sec :: rest => sec :: others rest
  end.

Definition without_call (schedule : list move) (s : Store) : Store :=
  foldl occur s (others schedule).

(** The call runs alone: [n] steps of its own and nothing in between. *)
Definition alone (n : nat) : list move := replicate n Own.

(** A record is as in [y], or as in [y] with the status CANCELLED. *)
Definition marked (x y : SubWorkflowExecution) : Prop :=
  x = y ∨ x = setStatus "CANCELLED" y.

Definition status_at (s : Store) (executionID : string) : option string :=
  match active s !! executionID with
  | Some exec => Status <$> heap s !! exec
  | None => None
  end.

End Coordinator.

(** ** The dispatcher (type [OrchestratorV2]) and orchestrator/config.go *)

Module Dispatcher.
Import Balancer.

Record Config := mkConfig {
  TransportType : string;
  K8sNamespace : string;
  K8sServiceName : string;
  K8sLabelSelector : string;
  InClusterConfig : bool;
  LoadBalancerType : string;
  LoadBalancerNodes : Z;
  GRPCAddress : string;
  GRPCPort : Z;
  MaxConnections : Z;
  ConnectionTimeout : Z;
  EngineDiscoveryInterval : Z;
  EngineHealthCheckInterval : Z
}.

Definition Validate (c : Config) : error :=
  if negb (bool_decide (TransportType c = "grpc")) then
    Some ("unsupported transport type: " +:+ TransportType c)
  else if negb (bool_decide (LoadBalancerType c = "consistent-hash"))
          && negb (bool_decide (LoadBalancerType c = "round-robin"))
          && negb (bool_decide (LoadBalancerType c = "least-connections"))
  then Some ("unsupported load balancer type: " +:+ LoadBalancerType c)
  else if (GRPCPort c <=? 0) || (65535 <? GRPCPort c) then
    Some ("invalid gRPC port: " +:+ fmt_d (GRPCPort c))
  else None.

(** [transport.EngineInfo] *)
Record EngineInfo := mkEngineInfo {
  ID : string;
  Address : string;
  Port : Z;
  Capacity : Z;
  Metadata : gmap string string;
  LastSeen : Z
}.

(** [transport.WorkflowRequest] and [transport.WorkflowResponse] *)
Record WorkflowRequest := mkWorkflowRequest {
  req_WorkflowID : string;
  req_WorkflowVersion : string;
  req_ExecutionID : string;
  req_Inputs : gmap string string;
  req_TimeoutSeconds : Z
}.

Record TransportResponse := mkTransportResponse {
  tr_ExecutionID : string;
  tr_Success : bool;
  tr_ErrorMessage : string;
  tr_Outputs : gmap string string
}.

(** [orchestrator.WorkflowResponse] *)
Record WorkflowResponse := mkWorkflowResponse {
  WorkflowID : string;
  Success : bool;
  Outputs : gmap string any;
  Duration : Z;
  resp_Metadata : gmap string any
}.

(** The collaborators outside the repository, as the dispatcher uses them:
    the hash ring's [Get], the transport's [Connect], the connection's
    [ExecuteWorkflow], and the time a remote call is measured to take. *)
Record World := mkWorld {
  ring_Get : gset string → string → string * error;
  Connect : EngineInfo → error;
  conn_ExecuteWorkflow :
    EngineInfo → WorkflowRequest → option TransportResponse * error;
  elapsed : WorkflowRequest → Z
}.

Record OrchestratorV2 := mkOrchestratorV2 {
  config : Config;
  workflowManager : Workflows.WorkflowManager;
  loadBalancer : LoadBalancer;
  engines : gmap string EngineInfo;
  subWorkflowCoord : Coordinator.SubWorkflowCoordinator;
  executionCounter : Z
}.

Definition set_workflowManager (wm : Workflows.WorkflowManager)
    (o : OrchestratorV2) : OrchestratorV2 :=
  mkOrchestratorV2 (config o) wm (loadBalancer o) (engines o)
                   (subWorkflowCoord o) (executionCounter o).

Definition set_loadBalancer (lb : LoadBalancer) (o : OrchestratorV2)
  : OrchestratorV2 :=
  mkOrchestratorV2 (config o) (workflowManager o) lb (engines o)
                   (subWorkflowCoord o) (executionCounter o).

Definition set_engines (es : gmap string EngineInfo) (o : OrchestratorV2)
  : OrchestratorV2 :=
  mkOrchestratorV2 (config o) (workflowManager o) (loadBalancer o) es
                   (subWorkflowCoord o) (executionCounter o).

Definition set_executionCounter (k : Z) (o : OrchestratorV2)
  : OrchestratorV2 :=
  mkOrchestratorV2 (config o) (workflowManager o) (loadBalancer o)
                   (engines o) (subWorkflowCoord o) k.

(** [NewOrchestratorV2]. [discovery] is the error, if any, with which the
    construction of the service discovery ends. *)
Definition NewOrchestratorV2 (cfg : Config) (discovery : error)
  : option OrchestratorV2 * error :=
  match Validate cfg with
  | Some e => (None, Some ("invalid config: " +:+ e))
  | None =>
      let lb : option LoadBalancer :=
        if bool_decide (LoadBalancerType cfg = "consistent-hash") then
          Some (ConsistentHash
                  (NewConsistentHashLoadBalancer (LoadBalancerNodes cfg)))
        else if bool_decide (LoadBalancerType cfg = "round-robin") then
          Some (RoundRobin NewRoundRobinLoadBalancer)
        else None in
      match lb with
      | None =>
          (None,
           Some ("unsupported load balancer type: " +:+ LoadBalancerType cfg))
      | Some lb =>
          if negb (bool_decide (TransportType cfg = "grpc")) then
            (None,
             Some ("unsupported transport type: " +:+ TransportType cfg))
          else
            match discovery with
            | Some e =>
                (None, Some ("failed to create service discovery: " +:+ e))
            | None =>
                (Some (mkOrchestratorV2 cfg Workflows.NewWorkflowManager lb ∅
                         Coordinator.NewSubWorkflowCoordinator 0),
                 None)
            end
      end
  end.

(** The methods of the [LoadBalancer] interface, dispatched on the
    implementation behind it. *)
Definition lb_AddEngine (lb : LoadBalancer) (engineID : string)
    (capacity : Z) : LoadBalancer :=
  match lb with
  | ConsistentHash ch => ConsistentHash (AddEngine ch engineID capacity).2
  | RoundRobin rr => RoundRobin (rr_AddEngine rr engineID capacity).2
  end.

Definition lb_RemoveEngine (lb : LoadBalancer) (engineID : string)
  : LoadBalancer :=
  match lb with
  | ConsistentHash ch => ConsistentHash (RemoveEngine ch engineID).2
  | RoundRobin rr => RoundRobin (rr_RemoveEngine rr engineID).2
  end.

Definition lb_UpdateEngineCapacity (lb : LoadBalancer) (engineID : string)
    (capacity : Z) : LoadBalancer :=
  match lb with
  | ConsistentHash ch =>
      ConsistentHash (UpdateEngineCapacity ch engineID capacity).2
  | RoundRobin rr =>
      RoundRobin (rr_UpdateEngineCapacity rr engineID capacity).2
  end.

Definition lb_SelectEngine (w : World) (lb : LoadBalancer) (key : string)
  : outcome (string * error) * LoadBalancer :=
  match lb with
  | ConsistentHash ch =>
      if bool_decide (size (hashRing ch) = 0%nat) then
        (Return ("", Some "no engines available"), lb)
      else (Return (ring_Get w (hashRing ch) key), lb)
  | RoundRobin rr =>
      let '(r, rr') := rr_SelectEngine rr key in (r, RoundRobin rr')
  end.

(** The discovery callback [onChange] of [startDiscovery]: the first loop
    over the reported engines, then the removal of the engines that are no
    longer reported. *)
Definition discovered (o : OrchestratorV2) (engine : EngineInfo)
  : OrchestratorV2 :=
  match engines o !! ID engine with
  | None =>
      set_loadBalancer
        (lb_AddEngine (loadBalancer o) (ID engine) (Capacity engine))
        (set_engines (<[ID engine := engine]> (engines o)) o)
  | Some existing =>
      set_loadBalancer
        (lb_UpdateEngineCapacity (loadBalancer o) (ID engine)
                                 (Capacity engine))
        (set_engines
           (<[ID engine :=
                mkEngineInfo (ID existing) (Address engine) (Port engine)
                  (Capacity engine) (Metadata existing) (LastSeen engine)]>
              (engines o)) o)
  end.

Definition forget (present : gset string) (o : OrchestratorV2)
    (engineID : string) : OrchestratorV2 :=
  if bool_decide (engineID ∈ present) then o
  else
    set_loadBalancer (lb_RemoveEngine (loadBalancer o) engineID)
                     (set_engines (delete engineID (engines o)) o).

Definition onChange (o : OrchestratorV2) (reported : list EngineInfo)
  : OrchestratorV2 :=
  let o1 := foldl discovered o reported in
  let present : gset string := list_to_set (ID <$> reported) in
  foldl (forget present) o1 (map_to_list (engines o1)).*1.

Definition RegisterWorkflow (o : OrchestratorV2) (now : Z)
    (workflowID version : string) (builder : Workflows.WorkflowBuilder)
    (meta : option (gmap string any)) : outcome error * OrchestratorV2 :=
  match Workflows.RegisterWorkflow (workflowManager o) now workflowID version
                                   builder meta with
  | Panic msg => (Panic msg, o)
  | Return (err, wm) => (Return err, set_workflowManager wm o)
  end.

(** [nextExecutionID]; [now] is the reading of [time.Now().UnixNano()].
    The body runs under [executionCounterMu]. *)
Definition nextExecutionID (o : OrchestratorV2) (now : Z)
  : string * OrchestratorV2 :=
  let counter := wrap_int (executionCounter o + 1) in
  ("exec-" +:+ fmt_d now +:+ "-" +:+ fmt_d counter,
   set_executionCounter counter o).

(** [fmt.Sprintf("%v", v)] *)
Definition fmt_v (v : any) : string :=
  match v with
  | AnyNil => "<nil>"
  | AnyString s => s
  | AnyInt z => fmt_d z
  | AnyBool true => "true"
  | AnyBool false => "false"
  end.

(** [ExecuteWorkflow] from its entry to the construction of the request:
    either one of the early returns, or everything the rest of the function
    needs. *)
Inductive prepared :=
| EarlyReturn (resp : option WorkflowResponse) (err : error)
| Ready (engineID executionID version : string) (engineInfo : EngineInfo)
        (req : WorkflowRequest).

Definition prepare (w : World) (o : OrchestratorV2) (now : Z)
    (workflowID : string) (inputs : gmap string any)
  : outcome prepared * OrchestratorV2 :=
  if negb (Workflows.HasWorkflow (workflowManager o) workflowID) then
    (Return (EarlyReturn None
               (Some ("workflow " +:+ workflowID +:+ " not found"))), o)
  else
    match Workflows.GetLatestVersion (workflowManager o) workflowID with
    | Panic msg => (Panic msg, o)
    | Return (_, Some e) =>
        (Return (EarlyReturn None
                   (Some ("failed to get workflow version: " +:+ e))), o)
    | Return (version, None) =>
        let '(executionID, o1) := nextExecutionID o now in
        let '(sel, lb) := lb_SelectEngine w (loadBalancer o1) workflowID in
        let o2 := set_loadBalancer lb o1 in
        match sel with
        | Panic msg => (Panic msg, o2)
        | Return (_, Some e) =>
            (Return (EarlyReturn None
                       (Some ("failed to select engine: " +:+ e))), o2)
        | Return (engineID, None) =>
            match engines o2 !! engineID with
            | None =>
                (Return (EarlyReturn None
                           (Some ("engine " +:+ engineID +:+ " not found"))),
                 o2)
            | Some engineInfo =>
                match Workflows.BuildWorkflow (workflowManager o2)
                                              workflowID with
                | (_, Some e) =>
                    (Return (EarlyReturn None
                               (Some ("failed to build workflow: " +:+ e))),
                     o2)
                | (_, None) =>
                    match Connect w engineInfo with
                    | Some e =>
                        (Return (EarlyReturn None
                                   (Some ("failed to connect to engine: "
                                          +:+ e))), o2)
                    | None =>
                        (Return (Ready engineID executionID version engineInfo
                                   (mkWorkflowRequest workflowID version
                                      executionID (fmt_v <$> inputs) 600)),
                         o2)
                    end
                end
            end
        end
    end.

Definition response_metadata (engineID executionID version : string)
  : gmap string any :=
  <["engine_id" := AnyString engineID]>
    (<["execution_id" := AnyString executionID]>
       (<["version" := AnyString version]> ∅)).

(** [ExecuteWorkflow] *)
Definition ExecuteWorkflow (w : World) (o : OrchestratorV2) (now : Z)
    (workflowID : string) (inputs : gmap string any)
  : outcome (option WorkflowResponse * error) * OrchestratorV2 :=
  match prepare w o now workflowID inputs with
  | (Panic msg, o2) => (Panic msg, o2)
  | (Return (EarlyReturn resp err), o2) => (Return (resp, err), o2)
  | (Return (Ready engineID executionID version engineInfo req), o2) =>
      (* the active-count bookkeeping *)
      match assertConsistentHash (loadBalancer o2) with
      | Panic msg => (Panic msg, o2)
      | Return ch =>
          let busy := IncrementActiveWorkflows ch engineID in
          (* the deferred decrement runs on every path below *)
          let o3 :=
            set_loadBalancer
              (ConsistentHash (DecrementActiveWorkflows busy engineID)) o2 in
          match conn_ExecuteWorkflow w engineInfo req with
          | (_, Some e) =>
              (Return (Some (mkWorkflowResponse workflowID false ∅
                               (elapsed w req) ∅), Some e), o3)
          | (None, None) => (Panic "nil pointer dereference", o3)
          | (Some resp, None) =>
              (Return (Some (mkWorkflowResponse workflowID (tr_Success resp)
                               (AnyString <$> tr_Outputs resp)
                               (elapsed w req)
                               (response_metadata engineID executionID
                                                  version)), None), o3)
          end
      end
  end.

(** A call of [ExecuteWorkflow] reaches the bookkeeping step when none of
    the returns before it is taken. *)
Definition reaches_bookkeeping (w : World) (o : OrchestratorV2) (now : Z)
    (workflowID : string) (inputs : gmap string any) : bool :=
  match (prepare w o now workflowID inputs).1 with
  | Return (Ready _ _ _ _ _) => true
  | _ => false
  end.

(** What happens to a dispatcher over its life. *)
Inductive event :=
| EvRegisterWorkflow (now : Z) (workflowID version : string)
    (builder : Workflows.WorkflowBuilder) (meta : option (gmap string any))
| EvDiscovery (reported : list EngineInfo)
| EvExecuteWorkflow (now : Z) (workflowID : string)
    (inputs : gmap string any)
| EvNextExecutionID (now : Z).

Definition occur (w : World) (o : OrchestratorV2) (ev : event)
  : OrchestratorV2 :=
  match ev with
  | EvRegisterWorkflow now workflowID version builder meta =>
      (RegisterWorkflow o now workflowID version builder meta).2
  | EvDiscovery reported => onChange o reported
  | EvExecuteWorkflow now workflowID inputs =>
      (ExecuteWorkflow w o now workflowID inputs).2
  | EvNextExecutionID now => (nextExecutionID o now).2
  end.

Definition after (w : World) (evs : list event) (o : OrchestratorV2)
  : OrchestratorV2 :=
  foldl (occur w) o evs.

(** The ids that successive calls of [nextExecutionID] return, one call
    per clock reading. *)
Fixpoint mint (o : OrchestratorV2) (clock : list Z) : list string :=
  match clock with
  | [] => []
  | now :: rest =>
      let '(id, o') := nextExecutionID o now in id :: mint o' rest
  end.

(** [GetEngineCapacity] and [ListEngines] through the interface. *)
Definition lb_GetEngineCapacity (lb : LoadBalancer) (engineID : string)
  : Z * error :=
  match lb with
  | ConsistentHash ch => GetEngineCapacity ch engineID
  | RoundRobin rr => rr_GetEngineCapacity rr engineID
  end.

Definition lb_ListEngines (lb : LoadBalancer) : list string :=
  match lb with
  | ConsistentHash ch => ListEngines ch
  | RoundRobin rr => rr_ListEngines rr
  end.

(** The balancer of a dispatcher is in step with its table of engines:
    it selects among the engines of the table, and holds the capacity the
    table holds for each of them. *)
Definition in_step (o : OrchestratorV2) : Prop :=
  match loadBalancer o with
  | ConsistentHash ch =>
      ∀ id, (id ∈ hashRing ch ↔ is_Some (engines o !! id))
            ∧ capacities ch !! id = Capacity <$> engines o !! id
  | RoundRobin rr =>
      NoDup (rr_engines rr)
      ∧ ∀ id, (id ∈ rr_engines rr ↔ is_Some (engines o !! id))
              ∧ rr_capacities rr !! id = Capacity <$> engines o !! id
  end.

(** Two balancers of the same kind with the same engines and
    capacities. *)
Definition same_tables (lb lb' : LoadBalancer) : Prop :=
  match lb, lb' with
  | ConsistentHash a, ConsistentHash b =>
      hashRing a = hashRing b ∧ capacities a = capacities b
  | RoundRobin a, RoundRobin b =>
      rr_engines a = rr_engines b ∧ rr_capacities a = rr_capacities b
  | _, _ => False
  end.

End Dispatcher.

(** ** buildDAGEngineFromDefinition and the Lua executor *)

Module Builder.
Import Versions.

(** [LuaExecutor]. The Lua interpreter is outside the repository;
    [DoString] is the error, if any, with which it runs a script. *)
Definition LuaExecutor (DoString : string → error) (code : string)
  : DagEngine.Executor :=
  DagEngine.mkExecutor
    (λ _ _,
       match DoString code with
       | Some err => (∅, Some ("lua execution error: " +:+ err))
       | None => (<["success" := AnyBool true]> ∅, None)
       end).

(** The loop of [buildDAGEngineFromDefinition] over [def.Nodes]: the
    first node whose executor type is not [lua] ends it with an error;
    the error of [engine.AddNode(node)] is dropped. *)
Fixpoint add_definitions (DoString : string → error)
    (nodeDefs : list NodeDefinition) (engine : DagEngine.DAGEngine)
  : error * DagEngine.DAGEngine :=
  match nodeDefs with
  | [] => (None, engine)
  | nodeDef :: rest =>
      if bool_decide (ExecutorType nodeDef = "lua") then
        add_definitions DoString rest
          (DagEngine.AddNode engine
             (DagEngine.NewNode (NodeID nodeDef) (Dependencies nodeDef)
                (LuaExecutor DoString (ExecutorCode nodeDef)))).2
      else if bool_decide (ExecutorType nodeDef = "shell") then
        (Some "shell executor not yet implemented", engine)
      else
        (Some ("unsupported executor type: " +:+ ExecutorType nodeDef),
         engine)
  end.

(** The engine on which [PreprocessDAG] is called. *)
Definition filled (DoString : string → error) (def : WorkflowDefinition)
  : DagEngine.DAGEngine :=
  (add_definitions DoString (def_Nodes def) DagEngine.NewDAGEngine).2.

(** [buildDAGEngineFromDefinition]; [order] is the order in which the
    range of [PreprocessDAG] visits the node map. *)
Definition buildDAGEngineFromDefinition (DoString : string → error)
    (order : list string) (def : WorkflowDefinition)
  : option DagEngine.DAGEngine * error :=
  match add_definitions DoString (def_Nodes def) DagEngine.NewDAGEngine with
  | (Some err, _) => (None, Some err)
  | (None, engine) =>
      match DagEngine.PreprocessDAG_in order engine with
      | (Some err, _) => (None, Some ("failed to preprocess DAG: " +:+ err))
      | (None, engine') => (Some engine', None)
      end
  end.

(** The first node definition with a given id. *)
Fixpoint first_with (id : string) (nodeDefs : list NodeDefinition)
  : option NodeDefinition :=
  match nodeDefs with
  | [] => None
  | nodeDef :: rest =>
      if bool_decide (NodeID nodeDef = id) then Some nodeDef
      else first_with id rest
  end.

End Builder.

(** * Sample inputs

    Concrete graphs, registries and histories on which the statements below
    are instantiated. *)

Module Samples.

(** A history of balancer calls on two engines. *)
Definition balancer_calls : list Balancer.call :=
  [Balancer.CallDecrement "e1"; Balancer.CallAddEngine "e1" 1;
   Balancer.CallDecrement "e1"; Balancer.CallIncrement "e1";
   Balancer.CallDecrement "e1"; Balancer.CallDecrement "e1";
   Balancer.CallIncrement "e2"; Balancer.CallRemoveEngine "e1";
   Balancer.CallDecrement "e1"].

(** A coordinator with one child of the parent execution ["exec-7-1"],
    started at clock reading 42, whose goroutine has set it RUNNING. *)
Definition coordinator_child : string := "exec-7-1-sub-42".

Definition coordinator_running : Coordinator.Store :=
  Coordinator.after
    [Coordinator.SecExecuteSubWorkflow 42 42 "child-wf" "1.0.0" "parent-wf"
       "exec-7-1";
     Coordinator.SecRunning 0].

(** A dispatcher configured for round-robin balancing, one discovered
    engine, one registered workflow, and collaborators that accept every
    connection and answer every remote call with success. *)
Definition round_robin_config : Dispatcher.Config :=
  Dispatcher.mkConfig "grpc" "default" "workflow-engines"
    "app=workflow-engine" true "round-robin" 150 "0.0.0.0" 50051 100 30 30
    10.

Definition consistent_hash_config : Dispatcher.Config :=
  Dispatcher.mkConfig "grpc" "default" "workflow-engines"
    "app=workflow-engine" true "consistent-hash" 150 "0.0.0.0" 50051 100 30
    30 10.

Definition engine_one : Dispatcher.EngineInfo :=
  Dispatcher.mkEngineInfo "engine-1" "10.0.0.1" 50051 10 ∅ 0.

Definition plain_definition (id version : string)
  : Versions.WorkflowDefinition :=
  Versions.mkWorkflowDefinition id version id
    [Versions.mkNodeDefinition "n1" [] "lua" "return 1" ∅ ∅] ∅.

Definition obliging_world : Dispatcher.World :=
  Dispatcher.mkWorld
    (λ _ _, ("engine-1", None))
    (λ _, None)
    (λ _ req,
       (Some (Dispatcher.mkTransportResponse (Dispatcher.req_ExecutionID req)
                true "" ∅), None))
    (λ _, 5).

Definition dispatcher_life : list Dispatcher.event :=
  [Dispatcher.EvDiscovery [engine_one];
   Dispatcher.EvRegisterWorkflow 0 "wf" "1.0.0"
     (Some (plain_definition "wf" "1.0.0"), None) None].

(** A workflow [x] whose only node invokes the workflow [w] as a
    sub-workflow, and the registrations of the gating scenario. *)
Definition referring_definition (id version target : string)
  : Versions.WorkflowDefinition :=
  Versions.mkWorkflowDefinition id version id
    [Versions.mkNodeDefinition "call" [] "lua" "return 1" ∅
       (<["workflow_type" := AnyString "sub-workflow"]>
          (<["workflow_id" := AnyString target]> ∅))] ∅.

(** [RegisterWorkflow] with a builder that returns [def]; a panic leaves
    the manager as it was. *)
Definition register (wm : Workflows.WorkflowManager) (id version : string)
    (def : Versions.WorkflowDefinition)
  : outcome error * Workflows.WorkflowManager :=
  match Workflows.RegisterWorkflow wm 0 id version (Some def, None) None with
  | Return (err, wm') => (Return err, wm')
  | Panic msg => (Panic msg, wm)
  end.

Definition registry_w1 : Workflows.WorkflowManager :=
  (register Workflows.NewWorkflowManager "w" "1.0.0"
            (plain_definition "w" "1.0.0")).2.

Definition registry_w1_x1 : Workflows.WorkflowManager :=
  (register registry_w1 "x" "1.0.0"
            (referring_definition "x" "1.0.0" "w")).2.

Definition registry_w1_x1_w2 : Workflows.WorkflowManager :=
  (register registry_w1_x1 "w" "2.0.0" (plain_definition "w" "2.0.0")).2.

(** Registries holding version 1.9.0, respectively 1.10.0, of [w]. *)
Definition registry_1_9 : Workflows.WorkflowManager :=
  (register Workflows.NewWorkflowManager "w" "1.9.0"
            (plain_definition "w" "1.9.0")).2.

Definition registry_1_10 : Workflows.WorkflowManager :=
  (register Workflows.NewWorkflowManager "w" "1.10.0"
            (plain_definition "w" "1.10.0")).2.

Definition version_record (id version : string) : Versions.WorkflowVersion :=
  Versions.mkWorkflowVersion id version
    (Some (plain_definition id version)) 0 [] [].

Definition registration_of (id version : string) : Workflows.registration :=
  Workflows.mkRegistration 0 id version
    (Some (plain_definition id version), None) None.

(** Executors that succeed and that fail, whatever they are given. *)
Definition succeeding : DagEngine.Executor :=
  DagEngine.mkExecutor (λ _ _, (<["success" := AnyBool true]> ∅, None)).

Definition failing : DagEngine.Executor :=
  DagEngine.mkExecutor (λ _ _, (∅, Some "lua execution error")).

Definition background : DagEngine.Context := DagEngine.mkContext false.

(** A graph with a dependency on a node that does not exist. *)
Definition dangling_graph : DagEngine.DAGEngine :=
  DagEngine.build [("a", [], succeeding); ("b", ["a"; "ghost"], succeeding)].

(** Two nodes that depend on each other. *)
Definition cyclic_graph : DagEngine.DAGEngine :=
  DagEngine.build [("a", ["b"], succeeding); ("b", ["a"], succeeding)].

(** A single node whose executor fails, preprocessed. *)
Definition failing_graph : DagEngine.DAGEngine :=
  DagEngine.build [("a", [], failing)].

Definition failing_graph_ready : DagEngine.DAGEngine :=
  (DagEngine.PreprocessDAG failing_graph).2.

(** Two independent branches: [f], which fails, with its dependent [g];
    and [a], which succeeds, with its dependent [b]. *)
Definition two_branches_nodes
  : list (string * list string * DagEngine.Executor) :=
  [("f", [], failing); ("g", ["f"], succeeding);
   ("a", [], succeeding); ("b", ["a"], succeeding)].

Definition two_branches : DagEngine.DAGEngine :=
  DagEngine.build two_branches_nodes.

Definition two_branches_ready : DagEngine.DAGEngine :=
  (DagEngine.PreprocessDAG two_branches).2.

(** A run of the two branches: [f] starts and fails; then [a] starts,
    completes and triggers [b]; then [b] runs to the end. *)
Definition until_failure : list string := ["f"; "f"].
Definition until_launch : list string := ["a"; "a"; "a"; "a"].
Definition until_return : list string := ["a"; "b"; "b"; "b"; "b"].

(** Round-robin balancers: three engines with room; two engines after one
    selection, which leaves the cursor on the last index. *)
Definition rr_three : Balancer.RoundRobinLoadBalancer :=
  Balancer.rr_history
    [Balancer.RRAddEngine "e1" 2; Balancer.RRAddEngine "e2" 1;
     Balancer.RRAddEngine "e3" 5; Balancer.RRSelectEngine "wf"]
    Balancer.NewRoundRobinLoadBalancer.

Definition rr_two_calls : list Balancer.rr_call :=
  [Balancer.RRAddEngine "e1" 1; Balancer.RRAddEngine "e2" 0;
   Balancer.RRUpdateEngineCapacity "e2" 3; Balancer.RRSelectEngine "wf"].

Definition rr_two : Balancer.RoundRobinLoadBalancer :=
  Balancer.rr_history rr_two_calls Balancer.NewRoundRobinLoadBalancer.

(** A version manager in which [x] at 1.0.0, which depends on [w], is
    registered, and in which a record for [w] at 1.0.0 has been allocated
    and is about to be registered. *)
Definition referring_record (id version target : string)
  : Versions.WorkflowVersion :=
  Versions.mkWorkflowVersion id version
    (Some (referring_definition id version target)) 0 [target] [].

Definition versions_x1 : Versions.VersionManager :=
  (Versions.alloc
     (Versions.history [Versions.RegisterNew (referring_record "x" "1.0.0" "w")])
     (version_record "w" "1.0.0")).2.

Definition version_calls : list Versions.call :=
  [Versions.RegisterNew (version_record "w" "1.2.0");
   Versions.RegisterNew (version_record "w" "1.10.0");
   Versions.RegisterNew (referring_record "x" "1.0.0" "w");
   Versions.RegisterAgain 0%nat].

(** Registrations of a workflow that refers to another one. *)
Definition registration_referring (id version target : string)
  : Workflows.registration :=
  Workflows.mkRegistration 0 id version
    (Some (referring_definition id version target), None) None.

(** [x], which refers to [w], is registered before [w]. *)
Definition dependent_first : list Workflows.registration :=
  [registration_referring "x" "1.0.0" "w"].

Definition dependent_then_target : list Workflows.registration :=
  [registration_referring "x" "1.0.0" "w"; registration_of "w" "1.0.0"].

(** A consistent-hash dispatcher with one engine and one workflow. *)
Definition registered_manager_wf : Workflows.WorkflowManager :=
  Workflows.registered [registration_of "wf" "1.0.0"].

Definition balancer_ready : Balancer.ConsistentHashLoadBalancer :=
  (Balancer.AddEngine (Balancer.NewConsistentHashLoadBalancer 150)
                      "engine-1" 10).2.

Definition dispatcher_ready : Dispatcher.OrchestratorV2 :=
  Dispatcher.mkOrchestratorV2 consistent_hash_config
    registered_manager_wf (Balancer.ConsistentHash balancer_ready)
    {["engine-1" := engine_one]} Coordinator.NewSubWorkflowCoordinator 0.

(** The states of the run of the two branches after the failure of [f]
    and when the wait group has come back to zero. *)
Definition state_after (schedule : list string) : DagEngine.RunState :=
  match DagEngine.exec schedule
          (DagEngine.Run_start background two_branches_ready) with
  | DagEngine.Stepped st => st
  | _ => DagEngine.Run_start background two_branches_ready
  end.

Definition after_failure : DagEngine.RunState := state_after until_failure.

Definition at_return : DagEngine.RunState :=
  state_after (until_failure ++ until_launch ++ until_return).

(** A definition that gives the id [a] twice. *)
Definition two_definitions : Versions.WorkflowDefinition :=
  Versions.mkWorkflowDefinition "wf" "1.0.0" "wf"
    [Versions.mkNodeDefinition "a" [] "lua" "return 1" ∅ ∅;
     Versions.mkNodeDefinition "b" ["a"] "lua" "return 2" ∅ ∅;
     Versions.mkNodeDefinition "a" ["b"] "lua" "return 3" ∅ ∅] ∅.

(** An interpreter that runs every script without an error. *)
Definition lua_ok (code : string) : error := None.

(** The task of [a] does not return; every other task does. *)
Definition a_hangs (id : string) : bool := bool_decide (id = "a").

(** [f] has failed and [a] has been started. *)
Definition a_started : list string := ["f"; "f"; "a"].

End Samples.

(** * Properties *)

(** ** Machine integers *)

Lemma wrap_int_id z : int_min ≤ z ≤ int_max → wrap_int z = z.
Proof.
  unfold int_min, int_max, wrap_int. intros Hz.
  rewrite Z.mod_small; lia.
Qed.

Lemma int_max_pos : 0 < int_max.
Proof. by vm_compute. Qed.

Lemma int_min_neg : int_min < 0.
Proof. by vm_compute. Qed.

(** ** Strings *)

Lemma app_String a s t : String a s +:+ t = String a (s +:+ t).
Proof. reflexivity. Qed.

Lemma app_Empty t : "" +:+ t = t.
Proof. reflexivity. Qed.

(** ** The load balancer's active counts *)

Module BalancerFacts.
Import Balancer.

Lemma counts_within_new v : counts_within 0 (NewConsistentHashLoadBalancer v).
Proof. intros e. unfold GetActiveWorkflows. simpl. by rewrite lookup_empty. Qed.

Lemma get_insert lb hr cp e e' x :
  GetActiveWorkflows (mkCH hr cp (<[e := x]> (activeWorkflows lb))) e'
  = if decide (e = e') then x else GetActiveWorkflows lb e'.
Proof.
  unfold GetActiveWorkflows. simpl. rewrite lookup_insert.
  by destruct (decide (e = e')).
Qed.

Lemma get_delete lb hr cp e e' :
  GetActiveWorkflows (mkCH hr cp (delete e (activeWorkflows lb))) e'
  = if decide (e = e') then 0 else GetActiveWorkflows lb e'.
Proof.
  unfold GetActiveWorkflows. simpl. rewrite lookup_delete.
  by destruct (decide (e = e')).
Qed.

Lemma decrement_at_zero lb e :
  GetActiveWorkflows lb e ≤ 0 → DecrementActiveWorkflows lb e = lb.
Proof.
  intros H. unfold DecrementActiveWorkflows.
  destruct (Z.ltb_spec 0 (GetActiveWorkflows lb e)); [lia | done].
Qed.

Lemma perform_within k lb c :
  0 ≤ k → k < int_max → counts_within k lb →
  counts_within (k + 1) (perform lb c).
Proof.
  intros Hk Hmax Hlb e'. pose proof (Hlb e') as He'.
  pose proof int_min_neg as Hmin.
  destruct c as [e cap|e|e cap|e|e]; simpl.
  - rewrite get_insert. destruct (decide (e = e')); lia.
  - rewrite get_delete. destruct (decide (e = e')); lia.
  - unfold UpdateEngineCapacity.
    destruct (capacities lb !! e); simpl; [|lia].
    unfold GetActiveWorkflows in *. simpl. lia.
  - unfold IncrementActiveWorkflows. rewrite get_insert.
    destruct (decide (e = e')) as [->|]; [|lia].
    rewrite wrap_int_id; lia.
  - unfold DecrementActiveWorkflows.
    destruct (Z.ltb_spec 0 (GetActiveWorkflows lb e)) as [Hpos|Hle]; [|lia].
    rewrite get_insert. destruct (decide (e = e')) as [->|]; [|lia].
    rewrite wrap_int_id; lia.
Qed.

Lemma history_within cs : ∀ k lb,
  0 ≤ k → k + Z.of_nat (length cs) ≤ int_max → counts_within k lb →
  counts_within (k + Z.of_nat (length cs)) (history cs lb).
Proof.
  induction cs as [|c cs IH]; intros k lb Hk Hlen Hlb.
  - simpl. by rewrite Z.add_0_r.
  - change (history (c :: cs) lb) with (history cs (perform lb c)).
    simpl length in *.
    replace (k + Z.of_nat (S (length cs)))
      with ((k + 1) + Z.of_nat (length cs)) in * by lia.
    apply IH; [lia | lia |].
    apply perform_within; [lia | lia | done].
Qed.

(** C10. Starting from a new consistent-hash balancer, after any sequence
    of calls of its methods (each runs under the balancer's lock, so an
    interleaving is a sequence) that is no longer than an [int] can count,
    [GetActiveWorkflows] is not negative for any engine; and
    [DecrementActiveWorkflows] leaves the balancer as it is when the count
    is zero. *)
Theorem active_count_never_negative (cs : list call) (virtualNodes : Z)
    (engineID : string) :
  Z.of_nat (length cs) ≤ int_max →
  0 ≤ GetActiveWorkflows
        (history cs (NewConsistentHashLoadBalancer virtualNodes)) engineID
  ∧ ∀ lb e, GetActiveWorkflows lb e = 0 →
            DecrementActiveWorkflows lb e = lb.
Proof.
  intros Hlen. split.
  - pose proof (history_within cs 0 (NewConsistentHashLoadBalancer virtualNodes))
      as H.
    destruct (H ltac:(lia) ltac:(lia) (counts_within_new virtualNodes)
                engineID) as [H0 _].
    exact H0.
  - intros lb e He. apply decrement_at_zero. lia.
Qed.

(** The history [Samples.balancer_calls] is within the bound. *)
Lemma active_count_never_negative_witness :
  Z.of_nat (length Samples.balancer_calls) ≤ int_max
  ∧ 0 ≤ GetActiveWorkflows
          (history Samples.balancer_calls (NewConsistentHashLoadBalancer 150)) "e1"
  ∧ ∀ lb e, GetActiveWorkflows lb e = 0 →
            DecrementActiveWorkflows lb e = lb.
Proof.
  split; [by vm_compute|].
  apply (active_count_never_negative Samples.balancer_calls 150 "e1").
  by vm_compute.
Defined.

End BalancerFacts.

(** ** The engine's capacity check *)

Module EngineFacts.
Import Engine.

Lemma execute_at_capacity es now wf ver id eng :
  capacity es ≤ GetActiveWorkflows es →
  ExecuteWorkflow es now wf ver id eng = (Some (at_capacity_error es), es).
Proof.
  intros H. unfold ExecuteWorkflow.
  destruct (Z.leb_spec (capacity es) (GetActiveWorkflows es)); [done | lia].
Qed.

Lemma execute_below_capacity es now wf ver id eng :
  GetActiveWorkflows es < capacity es →
  ExecuteWorkflow es now wf ver id eng
  = (None,
     mkEngineService (ID es) (capacity es)
       (<[id := mkWorkflowExecution id wf ver eng now "RUNNING" false]>
          (activeWorkflows es))).
Proof.
  intros H. unfold ExecuteWorkflow.
  destruct (Z.leb_spec (capacity es) (GetActiveWorkflows es)); [lia | done].
Qed.

(** C7. [ExecuteWorkflow] returns the at-capacity error exactly when the
    number of active executions has reached the capacity; it returns no
    other error; on the error the engine is unchanged, so no record is
    created; otherwise the record is created in status RUNNING. With
    capacity 1, a second execution requested while the first is active is
    refused and never has a record. *)
Theorem execute_refused_iff_at_capacity (es : EngineService) (now : Z)
    (workflowID version executionID : string)
    (engine : DagEngine.DAGEngine) :
  let r := ExecuteWorkflow es now workflowID version executionID engine in
  (is_Some r.1 ↔ capacity es ≤ GetActiveWorkflows es)
  ∧ (is_Some r.1 → r = (Some (at_capacity_error es), es))
  ∧ (r.1 = None →
     Status <$> activeWorkflows r.2 !! executionID = Some "RUNNING")
  ∧ (∀ engineID now1 wf1 ver1 id1 eng1,
       let first :=
         ExecuteWorkflow (NewEngineService engineID 1) now1 wf1 ver1 id1
                         eng1 in
       let second :=
         ExecuteWorkflow first.2 now workflowID version executionID engine in
       first.1 = None
       ∧ second = (Some "engine at capacity (1)", first.2)
       ∧ (executionID ≠ id1 →
          activeWorkflows second.2 !! executionID = None)).
Proof.
  cbv zeta.
  assert (∀ engineID now1 wf1 ver1 id1 eng1,
            let first :=
              ExecuteWorkflow (NewEngineService engineID 1) now1 wf1 ver1
                              id1 eng1 in
            let second :=
              ExecuteWorkflow first.2 now workflowID version executionID
                              engine in
            first.1 = None
            ∧ second = (Some "engine at capacity (1)", first.2)
            ∧ (executionID ≠ id1 →
               activeWorkflows second.2 !! executionID = None))
    as Hscenario.
  { intros engineID now1 wf1 ver1 id1 eng1. cbv zeta.
    rewrite (execute_below_capacity (NewEngineService engineID 1))
      by (by vm_compute).
    simpl. split; [done|].
    rewrite execute_at_capacity.
    - simpl. split; [done|]. intros Hne. by rewrite lookup_insert_ne.
    - unfold GetActiveWorkflows. simpl.
      rewrite map_size_insert_None by apply lookup_empty.
      rewrite map_size_empty. lia. }
  destruct (Z.le_gt_cases (capacity es) (GetActiveWorkflows es))
    as [Hfull|Hfree].
  - rewrite (execute_at_capacity _ _ _ _ _ _ Hfull). simpl.
    split; [split; eauto|]. done.
  - rewrite (execute_below_capacity _ _ _ _ _ _ Hfree). simpl.
    split; [split; [intros [? [=]] | lia]|].
    split; [intros [? [=]]|].
    split; [intros _; by rewrite lookup_insert_eq|done].
Qed.

End EngineFacts.

(** ** Cancelling the children of an execution *)

Module CoordinatorFacts.
Import Coordinator.

Lemma others_app a b : others (a ++ b) = (others a ++ others b)%list.
Proof.
  induction a as [|[|sec] a IH]; simpl; [done|done|]. by rewrite IH.
Qed.

(** *** One step of the call *)

Lemma cancel_step_requests s pc : (cancel_step s pc).2 = [].
Proof.
  destruct pc as [parent|[|c rest]|[p|] rest|p rest|err]; simpl; try done.
  destruct (heap s !! p) as [x|]; [|done].
  by destruct (bool_decide (Status x = "RUNNING")).
Qed.

Lemma cancel_step_store s pc :
  (cancel_step s pc).1.1 = s
  ∨ ∃ p, (cancel_step s pc).1.1 = write (setStatus "CANCELLED") p s.
Proof.
  destruct pc as [parent|[|c rest]|[p|] rest|p rest|err]; simpl;
    try (by left).
  - destruct (heap s !! p) as [x|]; [|by left].
    destruct (bool_decide (Status x = "RUNNING")); by left.
  - right. by exists p.
Qed.

Lemma cancel_step_returned s pc err :
  (∀ err0, pc = Returned err0 → err0 = None) →
  (cancel_step s pc).1.2 = Returned err → err = None.
Proof.
  intros Hpc.
  destruct pc as [parent|[|c rest]|[p|] rest|p rest|err0]; simpl;
    try done.
  - by intros [= <-].
  - destruct (heap s !! p) as [x|]; [|done].
    by destruct (bool_decide (Status x = "RUNNING")).
  - intros [= <-]. by apply Hpc.
Qed.

(** *** The call among the other goroutines *)

Lemma marked_refl l : Forall2 marked l l.
Proof. induction l; constructor; [by left|done]. Qed.

Lemma marked_cancelled x y :
  marked x y → marked (setStatus "CANCELLED" x) y.
Proof. intros [->| ->]; right; [done|]. by destruct y. Qed.

Lemma occur_marked a b sec :
  active a = active b → children a = children b →
  Forall2 marked (heap a) (heap b) →
  active (occur a sec) = active (occur b sec)
  ∧ children (occur a sec) = children (occur b sec)
  ∧ Forall2 marked (heap (occur a sec)) (heap (occur b sec)).
Proof.
  intros Ha Hc Hh.
  destruct sec as [nanos start sub ver pwf pex|exec|exec [err|] outputs
                  |exec now|exec]; simpl.
  - rewrite Ha, Hc, (Forall2_length _ _ _ Hh). split; [done|]. split; [done|].
    apply Forall2_app; [done|]. apply marked_refl.
  - split; [done|]. split; [done|]. apply Forall2_alter; [done|].
    intros x y _ _ [->| ->]; left; [done|]. by destruct y.
  - split; [done|]. split; [done|]. apply Forall2_alter; [done|].
    intros x y _ _ [->| ->]; left; [done|]. by destruct y.
  - split; [done|]. split; [done|]. apply Forall2_alter; [done|].
    intros x y _ _ [->| ->]; left; [done|]. by destruct y.
  - split; [done|]. split; [done|]. apply Forall2_alter; [done|].
    intros x y _ _ [->| ->]; [by left|right]. by destruct y.
  - split; [done|]. split; [done|]. apply Forall2_alter; [done|].
    intros x y _ _ [->| ->]; left; [done|]. by destruct y.
Qed.

(** In every interleaving the call makes no request, does not return an
    error, and leaves the coordinator as the other goroutines make it,
    but for records whose status it has replaced by CANCELLED. *)
Lemma run_marks_only schedule s parentExecutionID :
  cr_requests (CancelChildren schedule s parentExecutionID) = []
  ∧ (∀ err, cr_at (CancelChildren schedule s parentExecutionID)
            = Returned err → err = None)
  ∧ active (cr_store (CancelChildren schedule s parentExecutionID))
    = active (without_call schedule s)
  ∧ children (cr_store (CancelChildren schedule s parentExecutionID))
    = children (without_call schedule s)
  ∧ Forall2 marked
      (heap (cr_store (CancelChildren schedule s parentExecutionID)))
      (heap (without_call schedule s)).
Proof.
  unfold CancelChildren, without_call.
  induction schedule as [|m schedule IH] using rev_ind.
  - simpl. split; [done|]. split; [done|]. split; [done|]. split; [done|].
    apply marked_refl.
  - rewrite others_app, !foldl_app.
    destruct IH as (Hreq & Herr & Ha & Hc & Hh).
    destruct m as [|sec]; simpl.
    + pose proof (cancel_step_requests
                    (cr_store (foldl move_on
                       (mkCancelRun s (AtChildren parentExecutionID) [])
                       schedule))
                    (cr_at (foldl move_on
                       (mkCancelRun s (AtChildren parentExecutionID) [])
                       schedule))) as Hnone.
      pose proof (cancel_step_store
                    (cr_store (foldl move_on
                       (mkCancelRun s (AtChildren parentExecutionID) [])
                       schedule))
                    (cr_at (foldl move_on
                       (mkCancelRun s (AtChildren parentExecutionID) [])
                       schedule))) as Hstore.
      pose proof (cancel_step_returned
                    (cr_store (foldl move_on
                       (mkCancelRun s (AtChildren parentExecutionID) [])
                       schedule))
                    (cr_at (foldl move_on
                       (mkCancelRun s (AtChildren parentExecutionID) [])
                       schedule))) as Hret.
      destruct (cancel_step _ _) as [[s1 pc1] requests]. simpl in *.
      subst requests. rewrite Hreq. split; [done|].
      split; [intros err; by apply Hret|].
      destruct Hstore as [->|[p ->]]; [done|]. simpl.
      split; [done|]. split; [done|].
      apply Forall2_alter_l; [done|]. intros x y _ _. apply marked_cancelled.
    + split; [done|]. split; [done|]. by apply occur_marked.
Qed.

(** *** The call returns *)

Lemma returned_stays n s err q :
  ∃ q', foldl move_on (mkCancelRun s (Returned err) q) (alone n)
        = mkCancelRun s (Returned err) q'.
Proof.
  revert q. induction n as [|n IH]; intros q; simpl; [by exists q|].
  apply IH.
Qed.

(** The steps of the call for one child, when it runs alone. *)
Lemma lookup_steps s c rest q n :
  cr_at (foldl move_on (mkCancelRun s (AtLookup (c :: rest)) q) (alone n))
  = Returned None →
  ∃ s1 q1 n1,
    foldl move_on (mkCancelRun s (AtLookup (c :: rest)) q) (alone n)
    = foldl move_on (mkCancelRun s1 (AtLookup rest) q1) (alone n1)
    ∧ ((∃ p x, active s !! c = Some p ∧ heap s !! p = Some x
               ∧ Status x = "RUNNING"
               ∧ s1 = write (setStatus "CANCELLED") p s)
       ∨ (s1 = s
          ∧ ∀ p x, active s !! c = Some p → heap s !! p = Some x →
                   Status x ≠ "RUNNING")).
Proof.
  destruct n as [|n]; [done|]. simpl.
  destruct (active s !! c) as [p|] eqn:Hc.
  - destruct n as [|n]; [done|]. simpl.
    destruct (heap s !! p) as [x|] eqn:Hx.
    + destruct (bool_decide_reflect (Status x = "RUNNING")) as [Hrun|Hrun].
      * destruct n as [|n]; [done|]. simpl. intros _.
        eexists _, _, n. split; [done|]. left. by exists p, x.
      * intros _. eexists _, _, n. split; [done|]. right. split; [done|].
        intros p' x' [= <-] Hx'. rewrite Hx in Hx'. by injection Hx' as <-.
    + intros _. eexists _, _, n. split; [done|]. right. split; [done|].
      intros p' x' [= <-] Hx'. by rewrite Hx in Hx'.
  - destruct n as [|n]; [done|]. simpl. intros _.
    eexists _, _, n. split; [done|]. right. by split.
Qed.

Lemma returns_from_lookup rest : ∀ s q,
  ∃ n, cr_at (foldl move_on (mkCancelRun s (AtLookup rest) q) (alone n))
       = Returned None.
Proof.
  induction rest as [|c rest IH]; intros s q.
  - by exists 1%nat.
  - destruct (active s !! c) as [p|] eqn:Hc.
    + destruct (heap s !! p) as [x|] eqn:Hx.
      * destruct (bool_decide (Status x = "RUNNING")) eqn:Hrun.
        -- destruct (IH (write (setStatus "CANCELLED") p s) (((q ++ []) ++ []) ++ [])%list) as [n Hn].
           exists (S (S (S n))). simpl. rewrite Hc. simpl.
           rewrite Hx, Hrun. done.
        -- destruct (IH s ((q ++ []) ++ [])%list) as [n Hn].
           exists (S (S n)). simpl. rewrite Hc. simpl. by rewrite Hx, Hrun.
      * destruct (IH s ((q ++ []) ++ [])%list) as [n Hn].
        exists (S (S n)). simpl. rewrite Hc. simpl. by rewrite Hx.
    + destruct (IH s ((q ++ []) ++ [])%list) as [n Hn].
      exists (S (S n)). simpl. by rewrite Hc.
Qed.

Lemma returns_alone r :
  (∀ err, cr_at r = Returned err → err = None) →
  ∃ n, cr_at (foldl move_on r (alone n)) = Returned None.
Proof.
  destruct r as [s pc q]. simpl. intros Herr.
  destruct pc as [parent|rest|[p|] rest|p rest|err].
  - destruct (returns_from_lookup (default [] (children s !! parent)) s
                (q ++ [])%list) as [n Hn].
    by exists (S n).
  - apply returns_from_lookup.
  - destruct (heap s !! p) as [x|] eqn:Hx.
    + destruct (bool_decide (Status x = "RUNNING")) eqn:Hrun.
      * destruct (returns_from_lookup rest
                    (write (setStatus "CANCELLED") p s) ((q ++ []) ++ [])%list)
          as [n Hn].
        exists (S (S n)). simpl. by rewrite Hx, Hrun.
      * destruct (returns_from_lookup rest s (q ++ [])%list) as [n Hn].
        exists (S n). simpl. by rewrite Hx, Hrun.
    + destruct (returns_from_lookup rest s (q ++ [])%list) as [n Hn].
      exists (S n). simpl. by rewrite Hx.
  - destruct (returns_from_lookup rest s (q ++ [])%list) as [n Hn].
    by exists (S n).
  - destruct (returns_from_lookup rest
                (write (setStatus "CANCELLED") p s) (q ++ [])%list) as [n Hn].
    by exists (S n).
  - exists 0%nat. simpl. by rewrite (Herr err).
Qed.

(** *** The call that runs alone *)

Lemma alone_from_lookup rest : ∀ s q n,
  cr_at (foldl move_on (mkCancelRun s (AtLookup rest) q) (alone n))
  = Returned None →
  (∀ c p x, c ∈ rest → active s !! c = Some p → heap s !! p = Some x →
            Status x = "RUNNING" →
            heap (cr_store (foldl move_on
                              (mkCancelRun s (AtLookup rest) q) (alone n)))
              !! p
            = Some (setStatus "CANCELLED" x))
  ∧ (∀ p x, heap s !! p = Some x →
            Status x ≠ "RUNNING"
            ∨ (∀ c, c ∈ rest → active s !! c ≠ Some p) →
            heap (cr_store (foldl move_on
                              (mkCancelRun s (AtLookup rest) q) (alone n)))
              !! p
            = Some x).
Proof.
  induction rest as [|c rest IH]; intros s q n Hret.
  - destruct n as [|n]; [done|]. simpl.
    destruct (returned_stays n s None (q ++ [])%list) as [q' Hq'].
    unfold alone in Hq'. rewrite Hq'. simpl.
    split; [by intros c p x ?%elem_of_nil|done].
  - destruct (lookup_steps _ _ _ _ _ Hret) as (s1 & q1 & n1 & Heq & Hcase).
    rewrite Heq in *.
    destruct (IH s1 q1 n1 Hret) as [Hmark Hframe].
    destruct Hcase as [(pc & xc & Hc & Hxc & Hrun & ->)|[-> Hnot]].
    + split.
      * intros c0 p x Hin Hp Hx Hx_run.
        destruct (decide (p = pc)) as [->|Hne].
        -- rewrite Hx in Hxc. injection Hxc as <-.
           apply Hframe; [|by left]. simpl.
           by rewrite list_lookup_alter_eq, Hx.
        -- apply elem_of_cons in Hin as [->|Hin]; [congruence|].
           apply (Hmark c0); [done|done| |done]. simpl.
           by rewrite list_lookup_alter_ne.
      * intros p x Hx Hcond.
        destruct (decide (p = pc)) as [->|Hne].
        -- exfalso. rewrite Hx in Hxc. injection Hxc as <-.
           destruct Hcond as [Hst|Hno]; [done|].
           by apply (Hno c); [left|].
        -- apply Hframe; [simpl; by rewrite list_lookup_alter_ne|].
           destruct Hcond as [?|Hno]; [by left|right].
           intros c0 Hin. apply Hno. by right.
    + split.
      * intros c0 p x Hin Hp Hx Hx_run.
        apply elem_of_cons in Hin as [->|Hin];
          [by destruct (Hnot p x Hp Hx)|].
        by apply (Hmark c0).
      * intros p x Hx Hcond. apply Hframe; [done|].
        destruct Hcond as [?|Hno]; [by left|right].
        intros c0 Hin. apply Hno. by right.
Qed.

(** C6, as the code has it. In every interleaving with the other
    goroutines of the coordinator, [CancelChildren] makes no request of
    the dispatch side, so nothing, [StopWorkflow] included, goes to an
    engine; it does not return an error, and it returns once it is given
    its steps. All it does to the coordinator is to replace the status of
    records by CANCELLED: the two maps are as the other goroutines make
    them, and so is every record but for such a status. When it runs
    alone, the records it sets to CANCELLED are those of the children of
    the parent that are RUNNING, and every other record is left as it
    was. *)
Theorem cancel_children_marks_without_dispatch
    (s : Store) (parentExecutionID : string) (schedule : list move) :
  cr_requests (CancelChildren schedule s parentExecutionID) = []
  ∧ (∀ err, cr_at (CancelChildren schedule s parentExecutionID)
            = Returned err → err = None)
  ∧ (∃ n, cr_at (CancelChildren (schedule ++ alone n) s parentExecutionID)
          = Returned None)
  ∧ active (cr_store (CancelChildren schedule s parentExecutionID))
    = active (without_call schedule s)
  ∧ children (cr_store (CancelChildren schedule s parentExecutionID))
    = children (without_call schedule s)
  ∧ Forall2 marked
      (heap (cr_store (CancelChildren schedule s parentExecutionID)))
      (heap (without_call schedule s))
  ∧ ∀ n,
      cr_at (CancelChildren (alone n) s parentExecutionID) = Returned None →
      (∀ childID exec x,
         childID ∈ default [] (children s !! parentExecutionID) →
         active s !! childID = Some exec → heap s !! exec = Some x →
         Status x = "RUNNING" →
         heap (cr_store (CancelChildren (alone n) s parentExecutionID))
           !! exec
         = Some (setStatus "CANCELLED" x))
      ∧ (∀ exec x,
           heap s !! exec = Some x →
           Status x ≠ "RUNNING"
           ∨ (∀ childID,
                childID ∈ default [] (children s !! parentExecutionID) →
                active s !! childID ≠ Some exec) →
           heap (cr_store (CancelChildren (alone n) s parentExecutionID))
             !! exec
           = Some x).
Proof.
  destruct (run_marks_only schedule s parentExecutionID)
    as (Hreq & Herr & Ha & Hc & Hh).
  split; [done|]. split; [done|]. split.
  { unfold CancelChildren in *. setoid_rewrite foldl_app.
    by apply returns_alone. }
  split; [done|]. split; [done|]. split; [done|].
  intros n. unfold CancelChildren.
  destruct n as [|n]; [done|]. simpl. apply alone_from_lookup.
Qed.

(** C6 as the specification states it fails: the child started by
    [ExecuteSubWorkflow] is RUNNING; [CancelChildren], running while the
    goroutine of the child waits for the dispatcher, flips its record to
    CANCELLED with its fourth step and returns with its fifth; and however
    far the call has come, it has made no request of the dispatch side, so
    no [StopWorkflow] for the child precedes the flip. *)
Lemma cancel_children_sends_no_stop :
  status_at Samples.coordinator_running Samples.coordinator_child
  = Some "RUNNING"
  ∧ status_at (cr_store (CancelChildren (alone 3)
                           Samples.coordinator_running "exec-7-1"))
              Samples.coordinator_child
    = Some "RUNNING"
  ∧ status_at (cr_store (CancelChildren (alone 4)
                           Samples.coordinator_running "exec-7-1"))
              Samples.coordinator_child
    = Some "CANCELLED"
  ∧ cr_at (CancelChildren (alone 5) Samples.coordinator_running "exec-7-1")
    = Returned None
  ∧ ∀ n, cr_requests (CancelChildren (alone n)
                        Samples.coordinator_running "exec-7-1") = []
         ∧ DispatchStopWorkflow Samples.coordinator_child
           ∉ cr_requests (CancelChildren (alone n)
                            Samples.coordinator_running "exec-7-1").
Proof.
  split; [by vm_compute|]. split; [by vm_compute|].
  split; [by vm_compute|]. split; [by vm_compute|].
  intros n.
  destruct (run_marks_only (alone n) Samples.coordinator_running "exec-7-1")
    as [Hreq _].
  rewrite Hreq. split; [done|]. apply not_elem_of_nil.
Qed.

End CoordinatorFacts.

(** ** The dispatcher: the balancer behind the interface *)

Module DispatcherFacts.
Import Balancer Dispatcher.

(** The implementation behind [loadBalancer] never changes. *)
Lemma kind_AddEngine lb e k :
  is_round_robin (lb_AddEngine lb e k) = is_round_robin lb.
Proof. by destruct lb. Qed.

Lemma kind_RemoveEngine lb e :
  is_round_robin (lb_RemoveEngine lb e) = is_round_robin lb.
Proof. by destruct lb. Qed.

Lemma kind_UpdateEngineCapacity lb e k :
  is_round_robin (lb_UpdateEngineCapacity lb e k) = is_round_robin lb.
Proof. by destruct lb. Qed.

Lemma kind_SelectEngine w lb key :
  is_round_robin (lb_SelectEngine w lb key).2 = is_round_robin lb.
Proof.
  destruct lb as [ch|rr]; simpl.
  - by destruct (bool_decide (size (hashRing ch) = 0%nat)).
  - by destruct (rr_SelectEngine rr key).
Qed.

Lemma kind_discovered o engine :
  is_round_robin (loadBalancer (discovered o engine))
  = is_round_robin (loadBalancer o).
Proof.
  unfold discovered. destruct (engines o !! ID engine); simpl.
  - apply kind_UpdateEngineCapacity.
  - apply kind_AddEngine.
Qed.

Lemma kind_forget present o e :
  is_round_robin (loadBalancer (forget present o e))
  = is_round_robin (loadBalancer o).
Proof.
  unfold forget. destruct (bool_decide (e ∈ present)); simpl; [done|].
  apply kind_RemoveEngine.
Qed.

Lemma kind_foldl {A} (f : OrchestratorV2 → A → OrchestratorV2) (xs : list A) :
  (∀ o x, is_round_robin (loadBalancer (f o x))
          = is_round_robin (loadBalancer o)) →
  ∀ o, is_round_robin (loadBalancer (foldl f o xs))
       = is_round_robin (loadBalancer o).
Proof.
  intros Hf. induction xs as [|x xs IH]; intros o; simpl; [done|].
  by rewrite IH, Hf.
Qed.

Lemma kind_onChange o reported :
  is_round_robin (loadBalancer (onChange o reported))
  = is_round_robin (loadBalancer o).
Proof.
  unfold onChange.
  rewrite (kind_foldl (forget _)) by apply kind_forget.
  apply kind_foldl, kind_discovered.
Qed.

Lemma kind_prepare w o now workflowID inputs :
  is_round_robin (loadBalancer (prepare w o now workflowID inputs).2)
  = is_round_robin (loadBalancer o).
Proof.
  unfold prepare.
  destruct (negb _); [done|].
  destruct (Workflows.GetLatestVersion _ _) as [[version [e|]]|msg];
    [done| |done].
  unfold nextExecutionID.
  pose proof (kind_SelectEngine w (loadBalancer o) workflowID) as Hsel.
  simpl. destruct (lb_SelectEngine w (loadBalancer o) workflowID)
    as [[[engineID [e|]]|msg] lb]; simpl in *; [done| |done].
  destruct (engines o !! engineID) as [info|]; [|done].
  destruct (Workflows.BuildWorkflow _ _) as [def [e|]]; [done|].
  by destruct (Connect w info).
Qed.

Lemma kind_ExecuteWorkflow w o now workflowID inputs :
  is_round_robin (loadBalancer (ExecuteWorkflow w o now workflowID inputs).2)
  = is_round_robin (loadBalancer o).
Proof.
  unfold ExecuteWorkflow.
  pose proof (kind_prepare w o now workflowID inputs) as Hprep.
  destruct (prepare w o now workflowID inputs) as [[[resp err|e x v info req]|msg] o2];
    simpl in *; [done| |done].
  destruct (loadBalancer o2) as [ch|rr] eqn:Hlb; simpl in *.
  - by destruct (conn_ExecuteWorkflow w info req) as [[resp|] [err|]].
  - by rewrite Hlb.
Qed.

Lemma kind_occur w o ev :
  is_round_robin (loadBalancer (occur w o ev))
  = is_round_robin (loadBalancer o).
Proof.
  destruct ev as [now wf ver b meta|reported|now wf inputs|now]; simpl.
  - unfold RegisterWorkflow.
    by destruct (Workflows.RegisterWorkflow _ _ _ _ _ _) as [[err wm]|msg].
  - apply kind_onChange.
  - apply kind_ExecuteWorkflow.
  - done.
Qed.

Lemma kind_after w evs o :
  is_round_robin (loadBalancer (after w evs o))
  = is_round_robin (loadBalancer o).
Proof. apply kind_foldl. intros; apply kind_occur. Qed.

(** What the constructor builds from the configured balancer type. *)
Lemma constructed_kind cfg discovery o :
  NewOrchestratorV2 cfg discovery = (Some o, None) →
  (LoadBalancerType cfg = "round-robin"
   ∧ is_round_robin (loadBalancer o) = true)
  ∨ (LoadBalancerType cfg = "consistent-hash"
     ∧ is_round_robin (loadBalancer o) = false).
Proof.
  unfold NewOrchestratorV2. destruct (Validate cfg); [done|].
  destruct (bool_decide_reflect (LoadBalancerType cfg = "consistent-hash"))
    as [Hch|Hch].
  - destruct (negb _); [done|]. destruct discovery; [done|].
    intros [= <-]. right. done.
  - destruct (bool_decide_reflect (LoadBalancerType cfg = "round-robin"))
      as [Hrr|Hrr]; [|done].
    destruct (negb _); [done|]. destruct discovery; [done|].
    intros [= <-]. left. done.
Qed.

Lemma bookkeeping_panics w o now workflowID inputs :
  reaches_bookkeeping w o now workflowID inputs = true →
  is_round_robin (loadBalancer o) = true →
  panicked (ExecuteWorkflow w o now workflowID inputs).1 = true.
Proof.
  unfold reaches_bookkeeping, ExecuteWorkflow.
  pose proof (kind_prepare w o now workflowID inputs) as Hprep.
  destruct (prepare w o now workflowID inputs)
    as [[[resp err|e x v info req]|msg] o2]; simpl in *; [done| |done].
  intros _ Hrr. rewrite Hrr in Hprep.
  by destruct (loadBalancer o2) as [ch|rr].
Qed.

(** C9. Take a dispatcher built by [NewOrchestratorV2] and any life of
    registrations, discovery callbacks and executions after it. If the
    configured balancer type is round-robin, every call of
    [ExecuteWorkflow] that reaches the active-count bookkeeping panics on
    the type assertion, returning neither a response nor an error; and a
    call that reaches the bookkeeping without panicking belongs to a
    dispatcher configured with the consistent-hash balancer. *)
Theorem round_robin_dispatch_panics (w : World) (cfg : Config)
    (discovery : error) (o0 : OrchestratorV2) (evs : list event) (now : Z)
    (workflowID : string) (inputs : gmap string any) :
  NewOrchestratorV2 cfg discovery = (Some o0, None) →
  reaches_bookkeeping w (after w evs o0) now workflowID inputs = true →
  Validate cfg = None
  ∧ (LoadBalancerType cfg = "round-robin" →
     ∃ msg, (ExecuteWorkflow w (after w evs o0) now workflowID inputs).1
            = Panic msg)
  ∧ (panicked (ExecuteWorkflow w (after w evs o0) now workflowID inputs).1
     = false →
     LoadBalancerType cfg = "consistent-hash").
Proof.
  intros Hnew Hreach.
  split.
  { unfold NewOrchestratorV2 in Hnew. by destruct (Validate cfg). }
  pose proof (bookkeeping_panics _ _ _ _ _ Hreach) as Hpanic.
  rewrite kind_after in Hpanic.
  destruct (constructed_kind _ _ _ Hnew) as [[Hrr Hk]|[Hch Hk]].
  - specialize (Hpanic Hk). split.
    + intros _.
      destruct (ExecuteWorkflow w (after w evs o0) now workflowID inputs).1
        as [r|msg]; [done|]. by exists msg.
    + intros Hnp. by rewrite Hnp in Hpanic.
  - split; [|done]. intros Hrr. by rewrite Hrr in Hch.
Qed.

(** The constructor accepts [Samples.round_robin_config], and after one
    discovery callback and one registration a call reaches the bookkeeping. *)
Lemma round_robin_dispatch_panics_witness :
  Validate Samples.round_robin_config = None
  ∧ (LoadBalancerType Samples.round_robin_config = "round-robin" →
     ∃ msg,
       (ExecuteWorkflow Samples.obliging_world
          (after Samples.obliging_world Samples.dispatcher_life
             (mkOrchestratorV2 Samples.round_robin_config
                Workflows.NewWorkflowManager
                (RoundRobin NewRoundRobinLoadBalancer) ∅
                Coordinator.NewSubWorkflowCoordinator 0))
          77 "wf" ∅).1 = Panic msg)
  ∧ (panicked
       (ExecuteWorkflow Samples.obliging_world
          (after Samples.obliging_world Samples.dispatcher_life
             (mkOrchestratorV2 Samples.round_robin_config
                Workflows.NewWorkflowManager
                (RoundRobin NewRoundRobinLoadBalancer) ∅
                Coordinator.NewSubWorkflowCoordinator 0))
          77 "wf" ∅).1 = false →
     LoadBalancerType Samples.round_robin_config = "consistent-hash").
Proof.
  apply (round_robin_dispatch_panics Samples.obliging_world
           Samples.round_robin_config None
           (mkOrchestratorV2 Samples.round_robin_config
              Workflows.NewWorkflowManager
              (RoundRobin NewRoundRobinLoadBalancer) ∅
              Coordinator.NewSubWorkflowCoordinator 0)
           Samples.dispatcher_life 77 "wf" ∅).
  - reflexivity.
  - vm_compute. reflexivity.
Defined.

End DispatcherFacts.

(** ** Execution ids *)

Module ExecutionIdFacts.
Import Dispatcher.

Lemma has_dash_digits x : ∀ s, has_dash (pretty_N_go x s) = has_dash s.
Proof.
  induction (N.lt_wf_0 x) as [x _ IH]; intros s.
  assert (x = 0 ∨ 0 < x)%N as [->|Hx] by lia.
  - by rewrite pretty_N_go_0.
  - rewrite pretty_N_go_step by done.
    rewrite IH by (by apply N.div_lt). simpl.
    unfold pretty_N_char. by repeat case_match.
Qed.

Lemma has_dash_fmt_d z : 0 ≤ z → has_dash (fmt_d z) = false.
Proof.
  intros Hz. unfold fmt_d, pretty, pretty_Z.
  destruct z as [|p|p]; [done| |lia].
  unfold pretty, pretty_positive, pretty, pretty_N.
  destruct (decide (N.pos p = 0%N)); [done|].
  by rewrite has_dash_digits.
Qed.

(** A dash-free suffix after a dash is determined by the whole string. *)
Lemma has_dash_app p d : has_dash (p +:+ String "-"%char d) = true.
Proof.
  induction p as [|c p IH].
  - done.
  - rewrite app_String. simpl. rewrite IH. apply orb_true_r.
Qed.

Lemma dash_suffix_inj p1 : ∀ p2 d1 d2,
  has_dash d1 = false → has_dash d2 = false →
  p1 +:+ String "-"%char d1 = p2 +:+ String "-"%char d2 → d1 = d2.
Proof.
  induction p1 as [|a p1 IH]; intros [|b p2] d1 d2 H1 H2 Heq;
    rewrite ?app_String, ?app_Empty in Heq.
  - by inversion Heq.
  - inversion Heq as [[Ha Hd]]. rewrite Hd, has_dash_app in H1. done.
  - inversion Heq as [[Ha Hd]]. rewrite <- Hd, has_dash_app in H2. done.
  - inversion Heq as [[Ha Hd]]. by eapply IH.
Qed.

Lemma execution_id_inj t1 t2 c1 c2 :
  0 ≤ c1 → 0 ≤ c2 →
  "exec-" +:+ fmt_d t1 +:+ "-" +:+ fmt_d c1
  = "exec-" +:+ fmt_d t2 +:+ "-" +:+ fmt_d c2 →
  c1 = c2.
Proof.
  intros H1 H2 Heq.
  rewrite !app_String, !app_Empty in Heq.
  inversion Heq as [Hrest].
  apply dash_suffix_inj in Hrest; auto using has_dash_fmt_d.
  by apply (inj pretty) in Hrest.
Qed.

Lemma mint_lookup clock : ∀ o i now,
  0 ≤ executionCounter o →
  executionCounter o + Z.of_nat (length clock) ≤ int_max →
  clock !! i = Some now →
  mint o clock !! i
  = Some ("exec-" +:+ fmt_d now +:+ "-"
          +:+ fmt_d (executionCounter o + Z.of_nat i + 1)).
Proof.
  pose proof int_min_neg as Hmin.
  induction clock as [|t clock IH]; intros o i now H0 Hmax Hi; [done|].
  simpl in Hmax. simpl.
  destruct i as [|i]; simpl in *.
  - injection Hi as ->. rewrite wrap_int_id by lia.
    by rewrite Z.add_0_r.
  - rewrite (IH _ i now); simpl; rewrite ?wrap_int_id; try lia; [|done].
    do 5 f_equal. lia.
Qed.

Lemma mint_length clock : ∀ o, length (mint o clock) = length clock.
Proof. induction clock as [|t clock IH]; intros o; simpl; auto. Qed.

(** A new dispatcher counts from zero. *)
Lemma constructed_counter cfg discovery o :
  NewOrchestratorV2 cfg discovery = (Some o, None) → executionCounter o = 0.
Proof.
  unfold NewOrchestratorV2. destruct (Validate cfg); [done|].
  destruct (bool_decide (LoadBalancerType cfg = "consistent-hash")).
  - destruct (negb _); [done|]. destruct discovery; [done|].
    by intros [= <-].
  - destruct (bool_decide (LoadBalancerType cfg = "round-robin")); [|done].
    destruct (negb _); [done|]. destruct discovery; [done|].
    by intros [= <-].
Qed.

Example first_execution_ids :
  mint (mkOrchestratorV2 Samples.consistent_hash_config
          Workflows.NewWorkflowManager
          (Balancer.ConsistentHash (Balancer.NewConsistentHashLoadBalancer 150))
          ∅ Coordinator.NewSubWorkflowCoordinator 0) [17; 17]
  = ["exec-17-1"; "exec-17-2"].
Proof. by vm_compute. Qed.

(** C8. On a dispatcher whose counter has room for them (a new dispatcher
    starts at zero, and an [int64] counts to [int_max]), the calls of
    [nextExecutionID], which the counter's mutex serialises, return ids of
    the form [exec-<unix_nanos>-<counter>] in which the counter goes up by
    one with every call, whatever the clock reads; so the ids returned are
    pairwise distinct. *)
Theorem execution_ids_distinct (o : OrchestratorV2) (clock : list Z) :
  0 ≤ executionCounter o →
  executionCounter o + Z.of_nat (length clock) ≤ int_max →
  (∀ i now, clock !! i = Some now →
     mint o clock !! i
     = Some ("exec-" +:+ fmt_d now +:+ "-"
             +:+ fmt_d (executionCounter o + Z.of_nat i + 1)))
  ∧ NoDup (mint o clock).
Proof.
  intros H0 Hmax. split; [intros; by apply mint_lookup|].
  apply NoDup_alt. intros i j id Hi Hj.
  assert (is_Some (clock !! i)) as [ti Hti].
  { apply lookup_lt_is_Some. rewrite <- (mint_length clock o).
    by eapply lookup_lt_Some. }
  assert (is_Some (clock !! j)) as [tj Htj].
  { apply lookup_lt_is_Some. rewrite <- (mint_length clock o).
    by eapply lookup_lt_Some. }
  rewrite (mint_lookup _ _ _ _ H0 Hmax Hti) in Hi.
  rewrite (mint_lookup _ _ _ _ H0 Hmax Htj) in Hj.
  injection Hi as Hi. injection Hj as Hj. rewrite <- Hj in Hi.
  apply execution_id_inj in Hi; lia.
Qed.

(** Four calls on a new dispatcher, two of them at the same clock reading. *)
Lemma execution_ids_distinct_witness :
  (∀ i now, [1700000000000000000; 1700000000000000000; 5; -3] !! i
            = Some now →
     mint (mkOrchestratorV2 Samples.round_robin_config
             Workflows.NewWorkflowManager
             (Balancer.RoundRobin Balancer.NewRoundRobinLoadBalancer) ∅
             Coordinator.NewSubWorkflowCoordinator 0)
          [1700000000000000000; 1700000000000000000; 5; -3] !! i
     = Some ("exec-" +:+ fmt_d now +:+ "-"
             +:+ fmt_d (0 + Z.of_nat i + 1)))
  ∧ NoDup (mint (mkOrchestratorV2 Samples.round_robin_config
                   Workflows.NewWorkflowManager
                   (Balancer.RoundRobin Balancer.NewRoundRobinLoadBalancer) ∅
                   Coordinator.NewSubWorkflowCoordinator 0)
                [1700000000000000000; 1700000000000000000; 5; -3]).
Proof.
  apply (execution_ids_distinct
           (mkOrchestratorV2 Samples.round_robin_config
              Workflows.NewWorkflowManager
              (Balancer.RoundRobin Balancer.NewRoundRobinLoadBalancer) ∅
              Coordinator.NewSubWorkflowCoordinator 0)
           [1700000000000000000; 1700000000000000000; 5; -3]).
  - simpl. lia.
  - by vm_compute.
Defined.

End ExecutionIdFacts.

(** ** The version registry *)

Module RegistryFacts.
Import Versions Workflows.

(** C2, on the code. Register [w] at 1.0.0, then [x] at 1.0.0 with a node
    that invokes [w] as a sub-workflow. The reference is extracted, but the
    latest version of [w] has no dependents, [CanUpdate] allows 2.0.0, and
    the registration of [w] at 2.0.0 is admitted. Only the record of [w]
    registered after [x] lists [x], and only then is a further version
    rejected with the dependents [x]. *)
Theorem later_dependent_is_not_recorded :
  (Samples.register Workflows.NewWorkflowManager "w" "1.0.0"
     (Samples.plain_definition "w" "1.0.0")).1 = Return None
  ∧ (Samples.register Samples.registry_w1 "x" "1.0.0"
       (Samples.referring_definition "x" "1.0.0" "w")).1 = Return None
  ∧ extractDependencies (Samples.referring_definition "x" "1.0.0" "w")
    = ["w"]
  ∧ dependents Samples.registry_w1_x1 "w" = Return []
  ∧ CanUpdate (wm_versions Samples.registry_w1_x1) "w" "2.0.0"
    = Return (true, [], None)
  ∧ (Samples.register Samples.registry_w1_x1 "w" "2.0.0"
       (Samples.plain_definition "w" "2.0.0")).1 = Return None
  ∧ Workflows.GetLatestVersion Samples.registry_w1_x1_w2 "w"
    = Return ("2.0.0", None)
  ∧ dependents Samples.registry_w1_x1_w2 "w" = Return ["x"]
  ∧ (Samples.register Samples.registry_w1_x1_w2 "w" "3.0.0"
       (Samples.plain_definition "w" "3.0.0")).1
    = Return (Some "cannot update workflow w: has dependents [x]").
Proof. repeat split; by vm_compute. Qed.

(** *** The order of versions *)

Example newer_version_samples :
  isNewerVersion "2.0.0" "1.0.0" = true
  ∧ isNewerVersion "1.0.0" "1.0.0" = false
  ∧ isNewerVersion "1.0.1" "1.0" = true
  ∧ isNewerVersion "10.0.0" "9.0.0" = false.
Proof. repeat split. Qed.

Lemma ascii_compare_lt_iff a b :
  Ascii.compare a b = Lt ↔ (N_of_ascii a < N_of_ascii b)%N.
Proof. unfold Ascii.compare. apply N.compare_lt_iff. Qed.

Lemma ascii_compare_refl a : Ascii.compare a a = Eq.
Proof. unfold Ascii.compare. apply N.compare_refl. Qed.

Lemma string_compare_trans s1 : ∀ s2 s3,
  String.compare s1 s2 = Lt → String.compare s2 s3 = Lt →
  String.compare s1 s3 = Lt.
Proof.
  induction s1 as [|a s1 IH]; intros [|b s2] [|c s3]; simpl; try done.
  destruct (Ascii.compare a b) eqn:Hab; [|clear IH|done];
    destruct (Ascii.compare b c) eqn:Hbc; try done.
  - apply Ascii.compare_eq_iff in Hab as ->.
    apply Ascii.compare_eq_iff in Hbc as ->.
    rewrite ascii_compare_refl. apply IH.
  - apply Ascii.compare_eq_iff in Hab as ->. by rewrite Hbc.
  - apply Ascii.compare_eq_iff in Hbc as ->. by rewrite Hab.
  - intros _ _.
    apply (proj1 (ascii_compare_lt_iff _ _)) in Hab.
    apply (proj1 (ascii_compare_lt_iff _ _)) in Hbc.
    assert (Ascii.compare a c = Lt) as ->; [|done].
    apply (proj2 (ascii_compare_lt_iff _ _)). lia.
Qed.

Lemma ltb_trans s1 s2 s3 :
  String.ltb s1 s2 = true → String.ltb s2 s3 = true →
  String.ltb s1 s3 = true.
Proof.
  unfold String.ltb. intros H1 H2.
  destruct (String.compare s1 s2) eqn:H12; try done.
  destruct (String.compare s2 s3) eqn:H23; try done.
  by rewrite (string_compare_trans _ _ _ H12 H23).
Qed.

Lemma lex_le_refl s : lex_le s s.
Proof. by left. Qed.

Lemma lex_le_trans s1 s2 s3 : lex_le s1 s2 → lex_le s2 s3 → lex_le s1 s3.
Proof.
  intros [->|H12] [->|H23]; [by left|by right|by right|].
  right. by eapply ltb_trans.
Qed.

(** *** The records behind the pointers keep their version strings *)

Lemma keeps_records_refl vm : keeps_records vm vm.
Proof. intros p v Hp. by exists v. Qed.

Lemma keeps_records_alloc vm v : keeps_records vm (alloc vm v).2.
Proof.
  intros p x Hp. exists x. split; [|done].
  simpl. by apply lookup_app_l_Some.
Qed.

Lemma keeps_records_update vm version :
  ∀ vm', updateDependencies vm version = Return vm' →
         keeps_records vm vm'
         ∧ versions vm' = versions vm ∧ latest vm' = latest vm.
Proof.
  intros vm'. unfold updateDependencies.
  destruct (heap vm !! version) as [v|] eqn:Hv; [|done].
  destruct (dependents_of _ _ _) as [ds|]; [|done].
  intros [= <-]. simpl. split; [|done].
  intros p x Hp. destruct (decide (p = version)) as [Heq|Hne].
  - subst p. exists (setDependents ds v). split.
    + apply list_lookup_insert_eq. by eapply lookup_lt_Some.
    + pose proof (eq_trans (eq_sym Hv) Hp) as Hvx. by injection Hvx as <-.
  - exists x. split; [|done]. simpl. by rewrite list_lookup_insert_ne.
Qed.

(** One call of [RegisterVersion] moves no workflow's latest version
    backward. *)
Lemma register_version_forward vm version r vm' id s :
  RegisterVersion vm version = Return (r, vm') →
  latest_version vm id = Some s →
  ∃ s', latest_version vm' id = Some s' ∧ lex_le s s'.
Proof.
  unfold RegisterVersion, latest_version.
  destruct (heap vm !! version) as [v|] eqn:Hv; [|done].
  destruct (bool_decide (WorkflowID v = ""));
    [intros [= <- <-] Hs; exists s; split; [done|apply lex_le_refl]|].
  destruct (bool_decide (Version v = ""));
    [intros [= <- <-] Hs; exists s; split; [done|apply lex_le_refl]|].
  destruct (latest vm !! WorkflowID v) as [l|] eqn:Hl.
  - destruct (heap vm !! l) as [cur|] eqn:Hcur; [|done].
    destruct (isNewerVersion (Version v) (Version cur)) eqn:Hnew.
    + destruct (updateDependencies _ _) as [vm2|] eqn:Hupd; [|done].
      intros [= <- <-] Hs.
      apply keeps_records_update in Hupd as (Hkeep & _ & Hlat).
      simpl in *. rewrite Hlat.
      destruct (decide (id = WorkflowID v)) as [->|Hne].
      * rewrite lookup_insert_eq. simpl.
        rewrite Hl in Hs. simpl in Hs. rewrite Hcur in Hs.
        injection Hs as <-.
        destruct (Hkeep _ _ Hv) as (v' & -> & Hver). simpl.
        exists (Version v'). split; [done|]. right. by rewrite Hver.
      * rewrite lookup_insert_ne by done.
        destruct (latest vm !! id) as [l'|]; [|done]. simpl in *.
        destruct (heap vm !! l') as [x|] eqn:Hx; [|done].
        destruct (Hkeep _ _ Hx) as (x' & -> & Hver). simpl.
        injection Hs as <-. exists (Version x'). split; [done|].
        rewrite Hver. apply lex_le_refl.
    + destruct (updateDependencies _ _) as [vm2|] eqn:Hupd; [|done].
      intros [= <- <-] Hs.
      apply keeps_records_update in Hupd as (Hkeep & _ & Hlat).
      simpl in *. rewrite Hlat.
      destruct (latest vm !! id) as [l'|]; [|done]. simpl in *.
      destruct (heap vm !! l') as [x|] eqn:Hx; [|done].
      destruct (Hkeep _ _ Hx) as (x' & -> & Hver). simpl.
      injection Hs as <-. exists (Version x'). split; [done|].
      rewrite Hver. apply lex_le_refl.
  - destruct (updateDependencies _ _) as [vm2|] eqn:Hupd; [|done].
    intros [= <- <-] Hs.
    apply keeps_records_update in Hupd as (Hkeep & _ & Hlat).
    simpl in *. rewrite Hlat.
    destruct (decide (id = WorkflowID v)) as [->|Hne].
    * by rewrite Hl in Hs.
    * rewrite lookup_insert_ne by done.
      destruct (latest vm !! id) as [l'|]; [|done]. simpl in *.
      destruct (heap vm !! l') as [x|] eqn:Hx; [|done].
      destruct (Hkeep _ _ Hx) as (x' & -> & Hver). simpl.
      injection Hs as <-. exists (Version x'). split; [done|].
      rewrite Hver. apply lex_le_refl.
Qed.

Lemma alloc_latest_version vm v id :
  latest_version vm id = Some (default "" (latest_version vm id)) →
  latest_version (alloc vm v).2 id = latest_version vm id.
Proof.
  unfold latest_version. simpl.
  destruct (latest vm !! id) as [l|]; [|done]. simpl.
  destruct (heap vm !! l) as [x|] eqn:Hx; [|done].
  intros _. by rewrite (lookup_app_l_Some _ _ _ _ Hx).
Qed.

Lemma perform_forward vm c id s :
  latest_version vm id = Some s →
  ∃ s', latest_version (perform vm c) id = Some s' ∧ lex_le s s'.
Proof.
  intros Hs. destruct c as [v|p]; simpl.
  - assert (latest_version (alloc vm v).2 id = Some s) as Hs1.
    { rewrite alloc_latest_version; [done|]. by rewrite Hs. }
    destruct (RegisterVersion _ _) as [[r vm2]|msg] eqn:Hreg.
    + by eapply register_version_forward.
    + exists s. split; [done|apply lex_le_refl].
  - destruct (RegisterVersion vm p) as [[r vm2]|msg] eqn:Hreg.
    + by eapply register_version_forward.
    + exists s. split; [done|apply lex_le_refl].
Qed.

Lemma performs_forward cs : ∀ vm id s,
  latest_version vm id = Some s →
  ∃ s', latest_version (foldl perform vm cs) id = Some s' ∧ lex_le s s'.
Proof.
  induction cs as [|c cs IH]; intros vm id s Hs; simpl.
  - exists s. split; [done|apply lex_le_refl].
  - destruct (perform_forward vm c id s Hs) as (s1 & Hs1 & Hle1).
    destruct (IH _ _ _ Hs1) as (s2 & Hs2 & Hle2).
    exists s2. split; [done|]. by eapply lex_le_trans.
Qed.

(** The same at the level of [RegisterWorkflow]. *)
Lemma register_workflow_forward wm now wid ver b meta err wm' id s :
  RegisterWorkflow wm now wid ver b meta = Return (err, wm') →
  latest_version (wm_versions wm) id = Some s →
  ∃ s', latest_version (wm_versions wm') id = Some s' ∧ lex_le s s'.
Proof.
  unfold RegisterWorkflow. intros Hreg Hs.
  assert (∃ s', latest_version (wm_versions wm) id = Some s' ∧ lex_le s s')
    as Hsame by (exists s; split; [done|apply lex_le_refl]).
  destruct (CanUpdate _ _ _) as [[[can deps] e]|msg]; [|done].
  destruct (negb can).
  { destruct (0 <? _); by injection Hreg as <- <-. }
  destruct b as [[def|] [e'|]]; try done; try by injection Hreg as <- <-.
  destruct (alloc _ _) as [p vm1] eqn:Halloc.
  assert (latest_version vm1 id = Some s) as Hs1.
  { replace vm1 with (alloc (wm_versions wm)
      (mkWorkflowVersion wid ver (Some def) now (extractDependencies def) [])).2
      by (by rewrite Halloc).
    rewrite alloc_latest_version; [done|]. by rewrite Hs. }
  destruct (RegisterVersion vm1 p) as [[[e'|] vm2]|msg] eqn:Hrv; [| |done];
    injection Hreg as <- <-; simpl; by eapply register_version_forward.
Qed.

Lemma registrations_forward rs : ∀ wm id s,
  latest_version (wm_versions wm) id = Some s →
  ∃ s', latest_version (wm_versions (foldl register_one wm rs)) id = Some s'
        ∧ lex_le s s'.
Proof.
  induction rs as [|r rs IH]; intros wm id s Hs; simpl.
  - exists s. split; [done|apply lex_le_refl].
  - assert (∃ s1, latest_version (wm_versions (register_one wm r)) id
                  = Some s1 ∧ lex_le s s1) as (s1 & Hs1 & Hle1).
    { unfold register_one.
      destruct (RegisterWorkflow _ _ _ _ _ _) as [[err wm']|msg] eqn:Hreg.
      - by eapply register_workflow_forward.
      - exists s. split; [done|apply lex_le_refl]. }
    destruct (IH _ _ _ Hs1) as (s2 & Hs2 & Hle2).
    exists s2. split; [done|]. by eapply lex_le_trans.
Qed.

(** [String.compare] against the dictionary order. *)
Lemma compare_comes_after s1 : ∀ s2,
  String.compare s2 s1 = Lt ↔ comes_after s1 s2.
Proof.
  induction s1 as [|a s1 IH]; intros [|b s2]; simpl.
  - split; [done|]. intros [(c & r & H)|(p & c & d & r1 & r2 & H & _)].
    + by rewrite app_Empty in H.
    + by destruct p.
  - split; [by destruct (Ascii.compare b b)|].
    intros [(c & r & H)|(p & c & d & r1 & r2 & H & _)].
    + by rewrite app_String in H.
    + by destruct p.
  - split; [|done]. intros _. left. exists a, s1. by rewrite app_Empty.
  - destruct (Ascii.compare b a) eqn:Hba.
    + apply Ascii.compare_eq_iff in Hba as ->. rewrite IH. split.
      * intros [(c & r & ->)|(p & c & d & r1 & r2 & -> & -> & Hlt)].
        -- left. exists c, r. by rewrite app_String.
        -- right. exists (String a p), c, d, r1, r2.
           by rewrite !app_String.
      * intros [(c & r & H)|(p & c & d & r1 & r2 & H1 & H2 & Hlt)].
        -- rewrite app_String in H. inversion H as [Hr].
           left. by exists c, r.
        -- destruct p as [|x p].
           ++ rewrite app_Empty in H1, H2.
              inversion H1; inversion H2; subst. lia.
           ++ rewrite app_String in H1, H2.
              inversion H1; inversion H2; subst.
              right. by exists p, c, d, r1, r2.
    + split; [|done]. intros _. right.
      exists "", a, b, s1, s2. rewrite !app_Empty. split; [done|].
      split; [done|]. by apply (proj1 (ascii_compare_lt_iff b a)).
    + split; [done|].
      assert (N_of_ascii a < N_of_ascii b)%N as Hab.
      { apply (proj1 (ascii_compare_lt_iff a b)).
        by rewrite Ascii.compare_antisym, Hba. }
      intros [(c & r & H)|(p & c & d & r1 & r2 & H1 & H2 & Hlt)].
      * rewrite app_String in H. inversion H; subst. lia.
      * destruct p as [|x p].
        -- rewrite app_Empty in H1, H2.
           inversion H1; inversion H2; subst. lia.
        -- rewrite app_String in H1, H2.
           inversion H1; inversion H2; subst. lia.
Qed.

(** C3, as the code has it. [isNewerVersion v1 v2] holds exactly when [v1]
    comes after [v2] in the dictionary order of their bytes, which is not
    the order of their numbers; and over every sequence of calls of
    [RegisterWorkflow] on a new registry, once a workflow has a latest
    version, every later latest version of it is the same string or one
    that comes after it in that order. *)
Theorem latest_moves_forward_in_byte_order (rs1 rs2 : list registration)
    (id s : string) :
  latest_version (wm_versions (registered rs1)) id = Some s →
  (∃ s', latest_version (wm_versions (registered (rs1 ++ rs2))) id = Some s'
         ∧ (s' = s ∨ comes_after s' s))
  ∧ ∀ v1 v2, isNewerVersion v1 v2 = true ↔ comes_after v1 v2.
Proof.
  intros Hs. split.
  - unfold registered. rewrite foldl_app.
    destruct (registrations_forward rs2 _ _ _ Hs) as (s' & Hs' & [->|Hlt]).
    + exists s'. split; [done|by left].
    + exists s'. split; [done|]. right. apply compare_comes_after.
      unfold String.ltb in Hlt. by destruct (String.compare s s').
  - intros v1 v2. unfold isNewerVersion, String.ltb.
    rewrite <- compare_comes_after. by destruct (String.compare v2 v1).
Qed.

(** After the registration of 1.9.0 the workflow has a latest version. *)
Lemma latest_moves_forward_in_byte_order_witness :
  (∃ s', latest_version
           (wm_versions
              (registered ([Samples.registration_of "w" "1.9.0"]
                           ++ [Samples.registration_of "w" "1.10.0";
                               Samples.registration_of "w" "2.0.0"])))
           "w" = Some s'
         ∧ (s' = "1.9.0" ∨ comes_after s' "1.9.0"))
  ∧ ∀ v1 v2, isNewerVersion v1 v2 = true ↔ comes_after v1 v2.
Proof.
  apply (latest_moves_forward_in_byte_order
           [Samples.registration_of "w" "1.9.0"]
           [Samples.registration_of "w" "1.10.0";
            Samples.registration_of "w" "2.0.0"] "w" "1.9.0").
  by vm_compute.
Defined.

(** C3 as the specification states it fails. In the order of the numbers
    1.10.0 is newer than 1.9.0, but [isNewerVersion] says it is not:
    registering 1.10.0 after 1.9.0 is rejected, and registering 1.9.0 after
    1.10.0 is admitted and moves the latest version from 1.10.0 back to
    1.9.0. *)
Lemma numeric_order_is_not_the_registry_order :
  semver_newer "1.10.0" "1.9.0" = true
  ∧ isNewerVersion "1.10.0" "1.9.0" = false
  ∧ (Samples.register Samples.registry_1_9 "w" "1.10.0"
       (Samples.plain_definition "w" "1.10.0")).1
    = Return (Some "version 1.10.0 is not newer than current 1.9.0")
  ∧ Workflows.GetLatestVersion Samples.registry_1_10 "w"
    = Return ("1.10.0", None)
  ∧ (Samples.register Samples.registry_1_10 "w" "1.9.0"
       (Samples.plain_definition "w" "1.9.0")).1 = Return None
  ∧ Workflows.GetLatestVersion
      (Samples.register Samples.registry_1_10 "w" "1.9.0"
         (Samples.plain_definition "w" "1.9.0")).2 "w"
    = Return ("1.9.0", None).
Proof. repeat split; by vm_compute. Qed.

End RegistryFacts.

(** ** Preprocessing a graph *)

Module PreprocessFacts.
Import DagEngine.

Lemma count_app k l1 l2 : count k (l1 ++ l2) = (count k l1 + count k l2)%nat.
Proof. induction l1 as [|x l1 IH]; simpl; [done|]. rewrite IH. lia. Qed.

Lemma count_replicate k n c :
  count k (replicate n c) = if bool_decide (c = k) then n else 0%nat.
Proof.
  induction n as [|n IH]; simpl.
  - by destruct (bool_decide (c = k)).
  - rewrite IH. destruct (bool_decide (c = k)); lia.
Qed.

Lemma count_pos k l : (0 < count k l)%nat ↔ k ∈ l.
Proof.
  induction l as [|x l IH]; simpl.
  - split; [lia|]. by intros ?%elem_of_nil.
  - rewrite elem_of_cons, <- IH.
    destruct (bool_decide_reflect (x = k)) as [->|Hne]; [split; auto with lia|].
    split; [intros; right; lia|]. intros [->|?]; [done|lia].
Qed.

Lemma count_zero k l : count k l = 0%nat ↔ k ∉ l.
Proof. rewrite <- count_pos. lia. Qed.

Lemma count_NoDup k l : NoDup l → k ∈ l → count k l = 1%nat.
Proof.
  induction 1 as [|x l Hx Hnd IH]; [by intros ?%elem_of_nil|].
  simpl. intros [->|Hk]%elem_of_cons.
  - rewrite bool_decide_eq_true_2 by done.
    apply count_zero in Hx. lia.
  - rewrite bool_decide_eq_false_2 by (intros ->; done).
    rewrite IH by done. done.
Qed.

Lemma setChildren_twice cs cs' n :
  setChildren cs (setChildren cs' n) = setChildren cs n.
Proof. done. Qed.

(** The inner loop. *)
Lemma linkParents_ok c parents : ∀ nodes nodes',
  linkParents c parents nodes = (None, nodes') →
  (∀ p, p ∈ parents → is_Some (nodes !! p))
  ∧ ∀ k, nodes' !! k
         = (λ n, setChildren (Children n ++ replicate (count k parents) c) n)
             <$> nodes !! k.
Proof.
  induction parents as [|p rest IH]; intros nodes nodes'; simpl.
  - intros [= <-]. split; [by intros p ?%elem_of_nil|].
    intros k. destruct (nodes !! k) as [n|]; [|done]. simpl.
    rewrite app_nil_r. by destruct n.
  - destruct (nodes !! p) as [pn|] eqn:Hp; [|done].
    intros Hrest. apply IH in Hrest as [Hall Hlook]. split.
    + intros q [->|Hq]%elem_of_cons; [by rewrite Hp|].
      specialize (Hall q Hq). rewrite lookup_insert in Hall.
      destruct (decide (p = q)) as [->|]; [by rewrite Hp|done].
    + intros k. rewrite Hlook, lookup_insert.
      destruct (decide (p = k)) as [->|Hne].
      * rewrite Hp. simpl. rewrite bool_decide_eq_true_2 by done.
        rewrite setChildren_twice. simpl. f_equal.
        unfold setChildren. simpl. by rewrite <- app_assoc.
      * by rewrite bool_decide_eq_false_2.
Qed.

Lemma linkParents_domain c parents : ∀ nodes k,
  is_Some ((linkParents c parents nodes).2 !! k) ↔ is_Some (nodes !! k).
Proof.
  induction parents as [|p rest IH]; intros nodes k; simpl; [done|].
  destruct (nodes !! p) as [pn|] eqn:Hp; [|done].
  rewrite IH, lookup_insert.
  destruct (decide (p = k)) as [->|]; [|done].
  rewrite Hp. split; eauto.
Qed.

Lemma linkParents_error c parents : ∀ nodes,
  is_Some (linkParents c parents nodes).1
  ↔ ∃ p, p ∈ parents ∧ nodes !! p = None.
Proof.
  induction parents as [|p rest IH]; intros nodes; simpl.
  - split; [by intros [? ?]|]. by intros (p & ?%elem_of_nil & _).
  - destruct (nodes !! p) as [pn|] eqn:Hp.
    + rewrite IH. split.
      * intros (q & Hq & Hnone). exists q. split; [by right|].
        rewrite lookup_insert in Hnone.
        by destruct (decide (p = q)).
      * intros (q & [->|Hq]%elem_of_cons & Hnone); [congruence|].
        exists q. split; [done|]. rewrite lookup_insert.
        destruct (decide (p = q)) as [->|]; [congruence|done].
    + simpl. split; [|eauto]. intros _. exists p. split; [by left|done].
Qed.

Lemma linkParents_dependencies c parents nodes nodes' k :
  linkParents c parents nodes = (None, nodes') →
  Dependencies <$> nodes' !! k = Dependencies <$> nodes !! k.
Proof.
  intros [_ Hlook]%linkParents_ok. rewrite Hlook.
  by destruct (nodes !! k).
Qed.

(** The outer loop, on an order all of whose entries are nodes. *)
Lemma linkAll_ok (D : string → list string) order : ∀ nodes nodes',
  (∀ c n, nodes !! c = Some n → Dependencies n = D c) →
  (∀ c, c ∈ order → is_Some (nodes !! c)) →
  linkAll order nodes = (None, nodes') →
  (∀ c p, c ∈ order → p ∈ D c → is_Some (nodes !! p))
  ∧ ∀ k, nodes' !! k
         = (λ n, setChildren (Children n ++ kids D order k) n) <$> nodes !! k.
Proof.
  induction order as [|c rest IH]; intros nodes nodes' HD Hin; simpl.
  - intros [= <-]. split; [by intros c p ?%elem_of_nil|].
    intros k. destruct (nodes !! k) as [n|]; [|done]. simpl.
    unfold kids. simpl. rewrite app_nil_r. by destruct n.
  - destruct (Hin c) as [cn Hc]; [by left|]. rewrite Hc.
    destruct (linkParents c (Dependencies cn) nodes) as [[err|] nodes1]
      eqn:Hlink; [done|].
    intros Hrest.
    pose proof (linkParents_ok _ _ _ _ Hlink) as [Hall Hlook1].
    assert (∀ k, is_Some (nodes1 !! k) ↔ is_Some (nodes !! k)) as Hdom.
    { intros k.
      pose proof (linkParents_domain c (Dependencies cn) nodes k) as Hk.
      by rewrite Hlink in Hk. }
    apply (IH nodes1) in Hrest as [Hall' Hlook].
    + split.
      * intros c' p [->|Hc']%elem_of_cons Hp.
        -- apply Hall. by rewrite (HD _ _ Hc).
        -- apply Hdom. by eapply Hall'.
      * intros k. rewrite Hlook, Hlook1.
        destruct (nodes !! k) as [n|]; [|done]. simpl. f_equal.
        unfold setChildren. simpl. f_equal.
        rewrite <- app_assoc. f_equal.
        unfold kids. simpl. by rewrite (HD _ _ Hc).
    + intros c' n' Hc'.
      pose proof (linkParents_dependencies _ _ _ _ c' Hlink) as Hdep.
      rewrite Hc' in Hdep. simpl in Hdep.
      destruct (nodes !! c') as [n0|] eqn:Hn0; [|done].
      simpl in Hdep. injection Hdep as ->. by eapply HD.
    + intros c' Hc'. apply Hdom, Hin. by right.
Qed.

Lemma linkAll_error order : ∀ nodes,
  is_Some (linkAll order nodes).1
  ↔ ∃ c n p, c ∈ order ∧ nodes !! c = Some n ∧ p ∈ Dependencies n
             ∧ nodes !! p = None.
Proof.
  induction order as [|c rest IH]; intros nodes; simpl.
  - split; [by intros [? ?]|]. by intros (c & n & p & ?%elem_of_nil & _).
  - destruct (nodes !! c) as [cn|] eqn:Hc.
    + destruct (linkParents c (Dependencies cn) nodes) as [[err|] nodes1]
        eqn:Hlink; simpl.
      * split; [|eauto]. intros _.
        assert (is_Some (linkParents c (Dependencies cn) nodes).1) as Herr
          by (rewrite Hlink; eauto).
        apply linkParents_error in Herr as (p & Hp & Hnone).
        exists c, cn, p. split; [by left|done].
      * assert (¬ is_Some (linkParents c (Dependencies cn) nodes).1) as Hok
          by (rewrite Hlink; simpl; by intros [? ?]).
        rewrite linkParents_error in Hok.
        assert (∀ k, nodes1 !! k = None ↔ nodes !! k = None) as Hdom.
        { intros k.
          pose proof (linkParents_domain c (Dependencies cn) nodes k) as Hk.
          rewrite Hlink in Hk. simpl in Hk.
          rewrite !eq_None_not_Some. by rewrite Hk. }
        assert (∀ k, Dependencies <$> nodes1 !! k
                     = Dependencies <$> nodes !! k) as Hdeps
          by (intros k; by eapply linkParents_dependencies).
        rewrite IH. split.
        -- intros (c' & n' & p & Hc' & Hn' & Hp & Hnone).
           specialize (Hdeps c'). rewrite Hn' in Hdeps.
           destruct (nodes !! c') as [n0|] eqn:Hn0; [|done].
           simpl in Hdeps. injection Hdeps as Hdeps.
           exists c', n0, p. split; [by right|]. split; [done|].
           split; [by rewrite <- Hdeps|]. by apply Hdom.
        -- intros (c' & n' & p & [->|Hc']%elem_of_cons & Hn' & Hp & Hnone).
           ++ exfalso. apply Hok. exists p. split; [|done]. congruence.
           ++ specialize (Hdeps c'). rewrite Hn' in Hdeps.
              destruct (nodes1 !! c') as [n1|] eqn:Hn1; [|done].
              simpl in Hdeps. injection Hdeps as Hdeps.
              exists c', n1, p. split; [done|]. split; [done|].
              split; [by rewrite Hdeps|]. by apply Hdom.
    + rewrite IH. split.
      * intros (c' & n' & p & Hc' & Hrest). exists c', n', p.
        split; [by right|done].
      * intros (c' & n' & p & [->|Hc']%elem_of_cons & Hn' & Hrest);
          [congruence|]. by exists c', n', p.
Qed.

(** Every possible order of the range visits each node once. *)
Lemma range_order_elem e order c :
  range_order e order → c ∈ order ↔ is_Some (Nodes e !! c).
Proof.
  unfold range_order, keys. intros ->.
  rewrite list_elem_of_fmap. split.
  - intros ([k n] & -> & Hkn%elem_of_map_to_list). simpl. eauto.
  - intros [n Hn]. exists (c, n). split; [done|].
    by apply elem_of_map_to_list.
Qed.

Lemma range_order_NoDup e order : range_order e order → NoDup order.
Proof.
  unfold range_order, keys. intros ->. apply NoDup_fst_map_to_list.
Qed.

Lemma cleared_lookup e c :
  (setChildren [] <$> Nodes e) !! c = setChildren [] <$> Nodes e !! c.
Proof. apply lookup_fmap. Qed.

Lemma preprocess_error_iff e order :
  range_order e order →
  is_Some (PreprocessDAG_in order e).1 ↔ dangling e.
Proof.
  intros Horder. unfold PreprocessDAG_in.
  pose proof (linkAll_error order (setChildren [] <$> Nodes e)) as Herr.
  destruct (linkAll order (setChildren [] <$> Nodes e)) as [err nodes'].
  simpl in *. rewrite Herr. unfold dangling, depends_on. split.
  - intros (c & n & p & Hc & Hn & Hp & Hnone).
    rewrite cleared_lookup in Hn, Hnone.
    destruct (Nodes e !! c) as [n0|] eqn:Hn0; [|done].
    simpl in Hn. injection Hn as <-.
    exists c, p. split; [by exists n0|].
    by destruct (Nodes e !! p).
  - intros (c & p & (n & Hn & Hp) & Hnone).
    exists c, (setChildren [] n), p.
    split; [apply (range_order_elem e); eauto|].
    rewrite !cleared_lookup, Hn, Hnone. done.
Qed.

(** *** What a successful preprocessing establishes *)

Lemma count_kids D order k c :
  count c (kids D order k) = (count c order * count k (D c))%nat.
Proof.
  unfold kids. induction order as [|c' rest IH]; [done|].
  rewrite bind_cons, count_app, count_replicate, IH. simpl.
  destruct (bool_decide_reflect (c' = c)) as [->|Hne]; lia.
Qed.

Lemma elem_of_kids D order k c : c ∈ kids D order k → c ∈ order.
Proof.
  intros Hc%count_pos. apply count_pos.
  rewrite count_kids in Hc. lia.
Qed.

Lemma fresh_add_new e spec :
  Z.of_nat (length spec.1.2) ≤ int_max →
  fresh_graph e → fresh_graph (add_new e spec).
Proof.
  intros Hlen Hfresh. unfold add_new, AddNode. simpl.
  destruct (Nodes e !! spec.1.1) as [n0|] eqn:Hn0; [done|].
  intros id n. simpl. rewrite lookup_insert.
  destruct (decide (spec.1.1 = id)) as [<-|Hne]; [|apply Hfresh].
  intros [= <-]. by exists spec.2.
Qed.

Lemma fresh_foldl specs : ∀ e,
  fresh_graph e →
  Forall (λ spec, Z.of_nat (length spec.1.2) ≤ int_max) specs →
  fresh_graph (foldl add_new e specs).
Proof.
  induction specs as [|spec specs IH]; intros e He Hall; simpl; [done|].
  inversion Hall as [|? ? Hspec Hrest]; subst.
  apply IH; [by apply fresh_add_new|done].
Qed.

Lemma fresh_build specs :
  Forall (λ spec, Z.of_nat (length spec.1.2) ≤ int_max) specs →
  fresh_graph (build specs).
Proof. apply fresh_foldl. intros id n. done. Qed.

Lemma preprocess_result e order e' :
  range_order e order →
  PreprocessDAG_in order e = (None, e') →
  (∀ c p, is_Some (Nodes e !! c) → p ∈ deps_of e c → is_Some (Nodes e !! p))
  ∧ ∀ k, Nodes e' !! k
         = setChildren (kids (deps_of e) order k) <$> Nodes e !! k.
Proof.
  intros Horder Hpre. unfold PreprocessDAG_in in Hpre.
  destruct (linkAll order (setChildren [] <$> Nodes e)) as [err nodes']
    eqn:Hlink.
  injection Hpre as -> <-. simpl.
  destruct (linkAll_ok (deps_of e) order (setChildren [] <$> Nodes e) nodes')
    as [Hall Hlook]; [| |done|].
  - intros c n. rewrite cleared_lookup. unfold deps_of.
    destruct (Nodes e !! c) as [n0|]; [|done]. by intros [= <-].
  - intros c Hc%(range_order_elem e); [|done].
    rewrite cleared_lookup. destruct Hc as [n ->]. eauto.
  - split.
    + intros c p Hc Hp.
      destruct (Hall c p) as [n Hn]; [by apply (range_order_elem e)|done|].
      rewrite cleared_lookup in Hn.
      destruct (Nodes e !! p); [eauto|done].
    + intros k. rewrite Hlook, cleared_lookup.
      by destruct (Nodes e !! k).
Qed.

Lemma preprocess_well_linked e order e' :
  fresh_graph e →
  range_order e order →
  PreprocessDAG_in order e = (None, e') →
  well_linked e' ∧ untouched e'.
Proof.
  intros Hfresh Horder Hpre.
  destruct (preprocess_result e order e' Horder Hpre) as [Hall Hlook].
  assert (∀ c n, Nodes e' !! c = Some n →
            ∃ n0, Nodes e !! c = Some n0
                  ∧ n = setChildren (kids (deps_of e) order c) n0
                  ∧ Dependencies n = deps_of e c) as Hback.
  { intros c n. rewrite Hlook. unfold deps_of.
    destruct (Nodes e !! c) as [n0|]; [|done].
    intros [= <-]. by exists n0. }
  assert (∀ c, is_Some (Nodes e !! c) → is_Some (Nodes e' !! c)) as Hdom.
  { intros c [n0 Hn0]. rewrite Hlook, Hn0. eauto. }
  split; [split; [|split]|].
  - intros c n p Hn Hp.
    destruct (Hback _ _ Hn) as (n0 & Hn0 & _ & HD).
    apply Hdom, (Hall c); [eauto|]. by rewrite <- HD.
  - intros p c np nc Hnp Hnc.
    destruct (Hback _ _ Hnp) as (p0 & Hp0 & -> & _).
    destruct (Hback _ _ Hnc) as (c0 & Hc0 & _ & ->).
    simpl. rewrite count_kids.
    rewrite (count_NoDup c order); [lia|by eapply range_order_NoDup|].
    apply (range_order_elem e); eauto.
  - intros p np c Hnp Hc.
    destruct (Hback _ _ Hnp) as (p0 & Hp0 & -> & _).
    simpl in Hc. apply elem_of_kids in Hc.
    by apply Hdom, (range_order_elem e order).
  - intros id n Hn.
    destruct (Hback _ _ Hn) as (n0 & Hn0 & -> & _).
    destruct (Hfresh _ _ Hn0) as (task & -> & Hlen). done.
Qed.

Example preprocess_two_branches :
  (PreprocessDAG Samples.two_branches).1 = None
  ∧ Children <$> Nodes Samples.two_branches_ready !! "f" = Some ["g"]
  ∧ Children <$> Nodes Samples.two_branches_ready !! "a" = Some ["b"]
  ∧ ReadyCounter <$> Nodes Samples.two_branches_ready !! "b" = Some 1.
Proof. repeat split; by vm_compute. Qed.

(** C4, as the code has it. [PreprocessDAG], in whatever order its range
    over the node map runs, returns an error exactly when some
    [dependencies[]] entry names a node that does not exist. It looks for
    nothing else: a graph with a cycle, all of whose dependencies exist,
    is accepted. *)
Theorem preprocess_rejects_exactly_dangling (e : DAGEngine)
    (order : list string) :
  range_order e order →
  (is_Some (PreprocessDAG_in order e).1 ↔ dangling e)
  ∧ (has_cycle e → ¬ dangling e → (PreprocessDAG_in order e).1 = None).
Proof.
  intros Horder. pose proof (preprocess_error_iff e order Horder) as Hiff.
  split; [done|]. intros _ Hnd.
  destruct (PreprocessDAG_in order e).1 as [err|] eqn:Herr; [|done].
  exfalso. apply Hnd, Hiff. eauto.
Qed.

(** The keys of the node map in the order of [keys] are an order of the
    range. *)
Lemma preprocess_rejects_exactly_dangling_witness :
  (is_Some (PreprocessDAG_in (keys Samples.dangling_graph)
                             Samples.dangling_graph).1
   ↔ dangling Samples.dangling_graph)
  ∧ (has_cycle Samples.dangling_graph → ¬ dangling Samples.dangling_graph →
     (PreprocessDAG_in (keys Samples.dangling_graph)
                       Samples.dangling_graph).1 = None).
Proof.
  apply (preprocess_rejects_exactly_dangling Samples.dangling_graph
           (keys Samples.dangling_graph)).
  unfold range_order. reflexivity.
Defined.

(** C4 as the specification states it fails: the graph of two nodes that
    depend on each other has a cycle, [PreprocessDAG] returns no error on
    it, and [Run] on the result starts nothing and returns [nil]. *)
Lemma cyclic_graph_is_accepted :
  has_cycle Samples.cyclic_graph
  ∧ (PreprocessDAG Samples.cyclic_graph).1 = None
  ∧ Run_result (Run_start Samples.background
                          (PreprocessDAG Samples.cyclic_graph).2)
    = Some None.
Proof.
  split; [|split; by vm_compute].
  exists "a". apply tc_l with "b"; [|apply tc_once].
  - exists (NewNode "a" ["b"] Samples.succeeding).
    split; [by vm_compute|]. simpl. by left.
  - exists (NewNode "b" ["a"] Samples.succeeding).
    split; [by vm_compute|]. simpl. by left.
Qed.

End PreprocessFacts.

(** ** The scheduler *)

Module SchedulerFacts.
Import DagEngine PreprocessFacts.

(** *** Sums over the dependencies of a node *)

Lemma sum_with_ext (f g : string → nat) l :
  (∀ x, x ∈ l → f x = g x) → sum_list_with f l = sum_list_with g l.
Proof.
  induction l as [|x l IH]; intros Hfg; simpl; [done|].
  rewrite Hfg by (by left). rewrite IH; [done|].
  intros y Hy. apply Hfg. by right.
Qed.

Lemma sum_with_decrement (f g : string → nat) l q :
  NoDup l → q ∈ l → (∀ x, x ≠ q → g x = f x) → S (g q) = f q →
  S (sum_list_with g l) = sum_list_with f l.
Proof.
  induction 1 as [|x l Hx Hnd IH]; [by intros ?%elem_of_nil|].
  intros [->|Hq]%elem_of_cons Hother Hq'; simpl.
  - rewrite <- Hq'. rewrite (sum_with_ext g f); [lia|].
    intros y Hy. apply Hother. intros ->. done.
  - rewrite <- (IH Hq Hother Hq'). rewrite Hother; [lia|].
    intros ->. done.
Qed.

Lemma sum_with_zero (f : string → nat) l x :
  sum_list_with f l = 0%nat → x ∈ l → f x = 0%nat.
Proof.
  induction l as [|y l IH]; simpl; [by intros _ ?%elem_of_nil|].
  intros Hsum [->|Hx]%elem_of_cons; [lia|]. apply IH; [lia|done].
Qed.

Lemma sum_with_ge (f : string → nat) l x :
  x ∈ l → (f x ≤ sum_list_with f l)%nat.
Proof.
  induction l as [|y l IH]; simpl; [by intros ?%elem_of_nil|].
  intros [->|Hx]%elem_of_cons; [lia|]. specialize (IH Hx). lia.
Qed.

Lemma sum_indicator x l :
  sum_list_with (λ p, if bool_decide (x = p) then 1 else 0)%nat l = count x l.
Proof.
  induction l as [|y l IH]; simpl; [done|]. rewrite IH.
  destruct (bool_decide_reflect (x = y)) as [->|Hne].
  - by rewrite bool_decide_eq_true_2.
  - rewrite bool_decide_eq_false_2; [done|]. by intros ->.
Qed.

Lemma sum_with_plus (f g : string → nat) l :
  sum_list_with (λ p, f p + g p)%nat l
  = (sum_list_with f l + sum_list_with g l)%nat.
Proof. induction l as [|y l IH]; simpl; [done|]. rewrite IH. lia. Qed.

(** Counting every distinct entry of a slice with its multiplicity counts
    the slice. *)
Lemma sum_count_remove_dups l :
  sum_list_with (λ p, count p l) (remove_dups l) = length l.
Proof.
  induction l as [|x l IH]; simpl; [done|].
  assert (∀ L, sum_list_with
                 (λ p, (if bool_decide (x = p) then 1 else 0) + count p l)%nat L
               = (count x L + sum_list_with (λ p, count p l) L)%nat) as Hsplit.
  { intros L. by rewrite sum_with_plus, sum_indicator. }
  destruct (decide_rel elem_of x l) as [Hin|Hnin]; simpl.
  - rewrite Hsplit, IH.
    rewrite (count_NoDup x (remove_dups l)); [done|apply NoDup_remove_dups|].
    by apply elem_of_remove_dups.
  - rewrite bool_decide_eq_true_2 by done.
    rewrite Hsplit, IH.
    assert (count x l = 0%nat) as -> by (by apply count_zero).
    assert (count x (remove_dups l) = 0%nat) as ->; [|done].
    apply count_zero. by rewrite elem_of_remove_dups.
Qed.

(** *** The invariant holds when [Run] has spawned the roots *)

Lemma root_no_dependencies n : is_root n = true → Dependencies n = [].
Proof. unfold is_root. by destruct (Dependencies n). Qed.

Lemma start_routines c e id :
  routines (Run_start c e) !! id
  = match Nodes e !! id with
    | Some n => if is_root n then Some Spawned else None
    | None => None
    end.
Proof.
  unfold Run_start. simpl. rewrite lookup_fmap.
  destruct (Nodes e !! id) as [n|] eqn:Hn.
  - destruct (is_root n) eqn:Hroot.
    + erewrite map_lookup_filter_Some_2; [done|done|]. simpl. done.
    + rewrite map_lookup_filter_None_2; [done|]. right.
      intros n' Hn'. simpl. rewrite Hn in Hn'. injection Hn' as <-.
      by rewrite Hroot.
  - rewrite map_lookup_filter_None_2; [done|]. by left.
Qed.

Lemma invariant_start c e :
  well_linked e → untouched e → invariant e (Run_start c e).
Proof.
  intros (Hexist & Hmirror & Hchild) Hfresh.
  split.
  - done.
  - intros id [g Hg]. rewrite start_routines in Hg. simpl.
    destruct (Nodes e !! id); [eauto|done].
  - intros id n Hn. rewrite start_routines. simpl in Hn. rewrite Hn.
    destruct (Hfresh _ _ Hn) as (Hst & _ & Hmu & _).
    by destruct (is_root n).
  - intros c0 n Hn. simpl in Hn.
    destruct (Hfresh _ _ Hn) as (_ & -> & _ & _).
    rewrite <- (sum_count_remove_dups (Dependencies n)). f_equal.
    apply sum_with_ext. intros p Hp.
    apply (proj1 (elem_of_remove_dups _ _)) in Hp.
    unfold owed. change (nodes (Run_start c e)) with (Nodes e).
    destruct (Hexist _ _ _ Hn Hp) as [np Hnp].
    rewrite Hnp, start_routines, Hnp, <- (Hmirror _ _ _ _ Hnp Hn).
    by destruct (is_root np).
  - intros c0 n Hn. simpl in Hn.
    destruct (Hfresh _ _ Hn) as (_ & -> & _ & Hlen). done.
  - intros c0 n Hn [g Hg]. rewrite start_routines in Hg.
    simpl in Hn. rewrite Hn in Hg.
    destruct (is_root n) eqn:Hroot; [|done].
    destruct (Hfresh _ _ Hn) as (_ & -> & _ & _).
    by rewrite (root_no_dependencies _ Hroot).
  - intros p np rest c0 Hg. rewrite start_routines in Hg.
    destruct (Nodes e !! p) as [n|]; [|done]. by destruct (is_root n).
Qed.

(** *** The invariant is kept by every step *)

Section steps.
Variable e : DAGEngine.
Hypothesis linked : well_linked e.

(** A step that touches one node and its goroutine, and leaves the
    counter, the dependencies, the children and what the node owes. *)
Lemma invariant_local st st' id n n' g' :
  invariant e st →
  nodes st !! id = Some n →
  (∀ k, nodes st' !! k = if decide (k = id) then Some n' else nodes st !! k) →
  (∀ k, routines st' !! k
        = if decide (k = id) then Some g' else routines st !! k) →
  Dependencies n' = Dependencies n →
  Children n' = Children n →
  ReadyCounter n' = ReadyCounter n →
  (is_Some (routines st !! id) ∨ ReadyCounter n = 0) →
  routine_status (Some g') n' →
  (∀ c, is_Some (nodes st !! c) → owed_by n' (Some g') c = owed st id c) →
  (∀ rest c, g' = Triggering rest → c ∈ rest → c ∈ Children n) →
  invariant e st'.
Proof.
  intros Hinv Hn Hnodes Hroutines Hdeps Hkids Hcounter Hzero Hstatus Howed
    Hrest.
  assert (∀ p c, is_Some (nodes st !! c) → owed st' p c = owed st p c)
    as Hsame.
  { intros p c Hc. unfold owed at 1. rewrite Hnodes, Hroutines.
    destruct (decide (p = id)) as [->|Hne]; [by apply Howed|done]. }
  split.
  - intros k. rewrite Hnodes. destruct (decide (k = id)) as [->|].
    + rewrite <- (inv_shape _ _ Hinv), Hn. simpl. by rewrite Hdeps, Hkids.
    + apply (inv_shape _ _ Hinv).
  - intros k. rewrite Hnodes, Hroutines.
    destruct (decide (k = id)); [eauto|apply (inv_routine _ _ Hinv)].
  - intros k n0. rewrite Hnodes, Hroutines.
    destruct (decide (k = id)) as [->|]; [by intros [= <-]|].
    apply (inv_status _ _ Hinv).
  - intros c n0 Hn0.
    assert (∃ n1, nodes st !! c = Some n1
                  ∧ ReadyCounter n0 = ReadyCounter n1
                  ∧ Dependencies n0 = Dependencies n1) as (n1 & Hn1 & -> & ->).
    { rewrite Hnodes in Hn0. destruct (decide (c = id)) as [->|].
      - injection Hn0 as <-. by exists n.
      - by exists n0. }
    rewrite (inv_counter _ _ Hinv _ _ Hn1). f_equal.
    apply sum_with_ext. intros p _. symmetry. apply Hsame. eauto.
  - intros c n0. rewrite Hnodes. destruct (decide (c = id)) as [->|].
    + intros [= <-]. rewrite Hcounter. by apply (inv_bound _ _ Hinv id).
    + apply (inv_bound _ _ Hinv).
  - intros c n0. rewrite Hnodes, Hroutines.
    destruct (decide (c = id)) as [->|].
    + intros [= <-] _. rewrite Hcounter.
      destruct Hzero as [Hsome|Hz]; [|done].
      by apply (inv_launched _ _ Hinv id).
    + apply (inv_launched _ _ Hinv).
  - intros p np rest c. rewrite Hnodes, Hroutines.
    destruct (decide (p = id)) as [->|].
    + intros [= ->] [= <-] Hc. rewrite Hkids. by eapply Hrest.
    + apply (inv_rest _ _ Hinv).
Qed.

(** What the invariant says when a loop of [triggerChildren] reaches a
    child that is a node: the child has not been launched, it is PENDING,
    its counter is positive, and the parent is one of its dependencies. *)
Lemma trigger_child_facts st p c rest nc :
  invariant e st →
  routines st !! p = Some (Triggering (c :: rest)) →
  nodes st !! c = Some nc →
  p ≠ c
  ∧ p ∈ remove_dups (Dependencies nc)
  ∧ 1 ≤ ReadyCounter nc ≤ int_max
  ∧ routines st !! c = None
  ∧ Status nc = "PENDING"
  ∧ mu_held nc = false
  ∧ owed st p c = S (count c rest).
Proof.
  intros Hinv Hp Hc.
  destruct linked as (Hexist & Hmirror & Hchild).
  destruct (inv_routine _ _ Hinv p) as [np Hnp]; [by rewrite Hp|].
  assert (c ∈ Children np) as Hkid
    by (eapply (inv_rest _ _ Hinv); [done|done|by left]).
  pose proof (inv_shape _ _ Hinv p) as Hsp. rewrite Hnp in Hsp.
  pose proof (inv_shape _ _ Hinv c) as Hsc. rewrite Hc in Hsc.
  destruct (Nodes e !! p) as [ep|] eqn:Hep; [|done].
  destruct (Nodes e !! c) as [ec|] eqn:Hec; [|done].
  simpl in Hsp, Hsc. injection Hsp as Hpd Hpk. injection Hsc as Hcd Hck.
  assert (p ∈ Dependencies nc) as Hdep.
  { apply count_pos. rewrite Hcd, <- (Hmirror _ _ _ _ Hep Hec), <- Hpk.
    by apply count_pos. }
  assert (owed st p c = S (count c rest)) as Howed.
  { unfold owed. rewrite Hnp, Hp. simpl.
    by rewrite bool_decide_eq_true_2. }
  assert (1 ≤ ReadyCounter nc) as Hpos.
  { rewrite (inv_counter _ _ Hinv _ _ Hc).
    pose proof (sum_with_ge (λ q, owed st q c)
                  (remove_dups (Dependencies nc)) p) as Hge.
    specialize (Hge ltac:(by apply elem_of_remove_dups)).
    simpl in Hge. rewrite Howed in Hge. lia. }
  assert (routines st !! c = None) as Hnone.
  { destruct (routines st !! c) as [g|] eqn:Hg; [|done].
    pose proof (inv_launched _ _ Hinv _ _ Hc) as Hz.
    rewrite Hg in Hz. specialize (Hz ltac:(eauto)). lia. }
  pose proof (inv_status _ _ Hinv _ _ Hc) as Hst. rewrite Hnone in Hst.
  destruct Hst as [Hst Hmu].
  split; [intros ->; by rewrite Hp in Hnone|].
  split; [by apply elem_of_remove_dups|].
  split; [split; [done|by apply (inv_bound _ _ Hinv c)]|]. done.
Qed.

(** One iteration of the loop at a child that is a node. [gc] is the
    goroutine of the child afterwards: spawned when the counter has
    reached zero, none otherwise. *)
Lemma invariant_trigger st st' p c rest nc gc :
  invariant e st →
  routines st !! p = Some (Triggering (c :: rest)) →
  nodes st !! c = Some nc →
  (∀ k, nodes st' !! k
        = if decide (k = c)
          then Some (setReadyCounter (ReadyCounter nc - 1) nc)
          else nodes st !! k) →
  (∀ k, routines st' !! k
        = if decide (k = p) then Some (Triggering rest)
          else if decide (k = c) then gc else routines st !! k) →
  (gc = Some Spawned ∧ ReadyCounter nc - 1 = 0) ∨ gc = None →
  invariant e st'.
Proof.
  intros Hinv Hp Hc Hnodes Hroutines Hgc.
  destruct (trigger_child_facts _ _ _ _ _ Hinv Hp Hc)
    as (Hne & Hdep & [Hpos Hmax] & Hnone & Hpending & Hmu & Howed).
  destruct (inv_routine _ _ Hinv p) as [np Hnp]; [by rewrite Hp|].
  assert (∀ q x, q ≠ p → owed st' q x = owed st q x) as Hother.
  { intros q x Hq. unfold owed. rewrite Hnodes, Hroutines.
    rewrite (decide_False (P := q = p)) by done.
    destruct (decide (q = c)) as [->|]; [|done].
    rewrite Hc, Hnone. by destruct Hgc as [[-> _]| ->]. }
  assert (∀ x, owed st' p x = count x rest) as Hp'.
  { intros x. unfold owed. rewrite Hnodes, Hroutines.
    rewrite decide_False, decide_True by done. by rewrite Hnp. }
  split.
  - intros k. rewrite Hnodes. destruct (decide (k = c)) as [->|].
    + rewrite <- (inv_shape _ _ Hinv), Hc. done.
    + apply (inv_shape _ _ Hinv).
  - intros k. rewrite Hnodes, Hroutines.
    destruct (decide (k = c)) as [->|]; [eauto|].
    destruct (decide (k = p)) as [->|]; [by rewrite Hnp; eauto|].
    apply (inv_routine _ _ Hinv).
  - intros k n0. rewrite Hnodes, Hroutines.
    destruct (decide (k = c)) as [->|].
    + intros [= <-]. rewrite decide_False by done.
      by destruct Hgc as [[-> _]| ->].
    + intros Hn0. destruct (decide (k = p)) as [->|].
      * pose proof (inv_status _ _ Hinv _ _ Hn0) as Hst.
        by rewrite Hp in Hst.
      * by apply (inv_status _ _ Hinv).
  - intros x n0. rewrite Hnodes. destruct (decide (x = c)) as [->|Hx].
    + intros [= <-]. simpl.
      rewrite (inv_counter _ _ Hinv _ _ Hc).
      rewrite <- (sum_with_decrement (λ q, owed st q c)
                    (λ q, owed st' q c) _ p);
        [lia|apply NoDup_remove_dups|done|by intros; apply Hother|].
      by rewrite Hp', Howed.
    + intros Hn0. rewrite (inv_counter _ _ Hinv _ _ Hn0). f_equal.
      apply sum_with_ext. intros q _.
      destruct (decide (q = p)) as [->|]; [|symmetry; by apply Hother].
      rewrite Hp'. unfold owed. rewrite Hnp, Hp. simpl.
      by rewrite bool_decide_eq_false_2 by (intros ->; done).
  - intros x n0. rewrite Hnodes. destruct (decide (x = c)) as [->|].
    + intros [= <-]. simpl. lia.
    + apply (inv_bound _ _ Hinv).
  - intros x n0. rewrite Hnodes, Hroutines.
    destruct (decide (x = c)) as [->|].
    + intros [= <-]. rewrite decide_False by done. simpl.
      destruct Hgc as [[-> Hz]| ->]; [done|by intros [? ?]].
    + intros Hn0. destruct (decide (x = p)) as [->|].
      * intros _. apply (inv_launched _ _ Hinv _ _ Hn0). by rewrite Hp.
      * by apply (inv_launched _ _ Hinv).
  - intros q nq rest' x. rewrite Hnodes, Hroutines.
    destruct (decide (q = p)) as [->|].
    + rewrite decide_False by done. intros [= <-] Hnq Hx.
      eapply (inv_rest _ _ Hinv); [done|done|by right].
    + destruct (decide (q = c)) as [->|].
      * by destruct Hgc as [[-> _]| ->].
      * apply (inv_rest _ _ Hinv).
Qed.

Lemma lookup_insert_at {A} (m : gmap string A) i x k :
  <[i := x]> m !! k = if decide (k = i) then Some x else m !! k.
Proof.
  rewrite lookup_insert. destruct (decide (i = k)) as [->|Hne].
  - by rewrite decide_True.
  - rewrite decide_False; [done|]. by intros ->.
Qed.

Lemma lookup_same_at {A} (m : gmap string A) i x k :
  m !! i = Some x → m !! k = if decide (k = i) then Some x else m !! k.
Proof. intros Hi. by destruct (decide (k = i)) as [->|]. Qed.

(** The side conditions of [invariant_local] and [invariant_trigger] that
    hold by computing the lookups in the new state. *)
Ltac lookups :=
  first
    [ done
    | by (intros ?; simpl; apply lookup_insert_at)
    | by (intros ?; simpl; apply lookup_same_at)
    | by (intros ?; simpl; rewrite !lookup_insert_at)
    | by (left; match goal with H : routines _ !! _ = Some _ |- _ =>
                  rewrite H end)
    | by (intros ? _;
          match goal with H : ∀ c, owed _ _ c = _ |- _ => rewrite H end)
    | idtac ].

(** No step launches a node twice, and every step keeps the invariant. *)
Lemma step_invariant st id :
  invariant e st →
  match step st id with
  | Stepped st' => invariant e st'
  | Disabled => True
  | SecondLaunch => False
  end.
Proof.
  intros Hinv. unfold step.
  destruct (routines st !! id) as [g|] eqn:Hg; [|done].
  destruct (inv_routine _ _ Hinv id) as [n Hn]; [by rewrite Hg|].
  pose proof (inv_status _ _ Hinv _ _ Hn) as Hst. rewrite Hg in Hst.
  rewrite Hn.
  assert (∀ c, owed st id c = owed_by n (Some g) c) as Howed.
  { intros c. unfold owed. by rewrite Hn, Hg. }
  destruct g as [| | |[|c rest]|]; simpl in Hst; [| | | | |done].
  - (* the goroutine enters [executeNode] *)
    destruct Hst as [Hpending Hmu]. rewrite Hmu.
    eapply (invariant_local st _ id n (setStatus "RUNNING" n) Executing);
      lookups.
  - (* [Execute] returns *)
    destruct Hst as [Hrunning Hmu]. rewrite Hmu.
    destruct (Execute (Task n) (ctx st) None) as [result [err|]].
    + eapply (invariant_local st _ id n
                (setHeld true (setStatus "FAILED" n)) Exited); lookups.
      by right.
    + eapply (invariant_local st _ id n
                (setResult result (setStatus "COMPLETED" n))
                WaitingEngineLock); lookups.
  - (* the goroutine takes the engine lock *)
    destruct (engine_mu st); [done|].
    eapply (invariant_local st _ id n n (Triggering (Children n)));
      lookups.
    by intros rest c [= <-].
  - (* the loop is over *)
    destruct Hst as [Hcompleted Hmu].
    eapply (invariant_local st _ id n n Exited); lookups.
    + by left.
    + intros c _. rewrite Howed. simpl.
      by rewrite bool_decide_eq_true_2.
  - (* one iteration of the loop *)
    unfold trigger_child.
    destruct (nodes st !! c) as [nc|] eqn:Hc.
    + destruct (trigger_child_facts _ _ _ _ _ Hinv Hg Hc)
        as (Hne & Hdep & [Hpos Hmax] & Hnone & Hpending & Hmu & _).
      rewrite Hmu, Hnone.
      rewrite wrap_int_id by (pose proof int_min_neg; lia).
      rewrite (bool_decide_eq_true_2 _ Hpending), andb_true_r.
      destruct (Z.eqb_spec (ReadyCounter nc - 1) 0) as [Hzero|Hnz].
      * eapply (invariant_trigger st _ id c rest nc (Some Spawned));
          lookups.
        by left.
      * eapply (invariant_trigger st _ id c rest nc None); lookups.
        -- intros k. simpl. rewrite lookup_insert_at.
           destruct (decide (k = id)); [done|].
           by destruct (decide (k = c)) as [->|].
        -- by right.
    + eapply (invariant_local st _ id n n (Triggering rest)); lookups.
      * intros x [nx Hx]. rewrite Howed. simpl.
        rewrite bool_decide_eq_false_2; [done|]. intros ->. congruence.
      * intros rest' x [= <-] Hx.
        eapply (inv_rest _ _ Hinv); [done|done|by right].
Qed.

Lemma exec_invariant schedule : ∀ st,
  invariant e st →
  match exec schedule st with
  | Stepped st' => invariant e st'
  | Disabled => True
  | SecondLaunch => False
  end.
Proof.
  induction schedule as [|id rest IH]; intros st Hinv; simpl; [done|].
  pose proof (step_invariant st id Hinv) as Hstep.
  destruct (step st id) as [st'| |]; [by apply IH|done|done].
Qed.

(** *** What the invariant gives *)

Lemma node_of_graph st id en :
  invariant e st → Nodes e !! id = Some en →
  ∃ n, nodes st !! id = Some n ∧ Dependencies n = Dependencies en
       ∧ Children n = Children en.
Proof.
  intros Hinv Hen. pose proof (inv_shape _ _ Hinv id) as Hs.
  rewrite Hen in Hs. destruct (nodes st !! id) as [n|]; [|done].
  simpl in Hs. injection Hs as Hd Hk. by exists n.
Qed.

(** A node is launched only when all its dependencies are COMPLETED. *)
Lemma launched_after_dependencies st c ec p :
  invariant e st →
  Nodes e !! c = Some ec → p ∈ Dependencies ec →
  is_Some (routines st !! c) →
  status_of st p = Some "COMPLETED".
Proof.
  intros Hinv Hec Hp Hlaunched.
  destruct linked as (Hexist & Hmirror & Hchild).
  destruct (node_of_graph _ _ _ Hinv Hec) as (nc & Hnc & Hdeps & _).
  destruct (Hexist _ _ _ Hec Hp) as [ep Hep].
  destruct (node_of_graph _ _ _ Hinv Hep) as (np & Hnp & _ & Hkids).
  pose proof (inv_launched _ _ Hinv _ _ Hnc Hlaunched) as Hzero.
  rewrite (inv_counter _ _ Hinv _ _ Hnc) in Hzero.
  assert (owed st p c = 0%nat) as Howed.
  { apply (sum_with_zero (λ q, owed st q c)
             (remove_dups (Dependencies nc))); [lia|].
    apply elem_of_remove_dups. by rewrite Hdeps. }
  assert (0 < count c (Children np))%nat as Hcount.
  { rewrite Hkids, (Hmirror _ _ _ _ Hep Hec). by apply count_pos. }
  unfold owed in Howed. rewrite Hnp in Howed.
  pose proof (inv_status _ _ Hinv _ _ Hnp) as Hst.
  unfold status_of. rewrite Hnp. simpl. f_equal.
  destruct (routines st !! p) as [[| | |rest|]|]; simpl in *; try lia.
  - by destruct Hst.
  - destruct (bool_decide_reflect (Status np = "COMPLETED")); [done|lia].
Qed.

(** A node below a FAILED node is never launched. *)
Lemma below_failed_not_launched st v f :
  invariant e st →
  tc (depends_on e) v f →
  status_of st f = Some "FAILED" →
  status_of st v = Some "PENDING" ∧ routines st !! v = None.
Proof.
  intros Hinv Hpath Hfailed.
  assert (∀ v u ev, Nodes e !! v = Some ev → u ∈ Dependencies ev →
            status_of st u ≠ Some "COMPLETED" →
            status_of st v = Some "PENDING" ∧ routines st !! v = None)
    as Hblocked.
  { intros v' u ev Hev Hu Hnot.
    destruct (node_of_graph _ _ _ Hinv Hev) as (nv & Hnv & _ & _).
    destruct (routines st !! v') as [g|] eqn:Hg.
    - exfalso. apply Hnot.
      eapply launched_after_dependencies; [done|done|done|].
      by rewrite Hg.
    - pose proof (inv_status _ _ Hinv _ _ Hnv) as Hst. rewrite Hg in Hst.
      destruct Hst as [Hst _]. unfold status_of. by rewrite Hnv, <- Hst. }
  induction Hpath as [v f (ev & Hev & Hf)|v u f (ev & Hev & Hu) _ IH].
  - eapply Hblocked; [done|done|]. by rewrite Hfailed.
  - eapply Hblocked; [done|done|].
    destruct (IH Hfailed) as [-> _]. done.
Qed.

(** The statuses a node takes. *)
Lemma status_values st id s :
  invariant e st → status_of st id = Some s →
  s ∈ ["PENDING"; "RUNNING"; "COMPLETED"; "FAILED"].
Proof.
  intros Hinv. unfold status_of.
  destruct (nodes st !! id) as [n|] eqn:Hn; [|done]. intros [= <-].
  pose proof (inv_status _ _ Hinv _ _ Hn) as Hst.
  destruct (routines st !! id) as [[| | |rest|]|]; simpl in Hst;
    repeat match goal with
           | H : _ ∧ _ |- _ => destruct H as [-> _]
           | H : _ ∨ _ |- _ => destruct H as [[-> _]| ->]
           end; set_solver.
Qed.

(** The last dependency to arrive launches the child, whatever else has
    failed. *)
Lemma last_dependency_launches st p c rest nc :
  invariant e st →
  routines st !! p = Some (Triggering (c :: rest)) →
  nodes st !! c = Some nc →
  ReadyCounter nc = 1 →
  ∃ st', step st p = Stepped st' ∧ routines st' !! c = Some Spawned.
Proof.
  intros Hinv Hp Hc Hone.
  destruct (trigger_child_facts _ _ _ _ _ Hinv Hp Hc)
    as (Hne & _ & _ & Hnone & Hpending & Hmu & _).
  unfold step. rewrite Hp.
  assert (trigger_child p c rest st
          = Stepped (set_routine p (Triggering rest)
                       (set_routine c Spawned
                          (wg_add 1
                             (set_node c (setReadyCounter 0 nc) st)))))
    as Htrigger.
  { unfold trigger_child. rewrite Hc, Hmu, Hone, Hnone.
    by rewrite (bool_decide_eq_true_2 _ Hpending). }
  eexists. split.
  - destruct (nodes st !! p); exact Htrigger.
  - simpl. rewrite lookup_insert_ne by done. apply lookup_insert_eq.
Qed.

(** A goroutine that is executing its task can always take its step. *)
Lemma running_can_finish st id :
  invariant e st → routines st !! id = Some Executing →
  ∃ st', step st id = Stepped st'.
Proof.
  intros Hinv Hg.
  destruct (inv_routine _ _ Hinv id) as [n Hn]; [by rewrite Hg|].
  pose proof (inv_status _ _ Hinv _ _ Hn) as Hst. rewrite Hg in Hst.
  destruct Hst as [_ Hmu]. unfold step. rewrite Hg, Hn, Hmu.
  destruct (Execute (Task n) (ctx st) None) as [result [err|]]; eauto.
Qed.

End steps.

(** C5, as the code has it. Take a graph built with [NewNode] and
    [AddNode] and preprocessed without error, and any schedule of its
    goroutines. No node is launched twice. In every state of the run, a
    node with a FAILED node among its transitive ancestors has not been
    launched and is PENDING; the statuses are PENDING, RUNNING, COMPLETED
    and FAILED only, so no node is marked CANCELLED; and a node that is
    executing can always take the step that finishes it. *)
Theorem failed_ancestors_stay_pending
    (specs : list (string * list string * Executor)) (order : list string)
    (c : Context) (e' : DAGEngine) (schedule : list string) :
  Forall (λ spec, Z.of_nat (length spec.1.2) ≤ int_max) specs →
  range_order (build specs) order →
  PreprocessDAG_in order (build specs) = (None, e') →
  match exec schedule (Run_start c e') with
  | SecondLaunch => False
  | Disabled => True
  | Stepped st =>
      (∀ f v, status_of st f = Some "FAILED" → tc (depends_on e') v f →
              status_of st v = Some "PENDING" ∧ routines st !! v = None)
      ∧ (∀ id s, status_of st id = Some s →
                 s ∈ ["PENDING"; "RUNNING"; "COMPLETED"; "FAILED"])
      ∧ (∀ id, routines st !! id = Some Executing →
               ∃ st', step st id = Stepped st')
  end.
Proof.
  intros Hlen Horder Hpre.
  destruct (preprocess_well_linked _ _ _ (fresh_build _ Hlen) Horder Hpre)
    as [Hlinked Huntouched].
  pose proof (exec_invariant e' Hlinked schedule _
                (invariant_start c e' Hlinked Huntouched)) as Hinv.
  destruct (exec schedule (Run_start c e')) as [st| |]; [|done|done].
  split; [|split].
  - intros f v Hf Hpath. by eapply below_failed_not_launched.
  - intros id s. by eapply status_values.
  - intros id. by eapply running_can_finish.
Qed.

(** The two branches, preprocessed, on the schedule in which [f] fails
    first. *)
Lemma failed_ancestors_stay_pending_witness :
  match exec (Samples.until_failure ++ Samples.until_launch
              ++ Samples.until_return)
             (Run_start Samples.background Samples.two_branches_ready) with
  | SecondLaunch => False
  | Disabled => True
  | Stepped st =>
      (∀ f v, status_of st f = Some "FAILED" →
              tc (depends_on Samples.two_branches_ready) v f →
              status_of st v = Some "PENDING" ∧ routines st !! v = None)
      ∧ (∀ id s, status_of st id = Some s →
                 s ∈ ["PENDING"; "RUNNING"; "COMPLETED"; "FAILED"])
      ∧ (∀ id, routines st !! id = Some Executing →
               ∃ st', step st id = Stepped st')
  end.
Proof.
  apply (failed_ancestors_stay_pending Samples.two_branches_nodes
           (keys Samples.two_branches) Samples.background
           Samples.two_branches_ready
           (Samples.until_failure ++ Samples.until_launch
            ++ Samples.until_return)).
  - repeat constructor; by vm_compute.
  - unfold range_order. reflexivity.
  - by vm_compute.
Defined.

(** C5 as the specification states it fails. When [f] has FAILED, [b] is
    PENDING and has no goroutine; four steps later [b] has been launched,
    and it runs to COMPLETED. The dependent [g] of the failed node is
    never launched, and it is left PENDING, not CANCELLED, when [Run]
    returns. *)
Lemma pending_node_is_launched_after_failure :
  match exec Samples.until_failure
             (Run_start Samples.background Samples.two_branches_ready) with
  | Stepped st1 =>
      status_of st1 "f" = Some "FAILED"
      ∧ status_of st1 "b" = Some "PENDING"
      ∧ routines st1 !! "b" = None
      ∧ match exec Samples.until_launch st1 with
        | Stepped st2 =>
            routines st2 !! "b" = Some Spawned
            ∧ match exec Samples.until_return st2 with
              | Stepped st3 =>
                  status_of st3 "b" = Some "COMPLETED"
                  ∧ status_of st3 "g" = Some "PENDING"
                  ∧ routines st3 !! "g" = None
                  ∧ Run_result st3 = Some None
              | _ => False
              end
        | _ => False
        end
  | _ => False
  end.
Proof. vm_compute. repeat split. Qed.

(** C1, on the code. [Run] ends in [return nil]: whenever it returns, it
    returns no error. On the graph of one node whose executor fails, the
    node ends FAILED, the wait group reaches zero, and [Run] returns
    [nil]. *)
Theorem failed_run_returns_nil :
  (PreprocessDAG Samples.failing_graph).1 = None
  ∧ match exec ["a"; "a"]
               (Run_start Samples.background Samples.failing_graph_ready) with
    | Stepped st =>
        status_of st "a" = Some "FAILED" ∧ Run_result st = Some None
    | _ => False
    end
  ∧ ∀ st err, Run_result st = Some err → err = None.
Proof.
  split; [by vm_compute|]. split; [vm_compute; by split|].
  intros st err. unfold Run_result. destruct (wg st =? 0); [|done].
  by intros [= <-].
Qed.


End SchedulerFacts.

(** ** The round-robin balancer *)

Module RoundRobinFacts.
Import Balancer.

(** *** The tables of the balancer *)

Lemma remove_first_elem e engines x :
  x ∈ remove_first e engines → x ∈ engines.
Proof.
  induction engines as [|id rest IH]; simpl; [done|].
  destruct (bool_decide_reflect (id = e)) as [->|Hne].
  - intros Hx. by right.
  - intros [->|Hx]%elem_of_cons; [by left|]. right. by apply IH.
Qed.

Lemma remove_first_other e engines x :
  x ≠ e → x ∈ engines → x ∈ remove_first e engines.
Proof.
  intros Hne. induction engines as [|id rest IH]; simpl; [done|].
  destruct (bool_decide_reflect (id = e)) as [->|Hid].
  - intros [->|Hx]%elem_of_cons; done.
  - intros [->|Hx]%elem_of_cons; [by left|]. right. by apply IH.
Qed.

Lemma remove_first_NoDup e engines :
  NoDup engines → NoDup (remove_first e engines) ∧ e ∉ remove_first e engines.
Proof.
  induction 1 as [|id rest Hid Hrest IH]; simpl.
  - split; [constructor|]. by intros ?%elem_of_nil.
  - destruct (bool_decide_reflect (id = e)) as [->|Hne]; [done|].
    destruct IH as [IH1 IH2]. split.
    + constructor; [|done]. intros Hin. by apply Hid, (remove_first_elem e).
    + intros [->|Hin]%elem_of_cons; done.
Qed.

Lemma remove_first_length e engines :
  e ∈ engines → S (length (remove_first e engines)) = length engines.
Proof.
  induction engines as [|id rest IH]; simpl.
  - by intros ?%elem_of_nil.
  - destruct (bool_decide_reflect (id = e)) as [->|Hne]; [done|].
    intros [->|Hin]%elem_of_cons; [done|]. simpl. by rewrite IH.
Qed.

(** What every call keeps. *)
Lemma select_loop_current lb start i : ∀ cur r cur',
  0 ≤ cur →
  rr_select_loop lb start cur i = Return (r, cur') → 0 ≤ cur'.
Proof.
  induction i as [|i IH]; intros cur r cur' Hcur; simpl.
  - by intros [= _ <-].
  - destruct ((cur <? 0) || (Z.of_nat (length (rr_engines lb)) <=? cur))
      eqn:Hrange; [done|].
    apply orb_false_elim in Hrange as [Hlo%Z.ltb_ge Hhi%Z.leb_gt].
    destruct (rr_engines lb !! Z.to_nat cur) as [engineID|]; [|done].
    assert (0 ≤ (cur + 1) `mod` Z.of_nat (length (rr_engines lb))) as Hnext.
    { apply Z.mod_pos_bound. lia. }
    destruct (_ <? _); [by intros [= _ <-]|].
    destruct (_ =? _); [by intros [= _ <-]|].
    by apply IH.
Qed.

Lemma select_keeps_tables lb key :
  rr_engines (rr_SelectEngine lb key).2 = rr_engines lb
  ∧ rr_capacities (rr_SelectEngine lb key).2 = rr_capacities lb
  ∧ rr_activeWorkflows (rr_SelectEngine lb key).2 = rr_activeWorkflows lb.
Proof.
  unfold rr_SelectEngine. destruct (rr_engines lb) as [|first rest] eqn:He.
  - done.
  - by destruct (rr_select_loop _ _ _ _) as [[r cur]|msg].
Qed.

Lemma select_current lb key :
  0 ≤ rr_current lb → 0 ≤ rr_current (rr_SelectEngine lb key).2.
Proof.
  intros Hcur. unfold rr_SelectEngine.
  destruct (rr_engines lb) as [|first rest]; [done|].
  destruct (rr_select_loop _ _ _ _) as [[r cur]|msg] eqn:Hloop; [|done].
  simpl. by eapply select_loop_current.
Qed.

Lemma perform_keeps lb c :
  rr_tables_agree lb →
  (∀ e k, rr_activeWorkflows lb !! e = Some k → k = 0) →
  0 ≤ rr_current lb →
  rr_tables_agree (rr_perform lb c)
  ∧ (∀ e k, rr_activeWorkflows (rr_perform lb c) !! e = Some k → k = 0)
  ∧ 0 ≤ rr_current (rr_perform lb c).
Proof.
  intros (Hnd & Hcap & Hact) Hzero Hcur.
  destruct c as [e k|e|e k|key]; simpl.
  - unfold rr_AddEngine.
    destruct (bool_decide_reflect (e ∈ rr_engines lb)) as [Hin|Hout];
      [done|].
    unfold rr_tables_agree. simpl. split; [split; [|split]|split; [|done]].
    + apply NoDup_app. split; [done|]. split; [|apply NoDup_singleton].
      intros x Hx ->%list_elem_of_singleton. done.
    + intros x. simpl. rewrite elem_of_app, list_elem_of_singleton, lookup_insert.
      destruct (decide (e = x)) as [->|Hne].
      * split; [eauto|by right].
      * rewrite <- Hcap. split; [by intros [?|?]|by left].
    + intros x. simpl. rewrite elem_of_app, list_elem_of_singleton, lookup_insert.
      destruct (decide (e = x)) as [->|Hne].
      * split; [eauto|by right].
      * rewrite <- Hact. split; [by intros [?|?]|by left].
    + intros x k0. rewrite lookup_insert.
      destruct (decide (e = x)); [by intros [= <-]|apply Hzero].
  - unfold rr_RemoveEngine.
    destruct (bool_decide_reflect (e ∈ rr_engines lb)) as [Hin|Hout];
      [|done].
    destruct (remove_first_NoDup e _ Hnd) as [Hnd' Hgone].
    unfold rr_tables_agree. simpl. split; [split; [|split]|split; [|done]].
    + done.
    + intros x. simpl. rewrite lookup_delete.
      destruct (decide (e = x)) as [->|Hne].
      * split; [done|]. by intros [? ?].
      * rewrite <- Hcap. split; [apply remove_first_elem|].
        by apply remove_first_other.
    + intros x. simpl. rewrite lookup_delete.
      destruct (decide (e = x)) as [->|Hne].
      * split; [done|]. by intros [? ?].
      * rewrite <- Hact. split; [apply remove_first_elem|].
        by apply remove_first_other.
    + intros x k0. rewrite lookup_delete.
      destruct (decide (e = x)); [done|apply Hzero].
  - unfold rr_UpdateEngineCapacity.
    destruct (rr_capacities lb !! e) as [k0|] eqn:Hk0; [|done].
    unfold rr_tables_agree. simpl. split; [split; [done|split; [|done]]|done].
    intros x. simpl. rewrite lookup_insert.
    destruct (decide (e = x)) as [->|Hne]; [|apply Hcap].
    rewrite Hcap, Hk0. split; eauto.
  - destruct (select_keeps_tables lb key) as (He & Hc & Ha).
    split; [|split].
    + unfold rr_tables_agree. by rewrite He, Hc, Ha.
    + by rewrite Ha.
    + by apply select_current.
Qed.

Lemma history_keeps cs : ∀ lb,
  rr_tables_agree lb →
  (∀ e k, rr_activeWorkflows lb !! e = Some k → k = 0) →
  0 ≤ rr_current lb →
  rr_tables_agree (rr_history cs lb)
  ∧ (∀ e k, rr_activeWorkflows (rr_history cs lb) !! e = Some k → k = 0)
  ∧ 0 ≤ rr_current (rr_history cs lb).
Proof.
  induction cs as [|c cs IH]; intros lb Ht Hz Hc; simpl; [done|].
  destruct (perform_keeps lb c Ht Hz Hc) as (Ht' & Hz' & Hc').
  by apply IH.
Qed.

(** X1. Whatever calls of [AddEngine], [RemoveEngine],
    [UpdateEngineCapacity] and [SelectEngine] a new round-robin balancer
    has served, its slice of engines has no duplicates and names the same
    engines as its two maps. No method of this balancer ever writes a
    count other than zero, so every engine reads as idle and
    [SelectEngine] takes an engine to have room exactly when its capacity
    is positive. *)
Theorem round_robin_tables_agree (cs : list rr_call) :
  rr_tables_agree (rr_history cs NewRoundRobinLoadBalancer)
  ∧ (∀ e, default 0 (rr_activeWorkflows
                        (rr_history cs NewRoundRobinLoadBalancer) !! e) = 0)
  ∧ (∀ e, rr_has_room (rr_history cs NewRoundRobinLoadBalancer) e
          = (0 <? (rr_GetEngineCapacity
                     (rr_history cs NewRoundRobinLoadBalancer) e).1)).
Proof.
  destruct (history_keeps cs NewRoundRobinLoadBalancer) as (Ht & Hz & _).
  - split; [constructor|].
    split; intros e; cbn; (split; [by intros ?%elem_of_nil|by intros [? ?]]).
  - intros e k. cbn. by rewrite lookup_empty.
  - done.
  - assert (∀ e, default 0 (rr_activeWorkflows
                   (rr_history cs NewRoundRobinLoadBalancer) !! e) = 0)
      as Hidle.
    { intros e. destruct (rr_activeWorkflows _ !! e) as [k|] eqn:Hk; [|done].
      simpl. by eapply Hz. }
    split; [done|]. split; [done|].
    intros e. unfold rr_has_room, rr_GetEngineCapacity. rewrite Hidle.
    by destruct (rr_capacities _ !! e).
Qed.

(** *** SelectEngine *)

Lemma select_loop_spec lb start (i : nat) : ∀ j : Z,
  0 ≤ start < Z.of_nat (length (rr_engines lb)) →
  0 ≤ j → Z.of_nat i + j = Z.of_nat (length (rr_engines lb)) → (0 < i)%nat →
  (∀ j' e, 0 ≤ j' < j → rr_at lb start j' = Some e →
           rr_has_room lb e = false) →
  ∃ k e, j ≤ k < Z.of_nat (length (rr_engines lb))
    ∧ rr_at lb start k = Some e
    ∧ rr_select_loop lb start
        ((start + j) `mod` Z.of_nat (length (rr_engines lb))) i
      = Return (Some e,
                (start + k + 1) `mod` Z.of_nat (length (rr_engines lb)))
    ∧ (∀ j' e', 0 ≤ j' < k → rr_at lb start j' = Some e' →
                rr_has_room lb e' = false)
    ∧ (rr_has_room lb e = true ∨ k = Z.of_nat (length (rr_engines lb)) - 1).
Proof.
  set (n := Z.of_nat (length (rr_engines lb))).
  induction i as [|i IH]; intros j Hstart Hj Hsum Hpos Hfull; [lia|].
  assert (0 ≤ (start + j) `mod` n < n) as Hcur by (apply Z.mod_pos_bound; lia).
  destruct (lookup_lt_is_Some_2 (rr_engines lb)
              (Z.to_nat ((start + j) `mod` n))) as [e He].
  { unfold n in *. lia. }
  simpl. fold n.
  replace ((start + j) `mod` n <? 0) with false by (symmetry; lia).
  replace (n <=? (start + j) `mod` n) with false by (symmetry; lia).
  simpl. rewrite He.
  change (default 0 (rr_activeWorkflows lb !! e)
          <? default 0 (rr_capacities lb !! e)) with (rr_has_room lb e).
  assert (((start + j) `mod` n + 1) `mod` n = (start + (j + 1)) `mod` n)
    as Hnext.
  { rewrite Z.add_mod_idemp_l by lia. f_equal. lia. }
  destruct (rr_has_room lb e) eqn:Hroom.
  - exists j, e. split; [lia|]. split; [done|]. split.
    + rewrite Hnext. do 3 f_equal. lia.
    + split; [done|by left].
  - destruct (decide (j = n - 1)) as [->|Hlast].
    + replace (((start + (n - 1)) `mod` n + 1) `mod` n =? start) with true.
      * exists (n - 1), e. split; [lia|]. split; [done|]. split.
        -- rewrite Hnext. do 3 f_equal. lia.
        -- split; [done|by right].
      * symmetry. apply Z.eqb_eq. rewrite Hnext.
        replace (start + (n - 1 + 1)) with (start + 1 * n) by lia.
        rewrite Z.mod_add by lia. apply Z.mod_small. lia.
    + replace (((start + j) `mod` n + 1) `mod` n =? start) with false.
      * rewrite Hnext.
        destruct (IH (j + 1)) as (k & e' & Hk & Hat & Hloop & Hbefore & Hend);
          [done|lia|lia|lia| |].
        { intros j' e' Hj' Hat.
          destruct (decide (j' = j)) as [->|Hne]; [|apply (Hfull j'); [lia|done]].
          unfold rr_at in Hat. fold n in Hat. rewrite He in Hat.
          by injection Hat as <-. }
        exists k, e'. split; [lia|]. done.
      * symmetry. apply Z.eqb_neq. rewrite Hnext. intros Heq.
        assert ((j + 1) `mod` n = 0) as Hzero.
        { assert ((start + (j + 1) - start) `mod` n = 0) as Hdiff.
          { rewrite Zminus_mod, Heq, (Z.mod_small start n) by lia.
            by rewrite Z.sub_diag. }
          by replace (start + (j + 1) - start) with (j + 1) in Hdiff by lia. }
        rewrite Z.mod_small in Hzero by lia. lia.
Qed.

Lemma select_engine_spec lb key :
  0 ≤ rr_current lb < Z.of_nat (length (rr_engines lb)) →
  ∃ k e,
    0 ≤ k < Z.of_nat (length (rr_engines lb))
    ∧ rr_at lb (rr_current lb) k = Some e
    ∧ rr_SelectEngine lb key
      = (Return (e, None),
         mkRR (rr_engines lb)
              ((rr_current lb + k + 1)
                 `mod` Z.of_nat (length (rr_engines lb)))
              (rr_capacities lb) (rr_activeWorkflows lb))
    ∧ (∀ j e', 0 ≤ j < k → rr_at lb (rr_current lb) j = Some e' →
               rr_has_room lb e' = false)
    ∧ (rr_has_room lb e = true
       ∨ k = Z.of_nat (length (rr_engines lb)) - 1).
Proof.
  intros Hcur.
  destruct (select_loop_spec lb (rr_current lb) (length (rr_engines lb)) 0)
    as (k & e & Hk & Hat & Hloop & Hbefore & Hend); [done|lia|lia|lia| |].
  { intros j' e' Hj'. lia. }
  exists k, e. split; [done|]. split; [done|]. split; [|done].
  rewrite Z.add_0_r, Z.mod_small in Hloop by done.
  clear Hat Hbefore Hend Hk. revert Hloop Hcur. unfold rr_SelectEngine.
  destruct (rr_engines lb) as [|first rest]; [simpl; lia|].
  by intros -> _.
Qed.

(** X2. [SelectEngine] on a round-robin balancer whose cursor is within
    the slice returns no error and the first engine with room, counting
    from the cursor and around the slice, and leaves the cursor just
    after that engine. When no engine has room it returns the engine
    just before the cursor (the last one it looked at, not the first),
    and the cursor ends where it was. *)
Theorem select_engine_takes_first_with_room (lb : RoundRobinLoadBalancer)
    (key : string) :
  0 ≤ rr_current lb < Z.of_nat (length (rr_engines lb)) →
  ∃ k e,
    0 ≤ k < Z.of_nat (length (rr_engines lb))
    ∧ rr_at lb (rr_current lb) k = Some e
    ∧ rr_SelectEngine lb key
      = (Return (e, None),
         mkRR (rr_engines lb)
              ((rr_current lb + k + 1)
                 `mod` Z.of_nat (length (rr_engines lb)))
              (rr_capacities lb) (rr_activeWorkflows lb))
    ∧ (∀ j e', 0 ≤ j < k → rr_at lb (rr_current lb) j = Some e' →
               rr_has_room lb e' = false)
    ∧ (rr_has_room lb e = true
       ∨ k = Z.of_nat (length (rr_engines lb)) - 1).
Proof. apply select_engine_spec. Qed.

Lemma select_engine_takes_first_with_room_witness :
  ∃ k e,
    0 ≤ k < Z.of_nat (length (rr_engines Samples.rr_two))
    ∧ rr_at Samples.rr_two (rr_current Samples.rr_two) k = Some e
    ∧ rr_SelectEngine Samples.rr_two "wf"
      = (Return (e, None),
         mkRR (rr_engines Samples.rr_two)
              ((rr_current Samples.rr_two + k + 1)
                 `mod` Z.of_nat (length (rr_engines Samples.rr_two)))
              (rr_capacities Samples.rr_two)
              (rr_activeWorkflows Samples.rr_two))
    ∧ (∀ j e', 0 ≤ j < k →
               rr_at Samples.rr_two (rr_current Samples.rr_two) j = Some e' →
               rr_has_room Samples.rr_two e' = false)
    ∧ (rr_has_room Samples.rr_two e = true
       ∨ k = Z.of_nat (length (rr_engines Samples.rr_two)) - 1).
Proof.
  apply (select_engine_takes_first_with_room Samples.rr_two "wf").
  vm_compute. split; [by intros ?|done].
Defined.

Lemma rr_at_next lb cur i :
  0 < Z.of_nat (length (rr_engines lb)) →
  rr_at lb ((cur + 1) `mod` Z.of_nat (length (rr_engines lb))) i
  = rr_at lb cur (i + 1).
Proof.
  intros Hn. unfold rr_at. do 2 f_equal.
  rewrite Z.add_mod_idemp_l by lia. f_equal. lia.
Qed.

Lemma selections_in_order keys : ∀ lb (i : nat),
  0 ≤ rr_current lb < Z.of_nat (length (rr_engines lb)) →
  (∀ e, e ∈ rr_engines lb → rr_has_room lb e = true) →
  (i < length keys)%nat →
  rr_selections lb keys !! i
  = (λ e, Return (e, None)) <$> rr_at lb (rr_current lb) (Z.of_nat i).
Proof.
  induction keys as [|key keys IH]; intros lb i Hcur Hroom Hi;
    [simpl in Hi; lia|].
  destruct (select_engine_spec lb key Hcur)
    as (k & e & Hk & Hat & Hsel & Hbefore & _).
  assert (k = 0) as ->.
  { destruct (decide (k = 0)) as [|Hne]; [done|]. exfalso.
    destruct (lookup_lt_is_Some_2 (rr_engines lb)
                (Z.to_nat ((rr_current lb + 0)
                   `mod` Z.of_nat (length (rr_engines lb))))) as [e0 He0].
    { pose proof (Z.mod_pos_bound (rr_current lb + 0)
                    (Z.of_nat (length (rr_engines lb)))). lia. }
    pose proof (Hbefore 0 e0 ltac:(lia) He0) as Hfull.
    rewrite Hroom in Hfull; [done|].
    by eapply list_elem_of_lookup_2. }
  simpl. rewrite Hsel. destruct i as [|i]; simpl.
  - change (Z.of_nat 0) with 0. by rewrite Hat.
  - rewrite IH; simpl.
    + rewrite Z.add_0_r, Nat2Z.inj_succ.
      pose proof (rr_at_next lb (rr_current lb) (Z.of_nat i)) as Hnext.
      unfold rr_at in *. simpl. by rewrite Hnext by lia.
    + apply Z.mod_pos_bound. lia.
    + done.
    + simpl in Hi. lia.
Qed.

(** X3. While every engine has room, successive calls of [SelectEngine]
    walk the slice in order from the cursor and wrap around: the call
    number [i] returns the engine [i] places after the cursor, whatever
    the keys are. *)
Theorem round_robin_visits_in_order (lb : RoundRobinLoadBalancer)
    (keys : list string) (i : nat) :
  0 ≤ rr_current lb < Z.of_nat (length (rr_engines lb)) →
  (∀ e, e ∈ rr_engines lb → rr_has_room lb e = true) →
  (i < length keys)%nat →
  rr_selections lb keys !! i
  = (λ e, Return (e, None)) <$> rr_at lb (rr_current lb) (Z.of_nat i).
Proof. apply selections_in_order. Qed.

Lemma round_robin_visits_in_order_witness :
  rr_selections Samples.rr_three ["a"; "b"; "c"; "d"; "e"] !! 4%nat
  = (λ e, Return (e, None))
      <$> rr_at Samples.rr_three (rr_current Samples.rr_three)
                (Z.of_nat 4).
Proof.
  apply (round_robin_visits_in_order Samples.rr_three
           ["a"; "b"; "c"; "d"; "e"] 4).
  - vm_compute. split; [by intros ?|done].
  - intros e He. vm_compute in He.
    repeat (apply elem_of_cons in He as [->|He]; [by vm_compute|]).
    by apply elem_of_nil in He.
  - simpl. lia.
Defined.

Lemma select_loop_out_of_range lb start cur i :
  Z.of_nat (length (rr_engines lb)) ≤ cur →
  rr_select_loop lb start cur (S i) = Panic "index out of range".
Proof.
  intros Hle. cbn [rr_select_loop].
  destruct (cur <? 0); [done|]. cbn [orb].
  by rewrite (proj2 (Z.leb_le _ _) Hle).
Qed.

Lemma select_out_of_range lb key :
  rr_engines lb ≠ [] →
  Z.of_nat (length (rr_engines lb)) ≤ rr_current lb →
  (rr_SelectEngine lb key).1 = Panic "index out of range".
Proof.
  intros Hne Hle. unfold rr_SelectEngine.
  destruct (rr_engines lb) as [|first rest] eqn:He; [done|].
  change (length (first :: rest)) with (S (length rest)).
  rewrite select_loop_out_of_range; [done|by rewrite He].
Qed.

(** X4. [RemoveEngine] shortens the slice and leaves the cursor alone.
    When the cursor stands on the last index of a slice of two or more
    engines, removing any engine puts it past the end, and the next
    [SelectEngine] panics on [lb.engines[lb.current]]. *)
Theorem select_after_removal_panics (lb : RoundRobinLoadBalancer)
    (engineID key : string) :
  engineID ∈ rr_engines lb →
  1 ≤ rr_current lb →
  Z.of_nat (length (rr_engines lb)) = rr_current lb + 1 →
  (rr_RemoveEngine lb engineID).1 = None
  ∧ (rr_SelectEngine (rr_RemoveEngine lb engineID).2 key).1
    = Panic "index out of range".
Proof.
  intros Hin Hcur Hlen. unfold rr_RemoveEngine.
  rewrite bool_decide_eq_true_2 by done. simpl. split; [done|].
  pose proof (remove_first_length _ _ Hin) as Hshort.
  apply select_out_of_range; simpl.
  - intros Hnil. rewrite Hnil in Hshort. simpl in Hshort. lia.
  - lia.
Qed.

Lemma select_after_removal_panics_witness :
  (rr_RemoveEngine Samples.rr_two "e1").1 = None
  ∧ (rr_SelectEngine (rr_RemoveEngine Samples.rr_two "e1").2 "wf").1
    = Panic "index out of range".
Proof.
  apply (select_after_removal_panics Samples.rr_two "e1" "wf").
  - vm_compute. by left.
  - by vm_compute.
  - by vm_compute.
Defined.

(** The cursor is within the slice, or the slice is empty and the cursor
    zero. *)
Lemma perform_in_range lb c :
  is_removal c = false →
  0 ≤ rr_current lb →
  (rr_current lb < Z.of_nat (length (rr_engines lb)) ∨ rr_current lb = 0) →
  0 ≤ rr_current (rr_perform lb c)
  ∧ (rr_current (rr_perform lb c)
       < Z.of_nat (length (rr_engines (rr_perform lb c)))
     ∨ rr_current (rr_perform lb c) = 0).
Proof.
  intros Hc Hlo Hhi. destruct c as [e k|e|e k|key]; simpl; [| done | |].
  - unfold rr_AddEngine. destruct (bool_decide _); [done|]. simpl.
    split; [done|]. rewrite length_app. simpl. lia.
  - unfold rr_UpdateEngineCapacity.
    by destruct (rr_capacities lb !! e).
  - destruct (decide (rr_engines lb = [])) as [Hnil|Hsome].
    { unfold rr_SelectEngine. by rewrite Hnil. }
    assert (0 ≤ rr_current lb < Z.of_nat (length (rr_engines lb))) as Hcur.
    { destruct (rr_engines lb); [done|]. simpl in *. lia. }
    destruct (select_engine_spec lb key Hcur) as (k & e & _ & _ & -> & _).
    simpl. pose proof (Z.mod_pos_bound (rr_current lb + k + 1)
                         (Z.of_nat (length (rr_engines lb)))). lia.
Qed.

Lemma history_in_range cs : ∀ lb,
  forallb (λ c, negb (is_removal c)) cs = true →
  0 ≤ rr_current lb →
  (rr_current lb < Z.of_nat (length (rr_engines lb)) ∨ rr_current lb = 0) →
  0 ≤ rr_current (rr_history cs lb)
  ∧ (rr_current (rr_history cs lb)
       < Z.of_nat (length (rr_engines (rr_history cs lb)))
     ∨ rr_current (rr_history cs lb) = 0).
Proof.
  induction cs as [|c cs IH]; intros lb Hcs Hlo Hhi; simpl; [done|].
  simpl in Hcs. apply andb_prop in Hcs as [Hc%negb_true_iff Hcs].
  destruct (perform_in_range lb c Hc Hlo Hhi) as [Hlo' Hhi'].
  by apply IH.
Qed.

(** X5. As long as no engine has been removed, [SelectEngine] does not
    panic: after any calls of [AddEngine], [UpdateEngineCapacity] and
    [SelectEngine] on a new balancer it returns, with the error
    [no engines available] exactly when no engine has been added. *)
Theorem select_without_removal_returns (cs : list rr_call) (key : string) :
  forallb (λ c, negb (is_removal c)) cs = true →
  ∃ engineID err,
    (rr_SelectEngine (rr_history cs NewRoundRobinLoadBalancer) key).1
    = Return (engineID, err)
    ∧ (err = Some "no engines available"
       ∧ rr_engines (rr_history cs NewRoundRobinLoadBalancer) = []
       ∨ err = None
         ∧ engineID ∈ rr_engines (rr_history cs NewRoundRobinLoadBalancer)).
Proof.
  intros Hcs.
  destruct (history_in_range cs NewRoundRobinLoadBalancer Hcs)
    as [Hlo Hhi]; [done|by right|].
  set (lb := rr_history cs NewRoundRobinLoadBalancer) in *.
  destruct (decide (rr_engines lb = [])) as [Hnil|Hsome].
  { exists "", (Some "no engines available").
    unfold rr_SelectEngine. rewrite Hnil. split; [done|by left]. }
  assert (0 ≤ rr_current lb < Z.of_nat (length (rr_engines lb))) as Hcur.
  { destruct (rr_engines lb); [done|]. simpl in *. lia. }
  destruct (select_engine_spec lb key Hcur) as (k & e & _ & Hat & -> & _).
  exists e, None. split; [done|]. right. split; [done|].
  by eapply list_elem_of_lookup_2.
Qed.

Lemma select_without_removal_returns_witness :
  ∃ engineID err,
    (rr_SelectEngine
       (rr_history Samples.rr_two_calls NewRoundRobinLoadBalancer) "wf").1
    = Return (engineID, err)
    ∧ (err = Some "no engines available"
       ∧ rr_engines
           (rr_history Samples.rr_two_calls NewRoundRobinLoadBalancer) = []
       ∨ err = None
         ∧ engineID
           ∈ rr_engines
               (rr_history Samples.rr_two_calls NewRoundRobinLoadBalancer)).
Proof.
  apply (select_without_removal_returns Samples.rr_two_calls "wf").
  reflexivity.
Defined.

End RoundRobinFacts.

(** ** The consistent-hash balancer *)

Module ConsistentHashFacts.
Import Balancer.

Lemma perform_ring lb c :
  (∀ e, e ∈ hashRing lb ↔ is_Some (capacities lb !! e)) →
  (∀ e, e ∈ hashRing lb → is_Some (activeWorkflows lb !! e)) →
  (∀ e, e ∈ hashRing (perform lb c)
        ↔ is_Some (capacities (perform lb c) !! e))
  ∧ (∀ e, e ∈ hashRing (perform lb c) →
          is_Some (activeWorkflows (perform lb c) !! e)).
Proof.
  intros Hcap Hact. destruct c as [x k|x|x k|x|x]; simpl.
  - split; intros e; rewrite elem_of_union, elem_of_singleton, lookup_insert;
      destruct (decide (x = e)) as [->|Hne].
    + split; [eauto|by left].
    + rewrite <- Hcap. split; [by intros [?|?]|by right].
    + eauto.
    + intros [?|He]; [done|by apply Hact].
  - split; intros e; rewrite elem_of_difference, elem_of_singleton,
      lookup_delete; destruct (decide (x = e)) as [->|Hne].
    + split; [by intros [_ ?]|by intros [? ?]].
    + rewrite <- Hcap. split; [by intros [? _]|done].
    + by intros [_ ?].
    + intros [He _]. by apply Hact.
  - unfold UpdateEngineCapacity.
    destruct (capacities lb !! x) as [k0|] eqn:Hk0; [|done]. simpl.
    split; [|done]. intros e. rewrite lookup_insert.
    destruct (decide (x = e)) as [->|Hne]; [|apply Hcap].
    rewrite Hcap, Hk0. split; eauto.
  - split; [done|]. intros e He. rewrite lookup_insert.
    destruct (decide (x = e)); [eauto|by apply Hact].
  - unfold DecrementActiveWorkflows.
    destruct (0 <? GetActiveWorkflows lb x); [|done]. simpl.
    split; [done|]. intros e He. rewrite lookup_insert.
    destruct (decide (x = e)); [eauto|by apply Hact].
Qed.

Lemma history_ring cs : ∀ lb,
  (∀ e, e ∈ hashRing lb ↔ is_Some (capacities lb !! e)) →
  (∀ e, e ∈ hashRing lb → is_Some (activeWorkflows lb !! e)) →
  (∀ e, e ∈ hashRing (history cs lb)
        ↔ is_Some (capacities (history cs lb) !! e))
  ∧ (∀ e, e ∈ hashRing (history cs lb) →
          is_Some (activeWorkflows (history cs lb) !! e)).
Proof.
  induction cs as [|c cs IH]; intros lb Hcap Hact; simpl; [done|].
  destruct (perform_ring lb c Hcap Hact) as [Hcap' Hact'].
  by apply IH.
Qed.

(** X6. Whatever calls a new consistent-hash balancer has served, the
    members of its hash ring are exactly the engines that have a capacity:
    [GetEngineCapacity] answers without error exactly for the members of
    the ring, [ListEngines] lists exactly them, each once, and every
    member has an entry in the table of active counts. *)
Theorem ring_members_have_capacity (cs : list call) (virtualNodes : Z)
    (engineID : string) :
  ((GetEngineCapacity
      (history cs (NewConsistentHashLoadBalancer virtualNodes)) engineID).2
   = None
   ↔ engineID
     ∈ hashRing (history cs (NewConsistentHashLoadBalancer virtualNodes)))
  ∧ (engineID
     ∈ ListEngines (history cs (NewConsistentHashLoadBalancer virtualNodes))
     ↔ engineID
       ∈ hashRing (history cs (NewConsistentHashLoadBalancer virtualNodes)))
  ∧ NoDup (ListEngines
             (history cs (NewConsistentHashLoadBalancer virtualNodes)))
  ∧ (engineID
     ∈ hashRing (history cs (NewConsistentHashLoadBalancer virtualNodes))
     → is_Some (activeWorkflows
                  (history cs (NewConsistentHashLoadBalancer virtualNodes))
                !! engineID)).
Proof.
  destruct (history_ring cs (NewConsistentHashLoadBalancer virtualNodes))
    as [Hcap Hact].
  - intros e. cbn. rewrite lookup_empty.
    split; [by intros ?%not_elem_of_empty|by intros [? ?]].
  - intros e. cbn. by intros ?%not_elem_of_empty.
  - set (lb := history cs (NewConsistentHashLoadBalancer virtualNodes)) in *.
    split; [|split; [|split]].
    + rewrite Hcap. unfold GetEngineCapacity.
      destruct (capacities lb !! engineID); simpl.
      * split; eauto.
      * split; [done|by intros [? ?]].
    + rewrite Hcap. unfold ListEngines. rewrite list_elem_of_fmap. split.
      * intros ([k n] & -> & Hkn%elem_of_map_to_list). simpl. eauto.
      * intros [n Hn]. exists (engineID, n). split; [done|].
        by apply elem_of_map_to_list.
    + apply NoDup_fst_map_to_list.
    + apply Hact.
Qed.

End ConsistentHashFacts.

(** ** The engine service *)

Module EngineServiceFacts.
Import Engine.

Lemma occur_within es ev :
  GetActiveWorkflows es ≤ Z.max 0 (capacity es) →
  capacity (es_occur es ev) = capacity es
  ∧ GetActiveWorkflows (es_occur es ev) ≤ Z.max 0 (capacity es).
Proof.
  unfold GetActiveWorkflows. intros Hle.
  destruct ev as [now wf ver id eng|id err|id]; simpl.
  - unfold ExecuteWorkflow, GetActiveWorkflows.
    destruct (capacity es <=? Z.of_nat (size (activeWorkflows es)))
      eqn:Hfull; [done|].
    apply Z.leb_gt in Hfull. simpl. split; [done|].
    destruct (activeWorkflows es !! id) as [old|] eqn:Hold.
    + rewrite map_size_insert_Some; [done|eauto].
    + rewrite map_size_insert_None by done. lia.
  - split; [done|].
    pose proof (map_size_delete id (activeWorkflows es)) as Hsize.
    destruct (activeWorkflows es !! id); simpl in Hsize; unfold Datatypes.id in *; lia.
  - unfold StopWorkflow.
    destruct (activeWorkflows es !! id) as [exec|] eqn:Hexec; [|done].
    simpl. split; [done|]. rewrite map_size_insert_Some; [done|eauto].
Qed.

Lemma after_within evs : ∀ es,
  GetActiveWorkflows es ≤ Z.max 0 (capacity es) →
  capacity (es_after evs es) = capacity es
  ∧ GetActiveWorkflows (es_after evs es) ≤ Z.max 0 (capacity es).
Proof.
  induction evs as [|ev evs IH]; intros es Hle; simpl; [done|].
  destruct (occur_within es ev Hle) as [Hcap Hsize].
  destruct (IH (es_occur es ev)) as [Hcap' Hsize']; [by rewrite Hcap|].
  rewrite Hcap', Hcap in *. done.
Qed.

(** X7. An engine service never holds more executions than its capacity.
    After any calls of [ExecuteWorkflow] and [StopWorkflow] and any
    goroutines that have ended, in any order, the capacity is the one the
    service was created with and the number of active workflows is at
    most that capacity (and zero when the capacity is not positive). *)
Theorem active_workflows_within_capacity (evs : list es_event) (id : string)
    (capacity : Z) :
  GetCapacity (es_after evs (NewEngineService id capacity)) = capacity
  ∧ 0 ≤ GetActiveWorkflows (es_after evs (NewEngineService id capacity))
      ≤ Z.max 0 capacity.
Proof.
  destruct (after_within evs (NewEngineService id capacity)) as [Hcap Hle].
  - unfold GetActiveWorkflows. simpl. rewrite map_size_empty. lia.
  - split; [done|]. split; [|done]. unfold GetActiveWorkflows. lia.
Qed.

End EngineServiceFacts.

(** ** The version manager *)

Module VersionFacts.
Import Versions RegistryFacts.

(** *** The order of [isNewerVersion] *)

Lemma string_compare_refl s : String.compare s s = Eq.
Proof.
  induction s as [|a s IH]; simpl; [done|].
  by rewrite ascii_compare_refl.
Qed.

Lemma ltb_irrefl s : String.ltb s s = false.
Proof. unfold String.ltb. by rewrite string_compare_refl. Qed.

Lemma ltb_total s1 s2 : String.ltb s1 s2 = false → lex_le s2 s1.
Proof.
  unfold lex_le, String.ltb. rewrite (String.compare_antisym s1 s2).
  destruct (String.compare s2 s1) eqn:Hcmp; simpl; intros H; try done.
  - left. by apply String.compare_eq_iff.
  - by right.
Qed.

Lemma lex_le_not_newer s l : lex_le s l → isNewerVersion s l = false.
Proof.
  unfold isNewerVersion. intros [->|Hlt]; [apply ltb_irrefl|].
  destruct (String.ltb l s) eqn:Hgt; [|done].
  pose proof (ltb_trans _ _ _ Hlt Hgt) as Hloop.
  by rewrite ltb_irrefl in Hloop.
Qed.

(** *** What one call of [RegisterVersion] writes *)

Lemma register_version_effect vm p v r vm' :
  heap vm !! p = Some v →
  RegisterVersion vm p = Return (r, vm') →
  (is_Some r ∧ vm' = vm ∧ (WorkflowID v = "" ∨ Version v = ""))
  ∨ (r = None ∧ WorkflowID v ≠ "" ∧ Version v ≠ ""
     ∧ ∃ ds,
         dependents_of (heap vm) (WorkflowID v) (map_to_list (versions vm'))
         = Some ds
         ∧ heap vm' = <[p := setDependents ds v]> (heap vm)
         ∧ versions vm'
           = <[WorkflowID v :=
                 <[Version v := p]>
                   (default ∅ (versions vm !! WorkflowID v))]> (versions vm)
         ∧ ((latest vm' = <[WorkflowID v := p]> (latest vm)
             ∧ ∀ l cur, latest vm !! WorkflowID v = Some l →
                        heap vm !! l = Some cur →
                        isNewerVersion (Version v) (Version cur) = true)
            ∨ (latest vm' = latest vm
               ∧ ∃ l cur, latest vm !! WorkflowID v = Some l
                          ∧ heap vm !! l = Some cur
                          ∧ isNewerVersion (Version v) (Version cur)
                            = false))).
Proof.
  intros Hv. unfold RegisterVersion. rewrite Hv.
  destruct (bool_decide_reflect (WorkflowID v = "")) as [Hid|Hid].
  { intros [= <- <-]. left. eauto. }
  destruct (bool_decide_reflect (Version v = "")) as [Hver|Hver].
  { intros [= <- <-]. left. eauto. }
  intros Hreg. right. split; [|split; [done|split; [done|]]].
  { destruct (latest vm !! WorkflowID v) as [l|];
      [destruct (heap vm !! l) as [cur|]; [|done];
       destruct (isNewerVersion _ _)|];
      (destruct (updateDependencies _ _); [by injection Hreg as <- _|done]). }
  assert (∀ l' vm2,
    updateDependencies
      (mkVersionManager (heap vm)
         (<[WorkflowID v :=
              <[Version v := p]> (default ∅ (versions vm !! WorkflowID v))]>
            (versions vm)) l') p = Return vm2 →
    ∃ ds,
      dependents_of (heap vm) (WorkflowID v) (map_to_list (versions vm2))
      = Some ds
      ∧ heap vm2 = <[p := setDependents ds v]> (heap vm)
      ∧ versions vm2
        = <[WorkflowID v :=
              <[Version v := p]> (default ∅ (versions vm !! WorkflowID v))]>
            (versions vm)
      ∧ latest vm2 = l') as Hupd.
  { intros l' vm2. unfold updateDependencies. simpl. rewrite Hv.
    destruct (dependents_of _ _ _) as [ds|] eqn:Hds; [|done].
    intros [= <-]. exists ds. simpl. by rewrite Hds. }
  destruct (latest vm !! WorkflowID v) as [l|] eqn:Hl.
  - destruct (heap vm !! l) as [cur|] eqn:Hcur; [|done].
    destruct (isNewerVersion (Version v) (Version cur)) eqn:Hnew.
    + destruct (updateDependencies _ _) as [vm2|] eqn:Hu; [|done].
      injection Hreg as _ <-.
      destruct (Hupd _ _ Hu) as (ds & Hds & Hh & Hvs & Hlat).
      exists ds. split; [done|]. split; [done|]. split; [done|]. left.
      split; [done|]. intros l0 cur0 [= <-] Hcur0.
      rewrite Hcur in Hcur0. by injection Hcur0 as <-.
    + destruct (updateDependencies _ _) as [vm2|] eqn:Hu; [|done].
      injection Hreg as _ <-.
      destruct (Hupd _ _ Hu) as (ds & Hds & Hh & Hvs & Hlat).
      exists ds. split; [done|]. split; [done|]. split; [done|]. right.
      split; [done|]. by exists l, cur.
  - destruct (updateDependencies _ _) as [vm2|] eqn:Hu; [|done].
    injection Hreg as _ <-.
    destruct (Hupd _ _ Hu) as (ds & Hds & Hh & Hvs & Hlat).
    exists ds. split; [done|]. split; [done|]. split; [done|]. left.
    split; [done|]. by intros l0 cur0.
Qed.

(** The records keep their workflow, version and dependencies; only the
    record that is registered is written. *)
Lemma register_version_records vm p r vm' q x :
  RegisterVersion vm p = Return (r, vm') →
  heap vm !! q = Some x →
  ∃ x', heap vm' !! q = Some x'
        ∧ WorkflowID x' = WorkflowID x ∧ Version x' = Version x
        ∧ wv_Dependencies x' = wv_Dependencies x
        ∧ (q ≠ p → x' = x).
Proof.
  intros Hreg Hx.
  destruct (heap vm !! p) as [v|] eqn:Hv;
    [|unfold RegisterVersion in Hreg; by rewrite Hv in Hreg].
  destruct (register_version_effect _ _ _ _ _ Hv Hreg)
    as [(_ & -> & _)|(_ & _ & _ & ds & _ & Hh & _)]; [by exists x|].
  rewrite Hh. destruct (decide (q = p)) as [->|Hne].
  - rewrite Hv in Hx. injection Hx as <-.
    exists (setDependents ds v). split; [|done].
    apply list_lookup_insert_eq. by eapply lookup_lt_Some.
  - exists x. by rewrite list_lookup_insert_ne.
Qed.

Lemma register_version_records_back vm p r vm' q x' :
  RegisterVersion vm p = Return (r, vm') →
  heap vm' !! q = Some x' →
  ∃ x, heap vm !! q = Some x
       ∧ WorkflowID x' = WorkflowID x ∧ Version x' = Version x
       ∧ wv_Dependencies x' = wv_Dependencies x.
Proof.
  intros Hreg Hx'.
  destruct (heap vm !! q) as [x|] eqn:Hx.
  - destruct (register_version_records _ _ _ _ _ _ Hreg Hx)
      as (x2 & Hx2 & Hid & Hver & Hdeps & _).
    rewrite Hx' in Hx2. injection Hx2 as <-. by exists x.
  - exfalso.
    destruct (heap vm !! p) as [v|] eqn:Hv;
      [|unfold RegisterVersion in Hreg; by rewrite Hv in Hreg].
    destruct (register_version_effect _ _ _ _ _ Hv Hreg)
      as [(_ & -> & _)|(_ & _ & _ & ds & _ & Hh & _)];
      [by rewrite Hx in Hx'|].
    apply lookup_lt_Some in Hx'. apply lookup_ge_None in Hx.
    rewrite Hh, length_insert in Hx'. lia.
Qed.

(** *** The maps of a manager stay consistent *)

Lemma consistent_new : consistent NewVersionManager.
Proof.
  split; intros *; simpl; rewrite ?lookup_empty; try done.
Qed.

Lemma consistent_alloc vm v : consistent vm → consistent (alloc vm v).2.
Proof.
  intros [Hvs Hlat Hknown Hgreat]. split; simpl.
  - intros id byVersion s p Hby Hp.
    destruct (Hvs _ _ _ _ Hby Hp) as (x & Hx & Hid & Hver).
    exists x. split; [by apply lookup_app_l_Some|done].
  - intros id l Hl.
    destruct (Hlat _ _ Hl) as (x & byVersion & Hx & Hrest).
    exists x, byVersion. split; [by apply lookup_app_l_Some|done].
  - done.
  - intros id byVersion s l x Hby Hs Hl Hx.
    destruct (Hlat _ _ Hl) as (x0 & byVersion0 & Hx0 & _).
    rewrite (lookup_app_l_Some _ _ _ _ Hx0) in Hx. injection Hx as <-.
    by eapply Hgreat.
Qed.

Lemma consistent_register vm p r vm' :
  consistent vm → RegisterVersion vm p = Return (r, vm') → consistent vm'.
Proof.
  intros Hcons Hreg.
  destruct (heap vm !! p) as [v|] eqn:Hv;
    [|unfold RegisterVersion in Hreg; by rewrite Hv in Hreg].
  pose proof (λ q x, register_version_records vm p r vm' q x Hreg) as Hfwd.
  pose proof (λ q x, register_version_records_back vm p r vm' q x Hreg)
    as Hback.
  destruct (register_version_effect _ _ _ _ _ Hv Hreg)
    as [(_ & -> & _)|(_ & _ & _ & ds & _ & Hh & Hvs & Hlat)]; [done|].
  destruct Hcons as [Cvs Clat Cknown Cgreat].
  assert (heap vm' !! p = Some (setDependents ds v)) as Hp.
  { rewrite Hh. apply list_lookup_insert_eq. by eapply lookup_lt_Some. }
  assert (∀ s q, default ∅ (versions vm !! WorkflowID v) !! s = Some q →
            ∃ byVersion, versions vm !! WorkflowID v = Some byVersion
                         ∧ byVersion !! s = Some q) as Hold.
  { intros s q. destruct (versions vm !! WorkflowID v) as [byVersion|];
      simpl; [eauto|by rewrite lookup_empty]. }
  split.
  - intros id byVersion s q. rewrite Hvs, lookup_insert.
    destruct (decide (WorkflowID v = id)) as [<-|Hne].
    + intros [= <-]. rewrite lookup_insert.
      destruct (decide (Version v = s)) as [<-|Hs].
      * intros [= <-]. by exists (setDependents ds v).
      * intros (byVersion & Hby & Hq)%Hold.
        destruct (Cvs _ _ _ _ Hby Hq) as (x & Hx & Hid & Hver).
        destruct (Hfwd _ _ Hx) as (x' & Hx' & Hid' & Hver' & _).
        exists x'. split; [done|]. by rewrite Hid', Hver'.
    + intros Hby Hq.
      destruct (Cvs _ _ _ _ Hby Hq) as (x & Hx & Hid & Hver).
      destruct (Hfwd _ _ Hx) as (x' & Hx' & Hid' & Hver' & _).
      exists x'. split; [done|]. by rewrite Hid', Hver'.
  - assert (∀ id l, latest vm !! id = Some l →
      ∃ x' byVersion, heap vm' !! l = Some x' ∧ WorkflowID x' = id
        ∧ versions vm' !! id = Some byVersion
        ∧ is_Some (byVersion !! Version x')) as Hkeep.
    { intros id l Hl.
      destruct (Clat _ _ Hl) as (x & byVersion & Hx & Hid & Hby & Hsome).
      destruct (Hfwd _ _ Hx) as (x' & Hx' & Hid' & Hver' & _).
      rewrite Hvs, lookup_insert.
      destruct (decide (WorkflowID v = id)) as [Heq|Hne].
      - exists x'. eexists. split; [done|]. split; [by rewrite Hid'|].
        split; [done|]. rewrite lookup_insert.
        destruct (decide (Version v = Version x')); [eauto|].
        rewrite Heq, Hby. simpl. by rewrite Hver'.
      - exists x', byVersion. split; [done|]. split; [by rewrite Hid'|].
        split; [done|]. by rewrite Hver'. }
    intros id l. destruct Hlat as [[-> _]|[-> _]]; [|apply Hkeep].
    rewrite lookup_insert.
    destruct (decide (WorkflowID v = id)) as [<-|Hne]; [|apply Hkeep].
    intros [= <-]. exists (setDependents ds v). eexists.
    split; [done|]. split; [done|]. rewrite Hvs, lookup_insert_eq.
    split; [done|]. simpl. rewrite lookup_insert_eq. eauto.
  - intros id. rewrite Hvs, lookup_insert.
    destruct (decide (WorkflowID v = id)) as [<-|Hne].
    + intros _. destruct Hlat as [[-> _]|[-> (l & cur & -> & _)]];
        [rewrite lookup_insert_eq|]; eauto.
    + intros Hsome%Cknown.
      destruct Hlat as [[-> _]|[-> _]]; [|done].
      by rewrite lookup_insert_ne.
  - intros id byVersion s l x'. rewrite Hvs, lookup_insert.
    destruct (decide (WorkflowID v = id)) as [<-|Hne].
    + intros [= <-]. rewrite lookup_insert.
      destruct Hlat as [[-> Hnewer]|[-> (l0 & cur & Hl0 & Hcur & Hnot)]].
      * rewrite lookup_insert_eq. intros Hs [= <-]. rewrite Hp.
        intros [= <-]. simpl.
        destruct (decide (Version v = s)) as [<-|Hne]; [apply lex_le_refl|].
        destruct Hs as [q (byVersion & Hby & Hq)%Hold].
        destruct (Cknown (WorkflowID v)) as [l0 Hl0]; [eauto|].
        destruct (Clat _ _ Hl0) as (cur & _ & Hcur & _).
        apply lex_le_trans with (Version cur).
        -- eapply Cgreat; eauto.
        -- right. by apply (Hnewer _ _ Hl0 Hcur).
      * intros Hs Hl Hx'. rewrite Hl0 in Hl. injection Hl as <-.
        destruct (Hfwd _ _ Hcur) as (x2 & Hx2 & _ & Hver & _).
        rewrite Hx' in Hx2. injection Hx2 as <-. rewrite Hver.
        destruct (decide (Version v = s)) as [<-|Hne]; [by apply ltb_total|].
        destruct Hs as [q (byVersion & Hby & Hq)%Hold].
        eapply Cgreat; eauto.
    + intros Hby Hs Hl Hx'.
      assert (latest vm !! id = Some l) as Hl'.
      { destruct Hlat as [[Heq _]|[Heq _]]; rewrite Heq in Hl; [|done].
        by rewrite lookup_insert_ne in Hl. }
      destruct (Hback _ _ Hx') as (x & Hx & _ & Hver & _).
      rewrite Hver. eapply Cgreat; eauto.
Qed.

Lemma consistent_perform vm c : consistent vm → consistent (perform vm c).
Proof.
  intros Hcons. destruct c as [v|p]; simpl.
  - pose proof (consistent_alloc vm v Hcons) as Hcons1.
    destruct (RegisterVersion _ _) as [[r vm2]|msg] eqn:Hreg; [|done].
    by eapply consistent_register.
  - destruct (RegisterVersion vm p) as [[r vm2]|msg] eqn:Hreg; [|done].
    by eapply consistent_register.
Qed.

Lemma consistent_history cs : consistent (history cs).
Proof.
  unfold history.
  assert (∀ vm, consistent vm → consistent (foldl perform vm cs)) as Hall.
  { induction cs as [|c cs IH]; intros vm Hvm; simpl; [done|].
    by apply IH, consistent_perform. }
  apply Hall, consistent_new.
Qed.

(** *** CanUpdate *)

Lemma can_update_spec vm id v :
  consistent vm →
  match latest_version vm id with
  | None => CanUpdate vm id v = Return (true, [], None)
  | Some s =>
      ∃ ds, GetDependents vm id = Return ds
        ∧ CanUpdate vm id v
          = if 0 <? Z.of_nat (length ds) then
              Return (false, ds,
                      Some ("workflow " +:+ id +:+ " has "
                            +:+ fmt_d (Z.of_nat (length ds))
                            +:+ " dependents, cannot update safely"))
            else if isNewerVersion v s then Return (true, [], None)
            else Return (false, [],
                         Some ("version " +:+ v
                               +:+ " is not newer than current " +:+ s))
  end.
Proof.
  intros [Cvs Clat Cknown Cgreat].
  unfold latest_version, CanUpdate, GetDependents.
  destruct (latest vm !! id) as [l|] eqn:Hl; simpl.
  - destruct (Clat _ _ Hl) as (cur & byVersion & Hcur & _ & Hby & _).
    rewrite Hcur, Hby. simpl. exists (Dependents cur). split; [done|].
    destruct (0 <? _); [done|].
    destruct (isNewerVersion v (Version cur)) eqn:Hnew; simpl; [|done].
    destruct (bool_decide_reflect (is_Some (byVersion !! v))) as [Hin|];
      [|done].
    pose proof (Cgreat _ _ _ _ _ Hby Hin Hl Hcur) as Hle.
    apply lex_le_not_newer in Hle. congruence.
  - destruct (versions vm !! id) as [byVersion|] eqn:Hby; [|done].
    destruct (Cknown id) as [l Hl']; [eauto|]. congruence.
Qed.

(** X8. On a manager that calls of [RegisterVersion] have filled,
    [CanUpdate] does not panic and decides by two tests only. A workflow
    without versions can always be added. Otherwise the answer is no,
    with the dependents, when the latest record has dependents; yes when
    it has none and the new version string comes after the latest one in
    byte order; and no otherwise. The answer [version already exists] is
    never given: a version string that is registered does not come after
    the latest one. *)
Theorem can_update_decides_by_dependents_and_order (cs : list call)
    (workflowID newVersion : string) :
  match latest_version (history cs) workflowID with
  | None =>
      GetVersion (history cs) workflowID newVersion
      = (None, Some ("workflow " +:+ workflowID +:+ " not found"))
      ∧ CanUpdate (history cs) workflowID newVersion
        = Return (true, [], None)
  | Some s =>
      ∃ ds, GetDependents (history cs) workflowID = Return ds
        ∧ CanUpdate (history cs) workflowID newVersion
          = if 0 <? Z.of_nat (length ds) then
              Return (false, ds,
                      Some ("workflow " +:+ workflowID +:+ " has "
                            +:+ fmt_d (Z.of_nat (length ds))
                            +:+ " dependents, cannot update safely"))
            else if isNewerVersion newVersion s then Return (true, [], None)
            else Return (false, [],
                         Some ("version " +:+ newVersion
                               +:+ " is not newer than current " +:+ s))
  end.
Proof.
  pose proof (consistent_history cs) as Hcons.
  pose proof (can_update_spec (history cs) workflowID newVersion Hcons)
    as Hspec.
  destruct (latest_version (history cs) workflowID) as [s|] eqn:Hs; [done|].
  split; [|done].
  destruct Hcons as [Cvs Clat Cknown Cgreat].
  unfold latest_version in Hs.
  destruct (latest (history cs) !! workflowID) as [l|] eqn:Hl.
  { destruct (Clat _ _ Hl) as (cur & _ & Hcur & _). simpl in Hs.
    by rewrite Hcur in Hs. }
  unfold GetVersion, GetLatestVersion. rewrite Hl.
  destruct (_ || _); [done|].
  destruct (versions (history cs) !! workflowID) as [byVersion|] eqn:Hby;
    [|done].
  destruct (Cknown workflowID) as [l' Hl']; [eauto|]. congruence.
Qed.

(** X9. The latest record of a workflow carries the greatest of its
    version strings in byte order: any version that [GetVersion] finds
    under its own name is at most the version of the latest record, and
    that version is itself among the registered ones. *)
Theorem latest_is_greatest_registered (cs : list call)
    (workflowID version : string) (p : nat) :
  version ≠ "" → version ≠ "latest" →
  GetVersion (history cs) workflowID version = (Some p, None) →
  ∃ s l byVersion,
    latest_version (history cs) workflowID = Some s
    ∧ lex_le version s
    ∧ GetLatestVersion (history cs) workflowID = (Some l, None)
    ∧ versions (history cs) !! workflowID = Some byVersion
    ∧ is_Some (byVersion !! s).
Proof.
  intros Hne1 Hne2. unfold GetVersion.
  rewrite (bool_decide_eq_false_2 _ Hne1), (bool_decide_eq_false_2 _ Hne2).
  simpl.
  destruct (versions (history cs) !! workflowID) as [byVersion|] eqn:Hby;
    [|done].
  destruct (byVersion !! version) as [q|] eqn:Hq; [|done]. intros _.
  destruct (consistent_history cs) as [Cvs Clat Cknown Cgreat].
  destruct (Cknown workflowID) as [l Hl]; [eauto|].
  destruct (Clat _ _ Hl) as (cur & byVersion' & Hcur & _ & Hby' & Hsome).
  rewrite Hby in Hby'. injection Hby' as <-.
  exists (Version cur), l, byVersion.
  unfold latest_version, GetLatestVersion. rewrite Hl. simpl. rewrite Hcur.
  split; [done|]. split; [|done]. eapply Cgreat; eauto.
Qed.

Lemma latest_is_greatest_registered_witness :
  ∃ s l byVersion,
    latest_version (history Samples.version_calls) "w" = Some s
    ∧ lex_le "1.10.0" s
    ∧ GetLatestVersion (history Samples.version_calls) "w" = (Some l, None)
    ∧ versions (history Samples.version_calls) !! "w" = Some byVersion
    ∧ is_Some (byVersion !! s).
Proof.
  apply (latest_is_greatest_registered Samples.version_calls "w" "1.10.0" 1);
    [done|done|by vm_compute].
Defined.

(** *** GetVersion after RegisterVersion *)

(** X10. A record that [RegisterVersion] has accepted is found again by
    [GetVersion] under its workflow and version, unless its version
    string is the word [latest], which [GetVersion] reads as a request for
    the latest record. What [GetVersion] finds under any other workflow
    or version name is what it found before. *)
Theorem registered_version_is_found (vm : VersionManager) (p : nat)
    (v : WorkflowVersion) (vm' : VersionManager) :
  heap vm !! p = Some v →
  RegisterVersion vm p = Return (None, vm') →
  Version v ≠ "latest" →
  GetVersion vm' (WorkflowID v) (Version v) = (Some p, None)
  ∧ ∀ id s, s ≠ "" → s ≠ "latest" → (id, s) ≠ (WorkflowID v, Version v) →
            (GetVersion vm' id s).1 = (GetVersion vm id s).1.
Proof.
  intros Hv Hreg Hlatest.
  destruct (register_version_effect _ _ _ _ _ Hv Hreg)
    as [([e He] & _)|(_ & Hid & Hver & ds & _ & _ & Hvs & _)]; [done|].
  unfold GetVersion. rewrite Hvs. split.
  - rewrite (bool_decide_eq_false_2 _ Hver),
      (bool_decide_eq_false_2 _ Hlatest). simpl.
    by rewrite !lookup_insert_eq.
  - intros id s Hs1 Hs2 Hother.
    rewrite (bool_decide_eq_false_2 _ Hs1), (bool_decide_eq_false_2 _ Hs2).
    simpl. rewrite lookup_insert.
    destruct (decide (WorkflowID v = id)) as [<-|Hne]; [|done].
    rewrite lookup_insert_ne by congruence.
    destruct (versions vm !! WorkflowID v) as [byVersion|]; [done|].
    simpl. by rewrite lookup_empty.
Qed.

Lemma registered_version_is_found_witness :
  GetVersion (perform Samples.versions_x1 (RegisterAgain 1)) "w" "1.0.0"
  = (Some 1%nat, None)
  ∧ ∀ id s, s ≠ "" → s ≠ "latest" → (id, s) ≠ ("w", "1.0.0") →
            (GetVersion (perform Samples.versions_x1 (RegisterAgain 1))
                        id s).1
            = (GetVersion Samples.versions_x1 id s).1.
Proof.
  apply (registered_version_is_found Samples.versions_x1 1
           (Samples.version_record "w" "1.0.0")
           (perform Samples.versions_x1 (RegisterAgain 1)));
    [by vm_compute|by vm_compute|done].
Defined.

(** *** The dependents that updateDependencies records *)

Lemma dependents_among_spec h id wfID vs : ∀ ds,
  dependents_among h id wfID vs = Some ds →
  ∀ x, x ∈ ds
       ↔ x = wfID ∧ ∃ q r, q ∈ vs ∧ h !! q = Some r
                           ∧ id ∈ wv_Dependencies r.
Proof.
  induction vs as [|q vs IH]; intros ds; simpl.
  - intros [= <-] x. split; [by intros ?%elem_of_nil|].
    by intros (_ & q & r & ?%elem_of_nil & _).
  - destruct (h !! q) as [r|] eqn:Hr; [|done].
    destruct (dependents_among h id wfID vs) as [ds'|]; [|done].
    intros [= <-] x. specialize (IH ds' eq_refl x).
    destruct (bool_decide_reflect (id ∈ wv_Dependencies r)) as [Hin|Hout].
    + rewrite elem_of_cons, IH. split.
      * intros [->|(-> & q' & r' & Hq' & Hrest)].
        -- split; [done|]. exists q, r. split; [by left|done].
        -- split; [done|]. exists q', r'. split; [by right|done].
      * intros (-> & _). by left.
    + rewrite IH. split.
      * intros (-> & q' & r' & Hq' & Hrest). split; [done|].
        exists q', r'. split; [by right|done].
      * intros (-> & q' & r' & [->|Hq']%elem_of_cons & Hr' & Hdep).
        -- rewrite Hr in Hr'. by injection Hr' as <-.
        -- split; [done|]. by exists q', r'.
Qed.

Lemma dependents_of_spec h id wfs : ∀ ds,
  dependents_of h id wfs = Some ds →
  ∀ x, x ∈ ds
       ↔ x ≠ id ∧ ∃ byVersion s q r,
                    (x, byVersion) ∈ wfs ∧ byVersion !! s = Some q
                    ∧ h !! q = Some r ∧ id ∈ wv_Dependencies r.
Proof.
  induction wfs as [|[wfID byVersion] wfs IH]; intros ds; simpl.
  - intros [= <-] x. split; [by intros ?%elem_of_nil|].
    by intros (_ & ? & ? & ? & ? & ?%elem_of_nil & _).
  - destruct (bool_decide_reflect (wfID = id)) as [->|Hne].
    + intros Hds x. rewrite (IH ds Hds x). split.
      * intros (Hx & b & s & q & r & Hin & Hrest). split; [done|].
        exists b, s, q, r. split; [by right|done].
      * intros (Hx & b & s & q & r & [[= -> ->]|Hin]%elem_of_cons & Hrest);
          [done|].
        split; [done|]. by exists b, s, q, r.
    + destruct (dependents_among h id wfID (map_to_list byVersion).*2)
        as [ds1|] eqn:H1; [|done].
      destruct (dependents_of h id wfs) as [ds2|]; [|done].
      intros [= <-] x. rewrite elem_of_app, (IH ds2 eq_refl x),
        (dependents_among_spec _ _ _ _ _ H1 x). split.
      * intros [(-> & q & r & Hq & Hr & Hdep)
               |(Hx & b & s & q & r & Hin & Hrest)].
        -- split; [done|].
           apply list_elem_of_fmap in Hq as ([s q'] & -> & Hsq).
           apply elem_of_map_to_list in Hsq.
           exists byVersion, s, q', r. split; [by left|done].
        -- split; [done|]. exists b, s, q, r. split; [by right|done].
      * intros (Hx & b & s & q & r & [[= -> ->]|Hin]%elem_of_cons
                & Hs & Hr & Hdep).
        -- left. split; [done|]. exists q, r. split; [|done].
           apply list_elem_of_fmap. exists (s, q). split; [done|].
           by apply elem_of_map_to_list.
        -- right. split; [done|]. by exists b, s, q, r.
Qed.

Lemma register_version_dependents vm p v vm' :
  heap vm !! p = Some v →
  RegisterVersion vm p = Return (None, vm') →
  ∃ v', heap vm' !! p = Some v'
    ∧ (∀ x, x ∈ Dependents v'
            ↔ x ≠ WorkflowID v ∧ refers_to vm' x (WorkflowID v))
    ∧ ∀ q, q ≠ p → heap vm' !! q = heap vm !! q.
Proof.
  intros Hv Hreg.
  pose proof (λ q x, register_version_records vm p None vm' q x Hreg) as Hfwd.
  pose proof (λ q x, register_version_records_back vm p None vm' q x Hreg)
    as Hback.
  destruct (register_version_effect _ _ _ _ _ Hv Hreg)
    as [([e He] & _)|(_ & Hid & Hver & ds & Hds & Hh & Hvs & _)]; [done|].
  exists (setDependents ds v). split; [|split].
  - rewrite Hh. apply list_lookup_insert_eq. by eapply lookup_lt_Some.
  - intros x. simpl. rewrite (dependents_of_spec _ _ _ _ Hds x).
    unfold refers_to. split.
    + intros (Hx & b & s & q & r & Hin%elem_of_map_to_list & Hs & Hr & Hdep).
      split; [done|].
      destruct (Hfwd _ _ Hr) as (r' & Hr' & _ & _ & Hdeps & _).
      exists b, s, q, r'. by rewrite Hdeps.
    + intros (Hx & b & s & q & r' & Hb & Hs & Hr' & Hdep).
      split; [done|].
      destruct (Hback _ _ Hr') as (r & Hr & _ & _ & Hdeps).
      exists b, s, q, r. rewrite <- Hdeps.
      split; [by apply elem_of_map_to_list|done].
  - intros q Hq. rewrite Hh. by apply list_lookup_insert_ne.
Qed.

(** X11. [RegisterVersion] rewrites the dependents of the record it
    registers and of no other record. The new list names exactly the
    other workflows that have, at that moment, some registered version
    whose dependencies include the workflow being registered. *)
Theorem registration_records_current_dependents (vm : VersionManager)
    (p : nat) (v : WorkflowVersion) (vm' : VersionManager) :
  heap vm !! p = Some v →
  RegisterVersion vm p = Return (None, vm') →
  ∃ v', heap vm' !! p = Some v'
    ∧ (∀ x, x ∈ Dependents v'
            ↔ x ≠ WorkflowID v ∧ refers_to vm' x (WorkflowID v))
    ∧ ∀ q, q ≠ p → heap vm' !! q = heap vm !! q.
Proof. apply register_version_dependents. Qed.

Lemma registration_records_current_dependents_witness :
  ∃ v', heap (perform Samples.versions_x1 (RegisterAgain 1)) !! 1%nat
        = Some v'
    ∧ (∀ x, x ∈ Dependents v'
            ↔ x ≠ "w"
              ∧ refers_to (perform Samples.versions_x1 (RegisterAgain 1))
                          x "w")
    ∧ ∀ q, q ≠ 1%nat →
           heap (perform Samples.versions_x1 (RegisterAgain 1)) !! q
           = heap Samples.versions_x1 !! q.
Proof.
  apply (registration_records_current_dependents Samples.versions_x1 1
           (Samples.version_record "w" "1.0.0")
           (perform Samples.versions_x1 (RegisterAgain 1)));
    by vm_compute.
Defined.

End VersionFacts.

(** ** The workflow manager *)

Module WorkflowFacts.
Import Versions Workflows RegistryFacts VersionFacts.

(** *** extractDependencies *)

Lemma note_reference_spec depMap node w :
  w ∈ note_reference depMap node
  ↔ w ∈ depMap
    ∨ Metadata node !! "workflow_type" = Some (AnyString "sub-workflow")
      ∧ Metadata node !! "workflow_id" = Some (AnyString w).
Proof.
  unfold note_reference.
  destruct (Metadata node !! "workflow_type") as [[|nodeType| |]|];
    try (split; [by left|by intros [?|[? _]]]).
  destruct (bool_decide_reflect (nodeType = "sub-workflow")) as [->|Hne].
  - destruct (Metadata node !! "workflow_id") as [[|wfID| |]|];
      try (split; [by left|by intros [?|[_ ?]]]).
    rewrite elem_of_union, elem_of_singleton. split.
    + intros [->|?]; [by right|by left].
    + intros [?|[_ [= ->]]]; [by right|by left].
  - split; [by left|]. intros [?|[[= ?] _]]; done.
Qed.

Lemma note_references_spec nodes : ∀ depMap w,
  w ∈ foldl note_reference depMap nodes
  ↔ w ∈ depMap
    ∨ ∃ node, node ∈ nodes
        ∧ Metadata node !! "workflow_type" = Some (AnyString "sub-workflow")
        ∧ Metadata node !! "workflow_id" = Some (AnyString w).
Proof.
  induction nodes as [|node nodes IH]; intros depMap w; simpl.
  - split; [by left|]. by intros [?|(? & ?%elem_of_nil & _)].
  - rewrite IH, note_reference_spec. split.
    + intros [[?|?]|(n & Hn & ?)]; [by left| |].
      * right. exists node. split; [by left|done].
      * right. exists n. split; [by right|done].
    + intros [?|(n & [->|Hn]%elem_of_cons & ?)].
      * by left; left.
      * by left; right.
      * right. by exists n.
Qed.

(** X12. [extractDependencies] returns, without repetition, exactly the
    workflow ids that some node of the definition names in its metadata
    entry [workflow_id] while its metadata entry [workflow_type] is the
    string [sub-workflow]; an entry that is not a string counts for
    nothing. *)
Theorem extract_dependencies_names_sub_workflows
    (def : WorkflowDefinition) :
  NoDup (extractDependencies def)
  ∧ ∀ w, w ∈ extractDependencies def
         ↔ ∃ node, node ∈ def_Nodes def
             ∧ Metadata node !! "workflow_type"
               = Some (AnyString "sub-workflow")
             ∧ Metadata node !! "workflow_id" = Some (AnyString w).
Proof.
  unfold extractDependencies. split; [apply NoDup_elements|].
  intros w. rewrite elem_of_elements, note_references_spec.
  split; [by intros [?%not_elem_of_empty|?]|by right].
Qed.

(** *** What one call of [RegisterWorkflow] writes *)

Lemma register_workflow_effect wm now id ver b meta err wm' :
  RegisterWorkflow wm now id ver b meta = Return (err, wm') →
  (is_Some err
   ∧ builders wm' = builders wm ∧ metadata wm' = metadata wm
   ∧ versions (wm_versions wm') = versions (wm_versions wm)
   ∧ latest (wm_versions wm') = latest (wm_versions wm)
   ∧ (heap (wm_versions wm') = heap (wm_versions wm)
      ∨ ∃ x, heap (wm_versions wm') = (heap (wm_versions wm) ++ [x])%list))
  ∨ (err = None
     ∧ ∃ def deps e,
         b = (Some def, None)
         ∧ CanUpdate (wm_versions wm) id ver = Return (true, deps, e)
         ∧ RegisterVersion
             (alloc (wm_versions wm)
                (mkWorkflowVersion id ver (Some def) now
                   (extractDependencies def) [])).2
             (length (heap (wm_versions wm)))
           = Return (None, wm_versions wm')
         ∧ builders wm' = <[id := b]> (builders wm)
         ∧ metadata wm' = <[id := default ∅ meta]> (metadata wm)).
Proof.
  unfold RegisterWorkflow.
  destruct (CanUpdate _ _ _) as [[[can deps] e]|msg] eqn:Hcan; [|done].
  destruct can; simpl.
  - destruct b as [[def|] [e'|]]; try done.
    + intros [= <- <-]. left. split; [eauto|]. repeat split; by left.
    + destruct (RegisterVersion _ _) as [[[e'|] vm2]|msg] eqn:Hreg; [| |done].
      * intros [= <- <-]. left. split; [eauto|]. simpl.
        apply register_version_effect with (v :=
          mkWorkflowVersion id ver (Some def) now (extractDependencies def) [])
          in Hreg as [(_ & -> & _)|(? & _)]; [|done|].
        -- repeat split; try done. right. eauto.
        -- simpl. by rewrite lookup_app_r, Nat.sub_diag by done.
      * intros [= <- <-]. right. split; [done|].
        exists def, deps, e. by rewrite Hreg.
    + intros [= <- <-]. left. split; [eauto|]. repeat split; by left.
  - destruct (0 <? _).
    + intros [= <- <-]. left. split; [eauto|]. repeat split; by left.
    + intros [= <- <-]. left.
      assert (is_Some e) as He.
      { unfold CanUpdate in Hcan.
        destruct (versions _ !! id); [|done].
        destruct (latest _ !! id) as [l|]; [|done].
        destruct (heap _ !! l) as [cur|]; [|done].
        destruct (0 <? _); [by inversion Hcan|].
        destruct (negb _); [by inversion Hcan|].
        destruct (bool_decide _); [by inversion Hcan|done]. }
      split; [done|]. repeat split; by left.
Qed.

Lemma tables_agree_new : tables_agree NewWorkflowManager.
Proof.
  split; [apply consistent_new|]. intros id. simpl.
  rewrite !lookup_empty. split; split; by intros [? ?].
Qed.

Lemma tables_agree_register wm now id ver b meta err wm' :
  tables_agree wm →
  RegisterWorkflow wm now id ver b meta = Return (err, wm') →
  tables_agree wm'.
Proof.
  intros [Hcons Hdom] Hreg.
  destruct (register_workflow_effect _ _ _ _ _ _ _ _ Hreg)
    as [(_ & Hb & Hm & Hvs & Hlat & Hheap)
       |(_ & def & deps & e & -> & Hcan & Hrv & Hb & Hm)].
  - split; [|intros id'; by rewrite Hb, Hm, Hlat].
    destruct Hcons as [Cvs Clat Cknown Cgreat].
    assert (∀ q x, heap (wm_versions wm) !! q = Some x →
                   heap (wm_versions wm') !! q = Some x) as Hkeep.
    { intros q x Hx. destruct Hheap as [->|[y ->]]; [done|].
      by apply lookup_app_l_Some. }
    split.
    + intros i byVersion s q. rewrite Hvs. intros Hby Hq.
      destruct (Cvs _ _ _ _ Hby Hq) as (x & Hx & Hrest). eauto.
    + intros i l. rewrite Hlat, Hvs. intros Hl.
      destruct (Clat _ _ Hl) as (x & byVersion & Hx & Hrest).
      exists x, byVersion. eauto.
    + intros i. rewrite Hvs, Hlat. apply Cknown.
    + intros i byVersion s l x. rewrite Hvs, Hlat. intros Hby Hs Hl Hx.
      destruct (Clat _ _ Hl) as (x0 & _ & Hx0 & _).
      rewrite (Hkeep _ _ Hx0) in Hx. injection Hx as <-.
      eapply Cgreat; eauto.
  - pose proof (consistent_register _ _ _ _
                  (consistent_alloc _ _ Hcons) Hrv) as Hcons'.
    split; [done|]. intros id'. rewrite Hb, Hm, !lookup_insert.
    apply register_version_effect with (v :=
      mkWorkflowVersion id ver (Some def) now (extractDependencies def) [])
      in Hrv as [([? ?] & _)|(_ & _ & _ & ds & _ & _ & _ & Hlat)];
      [done| |simpl; by rewrite lookup_app_r, Nat.sub_diag by done].
    simpl in Hlat.
    destruct (decide (id = id')) as [<-|Hne].
    + split; [|split; eauto]. split; [intros _|eauto].
      destruct Hlat as [[-> _]|[-> (l & cur & -> & _)]];
        [rewrite lookup_insert_eq|]; eauto.
    + destruct (Hdom id') as [H1 H2]. split; [|done]. rewrite H1.
      destruct Hlat as [[-> _]|[-> _]]; [|done].
      by rewrite lookup_insert_ne.
Qed.

Lemma tables_agree_registered rs : tables_agree (registered rs).
Proof.
  unfold registered.
  assert (∀ wm, tables_agree wm → tables_agree (foldl register_one wm rs))
    as Hall.
  { induction rs as [|r rs IH]; intros wm Hwm; simpl; [done|].
    apply IH. unfold register_one.
    destruct (RegisterWorkflow _ _ _ _ _ _) as [[err wm']|msg] eqn:Hreg;
      [|done].
    by eapply tables_agree_register. }
  apply Hall, tables_agree_new.
Qed.

(** A call that is accepted: the new record, and the maps after it. *)
Lemma register_workflow_success wm now id ver b meta wm' :
  tables_agree wm →
  RegisterWorkflow wm now id ver b meta = Return (None, wm') →
  ∃ def ds,
    b = (Some def, None) ∧ id ≠ "" ∧ ver ≠ ""
    ∧ heap (wm_versions wm')
      = (heap (wm_versions wm)
         ++ [mkWorkflowVersion id ver (Some def) now
               (extractDependencies def) ds])%list
    ∧ versions (wm_versions wm')
      = <[id := <[ver := length (heap (wm_versions wm))]>
                  (default ∅ (versions (wm_versions wm) !! id))]>
          (versions (wm_versions wm))
    ∧ latest (wm_versions wm')
      = <[id := length (heap (wm_versions wm))]> (latest (wm_versions wm))
    ∧ builders wm' = <[id := b]> (builders wm)
    ∧ metadata wm' = <[id := default ∅ meta]> (metadata wm)
    ∧ (∀ x, x ∈ ds ↔ x ≠ id ∧ refers_to (wm_versions wm') x id).
Proof.
  intros [Hcons Hdom] Hreg.
  destruct (register_workflow_effect _ _ _ _ _ _ _ _ Hreg)
    as [([? ?] & _)|(_ & def & deps & e & -> & Hcan & Hrv & Hb & Hm)];
    [done|].
  set (v := mkWorkflowVersion id ver (Some def) now
              (extractDependencies def) []) in *.
  assert (heap (alloc (wm_versions wm) v).2
          !! length (heap (wm_versions wm)) = Some v) as Hv.
  { simpl. by rewrite lookup_app_r, Nat.sub_diag by done. }
  destruct (register_version_dependents _ _ _ _ Hv Hrv)
    as (v' & Hv' & Hdeps & _).
  destruct (register_version_effect _ _ _ _ _ Hv Hrv)
    as [([? ?] & _)|(_ & Hid & Hver & ds & _ & Hh & Hvs & Hlat)]; [done|].
  exists def, ds. split; [done|]. split; [done|]. split; [done|].
  assert (heap (wm_versions wm')
          = (heap (wm_versions wm) ++ [setDependents ds v])%list) as Hheap.
  { rewrite Hh. simpl.
    rewrite insert_app_r_alt, Nat.sub_diag by done. done. }
  split; [done|]. split; [done|]. split; [|split; [done|split; [done|]]].
  - destruct Hlat as [[-> _]|[_ (l & cur & Hl & Hcur & Hnot)]]; [done|].
    exfalso. simpl in Hl, Hcur.
    destruct Hcons as [Cvs Clat Cknown Cgreat].
    destruct (Clat _ _ Hl) as (cur0 & byVersion & Hcur0 & _ & Hby & _).
    rewrite (lookup_app_l_Some _ _ _ _ Hcur0) in Hcur. injection Hcur as <-.
    pose proof (can_update_spec (wm_versions wm) id ver
                  (mkConsistent _ Cvs Clat Cknown Cgreat)) as Hspec.
    unfold latest_version in Hspec. rewrite Hl in Hspec. simpl in Hspec.
    rewrite Hcur0 in Hspec. simpl in Hspec.
    destruct Hspec as (ds0 & _ & Hcan').
    simpl in Hnot. rewrite Hnot, Hcan in Hcan'.
    by destruct (0 <? _).
  - rewrite Hh in Hv'. simpl in Hv'.
    rewrite list_lookup_insert_eq in Hv'
      by (rewrite length_app; simpl; lia).
    injection Hv' as <-. apply Hdeps.
Qed.

(** X13. A workflow that [RegisterWorkflow] has accepted is served by the
    manager: [HasWorkflow] holds, [GetLatestVersion] returns the version
    just registered, [BuildWorkflow] returns what the builder returns,
    [GetMetadata] the metadata given (an empty map for nil), and
    [GetWorkflowDefinition] the definition, under the empty version and
    under the version's own name unless that name is the word [latest]. *)
Theorem registered_workflow_is_served (rs : list registration) (now : Z)
    (workflowID version : string) (builder : WorkflowBuilder)
    (meta : option (gmap string any)) (wm' : WorkflowManager) :
  RegisterWorkflow (registered rs) now workflowID version builder meta
  = Return (None, wm') →
  ∃ def,
    builder = (Some def, None)
    ∧ HasWorkflow wm' workflowID = true
    ∧ GetLatestVersion wm' workflowID = Return (version, None)
    ∧ BuildWorkflow wm' workflowID = (Some def, None)
    ∧ GetMetadata wm' workflowID = default ∅ meta
    ∧ GetWorkflowDefinition wm' workflowID "" = Return (Some def, None)
    ∧ (version ≠ "latest" →
       GetWorkflowDefinition wm' workflowID version
       = Return (Some def, None)).
Proof.
  intros Hreg.
  destruct (register_workflow_success _ _ _ _ _ _ _
              (tables_agree_registered rs) Hreg)
    as (def & ds & -> & Hid & Hver & Hheap & Hvs & Hlat & Hb & Hm & _).
  exists def. split; [done|].
  assert (heap (wm_versions wm') !! length (heap (wm_versions (registered rs)))
          = Some (mkWorkflowVersion workflowID version (Some def) now
                    (extractDependencies def) ds)) as Hrec.
  { rewrite Hheap. by rewrite lookup_app_r, Nat.sub_diag by done. }
  split; [|split; [|split; [|split; [|split]]]].
  - unfold HasWorkflow. rewrite Hb, lookup_insert_eq.
    apply bool_decide_eq_true_2. eauto.
  - unfold GetLatestVersion, Versions.GetLatestVersion.
    by rewrite Hlat, lookup_insert_eq, Hrec.
  - unfold BuildWorkflow. by rewrite Hb, lookup_insert_eq.
  - unfold GetMetadata. by rewrite Hm, lookup_insert_eq.
  - unfold GetWorkflowDefinition, GetVersion, Versions.GetLatestVersion.
    simpl. by rewrite Hlat, lookup_insert_eq, Hrec.
  - intros Hlatest. unfold GetWorkflowDefinition, GetVersion.
    rewrite (bool_decide_eq_false_2 _ Hver),
      (bool_decide_eq_false_2 _ Hlatest). simpl.
    by rewrite Hvs, !lookup_insert_eq, Hrec.
Qed.

Lemma registered_workflow_is_served_witness :
  ∃ def,
    ((Some (Samples.plain_definition "w" "1.0.0"), None) : WorkflowBuilder)
    = (Some def, None)
    ∧ HasWorkflow (registered Samples.dependent_then_target) "w" = true
    ∧ GetLatestVersion (registered Samples.dependent_then_target) "w"
      = Return ("1.0.0", None)
    ∧ BuildWorkflow (registered Samples.dependent_then_target) "w"
      = (Some def, None)
    ∧ GetMetadata (registered Samples.dependent_then_target) "w"
      = default ∅ (@None (gmap string any))
    ∧ GetWorkflowDefinition (registered Samples.dependent_then_target) "w" ""
      = Return (Some def, None)
    ∧ ("1.0.0" ≠ "latest" →
       GetWorkflowDefinition (registered Samples.dependent_then_target)
                             "w" "1.0.0"
       = Return (Some def, None)).
Proof.
  apply (registered_workflow_is_served Samples.dependent_first 0 "w" "1.0.0"
           (Some (Samples.plain_definition "w" "1.0.0"), None) None
           (registered Samples.dependent_then_target)).
  by vm_compute.
Defined.

(** X14. When a workflow is registered, every other workflow that already
    has a registered version referring to it is recorded among its
    dependents. *)
Theorem later_registration_records_dependents (rs : list registration)
    (now : Z) (w version : string) (builder : WorkflowBuilder)
    (meta : option (gmap string any)) (wm' : WorkflowManager) (x : string) :
  x ≠ w →
  refers_to (wm_versions (registered rs)) x w →
  RegisterWorkflow (registered rs) now w version builder meta
  = Return (None, wm') →
  ∃ ds, dependents wm' w = Return ds ∧ x ∈ ds.
Proof.
  intros Hx (byVersion & s & q & r & Hby & Hs & Hr & Hdep) Hreg.
  destruct (register_workflow_success _ _ _ _ _ _ _
              (tables_agree_registered rs) Hreg)
    as (def & ds & -> & Hid & Hver & Hheap & Hvs & Hlat & Hb & Hm & Hds).
  exists ds. split.
  - unfold dependents, GetDependents.
    rewrite Hlat, lookup_insert_eq, Hheap.
    by rewrite lookup_app_r, Nat.sub_diag by done.
  - apply Hds. split; [done|]. exists byVersion, s, q, r.
    rewrite Hvs, lookup_insert_ne by done. split; [done|]. split; [done|].
    split; [|done]. rewrite Hheap. by apply lookup_app_l_Some.
Qed.

Lemma later_registration_records_dependents_witness :
  ∃ ds, dependents (registered Samples.dependent_then_target) "w" = Return ds
        ∧ "x" ∈ ds.
Proof.
  apply (later_registration_records_dependents Samples.dependent_first 0
           "w" "1.0.0" (Some (Samples.plain_definition "w" "1.0.0"), None)
           None (registered Samples.dependent_then_target) "x").
  - done.
  - exists {["1.0.0" := 0%nat]}, "1.0.0", 0%nat,
      (Samples.referring_record "x" "1.0.0" "w").
    split; [by vm_compute|]. split; [by vm_compute|].
    split; [by vm_compute|]. simpl. by left.
  - by vm_compute.
Defined.

(** *** A workflow with dependents *)

Lemma refused_for_dependents wm now w ver b meta l rec :
  tables_agree wm →
  latest (wm_versions wm) !! w = Some l →
  heap (wm_versions wm) !! l = Some rec →
  Dependents rec ≠ [] →
  RegisterWorkflow wm now w ver b meta
  = Return (Some ("cannot update workflow " +:+ w +:+ ": has dependents "
                  +:+ fmt_strings (Dependents rec)), wm).
Proof.
  intros [Hcons _] Hl Hrec Hds.
  pose proof (can_update_spec (wm_versions wm) w ver Hcons) as Hspec.
  unfold latest_version, GetDependents in Hspec.
  rewrite Hl in Hspec. simpl in Hspec. rewrite Hrec in Hspec.
  simpl in Hspec. destruct Hspec as (ds & [= <-] & Hcan).
  assert ((0 <? Z.of_nat (length (Dependents rec))) = true) as Hpos.
  { apply Z.ltb_lt. destruct (Dependents rec); [done|]. simpl. lia. }
  rewrite Hpos in Hcan. unfold RegisterWorkflow.
  by rewrite Hcan, Hpos.
Qed.

Lemma frozen_step wm r w l rec :
  tables_agree wm →
  latest (wm_versions wm) !! w = Some l →
  heap (wm_versions wm) !! l = Some rec →
  Dependents rec ≠ [] →
  latest (wm_versions (register_one wm r)) !! w = Some l
  ∧ heap (wm_versions (register_one wm r)) !! l = Some rec.
Proof.
  intros Hagree Hl Hrec Hds. unfold register_one.
  destruct (RegisterWorkflow _ _ _ _ _ _) as [[err wm']|msg] eqn:Hreg;
    [|done].
  destruct (decide (reg_workflowID r = w)) as [Hw|Hw].
  { rewrite Hw, (refused_for_dependents _ _ _ _ _ _ _ _ Hagree Hl Hrec Hds)
      in Hreg. by injection Hreg as _ <-. }
  destruct (register_workflow_effect _ _ _ _ _ _ _ _ Hreg)
    as [(_ & _ & _ & _ & Hlat & Hheap)|(-> & _)].
  - rewrite Hlat. split; [done|].
    destruct Hheap as [->|[y ->]]; [done|]. by apply lookup_app_l_Some.
  - destruct (register_workflow_success _ _ _ _ _ _ _ Hagree Hreg)
      as (def & ds & _ & _ & _ & Hheap & _ & Hlat & _).
    rewrite Hlat, lookup_insert_ne by done. split; [done|].
    rewrite Hheap. by apply lookup_app_l_Some.
Qed.

Lemma frozen_steps rs : ∀ wm w l rec,
  tables_agree wm →
  latest (wm_versions wm) !! w = Some l →
  heap (wm_versions wm) !! l = Some rec →
  Dependents rec ≠ [] →
  tables_agree (foldl register_one wm rs)
  ∧ latest (wm_versions (foldl register_one wm rs)) !! w = Some l
  ∧ heap (wm_versions (foldl register_one wm rs)) !! l = Some rec.
Proof.
  induction rs as [|r rs IH]; intros wm w l rec Hagree Hl Hrec Hds; simpl;
    [done|].
  destruct (frozen_step wm r w l rec Hagree Hl Hrec Hds) as [Hl' Hrec'].
  apply IH; try done. unfold register_one.
  destruct (RegisterWorkflow _ _ _ _ _ _) as [[err wm']|msg] eqn:Hreg;
    [|done].
  by eapply tables_agree_register.
Qed.

(** X15. A workflow whose latest record lists dependents is frozen.
    Whatever is registered afterwards, its latest version and its
    dependents stay as they are, and every further [RegisterWorkflow] for
    it is refused with the error that names those dependents and leaves
    the manager as it was. *)
Theorem workflow_with_dependents_is_frozen (rs rs' : list registration)
    (w : string) (ds : list string) :
  dependents (registered rs) w = Return ds → ds ≠ [] →
  dependents (registered (rs ++ rs')) w = Return ds
  ∧ GetLatestVersion (registered (rs ++ rs')) w
    = GetLatestVersion (registered rs) w
  ∧ ∀ now version builder meta,
      RegisterWorkflow (registered (rs ++ rs')) now w version builder meta
      = Return (Some ("cannot update workflow " +:+ w
                      +:+ ": has dependents " +:+ fmt_strings ds),
                registered (rs ++ rs')).
Proof.
  unfold dependents, GetDependents. intros Hdeps Hds.
  destruct (latest (wm_versions (registered rs)) !! w) as [l|] eqn:Hl;
    [|by injection Hdeps as <-].
  destruct (heap (wm_versions (registered rs)) !! l) as [rec|] eqn:Hrec;
    [|done].
  injection Hdeps as <-.
  destruct (frozen_steps rs' (registered rs) w l rec
              (tables_agree_registered rs) Hl Hrec Hds)
    as (Hagree & Hl' & Hrec').
  unfold registered in *. rewrite foldl_app.
  split; [by rewrite Hl', Hrec'|]. split.
  - unfold GetLatestVersion, Versions.GetLatestVersion.
    by rewrite Hl', Hrec', Hl, Hrec.
  - intros now version builder meta.
    by eapply refused_for_dependents.
Qed.

Lemma workflow_with_dependents_is_frozen_witness :
  dependents (registered (Samples.dependent_then_target
                          ++ [Samples.registration_of "w" "2.0.0"])) "w"
  = Return ["x"]
  ∧ GetLatestVersion
      (registered (Samples.dependent_then_target
                   ++ [Samples.registration_of "w" "2.0.0"])) "w"
    = GetLatestVersion (registered Samples.dependent_then_target) "w"
  ∧ ∀ now version builder meta,
      RegisterWorkflow
        (registered (Samples.dependent_then_target
                     ++ [Samples.registration_of "w" "2.0.0"]))
        now "w" version builder meta
      = Return (Some ("cannot update workflow " +:+ "w"
                      +:+ ": has dependents " +:+ fmt_strings ["x"]),
                registered (Samples.dependent_then_target
                            ++ [Samples.registration_of "w" "2.0.0"])).
Proof.
  apply (workflow_with_dependents_is_frozen Samples.dependent_then_target
           [Samples.registration_of "w" "2.0.0"] "w" ["x"]);
    [by vm_compute|done].
Defined.

(** X16. The tables of a manager that [RegisterWorkflow] has filled agree
    on which workflows exist. When [HasWorkflow] holds, [GetLatestVersion]
    returns a version without error and without panic; when it does not,
    [GetLatestVersion] and [BuildWorkflow] return the not-found error and
    [GetMetadata] an empty map. *)
Theorem manager_tables_agree (rs : list registration) (workflowID : string) :
  if HasWorkflow (registered rs) workflowID then
    ∃ version, GetLatestVersion (registered rs) workflowID
               = Return (version, None)
  else
    GetLatestVersion (registered rs) workflowID
    = Return ("", Some ("workflow " +:+ workflowID +:+ " not found"))
    ∧ BuildWorkflow (registered rs) workflowID
      = (None, Some ("workflow " +:+ workflowID +:+ " not found"))
    ∧ GetMetadata (registered rs) workflowID = ∅.
Proof.
  destruct (tables_agree_registered rs) as [[Cvs Clat Cknown Cgreat] Hdom].
  destruct (Hdom workflowID) as [Hlat Hmeta].
  unfold HasWorkflow, GetLatestVersion, Versions.GetLatestVersion,
    BuildWorkflow, GetMetadata.
  destruct (bool_decide_reflect
              (is_Some (builders (registered rs) !! workflowID)))
    as [Hhas|Hnot].
  - destruct (proj1 Hlat Hhas) as [l Hl]. rewrite Hl.
    destruct (Clat _ _ Hl) as (cur & byVersion & Hcur & _ & Hby & Hsome).
    rewrite Hcur. by exists (Version cur).
  - destruct (latest _ !! workflowID) as [l|] eqn:Hl;
      [exfalso; apply Hnot, Hlat; eauto|].
    destruct (builders _ !! workflowID) as [b|] eqn:Hb;
      [exfalso; apply Hnot; eauto|].
    destruct (metadata _ !! workflowID) as [m|] eqn:Hm;
      [exfalso; apply Hnot, Hmeta; eauto|].
    done.
Qed.

End WorkflowFacts.

(** ** The dispatcher *)

Module DiscoveryFacts.
Import Balancer Dispatcher RoundRobinFacts.

(** *** The constructor *)

Lemma validate_spec cfg :
  Validate cfg = None
  ↔ TransportType cfg = "grpc"
    ∧ (LoadBalancerType cfg = "consistent-hash"
       ∨ LoadBalancerType cfg = "round-robin"
       ∨ LoadBalancerType cfg = "least-connections")
    ∧ 0 < GRPCPort cfg ≤ 65535.
Proof.
  unfold Validate.
  destruct (bool_decide_reflect (TransportType cfg = "grpc")) as [Ht|Ht];
    simpl; [|split; [done|by intros [? _]]].
  destruct (bool_decide_reflect (LoadBalancerType cfg = "consistent-hash"))
    as [Hch|Hch];
    destruct (bool_decide_reflect (LoadBalancerType cfg = "round-robin"))
      as [Hrr|Hrr];
    destruct (bool_decide_reflect
                (LoadBalancerType cfg = "least-connections")) as [Hlc|Hlc];
    simpl;
    try (split; [done|by intros (_ & [?|[?|?]] & _)]);
    (destruct (GRPCPort cfg <=? 0) eqn:Hlo; simpl;
     [apply Z.leb_le in Hlo; split; [done|intros (_ & _ & ?); lia]|];
     apply Z.leb_gt in Hlo;
     destruct (65535 <? GRPCPort cfg) eqn:Hhi; simpl;
     [apply Z.ltb_lt in Hhi; split; [done|intros (_ & _ & ?); lia]|];
     apply Z.ltb_ge in Hhi; split; [intros _|done];
     split; [done|]; split; [eauto|lia]).
Qed.

(** X17. [NewOrchestratorV2] returns a dispatcher exactly when the
    transport is [grpc], the balancer type is [consistent-hash] or
    [round-robin], the port lies between 1 and 65535 and the service
    discovery could be created; it returns either a dispatcher or an
    error, never both. The balancer type [least-connections] passes
    [Validate] and is then refused by the constructor. A new dispatcher
    has no engines, no workflows and the execution counter zero. *)
Theorem constructor_accepts (cfg : Config) (discovery : error) :
  (is_Some (NewOrchestratorV2 cfg discovery).1
   ↔ TransportType cfg = "grpc"
     ∧ (LoadBalancerType cfg = "consistent-hash"
        ∨ LoadBalancerType cfg = "round-robin")
     ∧ 0 < GRPCPort cfg ≤ 65535
     ∧ discovery = None)
  ∧ (is_Some (NewOrchestratorV2 cfg discovery).1
     ↔ (NewOrchestratorV2 cfg discovery).2 = None)
  ∧ (LoadBalancerType cfg = "least-connections" →
     TransportType cfg = "grpc" → 0 < GRPCPort cfg ≤ 65535 →
     Validate cfg = None
     ∧ NewOrchestratorV2 cfg discovery
       = (None, Some "unsupported load balancer type: least-connections"))
  ∧ (∀ o, (NewOrchestratorV2 cfg discovery).1 = Some o →
          engines o = ∅ ∧ executionCounter o = 0
          ∧ workflowManager o = Workflows.NewWorkflowManager
          ∧ config o = cfg).
Proof.
  pose proof (validate_spec cfg) as Hvalid.
  unfold NewOrchestratorV2.
  destruct (Validate cfg) as [e|] eqn:HV; simpl.
  { split; [|split; [|split]].
    - split; [by intros [? ?]|]. intros (Ht & Hlb & Hport & _).
      assert (Some e = None) as Hnone; [|done].
      apply Hvalid. split; [done|]. split; [|done].
      destruct Hlb; eauto.
    - split; [by intros [? ?]|done].
    - intros Hlc Ht Hport.
      assert (Some e = None) as Hnone; [|done].
      apply Hvalid. eauto.
    - done. }
  destruct (proj1 Hvalid eq_refl) as (Ht & Hlb & Hport).
  rewrite (bool_decide_eq_true_2 _ Ht). simpl.
  destruct (bool_decide_reflect (LoadBalancerType cfg = "consistent-hash"))
    as [Hch|Hch]; [|destruct (bool_decide_reflect
                       (LoadBalancerType cfg = "round-robin")) as [Hrr|Hrr]].
  - destruct discovery as [d|]; simpl; (split; [|split; [|split]]).
    + split; [by intros [? ?]|]. by intros (_ & _ & _ & ?).
    + split; [by intros [? ?]|done].
    + intros Hlc. by rewrite Hch in Hlc.
    + done.
    + split; [intros _|eauto]. eauto.
    + done.
    + intros Hlc. by rewrite Hch in Hlc.
    + by intros o [= <-].
  - destruct discovery as [d|]; simpl; (split; [|split; [|split]]).
    + split; [by intros [? ?]|]. by intros (_ & _ & _ & ?).
    + split; [by intros [? ?]|done].
    + intros Hlc. by rewrite Hrr in Hlc.
    + done.
    + split; [intros _|eauto]. eauto.
    + done.
    + intros Hlc. by rewrite Hrr in Hlc.
    + by intros o [= <-].
  - simpl. split; [|split; [|split]].
    + split; [by intros [? ?]|]. by intros (_ & [?|?] & _).
    + split; [by intros [? ?]|done].
    + intros Hlc _ _. by rewrite Hlc.
    + done.
Qed.

(** *** The balancer and the table of engines *)

Lemma in_step_same o o' :
  in_step o → engines o' = engines o →
  same_tables (loadBalancer o) (loadBalancer o') → in_step o'.
Proof.
  unfold in_step, same_tables. intros Hstep He.
  destruct (loadBalancer o) as [a|a], (loadBalancer o') as [b|b]; try done.
  - intros [<- <-]. by rewrite He.
  - intros [<- <-]. by rewrite He.
Qed.

Lemma same_tables_refl lb : same_tables lb lb.
Proof. by destruct lb. Qed.

Lemma same_tables_trans lb1 lb2 lb3 :
  same_tables lb1 lb2 → same_tables lb2 lb3 → same_tables lb1 lb3.
Proof.
  destruct lb1, lb2, lb3; simpl; try done; intros [-> ->] [-> ->]; done.
Qed.

Lemma in_step_discovered o engine : in_step o → in_step (discovered o engine).
Proof.
  unfold in_step, discovered.
  destruct (engines o !! ID engine) as [existing|] eqn:Hex; simpl.
  - destruct (loadBalancer o) as [ch|rr]; simpl.
    + intros Hstep. unfold UpdateEngineCapacity.
      destruct (Hstep (ID engine)) as [_ Hcap]. rewrite Hex in Hcap.
      rewrite Hcap. simpl. intros id. rewrite !lookup_insert.
      destruct (decide (ID engine = id)) as [<-|Hne].
      * split; [|done]. destruct (Hstep (ID engine)) as [-> _].
        rewrite Hex. split; eauto.
      * apply Hstep.
    + intros [Hnd Hstep]. unfold rr_UpdateEngineCapacity.
      destruct (Hstep (ID engine)) as [_ Hcap]. rewrite Hex in Hcap.
      rewrite Hcap. simpl. split; [done|]. intros id. rewrite !lookup_insert.
      destruct (decide (ID engine = id)) as [<-|Hne].
      * split; [|done]. destruct (Hstep (ID engine)) as [-> _].
        rewrite Hex. split; eauto.
      * apply Hstep.
  - destruct (loadBalancer o) as [ch|rr]; simpl.
    + intros Hstep id.
      rewrite elem_of_union, elem_of_singleton, !lookup_insert.
      destruct (decide (ID engine = id)) as [<-|Hne].
      * split; [|done]. split; [eauto|by left].
      * destruct (Hstep id) as [<- Hcap]. split; [|done].
        split; [by intros [?|?]|by right].
    + intros [Hnd Hstep]. unfold rr_AddEngine.
      destruct (bool_decide_reflect (ID engine ∈ rr_engines rr))
        as [Hin|Hout].
      { apply Hstep in Hin. rewrite Hex in Hin. by destruct Hin. }
      simpl. split.
      * apply NoDup_app. split; [done|]. split; [|apply NoDup_singleton].
        intros x Hx ->%list_elem_of_singleton. done.
      * intros id.
        rewrite elem_of_app, list_elem_of_singleton, !lookup_insert.
        destruct (decide (ID engine = id)) as [<-|Hne].
        -- split; [|done]. split; [eauto|by right].
        -- destruct (Hstep id) as [<- Hcap]. split; [|done].
           split; [by intros [?|?]|by left].
Qed.

Lemma in_step_forget present o id : in_step o → in_step (forget present o id).
Proof.
  unfold in_step, forget.
  destruct (bool_decide (id ∈ present)); [done|]. simpl.
  destruct (loadBalancer o) as [ch|rr]; simpl.
  - intros Hstep x.
    rewrite elem_of_difference, elem_of_singleton, !lookup_delete.
    destruct (decide (id = x)) as [<-|Hne].
    + split; [|done]. split; [by intros [_ ?]|by intros [? ?]].
    + destruct (Hstep x) as [<- Hcap]. split; [|done].
      split; [by intros [? _]|done].
  - intros [Hnd Hstep]. unfold rr_RemoveEngine.
    destruct (bool_decide_reflect (id ∈ rr_engines rr)) as [Hin|Hout]; simpl.
    + destruct (remove_first_NoDup id _ Hnd) as [Hnd' Hgone].
      split; [done|]. intros x. rewrite !lookup_delete.
      destruct (decide (id = x)) as [<-|Hne].
      * split; [|done]. split; [done|by intros [? ?]].
      * destruct (Hstep x) as [<- Hcap]. split; [|done].
        split; [apply remove_first_elem|by apply remove_first_other].
    + split; [done|]. intros x. rewrite lookup_delete.
      destruct (decide (id = x)) as [<-|Hne]; [|apply Hstep].
      destruct (Hstep id) as [Hdom Hcap].
      destruct (engines o !! id) as [info|] eqn:Hinfo.
      * exfalso. apply Hout, Hdom. eauto.
      * done.
Qed.

Lemma in_step_foldl {A} (f : OrchestratorV2 → A → OrchestratorV2)
    (xs : list A) :
  (∀ o x, in_step o → in_step (f o x)) →
  ∀ o, in_step o → in_step (foldl f o xs).
Proof.
  intros Hf. induction xs as [|x xs IH]; intros o Ho; simpl; [done|].
  by apply IH, Hf.
Qed.

Lemma in_step_onChange o reported : in_step o → in_step (onChange o reported).
Proof.
  intros Ho. unfold onChange.
  apply in_step_foldl; [intros; by apply in_step_forget|].
  apply in_step_foldl; [intros; by apply in_step_discovered|done].
Qed.

(** [ExecuteWorkflow] leaves the table and the engines of the balancer. *)
Lemma select_same_tables w lb key :
  same_tables lb (lb_SelectEngine w lb key).2.
Proof.
  destruct lb as [ch|rr]; simpl.
  - by destruct (bool_decide _).
  - destruct (select_keeps_tables rr key) as (He & Hc & _).
    destruct (rr_SelectEngine rr key) as [r rr']. simpl in *. done.
Qed.

Lemma prepare_keeps w o now workflowID inputs :
  engines (prepare w o now workflowID inputs).2 = engines o
  ∧ same_tables (loadBalancer o)
                (loadBalancer (prepare w o now workflowID inputs).2)
  ∧ workflowManager (prepare w o now workflowID inputs).2
    = workflowManager o.
Proof.
  unfold prepare.
  destruct (negb _); [by split; [|split; [apply same_tables_refl|]]|].
  destruct (Workflows.GetLatestVersion _ _) as [[version [e|]]|msg];
    [by split; [|split; [apply same_tables_refl|]]|
    |by split; [|split; [apply same_tables_refl|]]].
  unfold nextExecutionID.
  pose proof (select_same_tables w (loadBalancer o) workflowID) as Hsel.
  simpl. destruct (lb_SelectEngine w (loadBalancer o) workflowID)
    as [[[engineID [e|]]|msg] lb]; simpl in *; [done| |done].
  destruct (engines o !! engineID) as [info|]; [|done].
  destruct (Workflows.BuildWorkflow _ _) as [def [e|]]; [done|].
  by destruct (Connect w info).
Qed.

Lemma execute_keeps w o now workflowID inputs :
  engines (ExecuteWorkflow w o now workflowID inputs).2 = engines o
  ∧ same_tables (loadBalancer o)
      (loadBalancer (ExecuteWorkflow w o now workflowID inputs).2)
  ∧ workflowManager (ExecuteWorkflow w o now workflowID inputs).2
    = workflowManager o.
Proof.
  unfold ExecuteWorkflow.
  destruct (prepare_keeps w o now workflowID inputs) as (He & Hlb & Hwm).
  destruct (prepare w o now workflowID inputs)
    as [[[resp err|e x v info req]|msg] o2]; simpl in *; [done| |done].
  destruct (loadBalancer o2) as [ch|rr] eqn:Hch; simpl; [|by rewrite Hch].
  assert (same_tables (loadBalancer o)
            (ConsistentHash
               (DecrementActiveWorkflows (IncrementActiveWorkflows ch e) e)))
    as Hsame.
  { eapply same_tables_trans; [done|]. simpl.
    unfold DecrementActiveWorkflows. by destruct (0 <? _). }
  by destruct (conn_ExecuteWorkflow w info req) as [[resp|] [err|]].
Qed.

Lemma in_step_occur w o ev : in_step o → in_step (occur w o ev).
Proof.
  intros Ho. destruct ev as [now wf ver b meta|reported|now wf inputs|now];
    simpl.
  - unfold RegisterWorkflow.
    by destruct (Workflows.RegisterWorkflow _ _ _ _ _ _) as [[err wm]|msg].
  - by apply in_step_onChange.
  - destruct (execute_keeps w o now wf inputs) as (He & Hlb & _).
    by eapply in_step_same.
  - done.
Qed.

Lemma in_step_constructed cfg discovery o :
  NewOrchestratorV2 cfg discovery = (Some o, None) → in_step o.
Proof.
  unfold NewOrchestratorV2. destruct (Validate cfg); [done|].
  destruct (bool_decide (LoadBalancerType cfg = "consistent-hash")).
  - destruct (negb _); [done|]. destruct discovery; [done|].
    intros [= <-]. intros id. cbn. rewrite !lookup_empty.
    split; [|done]. split; [by intros ?%not_elem_of_empty|by intros [? ?]].
  - destruct (bool_decide (LoadBalancerType cfg = "round-robin")); [|done].
    destruct (negb _); [done|]. destruct discovery; [done|].
    intros [= <-]. split; [constructor|]. intros id. cbn.
    rewrite !lookup_empty.
    split; [|done]. split; [by intros ?%elem_of_nil|by intros [? ?]].
Qed.

(** X18. Through the whole life of a dispatcher its balancer stays in
    step with its table of engines: after any registrations, discovery
    updates and executions, [ListEngines] lists exactly the engines of
    the table, each once, and [GetEngineCapacity] returns for each of
    them the capacity the table holds, and the not-found error for every
    other id. *)
Theorem balancer_follows_discovery (w : World) (cfg : Config)
    (discovery : error) (o : OrchestratorV2) (evs : list event)
    (engineID : string) :
  NewOrchestratorV2 cfg discovery = (Some o, None) →
  (engineID ∈ lb_ListEngines (loadBalancer (after w evs o))
   ↔ is_Some (engines (after w evs o) !! engineID))
  ∧ NoDup (lb_ListEngines (loadBalancer (after w evs o)))
  ∧ lb_GetEngineCapacity (loadBalancer (after w evs o)) engineID
    = match engines (after w evs o) !! engineID with
      | Some info => (Capacity info, None)
      | None => (0, Some ("engine " +:+ engineID +:+ " not found"))
      end.
Proof.
  intros Hnew.
  assert (in_step (after w evs o)) as Hstep.
  { unfold after. apply in_step_foldl; [intros; by apply in_step_occur|].
    by eapply in_step_constructed. }
  unfold in_step in Hstep.
  unfold lb_ListEngines, lb_GetEngineCapacity.
  destruct (loadBalancer (after w evs o)) as [ch|rr].
  - destruct (Hstep engineID) as [Hdom Hcap].
    unfold ListEngines, GetEngineCapacity. rewrite Hcap.
    split; [|split].
    + rewrite <- (fmap_is_Some Capacity), <- Hcap, list_elem_of_fmap. split.
      * intros ([k n] & -> & Hkn%elem_of_map_to_list). simpl. eauto.
      * intros [n Hn]. exists (engineID, n). split; [done|].
        by apply elem_of_map_to_list.
    + apply NoDup_fst_map_to_list.
    + by destruct (engines (after w evs o) !! engineID).
  - destruct Hstep as [Hnd Hstep]. destruct (Hstep engineID) as [Hdom Hcap].
    unfold rr_ListEngines, rr_GetEngineCapacity. rewrite Hcap.
    split; [done|]. split; [done|].
    by destruct (engines (after w evs o) !! engineID).
Qed.

Lemma balancer_follows_discovery_witness :
  ("engine-1"
   ∈ lb_ListEngines
       (loadBalancer
          (after Samples.obliging_world Samples.dispatcher_life
             (mkOrchestratorV2 Samples.consistent_hash_config
                Workflows.NewWorkflowManager
                (ConsistentHash (NewConsistentHashLoadBalancer 150)) ∅
                Coordinator.NewSubWorkflowCoordinator 0)))
   ↔ is_Some
       (engines
          (after Samples.obliging_world Samples.dispatcher_life
             (mkOrchestratorV2 Samples.consistent_hash_config
                Workflows.NewWorkflowManager
                (ConsistentHash (NewConsistentHashLoadBalancer 150)) ∅
                Coordinator.NewSubWorkflowCoordinator 0))
        !! "engine-1"))
  ∧ NoDup
      (lb_ListEngines
         (loadBalancer
            (after Samples.obliging_world Samples.dispatcher_life
               (mkOrchestratorV2 Samples.consistent_hash_config
                  Workflows.NewWorkflowManager
                  (ConsistentHash (NewConsistentHashLoadBalancer 150)) ∅
                  Coordinator.NewSubWorkflowCoordinator 0))))
  ∧ lb_GetEngineCapacity
      (loadBalancer
         (after Samples.obliging_world Samples.dispatcher_life
            (mkOrchestratorV2 Samples.consistent_hash_config
               Workflows.NewWorkflowManager
               (ConsistentHash (NewConsistentHashLoadBalancer 150)) ∅
               Coordinator.NewSubWorkflowCoordinator 0))) "engine-1"
    = match
        engines
          (after Samples.obliging_world Samples.dispatcher_life
             (mkOrchestratorV2 Samples.consistent_hash_config
                Workflows.NewWorkflowManager
                (ConsistentHash (NewConsistentHashLoadBalancer 150)) ∅
                Coordinator.NewSubWorkflowCoordinator 0)) !! "engine-1"
      with
      | Some info => (Capacity info, None)
      | None => (0, Some ("engine " +:+ "engine-1" +:+ " not found"))
      end.
Proof.
  apply (balancer_follows_discovery Samples.obliging_world
           Samples.consistent_hash_config None _ Samples.dispatcher_life
           "engine-1").
  reflexivity.
Defined.

(** *** A discovery update *)

Lemma discovered_other o engine id :
  ID engine ≠ id → engines (discovered o engine) !! id = engines o !! id.
Proof.
  intros Hne. unfold discovered.
  destruct (engines o !! ID engine); simpl; by rewrite lookup_insert_ne.
Qed.

Lemma discovered_this o engine :
  ∃ info, engines (discovered o engine) !! ID engine = Some info
          ∧ Address info = Address engine ∧ Port info = Port engine
          ∧ Capacity info = Capacity engine
          ∧ LastSeen info = LastSeen engine.
Proof.
  unfold discovered.
  destruct (engines o !! ID engine) as [existing|]; simpl;
    rewrite lookup_insert_eq; eauto 10.
Qed.

Lemma discovered_all reported : ∀ o id,
  is_Some (engines (foldl discovered o reported) !! id)
  ↔ is_Some (engines o !! id) ∨ id ∈ ID <$> reported.
Proof.
  induction reported as [|engine reported IH]; intros o id; simpl.
  - split; [by left|]. by intros [?|?%elem_of_nil].
  - rewrite IH, elem_of_cons.
    destruct (decide (ID engine = id)) as [<-|Hne].
    + destruct (discovered_this o engine) as (info & -> & _).
      split; [by right; left|eauto].
    + rewrite discovered_other by done. split.
      * intros [?|?]; [by left|by right; right].
      * intros [?|[?|?]]; [by left|done|by right].
Qed.

Lemma discovered_later reported : ∀ o id,
  id ∉ ID <$> reported →
  engines (foldl discovered o reported) !! id = engines o !! id.
Proof.
  induction reported as [|engine reported IH]; intros o id Hid; simpl;
    [done|].
  rewrite fmap_cons, not_elem_of_cons in Hid. destruct Hid as [Hne Hid].
  rewrite IH by done. by apply discovered_other.
Qed.

Lemma forget_table present ks : ∀ o id,
  engines (foldl (forget present) o ks) !! id
  = if bool_decide (id ∈ ks ∧ id ∉ present) then None else engines o !! id.
Proof.
  induction ks as [|k ks IH]; intros o id; simpl.
  - done.
  - rewrite IH. unfold forget.
    destruct (bool_decide_reflect (id ∈ ks ∧ id ∉ present)) as [[H1 H2]|Hno].
    + rewrite bool_decide_eq_true_2; [done|]. split; [by right|done].
    + destruct (bool_decide_reflect (k ∈ present)) as [Hk|Hk]; simpl.
      * destruct (bool_decide_reflect (id ∈ k :: ks ∧ id ∉ present))
          as [[[->|H1]%elem_of_cons H2]|Hno2]; try done.
        exfalso. by apply Hno.
      * rewrite lookup_delete.
        destruct (decide (k = id)) as [<-|Hne].
        -- rewrite bool_decide_eq_true_2; [done|]. split; [by left|done].
        -- rewrite bool_decide_eq_false_2; [done|].
           intros [[->|H1]%elem_of_cons H2]; [done|]. by apply Hno.
Qed.

(** X19. A discovery update replaces the table of engines by what was
    reported: afterwards the table holds exactly the engines whose id
    occurs in the report, whatever it held before, and for each of them
    the address, port, capacity and time last seen of the last entry of
    the report with that id. *)
Theorem discovery_replaces_engine_table (o : OrchestratorV2)
    (reported : list EngineInfo) :
  (∀ id, is_Some (engines (onChange o reported) !! id)
         ↔ id ∈ ID <$> reported)
  ∧ ∀ before engine later,
      reported = (before ++ engine :: later)%list →
      ID engine ∉ ID <$> later →
      ∃ info, engines (onChange o reported) !! ID engine = Some info
              ∧ Address info = Address engine ∧ Port info = Port engine
              ∧ Capacity info = Capacity engine
              ∧ LastSeen info = LastSeen engine.
Proof.
  assert (∀ id, engines (onChange o reported) !! id
                = if bool_decide (id ∈ ID <$> reported)
                  then engines (foldl discovered o reported) !! id
                  else None) as Htable.
  { intros id. unfold onChange. rewrite forget_table.
    destruct (bool_decide_reflect (id ∈ ID <$> reported)) as [Hin|Hout].
    - rewrite bool_decide_eq_false_2; [done|].
      intros [_ Hno]. apply Hno. by apply elem_of_list_to_set.
    - destruct (bool_decide_reflect
                  (id ∈ (map_to_list
                           (engines (foldl discovered o reported))).*1
                   ∧ id ∉ (list_to_set (ID <$> reported) : gset string)))
        as [_|Hno]; [done|].
      destruct (engines (foldl discovered o reported) !! id) as [info|]
        eqn:Hinfo; [|done].
      exfalso. apply Hno. split.
      + apply list_elem_of_fmap. exists (id, info). split; [done|].
        by apply elem_of_map_to_list.
      + by rewrite elem_of_list_to_set. }
  split.
  - intros id. rewrite Htable.
    destruct (bool_decide_reflect (id ∈ ID <$> reported)) as [Hin|Hout].
    + split; [done|]. intros _. apply discovered_all. by right.
    + split; [by intros [? ?]|done].
  - intros before engine later -> Hlast. rewrite Htable.
    rewrite bool_decide_eq_true_2.
    + rewrite foldl_app. simpl. rewrite discovered_later by done.
      apply discovered_this.
    + rewrite fmap_app, fmap_cons, elem_of_app, elem_of_cons. by right; left.
Qed.

End DiscoveryFacts.

Module ExecuteFacts.
Import Balancer Dispatcher DiscoveryFacts WorkflowFacts.

(** *** The workflow manager of a dispatcher *)

Lemma manager_foldl {A} (f : OrchestratorV2 → A → OrchestratorV2)
    (xs : list A) :
  (∀ o x, workflowManager (f o x) = workflowManager o) →
  ∀ o, workflowManager (foldl f o xs) = workflowManager o.
Proof.
  intros Hf. induction xs as [|x xs IH]; intros o; simpl; [done|].
  by rewrite IH, Hf.
Qed.

Lemma manager_onChange o reported :
  workflowManager (onChange o reported) = workflowManager o.
Proof.
  unfold onChange. rewrite !manager_foldl; [done| |].
  - intros o' engine. unfold discovered.
    by destruct (engines o' !! ID engine).
  - intros o' id. unfold forget. by destruct (bool_decide _).
Qed.

Lemma manager_agrees_occur w o ev :
  Workflows.tables_agree (workflowManager o) →
  Workflows.tables_agree (workflowManager (occur w o ev)).
Proof.
  intros Ho. destruct ev as [now wf ver b meta|reported|now wf inputs|now];
    simpl.
  - unfold RegisterWorkflow.
    destruct (Workflows.RegisterWorkflow _ _ _ _ _ _) as [[err wm]|msg]
      eqn:Hreg; [|done].
    simpl. by eapply tables_agree_register.
  - by rewrite manager_onChange.
  - destruct (execute_keeps w o now wf inputs) as (_ & _ & ->). done.
  - done.
Qed.

Lemma manager_agrees_after w evs : ∀ o,
  Workflows.tables_agree (workflowManager o) →
  Workflows.tables_agree (workflowManager (after w evs o)).
Proof.
  induction evs as [|ev evs IH]; intros o Ho; simpl; [done|].
  by apply IH, manager_agrees_occur.
Qed.

Lemma manager_constructed cfg discovery o :
  NewOrchestratorV2 cfg discovery = (Some o, None) →
  workflowManager o = Workflows.NewWorkflowManager.
Proof.
  unfold NewOrchestratorV2. destruct (Validate cfg); [done|].
  destruct (bool_decide (LoadBalancerType cfg = "consistent-hash")).
  - destruct (negb _); [done|]. destruct discovery; [done|].
    by intros [= <-].
  - destruct (bool_decide (LoadBalancerType cfg = "round-robin")); [|done].
    destruct (negb _); [done|]. destruct discovery; [done|].
    by intros [= <-].
Qed.

(** *** The execution counter *)

Lemma prepare_counter w o now workflowID inputs :
  Workflows.tables_agree (workflowManager o) →
  if Workflows.HasWorkflow (workflowManager o) workflowID then
    executionCounter (prepare w o now workflowID inputs).2
    = wrap_int (executionCounter o + 1)
  else
    prepare w o now workflowID inputs
    = (Return (EarlyReturn None
                 (Some ("workflow " +:+ workflowID +:+ " not found"))), o).
Proof.
  intros [[Cvs Clat Cknown Cgreat] Hdom]. unfold prepare.
  destruct (Workflows.HasWorkflow (workflowManager o) workflowID) eqn:Hhas;
    simpl; [|done].
  unfold Workflows.HasWorkflow in Hhas. apply bool_decide_eq_true_1 in Hhas.
  destruct (proj1 (proj1 (Hdom workflowID)) Hhas) as [l Hl].
  destruct (Clat _ _ Hl) as (cur & _ & Hcur & _).
  unfold Workflows.GetLatestVersion, Versions.GetLatestVersion.
  rewrite Hl, Hcur. unfold nextExecutionID. simpl.
  destruct (lb_SelectEngine w (loadBalancer o) workflowID)
    as [[[engineID [e|]]|msg] lb]; simpl; [done| |done].
  destruct (engines o !! engineID) as [info|]; [|done].
  destruct (Workflows.BuildWorkflow _ _) as [def [e|]]; [done|].
  by destruct (Connect w info).
Qed.

Lemma execute_counter w o now workflowID inputs :
  executionCounter (ExecuteWorkflow w o now workflowID inputs).2
  = executionCounter (prepare w o now workflowID inputs).2.
Proof.
  unfold ExecuteWorkflow.
  destruct (prepare w o now workflowID inputs)
    as [[[resp err|e x v info req]|msg] o2]; simpl; [done| |done].
  destruct (loadBalancer o2) as [ch|rr] eqn:Hch; simpl; [|done].
  by destruct (conn_ExecuteWorkflow w info req) as [[resp|] [err|]].
Qed.

(** X20. A call of [ExecuteWorkflow] for a workflow that is not
    registered returns the not-found error and changes nothing. A call
    for a registered workflow always takes an execution id: the counter
    has advanced by one when the call is over, whether it then succeeds,
    fails to find an engine, fails to connect, or panics. *)
Theorem execute_workflow_takes_an_id (w : World) (cfg : Config)
    (discovery : error) (o : OrchestratorV2) (evs : list event) (now : Z)
    (workflowID : string) (inputs : gmap string any) :
  NewOrchestratorV2 cfg discovery = (Some o, None) →
  if Workflows.HasWorkflow (workflowManager (after w evs o)) workflowID then
    executionCounter
      (ExecuteWorkflow w (after w evs o) now workflowID inputs).2
    = wrap_int (executionCounter (after w evs o) + 1)
  else
    ExecuteWorkflow w (after w evs o) now workflowID inputs
    = (Return (None, Some ("workflow " +:+ workflowID +:+ " not found")),
       after w evs o).
Proof.
  intros Hnew.
  assert (Workflows.tables_agree (workflowManager (after w evs o))) as Hwm.
  { apply manager_agrees_after.
    rewrite (manager_constructed _ _ _ Hnew). apply tables_agree_new. }
  pose proof (prepare_counter w (after w evs o) now workflowID inputs Hwm)
    as Hprep.
  destruct (Workflows.HasWorkflow _ workflowID).
  - by rewrite execute_counter.
  - unfold ExecuteWorkflow. by rewrite Hprep.
Qed.

Lemma execute_workflow_takes_an_id_witness :
  if Workflows.HasWorkflow
       (workflowManager
          (after Samples.obliging_world Samples.dispatcher_life
             (mkOrchestratorV2 Samples.consistent_hash_config
                Workflows.NewWorkflowManager
                (ConsistentHash (NewConsistentHashLoadBalancer 150)) ∅
                Coordinator.NewSubWorkflowCoordinator 0))) "wf"
  then
    executionCounter
      (ExecuteWorkflow Samples.obliging_world
         (after Samples.obliging_world Samples.dispatcher_life
            (mkOrchestratorV2 Samples.consistent_hash_config
               Workflows.NewWorkflowManager
               (ConsistentHash (NewConsistentHashLoadBalancer 150)) ∅
               Coordinator.NewSubWorkflowCoordinator 0)) 17 "wf" ∅).2
    = wrap_int
        (executionCounter
           (after Samples.obliging_world Samples.dispatcher_life
              (mkOrchestratorV2 Samples.consistent_hash_config
                 Workflows.NewWorkflowManager
                 (ConsistentHash (NewConsistentHashLoadBalancer 150)) ∅
                 Coordinator.NewSubWorkflowCoordinator 0)) + 1)
  else
    ExecuteWorkflow Samples.obliging_world
      (after Samples.obliging_world Samples.dispatcher_life
         (mkOrchestratorV2 Samples.consistent_hash_config
            Workflows.NewWorkflowManager
            (ConsistentHash (NewConsistentHashLoadBalancer 150)) ∅
            Coordinator.NewSubWorkflowCoordinator 0)) 17 "wf" ∅
    = (Return (None, Some ("workflow " +:+ "wf" +:+ " not found")),
       after Samples.obliging_world Samples.dispatcher_life
         (mkOrchestratorV2 Samples.consistent_hash_config
            Workflows.NewWorkflowManager
            (ConsistentHash (NewConsistentHashLoadBalancer 150)) ∅
            Coordinator.NewSubWorkflowCoordinator 0)).
Proof.
  apply (execute_workflow_takes_an_id Samples.obliging_world
           Samples.consistent_hash_config None _ Samples.dispatcher_life 17
           "wf" ∅).
  reflexivity.
Defined.

(** *** The active counts *)

Lemma active_after_round_trip ch engineID e :
  0 ≤ GetActiveWorkflows ch engineID < int_max →
  GetActiveWorkflows
    (DecrementActiveWorkflows (IncrementActiveWorkflows ch engineID)
                              engineID) e
  = GetActiveWorkflows ch e.
Proof.
  intros Hrange.
  assert (GetActiveWorkflows (IncrementActiveWorkflows ch engineID) engineID
          = GetActiveWorkflows ch engineID + 1) as Hup.
  { unfold IncrementActiveWorkflows, GetActiveWorkflows at 1. simpl.
    rewrite lookup_insert_eq. simpl. apply wrap_int_id.
    unfold int_min, int_max in *. lia. }
  unfold DecrementActiveWorkflows. rewrite Hup.
  replace (0 <? GetActiveWorkflows ch engineID + 1) with true
    by (symmetry; apply Z.ltb_lt; lia).
  unfold GetActiveWorkflows at 1. simpl.
  rewrite lookup_insert.
  destruct (decide (engineID = e)) as [<-|Hne]; simpl.
  - replace (GetActiveWorkflows ch engineID + 1 - 1)
      with (GetActiveWorkflows ch engineID) by lia.
    apply wrap_int_id. unfold int_min, int_max in *. lia.
  - rewrite lookup_insert_ne by done. done.
Qed.

(** X21. A call of [ExecuteWorkflow] that runs alone on a dispatcher with
    a consistent-hash balancer leaves the balancer as it found it: the
    ring and the capacities are not written, and the increment of the
    engine's active count is undone by the deferred decrement on every
    path, so every engine's active count reads as before. *)
Theorem execute_workflow_restores_counts (w : World) (o : OrchestratorV2)
    (ch : ConsistentHashLoadBalancer) (now : Z) (workflowID : string)
    (inputs : gmap string any) :
  loadBalancer o = ConsistentHash ch →
  (∀ e, 0 ≤ GetActiveWorkflows ch e < int_max) →
  ∃ ch',
    loadBalancer (ExecuteWorkflow w o now workflowID inputs).2
    = ConsistentHash ch'
    ∧ hashRing ch' = hashRing ch ∧ capacities ch' = capacities ch
    ∧ ∀ e, GetActiveWorkflows ch' e = GetActiveWorkflows ch e.
Proof.
  intros Hch Hrange.
  assert (loadBalancer (prepare w o now workflowID inputs).2
          = ConsistentHash ch) as Hprep.
  { unfold prepare. destruct (negb _); [done|].
    destruct (Workflows.GetLatestVersion _ _) as [[version [e|]]|msg];
      [done| |done].
    unfold nextExecutionID. simpl. rewrite Hch. simpl.
    destruct (bool_decide _); simpl.
    - done.
    - destruct (ring_Get w (hashRing ch) workflowID) as [engineID [e|]];
        simpl; [done|].
      destruct (engines o !! engineID) as [info|]; [|done].
      destruct (Workflows.BuildWorkflow _ _) as [def [e|]]; [done|].
      by destruct (Connect w info). }
  unfold ExecuteWorkflow.
  destruct (prepare w o now workflowID inputs)
    as [[[resp err|e x v info req]|msg] o2]; simpl in *;
    [by exists ch| |by exists ch].
  rewrite Hprep. simpl.
  exists (DecrementActiveWorkflows (IncrementActiveWorkflows ch e) e).
  split; [by destruct (conn_ExecuteWorkflow w info req) as [[resp|] [err|]]|].
  split; [|split].
  - unfold DecrementActiveWorkflows. by destruct (0 <? _).
  - unfold DecrementActiveWorkflows. by destruct (0 <? _).
  - intros e'. by apply active_after_round_trip.
Qed.

Lemma execute_workflow_restores_counts_witness :
  ∃ ch',
    loadBalancer
      (ExecuteWorkflow Samples.obliging_world Samples.dispatcher_ready 17
                       "wf" ∅).2
    = ConsistentHash ch'
    ∧ hashRing ch' = hashRing Samples.balancer_ready
    ∧ capacities ch' = capacities Samples.balancer_ready
    ∧ ∀ e, GetActiveWorkflows ch' e
           = GetActiveWorkflows Samples.balancer_ready e.
Proof.
  apply (execute_workflow_restores_counts Samples.obliging_world
           Samples.dispatcher_ready Samples.balancer_ready 17 "wf" ∅).
  - reflexivity.
  - intros e. unfold GetActiveWorkflows, Samples.balancer_ready. simpl.
    rewrite lookup_insert.
    destruct (decide ("engine-1" = e)); simpl; [by vm_compute|].
    rewrite lookup_empty. by vm_compute.
Defined.

End ExecuteFacts.

(** ** The scheduler: the lock, the wait group and the end of a run *)

Module RunFacts.
Import DagEngine PreprocessFacts SchedulerFacts.

(** *** Sums and the live goroutines *)

Lemma sum_with_lt (f g : string → nat) l q :
  q ∈ l → (∀ x, x ∈ l → g x ≤ f x)%nat → (g q < f q)%nat →
  (sum_list_with g l < sum_list_with f l)%nat.
Proof.
  induction l as [|x l IH]; [by intros ?%elem_of_nil|].
  intros Hq Hle Hlt. simpl.
  assert (sum_list_with g l ≤ sum_list_with f l)%nat as Hrest.
  { clear IH Hq. induction l as [|y l IH]; simpl; [done|].
    pose proof (Hle y ltac:(by right; left)).
    assert (sum_list_with g l ≤ sum_list_with f l)%nat; [|lia].
    apply IH. intros z [->|Hz]%elem_of_cons; apply Hle;
      [by left|by right; right]. }
  pose proof (Hle x ltac:(by left)) as Hx.
  apply elem_of_cons in Hq as [->|Hq]; [lia|].
  assert (sum_list_with g l < sum_list_with f l)%nat; [|lia].
  apply IH; [done| |done]. intros z Hz. apply Hle. by right.
Qed.

Lemma live_size_same (m : gmap string goroutine) i g g' :
  m !! i = Some g → exited g = false → exited g' = false →
  size (filter (λ kv, exited kv.2 = false) (<[i := g']> m))
  = size (filter (λ kv, exited kv.2 = false) m).
Proof.
  intros Hi Hg Hg'. rewrite map_filter_insert_True by done.
  apply map_size_insert_Some. exists g.
  by apply map_lookup_filter_Some.
Qed.

Lemma live_size_exit (m : gmap string goroutine) i g :
  m !! i = Some g → exited g = false →
  S (size (filter (λ kv, exited kv.2 = false) (<[i := Exited]> m)))
  = size (filter (λ kv, exited kv.2 = false) m).
Proof.
  intros Hi Hg. rewrite map_filter_insert_False by done.
  rewrite map_filter_delete.
  assert (filter (λ kv, exited kv.2 = false) m !! i = Some g) as Hin
    by (by apply map_lookup_filter_Some).
  rewrite map_size_delete_Some by eauto.
  assert (size (filter (λ kv : string * goroutine, exited kv.2 = false) m)
          ≠ 0)%nat; [|lia].
  intros Hz%map_size_empty_iff. by rewrite Hz in Hin.
Qed.

Lemma live_size_new (m : gmap string goroutine) i g' :
  m !! i = None → exited g' = false →
  size (filter (λ kv, exited kv.2 = false) (<[i := g']> m))
  = S (size (filter (λ kv, exited kv.2 = false) m)).
Proof.
  intros Hi Hg'. rewrite map_filter_insert_True by done.
  apply map_size_insert_None. apply map_lookup_filter_None. by left.
Qed.

(** *** The steps of a run, one by one *)

Section run.
Variable e : DAGEngine.
Hypothesis linked : well_linked e.

(** What a step that is taken does, by the place of the goroutine. *)
Lemma step_cases st id st' :
  invariant e st → step st id = Stepped st' →
  ∃ g n, routines st !! id = Some g ∧ nodes st !! id = Some n ∧
    match g with
    | Spawned =>
        st' = set_routine id Executing
                (set_node id (setStatus "RUNNING" n) st)
    | Executing =>
        st' = wg_add (-1)
                (set_routine id Exited
                   (set_node id (setHeld true (setStatus "FAILED" n)) st))
        ∨ ∃ result,
            st' = set_routine id WaitingEngineLock
                    (set_node id
                       (setResult result (setStatus "COMPLETED" n)) st)
    | WaitingEngineLock =>
        engine_mu st = None
        ∧ st' = set_engine_mu (Some id)
                  (set_routine id (Triggering (Children n)) st)
    | Triggering [] =>
        st' = wg_add (-1) (set_routine id Exited (set_engine_mu None st))
    | Triggering (c :: rest) =>
        (nodes st !! c = None ∧ st' = set_routine id (Triggering rest) st)
        ∨ ∃ nc, nodes st !! c = Some nc ∧ routines st !! c = None
                ∧ 1 ≤ ReadyCounter nc ∧ id ≠ c
                ∧ (ReadyCounter nc = 1
                   ∧ st' = set_routine id (Triggering rest)
                             (set_routine c Spawned
                                (wg_add 1
                                   (set_node c (setReadyCounter 0 nc) st)))
                   ∨ ReadyCounter nc ≠ 1
                     ∧ st' = set_routine id (Triggering rest)
                               (set_node c
                                  (setReadyCounter (ReadyCounter nc - 1) nc)
                                  st))
    | Exited => False
    end.
Proof.
  intros Hinv. unfold step.
  destruct (routines st !! id) as [g|] eqn:Hg; [|done].
  destruct (inv_routine _ _ Hinv id) as [n Hn]; [by rewrite Hg|].
  rewrite Hn. intros Hstep. exists g, n. split; [done|]. split; [done|].
  destruct g as [| | |[|c rest]|]; [| | | | |done].
  - destruct (mu_held n); [done|]. by injection Hstep as <-.
  - destruct (mu_held n); [done|].
    destruct (Execute (Task n) (ctx st) None) as [result [err|]];
      injection Hstep as <-; [by left|right; by exists result].
  - destruct (engine_mu st); [done|]. by injection Hstep as <-.
  - by injection Hstep as <-.
  - unfold trigger_child in Hstep.
    destruct (nodes st !! c) as [nc|] eqn:Hc;
      [|left; by injection Hstep as <-].
    destruct (trigger_child_facts e linked _ _ _ _ _ Hinv Hg Hc)
      as (Hne & Hdep & [Hpos Hmax] & Hnone & Hpending & Hmu & _).
    right. exists nc. split; [done|]. split; [done|]. split; [done|].
    split; [done|].
    rewrite Hmu, Hnone in Hstep.
    rewrite wrap_int_id in Hstep by (pose proof int_min_neg; lia).
    rewrite (bool_decide_eq_true_2 _ Hpending), andb_true_r in Hstep.
    destruct (Z.eqb_spec (ReadyCounter nc - 1) 0) as [Hzero|Hnz];
      injection Hstep as <-.
    + left. split; [lia|]. by rewrite Hzero.
    + right. split; [lia|done].
Qed.

(** Every step keeps the books. *)
Lemma step_bookkeeping st id st' :
  invariant e st → bookkeeping st → step st id = Stepped st' →
  bookkeeping st'.
Proof.
  intros Hinv [Hlock Hwg Hwait] Hstep. unfold live in Hwg.
  destruct (step_cases _ _ _ Hinv Hstep) as (g & n & Hg & Hn & Hcase).
  assert (∀ x g', g' ≠ Exited ∨ True →
            (∀ rest, g ≠ Triggering rest) → (∀ rest, g' ≠ Triggering rest) →
            (engine_mu st = Some x
             ↔ ∃ rest, <[id := g']> (routines st) !! x
                       = Some (Triggering rest))) as Hquiet.
  { intros x g' _ Hnot Hnot'. rewrite Hlock, lookup_insert.
    destruct (decide (id = x)) as [<-|]; [|done]. rewrite Hg.
    split; intros [rest [= Heq]]; [by destruct (Hnot rest)|
                                   by destruct (Hnot' rest)]. }
  assert (∀ n' c n0,
            <[id := n']> (nodes st) !! c = Some n0 →
            ∀ g', <[id := g']> (routines st) !! c = None →
            1 ≤ ReadyCounter n0) as Hstill.
  { intros n' c n0 Hn0 g' Hnone.
    rewrite lookup_insert in Hn0. rewrite lookup_insert in Hnone.
    destruct (decide (id = c)); [done|]. by eapply Hwait. }
  destruct g as [| | |[|c rest]|]; [| | | | |done].
  - subst st'. split; simpl.
    + intros x. by apply Hquiet; [right| |].
    + unfold live. simpl. by rewrite (live_size_same _ _ Spawned).
    + intros c n0 Hn0 Hnone. by eapply Hstill.
  - destruct Hcase as [->|[result ->]]; split; simpl.
    + intros x. by apply Hquiet; [right| |].
    + unfold live. simpl.
      pose proof (live_size_exit (routines st) id Executing Hg eq_refl). lia.
    + intros c n0 Hn0 Hnone. by eapply Hstill.
    + intros x. by apply Hquiet; [right| |].
    + unfold live. simpl. by rewrite (live_size_same _ _ Executing).
    + intros c n0 Hn0 Hnone. by eapply Hstill.
  - destruct Hcase as [Hfree ->]. split; simpl.
    + intros x. rewrite lookup_insert.
      destruct (decide (id = x)) as [<-|Hne].
      * split; [eauto|done].
      * split; [by intros [= ?]|].
        intros Hx%Hlock. by rewrite Hfree in Hx.
    + unfold live. simpl. by rewrite (live_size_same _ _ WaitingEngineLock).
    + intros c n0 Hn0 Hnone. rewrite lookup_insert in Hnone.
      destruct (decide (id = c)); [done|]. by eapply Hwait.
  - subst st'. split; simpl.
    + intros x. rewrite lookup_insert.
      destruct (decide (id = x)) as [<-|Hne].
      * split; [done|by intros [? [=]]].
      * split; [done|]. intros Hx%Hlock.
        assert (engine_mu st = Some id) as Hid by (apply Hlock; eauto).
        congruence.
    + unfold live. simpl.
      pose proof (live_size_exit (routines st) id (Triggering []) Hg eq_refl).
      lia.
    + intros c n0 Hn0 Hnone. rewrite lookup_insert in Hnone.
      destruct (decide (id = c)); [done|]. by eapply Hwait.
  - assert (engine_mu st = Some id) as Hid by (apply Hlock; eauto).
    destruct Hcase as [[Hc ->]|(nc & Hc & Hnone & Hpos & Hne & Hcase)].
    + split; simpl.
      * intros x. rewrite lookup_insert.
        destruct (decide (id = x)) as [<-|Hx]; [split; eauto|].
        rewrite Hlock. done.
      * unfold live. simpl.
        by rewrite (live_size_same _ _ (Triggering (c :: rest))).
      * intros c0 n0 Hn0 Hnone. rewrite lookup_insert in Hnone.
        destruct (decide (id = c0)); [done|]. by eapply Hwait.
    + destruct Hcase as [[Hone ->]|[Hmore ->]]; split; simpl.
      * intros x. rewrite !lookup_insert.
        destruct (decide (id = x)) as [<-|Hx]; [split; eauto|].
        destruct (decide (c = x)) as [<-|Hx'].
        -- split; [congruence|by intros [? [=]]].
        -- by rewrite Hlock.
      * unfold live. simpl.
        rewrite (live_size_same _ _ (Triggering (c :: rest)));
          [|by rewrite lookup_insert_ne|done|done].
        rewrite live_size_new by done. lia.
      * intros c0 n0. rewrite !lookup_insert.
        destruct (decide (id = c0)); [done|].
        destruct (decide (c = c0)); [done|]. by apply Hwait.
      * intros x. rewrite !lookup_insert.
        destruct (decide (id = x)) as [<-|Hx]; [split; eauto|].
        by rewrite Hlock.
      * unfold live. simpl.
        by rewrite (live_size_same _ _ (Triggering (c :: rest))).
      * intros c0 n0. rewrite !lookup_insert.
        destruct (decide (id = c0)); [done|].
        destruct (decide (c = c0)) as [<-|].
        -- intros [= <-] _. simpl. lia.
        -- by apply Hwait.
Qed.

(** Every step brings the run nearer to its end. *)
Lemma step_decreases st id st' :
  invariant e st → step st id = Stepped st' →
  (steps_left e st' < steps_left e st)%nat.
Proof.
  intros Hinv Hstep.
  destruct (step_cases _ _ _ Hinv Hstep) as (g & n & Hg & Hn & Hcase).
  pose proof (inv_shape _ _ Hinv id) as Hshape. rewrite Hn in Hshape.
  destruct (Nodes e !! id) as [en|] eqn:Hen; [|done].
  simpl in Hshape. injection Hshape as _ Hkids.
  assert (id ∈ keys e) as Hkey.
  { unfold keys. apply list_elem_of_fmap. exists (id, en).
    split; [done|]. by apply elem_of_map_to_list. }
  assert (∀ g', (remaining en (Some g') < remaining en (Some g))%nat →
            (∀ x, x ≠ id →
                  remaining_of e st' x = remaining_of e st x) →
            routines st' !! id = Some g' →
            (steps_left e st' < steps_left e st)%nat) as Hsum.
  { intros g' Hlt Hother Hg'. apply (sum_with_lt _ _ _ id); [done| |].
    - intros x _. destruct (decide (x = id)) as [->|Hx].
      + unfold remaining_of. rewrite Hen, Hg, Hg'. lia.
      + by rewrite Hother.
    - unfold remaining_of. by rewrite Hen, Hg, Hg'. }
  assert (∀ g' st0, routines st0 = <[id := g']> (routines st) →
            ∀ x, x ≠ id → remaining_of e st0 x = remaining_of e st x)
    as Hlocal.
  { intros g' st0 Hst0 x Hx. unfold remaining_of.
    by rewrite Hst0, lookup_insert_ne. }
  destruct g as [| | |[|c rest]|]; [| | | | |done].
  - subst st'. apply (Hsum Executing); simpl; [lia| |apply lookup_insert_eq].
    by apply (Hlocal Executing).
  - destruct Hcase as [->|[result ->]].
    + apply (Hsum Exited); simpl; [lia| |apply lookup_insert_eq].
      by apply (Hlocal Exited).
    + apply (Hsum WaitingEngineLock); simpl;
        [lia| |apply lookup_insert_eq].
      by apply (Hlocal WaitingEngineLock).
  - destruct Hcase as [_ ->].
    apply (Hsum (Triggering (Children n))); simpl;
      [rewrite Hkids; lia| |apply lookup_insert_eq].
    by apply (Hlocal (Triggering (Children n))).
  - subst st'. apply (Hsum Exited); simpl; [lia| |apply lookup_insert_eq].
    by apply (Hlocal Exited).
  - destruct Hcase as [[Hc ->]|(nc & Hc & Hnone & Hpos & Hne & Hcase)].
    + apply (Hsum (Triggering rest)); simpl;
        [lia| |apply lookup_insert_eq].
      by apply (Hlocal (Triggering rest)).
    + destruct Hcase as [[Hone ->]|[Hmore ->]].
      * apply (Hsum (Triggering rest)); simpl;
          [lia| |apply lookup_insert_eq].
        intros x Hx. unfold remaining_of. simpl.
        rewrite lookup_insert_ne by done. rewrite lookup_insert.
        destruct (decide (c = x)) as [<-|]; [|done].
        rewrite Hnone. by destruct (Nodes e !! c).
      * apply (Hsum (Triggering rest)); simpl;
          [lia| |apply lookup_insert_eq].
        by apply (Hlocal (Triggering rest)).
Qed.

(** Unless every goroutine has returned, one of them can take a step:
    the run does not deadlock. *)
Lemma progress st :
  invariant e st → bookkeeping st → wg st ≠ 0 →
  ∃ id st', step st id = Stepped st'.
Proof.
  intros Hinv [Hlock Hwg Hwait] Hlive.
  assert (∃ id g, routines st !! id = Some g ∧ exited g = false)
    as (id & g & Hg & Halive).
  { destruct (map_choose (live st)) as (id & g & Hin).
    - intros Hempty. rewrite Hempty, map_size_empty in Hwg. done.
    - apply map_lookup_filter_Some in Hin as [? ?]. by exists id, g. }
  assert (∀ h rest, routines st !! h = Some (Triggering rest) →
            ∃ st', step st h = Stepped st') as Hloop.
  { intros h rest Hh.
    destruct (inv_routine _ _ Hinv h) as [nh Hnh]; [by rewrite Hh|].
    unfold step. rewrite Hh.
    destruct rest as [|c rest]; [eauto|]. unfold trigger_child.
    destruct (nodes st !! c) as [nc|] eqn:Hc; [|eauto].
    destruct (trigger_child_facts e linked _ _ _ _ _ Hinv Hh Hc)
      as (_ & _ & _ & Hnone & _ & Hmu & _).
    rewrite Hmu, Hnone. destruct (_ && _); eauto. }
  destruct (engine_mu st) as [h|] eqn:Hmu.
  { destruct (proj1 (Hlock h) eq_refl) as [rest Hh].
    destruct (Hloop _ _ Hh) as [st' Hst']. by exists h, st'. }
  exists id.
  destruct (inv_routine _ _ Hinv id) as [n Hn]; [by rewrite Hg|].
  pose proof (inv_status _ _ Hinv _ _ Hn) as Hst. rewrite Hg in Hst.
  destruct g as [| | |rest|]; [| | | |done].
  - destruct Hst as [_ Hheld]. unfold step. rewrite Hg, Hn, Hheld. eauto.
  - destruct Hst as [_ Hheld]. unfold step. rewrite Hg, Hn, Hheld.
    destruct (Execute (Task n) (ctx st) None) as [result [err|]]; eauto.
  - unfold step. rewrite Hg, Hn, Hmu. eauto.
  - by eapply Hloop.
Qed.

(** From every state of a run the goroutines can be scheduled until the
    wait group is at zero. *)
Lemma completes (k : nat) : ∀ st,
  (steps_left e st ≤ k)%nat → invariant e st → bookkeeping st →
  ∃ more st', exec more st = Stepped st' ∧ wg st' = 0.
Proof.
  induction k as [|k IH]; intros st Hk Hinv Hbook.
  - destruct (decide (wg st = 0)) as [Hz|Hnz]; [by exists [], st|].
    destruct (progress st Hinv Hbook Hnz) as (id & st' & Hstep).
    pose proof (step_decreases _ _ _ Hinv Hstep). lia.
  - destruct (decide (wg st = 0)) as [Hz|Hnz]; [by exists [], st|].
    destruct (progress st Hinv Hbook Hnz) as (id & st' & Hstep).
    pose proof (step_decreases _ _ _ Hinv Hstep) as Hless.
    pose proof (step_invariant e linked st id Hinv) as Hinv'.
    rewrite Hstep in Hinv'.
    pose proof (step_bookkeeping _ _ _ Hinv Hbook Hstep) as Hbook'.
    destruct (IH st' ltac:(lia) Hinv' Hbook') as (more & st2 & Hexec & Hz).
    exists (id :: more), st2. simpl. by rewrite Hstep.
Qed.

(** Along a schedule. *)
Lemma exec_bookkeeping schedule : ∀ st st',
  invariant e st → bookkeeping st → exec schedule st = Stepped st' →
  invariant e st' ∧ bookkeeping st'
  ∧ (length schedule + steps_left e st' ≤ steps_left e st)%nat.
Proof.
  induction schedule as [|id rest IH]; intros st st' Hinv Hbook; simpl.
  - intros [= <-]. split; [done|]. split; [done|lia].
  - destruct (step st id) as [st1| |] eqn:Hstep; [|done|done].
    intros Hexec.
    pose proof (step_decreases _ _ _ Hinv Hstep) as Hless.
    pose proof (step_invariant e linked st id Hinv) as Hinv'.
    rewrite Hstep in Hinv'.
    pose proof (step_bookkeeping _ _ _ Hinv Hbook Hstep) as Hbook'.
    destruct (IH _ _ Hinv' Hbook' Hexec) as (Hi & Hb & Hlen).
    split; [done|]. split; [done|lia].
Qed.

(** *** The state in which a run ends *)

Lemma all_exited st id g :
  bookkeeping st → wg st = 0 → routines st !! id = Some g → g = Exited.
Proof.
  intros [_ Hwg _] Hz Hg. destruct (exited g) eqn:Hlive; [by destruct g|].
  exfalso. rewrite Hz in Hwg.
  assert (live st = ∅) as Hempty by (apply map_size_empty_iff; lia).
  assert (live st !! id = Some g) as Hin
    by (by apply map_lookup_filter_Some).
  by rewrite Hempty in Hin.
Qed.

Lemma sum_with_pos (f : string → nat) l :
  (0 < sum_list_with f l)%nat → ∃ x, x ∈ l ∧ (0 < f x)%nat.
Proof.
  induction l as [|y l IH]; simpl; [lia|]. intros Hpos.
  destruct (decide (0 < f y)%nat) as [Hy|Hy].
  - exists y. split; [by left|done].
  - destruct IH as (x & Hx & Hfx); [lia|]. exists x. split; [by right|done].
Qed.

(** A node that is PENDING when the run is over has a dependency that is
    PENDING or FAILED. *)
Lemma pending_at_the_end st c :
  invariant e st → bookkeeping st → wg st = 0 →
  status_of st c = Some "PENDING" →
  ∃ p, depends_on e c p
       ∧ (status_of st p = Some "PENDING" ∨ status_of st p = Some "FAILED").
Proof.
  intros Hinv Hbook Hz. unfold status_of at 1.
  destruct (nodes st !! c) as [n|] eqn:Hn; [|done]. intros [= Hpending].
  pose proof (inv_status _ _ Hinv _ _ Hn) as Hst.
  assert (routines st !! c = None) as Hnone.
  { destruct (routines st !! c) as [g|] eqn:Hg; [|done].
    rewrite (all_exited _ _ _ Hbook Hz Hg) in Hst. simpl in Hst.
    destruct Hst as [[Hc _]|Hf]; congruence. }
  pose proof (bk_waiting _ Hbook _ _ Hn Hnone) as Hpos.
  rewrite (inv_counter _ _ Hinv _ _ Hn) in Hpos.
  destruct (sum_with_pos (λ p, owed st p c) (remove_dups (Dependencies n)))
    as (p & Hp & Howed); [lia|].
  apply (proj1 (elem_of_remove_dups _ _)) in Hp.
  exists p. split.
  - pose proof (inv_shape _ _ Hinv c) as Hshape. rewrite Hn in Hshape.
    destruct (Nodes e !! c) as [en|] eqn:Hen; [|done].
    simpl in Hshape. injection Hshape as Hdeps _.
    exists en. split; [done|]. by rewrite <- Hdeps.
  - unfold owed in Howed. unfold status_of.
    destruct (nodes st !! p) as [np|] eqn:Hnp; [|simpl in Howed; lia].
    pose proof (inv_status _ _ Hinv _ _ Hnp) as Hstp. simpl.
    destruct (routines st !! p) as [g|] eqn:Hg.
    + rewrite (all_exited _ _ _ Hbook Hz Hg) in Hstp, Howed.
      simpl in Hstp, Howed.
      destruct Hstp as [[Hc _]|Hf]; [|right; by rewrite Hf].
      rewrite bool_decide_eq_true_2 in Howed by done. lia.
    + destruct Hstp as [-> _]. by left.
Qed.

(** In a finite graph, a property that passes from every node to one of
    its dependencies holds on a cycle. *)
Lemma descent_finds_cycle (P : string → Prop) :
  (∀ x, P x → ∃ p, depends_on e x p ∧ P p) →
  ∀ (k : nat) (seen : gset string) x,
    (size (dom (Nodes e) ∖ seen) ≤ k)%nat → P x →
    (∀ s, s ∈ seen → tc (depends_on e) s x) →
    has_cycle e.
Proof.
  intros Hdown.
  induction k as [|k IH]; intros seen x Hsize Hx Hseen;
    (destruct (decide (x ∈ seen)) as [Hin|Hout];
     [exists x; by apply Hseen|]);
    destruct (Hdown x Hx) as (p & Hdep & Hp);
    assert (x ∈ dom (Nodes e) ∖ seen) as Hfresh
      by (apply elem_of_difference; split; [|done];
          destruct Hdep as (n & Hn & _); apply elem_of_dom; eauto).
  - exfalso.
    assert (dom (Nodes e) ∖ seen ≡ ∅) as Hempty
      by (apply size_empty_iff; lia).
    rewrite Hempty in Hfresh. by apply not_elem_of_empty in Hfresh.
  - apply (IH (seen ∪ {[x]}) p); [|done|].
    + assert (dom (Nodes e) ∖ (seen ∪ {[x]}) ⊂ dom (Nodes e) ∖ seen)
        as Hsub.
      { split.
        - intros y [Hy Hn]%elem_of_difference.
          apply elem_of_difference. split; [done|].
          intros Hs. apply Hn, elem_of_union. by left.
        - intros Hsup. specialize (Hsup x Hfresh).
          apply elem_of_difference in Hsup as [_ Hn].
          apply Hn, elem_of_union. right. by apply elem_of_singleton. }
      apply subset_size in Hsub. lia.
    + intros s [Hs| ->%elem_of_singleton]%elem_of_union.
      * eapply tc_r; [by apply Hseen|done].
      * by apply tc_once.
Qed.

End run.

(** *** Runs of a preprocessed graph *)

Lemma bookkeeping_start c e :
  untouched e → bookkeeping (Run_start c e).
Proof.
  intros Hfresh. split.
  - intros id. split; [by intros Hmu; simpl in Hmu|].
    intros [rest Hrest]. rewrite start_routines in Hrest.
    destruct (Nodes e !! id) as [n|]; [|done]. by destruct (is_root n).
  - unfold live. simpl.
    rewrite (map_filter_id (λ kv : string * goroutine, exited kv.2 = false)).
    + by rewrite map_size_fmap.
    + intros i g. rewrite lookup_fmap.
      destruct (filter _ (Nodes e) !! i); [|done]. by intros [= <-].
  - intros id n Hn Hnone. rewrite start_routines in Hnone.
    simpl in Hn. rewrite Hn in Hnone.
    destruct (is_root n) eqn:Hroot; [done|].
    destruct (Hfresh _ _ Hn) as (_ & -> & _).
    unfold is_root in Hroot. destruct (Dependencies n); [done|]. simpl. lia.
Qed.

Lemma steps_left_start c e : steps_left e (Run_start c e) = steps_bound e.
Proof.
  unfold steps_left, steps_bound. apply sum_with_ext. intros id _.
  unfold remaining_of. rewrite start_routines.
  destruct (Nodes e !! id) as [n|]; [|done]. by destruct (is_root n).
Qed.

(** The states of the runs of a graph that was built with [NewNode] and
    [AddNode] and preprocessed. *)
Lemma reachable_state specs order c e' schedule st :
  Forall (λ spec, Z.of_nat (length spec.1.2) ≤ int_max) specs →
  range_order (build specs) order →
  PreprocessDAG_in order (build specs) = (None, e') →
  exec schedule (Run_start c e') = Stepped st →
  well_linked e' ∧ invariant e' st ∧ bookkeeping st
  ∧ (length schedule + steps_left e' st ≤ steps_bound e')%nat.
Proof.
  intros Hlen Horder Hpre Hexec.
  destruct (preprocess_well_linked _ _ _ (fresh_build _ Hlen) Horder Hpre)
    as [Hlinked Huntouched].
  destruct (exec_bookkeeping e' Hlinked schedule _ _
              (invariant_start c e' Hlinked Huntouched)
              (bookkeeping_start c e' Huntouched) Hexec)
    as (Hinv & Hbook & Hsteps).
  rewrite steps_left_start in Hsteps. done.
Qed.

(** X22. In every run, a node is started only after all its dependencies
    have completed: in every state of every run of a preprocessed graph,
    whenever a node has left PENDING, every node it depends on is
    COMPLETED. *)
Theorem nodes_start_after_their_dependencies
    (specs : list (string * list string * Executor)) (order : list string)
    (c : Context) (e' : DAGEngine) (schedule : list string) (st : RunState)
    (child parent : string) :
  Forall (λ spec, Z.of_nat (length spec.1.2) ≤ int_max) specs →
  range_order (build specs) order →
  PreprocessDAG_in order (build specs) = (None, e') →
  exec schedule (Run_start c e') = Stepped st →
  depends_on e' child parent →
  status_of st child ≠ Some "PENDING" →
  status_of st parent = Some "COMPLETED".
Proof.
  intros Hlen Horder Hpre Hexec (ec & Hec & Hp) Hleft.
  destruct (reachable_state _ _ _ _ _ _ Hlen Horder Hpre Hexec)
    as (Hlinked & Hinv & _).
  eapply (launched_after_dependencies e' Hlinked); [done|done|done|].
  destruct (node_of_graph e' _ _ _ Hinv Hec) as (nc & Hnc & _).
  pose proof (inv_status _ _ Hinv _ _ Hnc) as Hst.
  destruct (routines st !! child) as [g|]; [eauto|].
  exfalso. apply Hleft. unfold status_of. rewrite Hnc. simpl.
  by destruct Hst as [-> _].
Qed.

Lemma nodes_start_after_their_dependencies_witness :
  status_of Samples.at_return "a" = Some "COMPLETED".
Proof.
  apply (nodes_start_after_their_dependencies Samples.two_branches_nodes
           (keys Samples.two_branches) Samples.background
           Samples.two_branches_ready
           (Samples.until_failure ++ Samples.until_launch
            ++ Samples.until_return) Samples.at_return "b" "a").
  - repeat constructor; by vm_compute.
  - unfold range_order. reflexivity.
  - by vm_compute.
  - by vm_compute.
  - exists (setChildren [] (NewNode "b" ["a"] Samples.succeeding)).
    split; [by vm_compute|]. simpl. by left.
  - by vm_compute.
Defined.

(** Runs in which some tasks do not return are runs. *)
Lemma step_in_step hangs st id st' :
  step_in hangs st id = Stepped st' → step st id = Stepped st'.
Proof.
  unfold step_in. destruct (routines st !! id) as [[| | | |]|]; try done.
  by destruct (hangs id).
Qed.

Lemma exec_in_exec hangs schedule : ∀ st st',
  exec_in hangs schedule st = Stepped st' → exec schedule st = Stepped st'.
Proof.
  induction schedule as [|id rest IH]; intros st st'; simpl; [done|].
  destruct (step_in hangs st id) as [st1| |] eqn:Hstep; [|done|done].
  rewrite (step_in_step _ _ _ _ Hstep). apply IH.
Qed.

(** A goroutine that is in its task stays there until it takes a step
    itself. *)
Lemma executing_stays e st id st' h :
  well_linked e → invariant e st → step st id = Stepped st' →
  routines st !! h = Some Executing → h ≠ id →
  routines st' !! h = Some Executing.
Proof.
  intros Hlinked Hinv Hstep Hh Hne.
  destruct (step_cases e Hlinked _ _ _ Hinv Hstep)
    as (g & n & Hg & Hn & Hcase).
  destruct g as [| | |[|c rest]|]; [| | | | |done].
  - subst st'. simpl. by rewrite lookup_insert_ne.
  - destruct Hcase as [->|[result ->]]; simpl; by rewrite lookup_insert_ne.
  - destruct Hcase as [_ ->]. simpl. by rewrite lookup_insert_ne.
  - subst st'. simpl. by rewrite lookup_insert_ne.
  - destruct Hcase as [[_ ->]|(nc & Hc & Hnone & _ & _ & Hcase)].
    + simpl. by rewrite lookup_insert_ne.
    + destruct Hcase as [[_ ->]|[_ ->]]; simpl.
      * rewrite lookup_insert_ne by done.
        rewrite lookup_insert_ne; [done|]. intros <-. congruence.
      * by rewrite lookup_insert_ne.
Qed.

Lemma hung_stays e hangs schedule : ∀ st st',
  well_linked e → invariant e st → hung hangs st →
  exec_in hangs schedule st = Stepped st' → hung hangs st'.
Proof.
  induction schedule as [|id rest IH]; intros st st' Hlinked Hinv Hhung;
    simpl.
  - by intros [= <-].
  - destruct (step_in hangs st id) as [st1| |] eqn:Hstep; [|done|done].
    apply IH; [done| |].
    + pose proof (step_invariant e Hlinked st id Hinv) as Hinv'.
      by rewrite (step_in_step _ _ _ _ Hstep) in Hinv'.
    + destruct Hhung as (h & Hh & Hhangs). exists h. split; [|done].
      apply (executing_stays e st id st1 h); try done.
      * by apply (step_in_step hangs).
      * intros <-. unfold step_in in Hstep. by rewrite Hh, Hhangs in Hstep.
Qed.

(** From every state of a run the goroutines can be scheduled until the
    wait group is at zero or one of them is in a task that does not
    return. *)
Lemma completes_or_hangs e hangs (k : nat) : ∀ st,
  well_linked e →
  (steps_left e st ≤ k)%nat → invariant e st → bookkeeping st →
  ∃ more st', exec_in hangs more st = Stepped st'
              ∧ (wg st' = 0 ∨ hung hangs st').
Proof.
  induction k as [|k IH]; intros st Hlinked Hk Hinv Hbook.
  - destruct (decide (wg st = 0)) as [Hz|Hnz]; [exists [], st; by split; [|left]|].
    destruct (progress e Hlinked st Hinv Hbook Hnz) as (id & st' & Hstep).
    pose proof (step_decreases e Hlinked _ _ _ Hinv Hstep). lia.
  - destruct (decide (wg st = 0)) as [Hz|Hnz]; [exists [], st; by split; [|left]|].
    destruct (progress e Hlinked st Hinv Hbook Hnz) as (id & st' & Hstep).
    destruct (step_in hangs st id) as [st1| |] eqn:Hin.
    + pose proof (step_in_step _ _ _ _ Hin) as Hst1.
      rewrite Hstep in Hst1. injection Hst1 as <-.
      pose proof (step_decreases e Hlinked _ _ _ Hinv Hstep) as Hless.
      pose proof (step_invariant e Hlinked st id Hinv) as Hinv'.
      rewrite Hstep in Hinv'.
      pose proof (step_bookkeeping e Hlinked _ _ _ Hinv Hbook Hstep)
        as Hbook'.
      destruct (IH st' Hlinked ltac:(lia) Hinv' Hbook')
        as (more & st2 & Hexec & Hend).
      exists (id :: more), st2. simpl. by rewrite Hin.
    + exists [], st. split; [done|]. right. exists id.
      unfold step_in in Hin.
      destruct (routines st !! id) as [[| | | |]|]; try congruence.
      split; [done|]. destruct (hangs id); [done|congruence].
    + exfalso. unfold step_in in Hin.
      destruct (routines st !! id) as [[| | | |]|]; try congruence.
      destruct (hangs id); congruence.
Qed.

(** X23. [Run] returns unless a task that was started does not return. A
    run of a preprocessed graph takes at most four steps per node and one
    per entry of a children list. As long as the wait group is not at
    zero, some goroutine can take a step or some goroutine is in a task
    that does not return: the scheduler itself does not deadlock. From
    every state of a run the goroutines can be scheduled until the wait
    group is at zero and [Run] returns, or until one of them is in a task
    that does not return; and once a goroutine is in such a task, the
    wait group stays above zero whatever the others do, and [Run] does
    not return. When every task returns, [Run] returns. *)
Theorem run_returns_unless_a_task_hangs
    (specs : list (string * list string * Executor)) (order : list string)
    (c : Context) (e' : DAGEngine) (hangs : string → bool)
    (schedule : list string) (st : RunState) :
  Forall (λ spec, Z.of_nat (length spec.1.2) ≤ int_max) specs →
  range_order (build specs) order →
  PreprocessDAG_in order (build specs) = (None, e') →
  exec_in hangs schedule (Run_start c e') = Stepped st →
  (length schedule ≤ steps_bound e')%nat
  ∧ (Run_result st = None →
     hung hangs st ∨ ∃ id st1, step_in hangs st id = Stepped st1)
  ∧ (∃ more st', exec_in hangs more st = Stepped st'
                 ∧ (Run_result st' = Some None ∨ hung hangs st'))
  ∧ (hung hangs st →
     ∀ more st', exec_in hangs more st = Stepped st' →
                 Run_result st' = None)
  ∧ ((∀ id, hangs id = false) →
     ∃ more st', exec_in hangs more st = Stepped st'
                 ∧ Run_result st' = Some None).
Proof.
  intros Hlen Horder Hpre Hexec.
  destruct (reachable_state _ _ _ _ _ _ Hlen Horder Hpre
              (exec_in_exec _ _ _ _ Hexec))
    as (Hlinked & Hinv & Hbook & Hsteps).
  destruct (completes_or_hangs e' hangs (steps_left e' st) st)
    as (more & st' & Hmore & Hend); [done|done|done|done|].
  split; [lia|]. split; [|split; [|split]].
  - unfold Run_result. destruct (Z.eqb_spec (wg st) 0); [done|].
    intros _.
    destruct (progress e' Hlinked st Hinv Hbook) as (id & st1 & Hstep);
      [done|].
    destruct (step_in hangs st id) as [st2| |] eqn:Hin.
    + right. by exists id, st2.
    + left. exists id. unfold step_in in Hin.
      destruct (routines st !! id) as [[| | | |]|]; try congruence.
      split; [done|]. destruct (hangs id); [done|congruence].
    + exfalso. unfold step_in in Hin.
      destruct (routines st !! id) as [[| | | |]|]; try congruence.
      destruct (hangs id); congruence.
  - exists more, st'. split; [done|].
    destruct Hend as [Hz|Hhung]; [left|by right].
    unfold Run_result. by rewrite Hz.
  - intros Hhung more2 st2 Hmore2.
    pose proof (hung_stays e' hangs more2 st st2 Hlinked Hinv Hhung Hmore2)
      as (h & Hh & _).
    destruct (exec_bookkeeping e' Hlinked more2 st st2 Hinv Hbook
                (exec_in_exec _ _ _ _ Hmore2)) as (_ & Hbook2 & _).
    unfold Run_result. destruct (Z.eqb_spec (wg st2) 0) as [Hz|]; [|done].
    by pose proof (all_exited st2 h Executing Hbook2 Hz Hh).
  - intros Hnone. exists more, st'. split; [done|].
    destruct Hend as [Hz|(h & _ & Hh)]; [|by rewrite Hnone in Hh].
    unfold Run_result. by rewrite Hz.
Qed.

Lemma run_returns_unless_a_task_hangs_witness :
  (length Samples.a_started ≤ steps_bound Samples.two_branches_ready)%nat
  ∧ (Run_result (Samples.state_after Samples.a_started) = None →
     hung Samples.a_hangs (Samples.state_after Samples.a_started)
     ∨ ∃ id st1, step_in Samples.a_hangs
                   (Samples.state_after Samples.a_started) id
                 = Stepped st1)
  ∧ (∃ more st', exec_in Samples.a_hangs more
                   (Samples.state_after Samples.a_started) = Stepped st'
                 ∧ (Run_result st' = Some None ∨ hung Samples.a_hangs st'))
  ∧ (hung Samples.a_hangs (Samples.state_after Samples.a_started) →
     ∀ more st', exec_in Samples.a_hangs more
                   (Samples.state_after Samples.a_started) = Stepped st' →
                 Run_result st' = None)
  ∧ ((∀ id, Samples.a_hangs id = false) →
     ∃ more st', exec_in Samples.a_hangs more
                   (Samples.state_after Samples.a_started) = Stepped st'
                 ∧ Run_result st' = Some None).
Proof.
  apply (run_returns_unless_a_task_hangs Samples.two_branches_nodes
           (keys Samples.two_branches) Samples.background
           Samples.two_branches_ready Samples.a_hangs Samples.a_started
           (Samples.state_after Samples.a_started)).
  - repeat constructor; by vm_compute.
  - unfold range_order. reflexivity.
  - by vm_compute.
  - by vm_compute.
Defined.

(** X24. When [Run] returns, no node is RUNNING: every node is
    COMPLETED, FAILED or still PENDING, and a PENDING node has a
    dependency that is itself PENDING or FAILED. If no node has FAILED
    and the dependencies have no cycle, every node of the graph is
    COMPLETED. *)
Theorem run_ends_with_every_node_settled
    (specs : list (string * list string * Executor)) (order : list string)
    (c : Context) (e' : DAGEngine) (schedule : list string) (st : RunState) :
  Forall (λ spec, Z.of_nat (length spec.1.2) ≤ int_max) specs →
  range_order (build specs) order →
  PreprocessDAG_in order (build specs) = (None, e') →
  exec schedule (Run_start c e') = Stepped st →
  Run_result st = Some None →
  (∀ id, is_Some (Nodes e' !! id) →
         status_of st id = Some "PENDING"
         ∨ status_of st id = Some "COMPLETED"
         ∨ status_of st id = Some "FAILED")
  ∧ (∀ id, status_of st id = Some "PENDING" →
           ∃ p, depends_on e' id p
                ∧ (status_of st p = Some "PENDING"
                   ∨ status_of st p = Some "FAILED"))
  ∧ ((∀ id, status_of st id ≠ Some "FAILED") → ¬ has_cycle e' →
     ∀ id, is_Some (Nodes e' !! id) → status_of st id = Some "COMPLETED").
Proof.
  intros Hlen Horder Hpre Hexec Hret.
  destruct (reachable_state _ _ _ _ _ _ Hlen Horder Hpre Hexec)
    as (Hlinked & Hinv & Hbook & _).
  assert (wg st = 0) as Hz.
  { unfold Run_result in Hret. by destruct (Z.eqb_spec (wg st) 0). }
  assert (∀ id, is_Some (Nodes e' !! id) →
            status_of st id = Some "PENDING"
            ∨ status_of st id = Some "COMPLETED"
            ∨ status_of st id = Some "FAILED") as Hsettled.
  { intros id [en Hen].
    destruct (node_of_graph e' _ _ _ Hinv Hen) as (n & Hn & _).
    pose proof (inv_status _ _ Hinv _ _ Hn) as Hst.
    unfold status_of. rewrite Hn. simpl.
    destruct (routines st !! id) as [g|] eqn:Hg.
    - rewrite (all_exited _ _ _ Hbook Hz Hg) in Hst. simpl in Hst.
      destruct Hst as [[-> _]| ->]; eauto.
    - destruct Hst as [-> _]. eauto. }
  split; [done|]. split.
  - intros id. by apply (pending_at_the_end e').
  - intros Hnofail Hacyclic id Hid.
    destruct (Hsettled id Hid) as [Hpending|[?|Hfailed]];
      [|done|by destruct (Hnofail id)].
    exfalso. apply Hacyclic.
    apply (descent_finds_cycle e'
             (λ x, status_of st x = Some "PENDING")
             ltac:(intros x Hx;
                   destruct (pending_at_the_end e' st x Hinv Hbook Hz Hx)
                     as (p & Hdep & [Hp|Hp]);
                   [by exists p|by destruct (Hnofail p)])
             (size (dom (Nodes e'))) ∅ id); [|done|].
    + apply subseteq_size. intros y [Hy _]%elem_of_difference. done.
    + intros s Hs. by apply not_elem_of_empty in Hs.
Qed.

Lemma run_ends_with_every_node_settled_witness :
  (∀ id, is_Some (Nodes Samples.two_branches_ready !! id) →
         status_of Samples.at_return id = Some "PENDING"
         ∨ status_of Samples.at_return id = Some "COMPLETED"
         ∨ status_of Samples.at_return id = Some "FAILED")
  ∧ (∀ id, status_of Samples.at_return id = Some "PENDING" →
           ∃ p, depends_on Samples.two_branches_ready id p
                ∧ (status_of Samples.at_return p = Some "PENDING"
                   ∨ status_of Samples.at_return p = Some "FAILED"))
  ∧ ((∀ id, status_of Samples.at_return id ≠ Some "FAILED") →
     ¬ has_cycle Samples.two_branches_ready →
     ∀ id, is_Some (Nodes Samples.two_branches_ready !! id) →
           status_of Samples.at_return id = Some "COMPLETED").
Proof.
  apply (run_ends_with_every_node_settled Samples.two_branches_nodes
           (keys Samples.two_branches) Samples.background
           Samples.two_branches_ready
           (Samples.until_failure ++ Samples.until_launch
            ++ Samples.until_return)
           Samples.at_return).
  - repeat constructor; by vm_compute.
  - unfold range_order. reflexivity.
  - by vm_compute.
  - by vm_compute.
  - by vm_compute.
Defined.

End RunFacts.

(** ** PreprocessDAG, once more *)

Module RelinkFacts.
Import DagEngine PreprocessFacts.

Lemma kids_permutation D order1 order2 k :
  order1 ≡ₚ order2 → kids D order1 k ≡ₚ kids D order2 k.
Proof. unfold kids. intros Hperm. by rewrite Hperm. Qed.

(** X25. A successful [PreprocessDAG] rewrites the children lists and
    nothing else. Afterwards the children lists mirror the dependency
    slices: a node occurs in the children of [p] as often as [p] occurs
    in its dependencies, and every child is a node. The order in which
    the range visits the map only permutes the children lists, and so
    does running it again: a second run succeeds, in whatever order it
    visits the map, writes nothing but the children lists, and leaves
    each of them a permutation of what it was; when it visits the map in
    the order of the first run it changes nothing. *)
Theorem preprocess_mirrors_dependencies (e : DAGEngine)
    (order : list string) (e' : DAGEngine) :
  range_order e order →
  PreprocessDAG_in order e = (None, e') →
  (∀ id, is_Some (Nodes e' !! id) ↔ is_Some (Nodes e !! id))
  ∧ (∀ id n', Nodes e' !! id = Some n' →
              ∃ n, Nodes e !! id = Some n ∧ n' = setChildren (Children n') n)
  ∧ (∀ p c np nc, Nodes e' !! p = Some np → Nodes e' !! c = Some nc →
                  count c (Children np) = count p (Dependencies nc))
  ∧ (∀ p np c, Nodes e' !! p = Some np → c ∈ Children np →
               is_Some (Nodes e' !! c))
  ∧ (∀ order2, range_order e' order2 ↔ range_order e order2)
  ∧ ∀ order2, range_order e' order2 →
      ∃ e2, PreprocessDAG_in order2 e = (None, e2)
            ∧ PreprocessDAG_in order2 e' = (None, e2)
            ∧ (order2 = order → e2 = e')
            ∧ (∀ id, is_Some (Nodes e2 !! id) ↔ is_Some (Nodes e' !! id))
            ∧ ∀ id n1 n2, Nodes e' !! id = Some n1 →
                          Nodes e2 !! id = Some n2 →
                          n2 = setChildren (Children n2) n1
                          ∧ Children n1 ≡ₚ Children n2.
Proof.
  intros Horder Hpre.
  destruct (preprocess_result e order e' Horder Hpre) as [Hall Hlook].
  assert (∀ c n, Nodes e' !! c = Some n →
            ∃ n0, Nodes e !! c = Some n0
                  ∧ n = setChildren (kids (deps_of e) order c) n0
                  ∧ Dependencies n = deps_of e c) as Hback.
  { intros c n. rewrite Hlook. unfold deps_of.
    destruct (Nodes e !! c) as [n0|]; [|done].
    intros [= <-]. by exists n0. }
  assert (NoDup (keys e) ∧ NoDup (keys e')) as [Hkeys Hkeys']
    by (split; apply NoDup_fst_map_to_list).
  assert (∀ c, c ∈ keys e' ↔ c ∈ keys e) as Hsame.
  { intros c. rewrite (range_order_elem e' (keys e') c)
      by (unfold range_order; reflexivity).
    rewrite (range_order_elem e (keys e) c)
      by (unfold range_order; reflexivity).
    by rewrite Hlook, fmap_is_Some. }
  split; [|split; [|split; [|split; [|split]]]].
  - intros id. rewrite Hlook. by rewrite fmap_is_Some.
  - intros id n' Hn'. destruct (Hback _ _ Hn') as (n0 & Hn0 & -> & _).
    by exists n0.
  - intros p c np nc Hnp Hnc.
    destruct (Hback _ _ Hnp) as (p0 & Hp0 & -> & _).
    destruct (Hback _ _ Hnc) as (c0 & Hc0 & _ & ->).
    simpl. rewrite count_kids.
    rewrite (count_NoDup c order); [lia|by eapply range_order_NoDup|].
    apply (range_order_elem e); eauto.
  - intros p np c Hnp Hc.
    destruct (Hback _ _ Hnp) as (p0 & Hp0 & -> & _).
    simpl in Hc. apply elem_of_kids in Hc.
    rewrite Hlook, fmap_is_Some. by apply (range_order_elem e order).
  - intros order2. unfold range_order. split; intros ->.
    + apply NoDup_Permutation; [apply Hkeys'|apply Hkeys|].
      intros c. by rewrite Hsame.
    + apply NoDup_Permutation; [apply Hkeys|apply Hkeys'|].
      intros c. by rewrite Hsame.
  - intros order2 Horder2'.
    assert (range_order e order2) as Horder2.
    { unfold range_order in *. rewrite Horder2'.
      apply NoDup_Permutation; [apply Hkeys'|apply Hkeys|].
      intros c. by rewrite Hsame. }
    assert (PreprocessDAG_in order2 e' = PreprocessDAG_in order2 e) as Hagain.
    { unfold PreprocessDAG_in.
      replace (setChildren [] <$> Nodes e') with (setChildren [] <$> Nodes e);
        [done|].
      apply map_eq. intros k. rewrite !lookup_fmap, Hlook.
      by destruct (Nodes e !! k). }
    rewrite Hagain.
    destruct (PreprocessDAG_in order2 e) as [[err|] e2] eqn:Hpre2.
    + exfalso.
      assert (is_Some (PreprocessDAG_in order2 e).1) as Herr
        by (rewrite Hpre2; eauto).
      apply (preprocess_error_iff e order2 Horder2) in Herr.
      apply (preprocess_error_iff e order Horder) in Herr.
      rewrite Hpre in Herr. by destruct Herr.
    + exists e2. split; [done|]. split; [done|].
      destruct (preprocess_result e order2 e2 Horder2 Hpre2) as [_ Hlook2].
      split; [|split].
      * intros ->. rewrite Hpre in Hpre2. by injection Hpre2 as ->.
      * intros id. by rewrite Hlook, Hlook2, !fmap_is_Some.
      * intros id n1 n2. rewrite Hlook, Hlook2.
        destruct (Nodes e !! id) as [n0|]; [|done].
        intros [= <-] [= <-]. simpl. split; [by destruct n0|].
        apply kids_permutation.
        unfold range_order in *. by rewrite Horder, Horder2.
Qed.

Lemma preprocess_mirrors_dependencies_witness :
  (∀ id, is_Some (Nodes Samples.two_branches_ready !! id)
         ↔ is_Some (Nodes Samples.two_branches !! id))
  ∧ (∀ id n', Nodes Samples.two_branches_ready !! id = Some n' →
              ∃ n, Nodes Samples.two_branches !! id = Some n
                   ∧ n' = setChildren (Children n') n)
  ∧ (∀ p c np nc, Nodes Samples.two_branches_ready !! p = Some np →
                  Nodes Samples.two_branches_ready !! c = Some nc →
                  count c (Children np) = count p (Dependencies nc))
  ∧ (∀ p np c, Nodes Samples.two_branches_ready !! p = Some np →
               c ∈ Children np →
               is_Some (Nodes Samples.two_branches_ready !! c))
  ∧ (∀ order2, range_order Samples.two_branches_ready order2
               ↔ range_order Samples.two_branches order2)
  ∧ ∀ order2, range_order Samples.two_branches_ready order2 →
      ∃ e2, PreprocessDAG_in order2 Samples.two_branches = (None, e2)
            ∧ PreprocessDAG_in order2 Samples.two_branches_ready = (None, e2)
            ∧ (order2 = keys Samples.two_branches →
               e2 = Samples.two_branches_ready)
            ∧ (∀ id, is_Some (Nodes e2 !! id)
                     ↔ is_Some (Nodes Samples.two_branches_ready !! id))
            ∧ ∀ id n1 n2, Nodes Samples.two_branches_ready !! id = Some n1 →
                          Nodes e2 !! id = Some n2 →
                          n2 = setChildren (Children n2) n1
                          ∧ Children n1 ≡ₚ Children n2.
Proof.
  apply (preprocess_mirrors_dependencies Samples.two_branches
           (keys Samples.two_branches) Samples.two_branches_ready).
  - unfold range_order. reflexivity.
  - by vm_compute.
Defined.

End RelinkFacts.

(** ** buildDAGEngineFromDefinition *)

Module BuilderFacts.
Import Versions DagEngine Builder PreprocessFacts.

Lemma first_with_none id nodeDefs :
  first_with id nodeDefs = None ↔ id ∉ NodeID <$> nodeDefs.
Proof.
  induction nodeDefs as [|nd rest IH]; simpl.
  - split; [intros _ ?%elem_of_nil; done|done].
  - rewrite not_elem_of_cons.
    destruct (bool_decide_reflect (NodeID nd = id)) as [Heq|Hne].
    + split; [done|]. by intros [? _].
    + rewrite IH. split; [by intros ?; split|by intros [_ ?]].
Qed.

Lemma first_with_some id nodeDefs nd :
  first_with id nodeDefs = Some nd → nd ∈ nodeDefs ∧ NodeID nd = id.
Proof.
  induction nodeDefs as [|x rest IH]; simpl; [done|].
  destruct (bool_decide_reflect (NodeID x = id)) as [Heq|Hne].
  - intros [= <-]. split; [by left|done].
  - intros [Hin Hid]%IH. split; [by right|done].
Qed.

(** The loop, when every executor is a Lua executor. *)
Lemma add_definitions_lua DoString nodeDefs : ∀ engine,
  (∀ nd, nd ∈ nodeDefs → ExecutorType nd = "lua") →
  (add_definitions DoString nodeDefs engine).1 = None
  ∧ ∀ id,
      Nodes (add_definitions DoString nodeDefs engine).2 !! id
      = match Nodes engine !! id with
        | Some n => Some n
        | None =>
            (λ nd, NewNode (NodeID nd) (Versions.Dependencies nd)
                     (LuaExecutor DoString (ExecutorCode nd)))
              <$> first_with id nodeDefs
        end.
Proof.
  induction nodeDefs as [|nd rest IH]; intros engine Hlua; simpl.
  - split; [done|]. intros id. by destruct (Nodes engine !! id).
  - rewrite bool_decide_eq_true_2 by (apply Hlua; by left).
    destruct (IH (AddNode engine
                    (NewNode (NodeID nd) (Versions.Dependencies nd)
                       (LuaExecutor DoString (ExecutorCode nd)))).2)
      as [Herr Hlook]; [intros x Hx; apply Hlua; by right|].
    split; [done|]. intros id. rewrite Hlook. unfold AddNode. simpl.
    destruct (Nodes engine !! NodeID nd) as [old|] eqn:Hold; simpl.
    + destruct (Nodes engine !! id) as [n|] eqn:Hn; [done|].
      destruct (bool_decide_reflect (NodeID nd = id)) as [Heq|Hne]; [|done].
      congruence.
    + rewrite lookup_insert.
      destruct (decide (NodeID nd = id)) as [Heq|Hne].
      * rewrite <- Heq, Hold. by rewrite bool_decide_eq_true_2.
      * rewrite bool_decide_eq_false_2 by done. done.
Qed.

(** The loop, up to the first executor that is not a Lua executor. *)
Lemma add_definitions_other DoString before nd after : ∀ engine,
  (∀ x, x ∈ before → ExecutorType x = "lua") →
  ExecutorType nd ≠ "lua" →
  (add_definitions DoString (before ++ nd :: after) engine).1
  = Some (if bool_decide (ExecutorType nd = "shell")
          then "shell executor not yet implemented"
          else "unsupported executor type: " +:+ ExecutorType nd).
Proof.
  induction before as [|x before IH]; intros engine Hlua Hother; simpl.
  - rewrite bool_decide_eq_false_2 by done.
    by destruct (bool_decide (ExecutorType nd = "shell")).
  - rewrite bool_decide_eq_true_2 by (apply Hlua; by left).
    apply IH; [|done]. intros y Hy. apply Hlua. by right.
Qed.

Lemma not_all_lua (nodeDefs : list NodeDefinition) :
  ¬ (∀ nd, nd ∈ nodeDefs → ExecutorType nd = "lua") →
  ∃ before nd after,
    nodeDefs = (before ++ nd :: after)%list
    ∧ (∀ x, x ∈ before → ExecutorType x = "lua")
    ∧ ExecutorType nd ≠ "lua".
Proof.
  induction nodeDefs as [|x rest IH]; intros Hnot.
  - exfalso. apply Hnot. by intros nd ?%elem_of_nil.
  - destruct (decide (ExecutorType x = "lua")) as [Hx|Hx].
    + destruct IH as (before & nd & after & -> & Hlua & Hother).
      * intros Hall. apply Hnot. intros nd [->|Hin]%elem_of_cons; eauto.
      * exists (x :: before), nd, after. split; [done|]. split; [|done].
        intros y [->|Hy]%elem_of_cons; eauto.
    + exists [], x, rest. split; [done|]. split; [|done].
      by intros y ?%elem_of_nil.
Qed.

(** X26. [buildDAGEngineFromDefinition] returns an engine exactly when
    every node has the executor type [lua] and every dependency of the
    first definition of each node id names a node id of the definition;
    a cycle among the dependencies does not stop it. The first node with
    another executor type decides the error; [shell] is refused as not
    yet implemented. Of several definitions with one id the first one is
    kept and the others are dropped without an error. Every node of the
    engine is PENDING, with its counter at the number of its
    dependencies. *)
Theorem build_engine_from_definition (DoString : string → error)
    (order : list string) (def : WorkflowDefinition) :
  range_order (filled DoString def) order →
  (is_Some (buildDAGEngineFromDefinition DoString order def).1
   ↔ (buildDAGEngineFromDefinition DoString order def).2 = None)
  ∧ (is_Some (buildDAGEngineFromDefinition DoString order def).1
     ↔ (∀ nd, nd ∈ def_Nodes def → ExecutorType nd = "lua")
       ∧ ∀ id nd dep, first_with id (def_Nodes def) = Some nd →
                      dep ∈ Versions.Dependencies nd →
                      dep ∈ NodeID <$> def_Nodes def)
  ∧ (∀ before nd after,
       def_Nodes def = (before ++ nd :: after)%list →
       (∀ x, x ∈ before → ExecutorType x = "lua") →
       ExecutorType nd ≠ "lua" →
       buildDAGEngineFromDefinition DoString order def
       = (None,
          Some (if bool_decide (ExecutorType nd = "shell")
                then "shell executor not yet implemented"
                else "unsupported executor type: " +:+ ExecutorType nd)))
  ∧ ∀ engine,
      (buildDAGEngineFromDefinition DoString order def).1 = Some engine →
      ∀ id,
        (λ n, (ID n, DagEngine.Dependencies n, Status n, ReadyCounter n))
          <$> Nodes engine !! id
        = (λ nd, (NodeID nd, Versions.Dependencies nd, "PENDING",
                  Z.of_nat (length (Versions.Dependencies nd))))
            <$> first_with id (def_Nodes def).
Proof.
  intros Horder. unfold buildDAGEngineFromDefinition, filled in *.
  assert (∀ before nd after,
            def_Nodes def = (before ++ nd :: after)%list →
            (∀ x, x ∈ before → ExecutorType x = "lua") →
            ExecutorType nd ≠ "lua" →
            ∃ engine,
              add_definitions DoString (def_Nodes def) NewDAGEngine
              = (Some (if bool_decide (ExecutorType nd = "shell")
                       then "shell executor not yet implemented"
                       else "unsupported executor type: "
                            +:+ ExecutorType nd), engine)) as Hother.
  { intros before nd after Hdef Hlua Hnd.
    pose proof (add_definitions_other DoString before nd after NewDAGEngine
                  Hlua Hnd) as Herr.
    rewrite <- Hdef in Herr.
    destruct (add_definitions _ _ _) as [err engine]. simpl in Herr.
    exists engine. by rewrite Herr. }
  destruct (decide (Forall (λ nd, ExecutorType nd = "lua") (def_Nodes def)))
    as [Hlua|Hnot]; rewrite Forall_forall in *.
  2:{ destruct (not_all_lua _ Hnot) as (before & nd & after & Hdef & Hl & Hn).
      destruct (Hother _ _ _ Hdef Hl Hn) as [engine Hadd].
      rewrite Hadd. simpl. split; [|split; [|split]].
      - split; [by intros [? ?]|done].
      - split; [by intros [? ?]|]. by intros [? _].
      - intros before' nd' after' Hdef' Hl' Hn'.
        destruct (Hother _ _ _ Hdef' Hl' Hn') as [engine' Hadd'].
        rewrite Hadd in Hadd'. by injection Hadd' as -> _.
      - done. }
  destruct (add_definitions_lua DoString (def_Nodes def) NewDAGEngine Hlua)
    as [Herr Hlook].
  destruct (add_definitions DoString (def_Nodes def) NewDAGEngine)
    as [err engine] eqn:Hadd.
  simpl in Herr, Hlook, Horder. subst err.
  assert (∀ id, Nodes engine !! id
                = (λ nd, NewNode (NodeID nd) (Versions.Dependencies nd)
                           (LuaExecutor DoString (ExecutorCode nd)))
                    <$> first_with id (def_Nodes def)) as Hnodes.
  { intros id. rewrite Hlook. simpl. by rewrite lookup_empty. }
  assert (¬ dangling engine
          ↔ ∀ id nd dep, first_with id (def_Nodes def) = Some nd →
                         dep ∈ Versions.Dependencies nd →
                         dep ∈ NodeID <$> def_Nodes def) as Hdangling.
  { unfold dangling, depends_on. split.
    - intros Hnot id nd dep Hfirst Hdep.
      destruct (decide (dep ∈ NodeID <$> def_Nodes def)) as [|Hout]; [done|].
      exfalso. apply Hnot. exists id, dep. split.
      + eexists. rewrite Hnodes, Hfirst. split; [done|]. done.
      + rewrite Hnodes. apply fmap_None. by apply first_with_none.
    - intros Hall (c & p & (n & Hn & Hp) & Hnone).
      rewrite Hnodes in Hn, Hnone.
      destruct (first_with c (def_Nodes def)) as [nd|] eqn:Hc; [|done].
      injection Hn as <-. simpl in Hp.
      apply fmap_None in Hnone. apply first_with_none in Hnone.
      apply Hnone. by eapply Hall. }
  pose proof (preprocess_error_iff engine order Horder) as Hiff.
  destruct (PreprocessDAG_in order engine) as [[err|] engine'] eqn:Hpre;
    simpl in *.
  - split; [|split; [|split]].
    + split; [by intros [? ?]|done].
    + split; [by intros [? ?]|]. intros [_ Hall].
      apply Hdangling in Hall. exfalso. apply Hall, Hiff. eauto.
    + intros before nd after Hdef Hl Hn. exfalso. apply Hn, Hlua.
      rewrite Hdef. apply elem_of_app. right. by left.
    + done.
  - split; [|split; [|split]].
    + split; eauto.
    + split; [|eauto]. intros _. split; [done|].
      apply Hdangling. intros Hd. apply Hiff in Hd as [? ?]. done.
    + intros before nd after Hdef Hl Hn. exfalso. apply Hn, Hlua.
      rewrite Hdef. apply elem_of_app. right. by left.
    + intros ? [= <-] id.
      destruct (preprocess_result engine order engine' Horder Hpre)
        as [_ Hres].
      rewrite Hres, Hnodes.
      by destruct (first_with id (def_Nodes def)).
Qed.

Lemma build_engine_from_definition_witness :
  (is_Some (buildDAGEngineFromDefinition Samples.lua_ok
       (keys (filled Samples.lua_ok Samples.two_definitions))
       Samples.two_definitions).1
   ↔ (buildDAGEngineFromDefinition Samples.lua_ok
       (keys (filled Samples.lua_ok Samples.two_definitions))
       Samples.two_definitions).2 = None)
  ∧ (is_Some (buildDAGEngineFromDefinition Samples.lua_ok
       (keys (filled Samples.lua_ok Samples.two_definitions))
       Samples.two_definitions).1
     ↔ (∀ nd, nd ∈ def_Nodes Samples.two_definitions → ExecutorType nd = "lua")
       ∧ ∀ id nd dep, first_with id (def_Nodes Samples.two_definitions) = Some nd →
                      dep ∈ Versions.Dependencies nd →
                      dep ∈ NodeID <$> def_Nodes Samples.two_definitions)
  ∧ (∀ before nd after,
       def_Nodes Samples.two_definitions = (before ++ nd :: after)%list →
       (∀ x, x ∈ before → ExecutorType x = "lua") →
       ExecutorType nd ≠ "lua" →
       buildDAGEngineFromDefinition Samples.lua_ok
       (keys (filled Samples.lua_ok Samples.two_definitions))
       Samples.two_definitions
       = (None,
          Some (if bool_decide (ExecutorType nd = "shell")
                then "shell executor not yet implemented"
                else "unsupported executor type: " +:+ ExecutorType nd)))
  ∧ ∀ engine,
      (buildDAGEngineFromDefinition Samples.lua_ok
       (keys (filled Samples.lua_ok Samples.two_definitions))
       Samples.two_definitions).1 = Some engine →
      ∀ id,
        (λ n, (ID n, DagEngine.Dependencies n, Status n, ReadyCounter n))
          <$> Nodes engine !! id
        = (λ nd, (NodeID nd, Versions.Dependencies nd, "PENDING",
                  Z.of_nat (length (Versions.Dependencies nd))))
            <$> first_with id (def_Nodes Samples.two_definitions).
Proof.
  apply (build_engine_from_definition Samples.lua_ok
           (keys (filled Samples.lua_ok Samples.two_definitions))
           Samples.two_definitions).
  unfold range_order. reflexivity.
Defined.

End BuilderFacts.

(** ** The sub-workflow coordinator over its sections *)

Module TrackingFacts.
Import Coordinator.

Lemma started_app p hist1 hist2 :
  started p (hist1 ++ hist2) = (started p hist1 ++ started p hist2)%list.
Proof.
  induction hist1 as [|sec rest IH]; simpl; [done|].
  destruct (created sec) as [exec|]; [|done].
  destruct (bool_decide _); [|done]. by rewrite IH.
Qed.

Lemma tracked_write hist s f exec :
  (∀ x, same_call (f x) x) →
  (∀ x, known_status x → known_status (f x)) →
  tracked hist s → tracked hist (write f exec s).
Proof.
  intros Hsame Hknown [Hc Ha]. split; [done|].
  intros id. specialize (Ha id).
  destruct (last_created id hist) as [y|]; [|done].
  destruct Ha as (ptr & x & Hptr & Hx & Hxy & Hst).
  destruct (decide (ptr = exec)) as [->|Hne].
  - exists exec, (f x). simpl. split; [done|]. split.
    + by rewrite list_lookup_alter_eq, Hx.
    + split; [|by apply Hknown].
      destruct (Hsame x) as (? & ? & ? & ? & ? & ?).
      destruct Hxy as (? & ? & ? & ? & ? & ?).
      unfold same_call. repeat split; congruence.
  - exists ptr, x. simpl. split; [done|]. split; [|done].
    by rewrite list_lookup_alter_ne.
Qed.

Ltac known := unfold known_status; simpl; repeat constructor.

Lemma tracked_occur hist s sec :
  tracked hist s → tracked (hist ++ [sec]) (occur s sec).
Proof.
  intros Htr.
  assert (created sec = None →
          tracked hist (occur s sec) → tracked (hist ++ [sec]) (occur s sec))
    as Hquiet.
  { intros Hnone [Hc Ha]. split.
    - intros p. rewrite Hc, started_app. simpl. rewrite Hnone.
      by rewrite app_nil_r.
    - intros id. specialize (Ha id). unfold last_created in *.
      rewrite foldl_app. simpl. by rewrite Hnone. }
  destruct sec as [nanos start sub ver pwf pex|exec|exec [err|] outputs
                  |exec now|exec].
  - destruct Htr as [Hc Ha]. split.
    + intros p. rewrite started_app. simpl. rewrite <- Hc.
      unfold GetChildrenExecutions. simpl.
      destruct (decide (pex = p)) as [->|Hne].
      * rewrite lookup_insert_eq, bool_decide_eq_true_2 by done.
        by destruct (children s !! p).
      * rewrite lookup_insert_ne, bool_decide_eq_false_2 by done.
        by rewrite app_nil_r.
    + intros id. specialize (Ha id). unfold last_created in *.
      rewrite foldl_app. simpl.
      destruct (decide (pex +:+ "-sub-" +:+ fmt_d nanos = id)) as [<-|Hne].
      * rewrite bool_decide_eq_true_2 by done.
        eexists (length (heap s)), _. rewrite lookup_insert_eq.
        split; [done|]. split.
        { rewrite lookup_app_r by done. by rewrite Nat.sub_diag. }
        split; [done|known].
      * rewrite bool_decide_eq_false_2 by done.
        rewrite lookup_insert_ne by done.
        match goal with |- match ?f with _ => _ end => destruct f as [y|] end;
          [|done].
        destruct Ha as (ptr & x & Hptr & Hx & Hxy & Hst).
        exists ptr, x. split; [done|]. split; [|done].
        rewrite lookup_app_l; [done|]. by eapply lookup_lt_Some.
  - apply Hquiet; [done|]. apply tracked_write; [done| |done]. intros; known.
  - apply Hquiet; [done|]. apply tracked_write; [done| |done]. intros; known.
  - apply Hquiet; [done|]. apply tracked_write; [done| |done]. intros; known.
  - apply Hquiet; [done|]. by apply tracked_write.
  - apply Hquiet; [done|]. apply tracked_write; [done| |done]. intros; known.
Qed.

Lemma tracked_after hist : tracked hist (after hist).
Proof.
  unfold after. induction hist as [|sec hist IH] using rev_ind.
  - by split.
  - rewrite foldl_app. simpl. by apply tracked_occur.
Qed.

(** X27. Whatever the coordinator has done (calls of
    [ExecuteSubWorkflow], the writes of their goroutines and of
    [CancelChildren], in any order), [GetChildrenExecutions] returns for
    each parent the ids that [ExecuteSubWorkflow] returned for it, in the
    order of the calls, an id as often as it was returned. A record is
    never removed: [GetSubWorkflowStatus] finds every id that was ever
    returned, with the sub-workflow, parent and start time of the last call
    that returned it and one of the five statuses, and it fails with the
    not found error exactly on the other ids. *)
Theorem children_are_tracked (hist : list section) :
  (∀ p, GetChildrenExecutions (after hist) p = started p hist)
  ∧ ∀ id,
      match last_created id hist with
      | Some y =>
          ∃ x, GetSubWorkflowStatus (after hist) id = (Some x, None)
               ∧ same_call x y ∧ known_status x
      | None =>
          GetSubWorkflowStatus (after hist) id
          = (None, Some ("sub-workflow " +:+ id +:+ " not found"))
      end.
Proof.
  destruct (tracked_after hist) as [Hc Ha]. split; [done|].
  intros id. specialize (Ha id). unfold GetSubWorkflowStatus.
  destruct (last_created id hist) as [y|].
  - destruct Ha as (exec & x & -> & Hx & Hxy & Hst). exists x.
    by rewrite Hx.
  - by rewrite Ha.
Qed.

End TrackingFacts.
